(* ===== verification/_CoqProject ===== *)
-Q . S2P
Prelude.v
Scroll.v
Bindings.v
Container.v
ArrayVec.v
Memory.v
Kernel.v
VM.v
Printing.v
Files.v
Image.v
MachConstants.v
MachOImage.v
ExportsTrie.v
Dylib.v
SharedCache.v
Fixups.v
FixupTables.v
Binding.v
Loader.v
Parsed.v
WellFormed.v
Finalize.v
Program.v
Linking.v
Whole.v
Total.v
Entrypoint.v
Startup.v
Allocator.v
Reuse.v
PtrAuth.v
