(* ===== verification/Prelude.v ===== *)
(** * dynld, a dynamic linker for arm64 macOS: a verification development

    The kernel starts [dynld] with its own image and the program's. It rebases
    itself ([src/main.rs]), attaches the dyld shared cache that the system has
    mapped ([src/dyld_shared_cache.rs]), parses the program and the dylibs it
    brings ([src/loader.rs], [src/macho_image.rs]), maps their segments, applies
    their chained fixups ([src/fixups.rs]) against the exports tries of the cache
    and of the dylibs ([src/dylib.rs]), and jumps ([src/entrypoint.rs]). It has no
    C library: system calls, memory, printing and the allocator are its own
    ([src/syscalls.rs], [src/mach.rs], [src/mmap.rs], [src/libc.rs],
    [src/print.rs], [src/allocator.rs]).

    ** How the program is modelled

    Definitions carry the source's names and translate it shallowly. A function
    of the bytes of an image is a Rocq function with an [outcome]: [Ok], the
    [Err] of a [Result] (or the [None] of an [Option], see [as_option]), [Panic],
    [Fault] for an access outside mapped memory or undefined behaviour, and
    [Diverge] for a loop that runs out of fuel. Integers are [Z]; each operation
    that can leave its width goes through [add_w], [sub_w], [mul_w], which panic
    or wrap as the build profile says (class [BuildProfile]: overflow checks on
    in cargo's dev profile, off in release); casts are [as_u] and [as_i], pointer
    arithmetic is [ptr_add], modulo 2^64. A theorem that does not fix a profile
    holds for both.

    Memory the program reaches through raw pointers is a finite map from
    addresses to bytes ([Memory]). Code that talks to the kernel runs in the
    [io] monad over a [world]: the kernel's state, memory, the stack slot where
    the local variables live whose addresses are passed to the kernel, and
    whether the program has rebased itself ([Kernel]). An outcome other than
    [Ok] keeps the world it happened in, so a failure can be reported; a store
    that leaves mapped memory is a [Fault] and keeps no part of itself, and the
    fixups applied before one that fails stay applied ([fixup_all_in_memory]). That
    a computation ends, without a [Fault] or [Diverge], is [ends]; the hints of that
    name prove it of the readers. The [svc]
    instruction, the code of the loaded program, the C functions of libdsc and
    libtlv, and where the standard library's strings are placed are the operations
    of the class [Machine]; what a theorem needs of them it states as a hypothesis
    ([vm_laws] of virtual memory, [console_laws] of output and exit, [files_laws] of
    files, [history_laws] of what was asked for, [program_laws] and [whole_laws] of
    what stays while a program is loaded), and concrete machines that satisfy it
    serve as witnesses ([machine_vm], [machine_log], [with_disk], which adds a table
    of files to a machine, [recording]).
    The [scroll] crate, which decodes structures, is the class [Scroll] with its
    documented laws [ScrollLaws]; [scroll_ref] is an implementation that
    satisfies them.

    ** The files

    - [Prelude] (this file): the outcome monad and its notations, machine
      integers, bytes, slices, loops, the tactics and hints the rest shares.
    - [Scroll]: the interface to the [scroll] crate and its laws; the layout of
      [repr(C)] structures.
    - [Bindings]: [src/bindings_macho.rs] and [src/bindings_dsc.rs]: enumerations,
      structures and the packed words of chained fixups. The accessors of every
      packed word, flags included, are lenses onto the documented bit ranges.
    - [Container]: [src/container.rs]: a byte buffer with an endianness; strings
      and ULEB128 numbers. Decoding inverts encoding; a string read is exactly
      the UTF-8 text up to the NUL; no reader leaves the image.
    - [ArrayVec]: [src/array.rs]: fixed-capacity vectors over uninitialised slots
      refine bounded lists, their iterators deques; strings stay valid UTF-8.
    - [Memory], [Kernel]: the memory map; [src/syscalls.rs], [src/mach.rs],
      [src/mmap.rs], [src/libc.rs], [src/jump.rs], [src/tlv.rs]: system calls, Mach
      traps and their wrappers, the jump.
    - [VM]: what the kernel documents of virtual memory, and the specifications of
      the calls that allocate, free and protect it.
    - [Printing]: [src/print.rs] and the panic handler of [src/main.rs]. [write_all]
      writes everything; a panic is reported and ends the process.
    - [Files]: [src/user_dylibs.rs]: a dylib read from disk is the file at its path,
      mapped in whole pages.
    - [Image], [MachOImage]: [src/image.rs], [src/macho_image.rs]: symbols, the load
      command iterator, the searches over load commands, the exports-trie reader.
    - [MachConstants]: the rest of [src/bindings_macho.rs]: flags, section types and
      attributes, names, structures that are declared only; the structures the
      linker steps over have no padding.
    - [ExportsTrie]: the specification of exports tries: an abstract trie, its
      encoding, the relation [exports]; the walk finds exactly what is exported,
      and on arbitrary bytes it ends.
    - [Dylib]: [src/dylib.rs]: resolution in a dylib refines its abstract trie, the
      ordinals of re-exports counting the documented commands
      ([is_library_command]) where the dylib uses only those the code counts
      ([plain_libraries]); following re-exports.
    - [SharedCache]: [src/dyld_shared_cache.rs]: subcaches, address translation, the
      index of the libraries, symbol resolution as the deterministic
      relation [cache_answers], which it computes, errors where there is no answer.
    - [Fixups]: [src/fixups.rs]: parsing chained fixups ends, stays inside the
      image, and walks its tables in order ([tables_fixups]); applying them stores
      at each address the pointer the fixup stands for ([fixup_pointer]) and
      nothing else.
    - [FixupTables]: the fixups of an image as the comments of
      [src/bindings_macho.rs] describe its tables ([image_fixups]). The parser finds
      precisely those when the tables use no import with an addend and mark no page
      ([plain_tables]); examples show what it does with these two.
    - [Binding]: a plain bind, applied, stores the address of a definition of its
      symbol in the place its ordinal picks ([defined_as]): the lemmas of [Fixups],
      [Dylib] and [SharedCache] composed. An addend and the mark of a bind to be
      signed have no effect, and a weak lookup of an imported name finds the import:
      both are shown.
    - [Loader]: [src/loader.rs]: the parser, which ends on any image, the
      classification of symbols, the dependencies and initialisers in order,
      the copying of segments, and [macho_loader], whose result does not depend on
      its fuel.
    - [Parsed]: the specification [parts] of the parser: what each load command
      contributes on its own; [macho_parser] puts the contributions together.
    - [WellFormed]: a parsed image is well formed, whatever the bytes of the image.
    - [Finalize]: finishing an image ([image_finalize]): thread-local variables,
      protections, initialisers, in this order, and none of the later ones after a
      refusal.
    - [Program]: the loading of a whole program: the tree of the images on disk
      ([loads_as]), loaded, protected and initialised in post-order; a program
      with a cycle is never loaded.
    - [Linking]: the abstract specification of loading one image, [linked]: fixup
      slots hold pointers, the rest of the segments the file, everything else what
      it held. [macho_loader] refines it: the lemmas of [VM], [Loader] and [Fixups]
      composed.
    - [Whole]: a whole program in memory ([in_memory]): every image of its tree is
      linked, its binds resolved in the images below it; what is loaded later
      leaves what was loaded before ([keeps]): [Linking] and [Program] composed.
    - [Total]: loading comes to an end: a program whose images can all be linked
      ([sound_program]) is loaded, unless the kernel refuses a request or a fixup
      stands for no pointer ([stops]); whatever happens, it [ends].
    - [Entrypoint]: [src/main.rs], [src/entrypoint.rs]: the self-rebase, the binding
      of the linker's own thread-local functions, the choice of the arm64 slice
      of a universal binary ([arm64_choice]), the argument vector, and the
      composition of it all.
    - [Startup]: the specification [prepare] of what comes before the jump, with a
      message for every failure; [start] rebases the linker, then jumps or reports
      and exits.
    - [Allocator]: [src/allocator.rs]: the free list threaded through memory; every
      program that keeps to the contract of [GlobalAlloc] finds its blocks
      disjoint, intact and aligned; only a large block that is to be aligned to more
      than a page is not ([pages_suffice]).
    - [Reuse]: a freed block is handed out again, for ever, without the kernel.
    - [PtrAuth]: [src/ptrauth.rs]: the pointer authentication functions, as
      instructions on registers; what they compute is the processor's.

    ** Bounds and fuel

    The exports-trie walk carries the budget of the source, and the
    specification shows that it never cuts a well-formed trie short. Re-exports
    are followed at most sixteen deep, as in the source. A fixup chain has fuel
    for one link per byte of the image: every link moves forward inside it, so
    the fuel cannot run out. The free list has fuel for one node per mapped
    byte, [strlen_loop] for one character per mapped byte, [write_all] for one
    iteration per byte of the buffer; theorems show each is enough.
    [macho_loader] has fuel for the depth of user dylibs: the source has no
    bound, and a cyclic dependency makes it recurse for ever
    ([Program.cyclic_program_never_loads]); fuel for the depth of the program is
    enough ([Total.program_load_ends]).

    ** Not yet proved

    Images whose segments overlap, or reach past the last page of the file: the
    loader copies as many bytes of the file as a segment has in memory. A segment
    that only reaches into the rest of the last page is covered: the specifications
    are about the file as the kernel maps it ([padded]).

    ** What is not modelled

    Formatting (the core library's: the pieces of a message are given), inline
    assembly other than that of [src/ptrauth.rs], the C libraries, the launcher
    and the tests. The three implementations of the trait [UninitArray]
    ([src/array.rs]) are one list of slots, as its contract has them; [Image] of
    [src/image.rs], which wraps a container for [chained_fixups_parse_all], is that
    container.
    The program has one thread, so the allocator's spinlock is a flag. The
    alignment assertions that development builds put on raw pointers are left
    out. A slice keeps the bytes it had when it was made; the program does not
    read an image through a slice after writing to it through a pointer. *)

From Stdlib Require Export ZArith Lia Bool.
From Stdlib Require Export Init.Byte.
From Stdlib Require Strings.Byte.
Import Stdlib.Strings.Byte(of_N, to_N).
From stdpp Require Export base list gmap strings.

(** The byte type of the Standard Library. *)
Abbreviation byte := Corelib.Init.Byte.byte.
Abbreviation bytes := (list Corelib.Init.Byte.byte).

#[global] Open Scope Z_scope.
#[global] Set Default Goal Selector "!".

(** ** Outcomes

    A Rust function of the program either returns, returns [Err] through
    the question-mark operator, panics (the profile is [panic = "abort"]),
    touches memory that is not mapped, or does not return. *)
Inductive outcome (E A : Type) : Type :=
| Ok (a : A)
| Err (e : E)
| Panic (why : string)
| Fault
| Diverge.
Arguments Ok {E A} a.
Arguments Err {E A} e.
Arguments Panic {E A} why.
Arguments Fault {E A}.
Arguments Diverge {E A}.

(** [Result<T, &'static str>], the program's usual result type. *)
Abbreviation result := (outcome string).

Definition bind {E A B} (m : outcome E A) (f : A -> outcome E B) : outcome E B :=
  match m with
  | Ok a => f a
  | Err e => Err e
  | Panic w => Panic w
  | Fault => Fault
  | Diverge => Diverge
  end.

Declare Scope dynld_scope.
Delimit Scope dynld_scope with dynld.
Notation "'let*' p ':=' m 'in' k" := (bind m (fun x => match x with p => k end))
  (at level 10, p pattern, m at level 200, k at level 200,
   format "'[' 'let*'  p  ':='  m  'in' ']' '//' k") : dynld_scope.
#[global] Open Scope dynld_scope.

(** [r.map_err(|_| e)] *)
Definition map_err {E F A} (e : F) (m : outcome E A) : outcome F A :=
  match m with
  | Ok a => Ok a
  | Err _ => Err e
  | Panic w => Panic w
  | Fault => Fault
  | Diverge => Diverge
  end.

(** [o.ok_or(e)?], and [o?] where [None] is [Err tt] *)
Definition ok_or {E A} (e : E) (o : option A) : outcome E A :=
  match o with Some a => Ok a | None => Err e end.

(** [o.unwrap()], [o.expect(..)], [o.unwrap_or_else(|| panic!(..))] *)
Definition or_panic {E A} (why : string) (o : option A) : outcome E A :=
  match o with Some a => Ok a | None => Panic why end.

(** A function returning [Option<A>] has outcome type [outcome unit A], with
    [Err tt] for [None], so that [?] is [bind] there too; [as_option] is the
    option its caller gets. *)
Definition as_option {E A} (m : outcome unit A) : outcome E (option A) :=
  match m with
  | Ok a => Ok (Some a)
  | Err _ => Ok None
  | Panic w => Panic w
  | Fault => Fault
  | Diverge => Diverge
  end.

(** The outcome is a value or an [Err]: the call returned. *)
Definition returns {E A} (m : outcome E A) : Prop :=
  match m with Ok _ | Err _ => True | _ => False end.

Lemma Ok_inj {E A} (a b : A) : @Ok E A a = Ok b -> a = b.
Proof. by intros [=]. Qed.

Lemma bind_Ok {E A B} (m : outcome E A) (f : A -> outcome E B) b :
  bind m f = Ok b <-> exists a, m = Ok a /\ f a = Ok b.
Proof.
  destruct m; cbn; split; intros H; try discriminate; eauto;
    destruct H as (x & Hx & ?); try discriminate; by injection Hx as <-.
Qed.

Lemma bind_assoc {E A B C} (m : outcome E A) (f : A -> outcome E B) (g : B -> outcome E C) :
  bind (bind m f) g = bind m (fun a => bind (f a) g).
Proof. by destruct m. Qed.

Lemma returns_bind {E A B} (m : outcome E A) (f : A -> outcome E B) :
  returns m -> (forall a, m = Ok a -> returns (f a)) -> returns (bind m f).
Proof. destruct m; cbn; eauto. Qed.

Lemma map_err_Ok {E F A} (e : F) (m : outcome E A) a :
  map_err e m = Ok a <-> m = Ok a.
Proof. destruct m; cbn; split; congruence. Qed.

Lemma returns_map_err {E F A} (e : F) (m : outcome E A) :
  returns (map_err e m) <-> returns m.
Proof. by destruct m. Qed.

Lemma ok_or_Ok {E A} (e : E) (o : option A) a : ok_or e o = Ok a <-> o = Some a.
Proof. destruct o; cbn; split; congruence. Qed.

Lemma or_panic_Ok {E A} w (o : option A) a : @or_panic E A w o = Ok a <-> o = Some a.
Proof. destruct o; cbn; split; congruence. Qed.

(** ** Build profiles and machine integers

    Cargo's dev profile checks overflow and panics, its release profile
    wraps; every theorem holds for both unless it says otherwise. *)
Class BuildProfile := { overflow_checks : bool }.
Definition dev_profile : BuildProfile := {| overflow_checks := true |}.
Definition release_profile : BuildProfile := {| overflow_checks := false |}.

(** [x] is a value of the unsigned [w]-bit type. *)
Definition fits (w x : Z) : Prop := 0 <= x < 2 ^ w.
Definition fitsb (w x : Z) : bool := (0 <=? x) && (x <? 2 ^ w).

(** [x as uN] *)
Definition as_u (w x : Z) : Z := x mod 2 ^ w.
(** [x as iN] *)
Definition as_i (w x : Z) : Z :=
  let r := x mod 2 ^ w in if r <? 2 ^ (w - 1) then r else r - 2 ^ w.

Section Arith.
Context {E : Type} {bp : BuildProfile}.

Definition in_range (w z : Z) (why : string) : outcome E Z :=
  if fitsb w z then Ok z
  else if overflow_checks then Panic why else Ok (z mod 2 ^ w).

Definition add_w (w a b : Z) := in_range w (a + b) "attempt to add with overflow".
Definition sub_w (w a b : Z) := in_range w (a - b) "attempt to subtract with overflow".
Definition mul_w (w a b : Z) := in_range w (a * b) "attempt to multiply with overflow".
End Arith.

(** [usize] and [u64] are 64 bits wide on aarch64, the only target. *)
Abbreviation add64 := (add_w 64).
Abbreviation sub64 := (sub_w 64).
Abbreviation mul64 := (mul_w 64).
Abbreviation add32 := (add_w 32).

(** [a.checked_add(b)] and [a.checked_sub(b)] on [usize] *)
Definition checked_add64 (a b : Z) : option Z :=
  if fitsb 64 (a + b) then Some (a + b) else None.
Definition checked_sub64 (a b : Z) : option Z :=
  if fitsb 64 (a - b) then Some (a - b) else None.

(** [p.add(n)] on a raw pointer: address arithmetic modulo 2^64. *)
Definition ptr_add (p n : Z) : Z := (p + n) mod 2 ^ 64.

Lemma fitsb_spec w x : reflect (fits w x) (fitsb w x).
Proof.
  apply iff_reflect. unfold fitsb, fits. rewrite andb_true_iff. lia.
Qed.

#[export] Instance fits_dec w x : Decision (fits w x).
Proof. unfold fits. apply _. Defined.

Lemma in_range_fits {E} `{BuildProfile} w z why :
  fits w z -> @in_range E _ w z why = Ok z.
Proof. intros Hz. unfold in_range. by destruct (fitsb_spec w z). Qed.

Lemma in_range_Ok {E} `{BuildProfile} w z why r :
  0 <= w -> @in_range E _ w z why = Ok r -> fits w r /\ r = z mod 2 ^ w.
Proof.
  intros Hw. unfold in_range. destruct (fitsb_spec w z) as [Hz|Hz].
  - intros [= <-]. split; [done|]. unfold fits in Hz. by rewrite Z.mod_small.
  - destruct overflow_checks; [done|]. intros [= <-]. split; [|done].
    apply Z.mod_pos_bound, Z.pow_pos_nonneg; lia.
Qed.

(** With overflow checks, arithmetic that returns is exact. *)
Lemma in_range_checked {E} `{BuildProfile} w z why r :
  overflow_checks = true -> @in_range E _ w z why = Ok r <-> fits w z /\ r = z.
Proof.
  intros Hc. unfold in_range. rewrite Hc. destruct (fitsb_spec w z); split.
  - by intros [= <-].
  - by intros [_ ->].
  - done.
  - by intros [? _].
Qed.

(** No error path of the arithmetic is an [Err]. *)
Lemma in_range_cases {E} `{BuildProfile} w z why :
  (exists r, @in_range E _ w z why = Ok r) \/ @in_range E _ w z why = Panic why.
Proof.
  unfold in_range. destruct (fitsb w z), overflow_checks; eauto.
Qed.

Lemma checked_add64_Some a b r :
  checked_add64 a b = Some r <-> r = a + b /\ fits 64 (a + b).
Proof.
  unfold checked_add64. destruct (fitsb_spec 64 (a + b)); split.
  - by intros [= <-].
  - by intros [-> _].
  - done.
  - by intros [_ ?].
Qed.

Lemma checked_sub64_Some a b r :
  checked_sub64 a b = Some r <-> r = a - b /\ fits 64 (a - b).
Proof.
  unfold checked_sub64. destruct (fitsb_spec 64 (a - b)); split.
  - by intros [= <-].
  - by intros [-> _].
  - done.
  - by intros [_ ?].
Qed.

Lemma ptr_add_small p n : 0 <= p + n < 2 ^ 64 -> ptr_add p n = p + n.
Proof. intros. unfold ptr_add. by rewrite Z.mod_small. Qed.

Lemma ptr_add_range p n : 0 <= ptr_add p n < 2 ^ 64.
Proof. apply Z.mod_pos_bound. lia. Qed.

Lemma ptr_add_assoc p m n : ptr_add (ptr_add p m) n = ptr_add p (m + n).
Proof.
  unfold ptr_add. rewrite Z.add_mod_idemp_l by lia. by rewrite Z.add_assoc.
Qed.

(** ** Bytes *)

#[export] Instance byte_eq_dec : EqDecision byte := Byte.byte_eq_dec.

(** The [u8] value of a byte, and the byte of a [u8] value. *)
Definition u8 (b : byte) : Z := Z.of_N (Byte.to_N b).
Definition byte_of (z : Z) : byte :=
  match Byte.of_N (Z.to_N (z mod 256)) with Some b => b | None => x00 end.

Lemma u8_range b : 0 <= u8 b < 256.
Proof. unfold u8. pose proof (Byte.to_N_bounded b). lia. Qed.

Lemma byte_of_u8 b : byte_of (u8 b) = b.
Proof.
  unfold byte_of. rewrite Z.mod_small by apply u8_range.
  unfold u8. by rewrite N2Z.id, Byte.of_to_N.
Qed.

Lemma u8_byte_of z : u8 (byte_of z) = z mod 256.
Proof.
  unfold byte_of. pose proof (Z.mod_pos_bound z 256 ltac:(lia)) as Hr.
  destruct (Byte.of_N _) as [b|] eqn:Eb.
  - apply Byte.to_of_N in Eb. unfold u8. rewrite Eb. lia.
  - apply Byte.of_N_None_iff in Eb. lia.
Qed.

#[export] Instance u8_inj : Inj (=) (=) u8.
Proof. intros a b Hab. by rewrite <- (byte_of_u8 a), Hab, byte_of_u8. Qed.

(** [buf.len()] *)
Definition zlen {A} (l : list A) : Z := Z.of_nat (length l).

(** The integer stored little-endian, or big-endian, in a run of bytes. *)
Fixpoint le_val (bs : bytes) : Z :=
  match bs with [] => 0 | b :: r => u8 b + 256 * le_val r end.
Definition be_val (bs : bytes) : Z := le_val (reverse bs).

(** The [n] bytes of [z], least significant first. *)
Fixpoint le_bytes (n : nat) (z : Z) : bytes :=
  match n with O => [] | S m => byte_of z :: le_bytes m (z / 256) end.
Definition be_bytes (n : nat) (z : Z) : bytes := reverse (le_bytes n z).

Lemma length_le_bytes n z : length (le_bytes n z) = n.
Proof. revert z; induction n; cbn; congruence. Qed.

Lemma le_val_range bs : 0 <= le_val bs < 256 ^ zlen bs.
Proof.
  unfold zlen. induction bs as [|b bs IH]; [cbn; lia|].
  cbn [le_val length]. rewrite Nat2Z.inj_succ, Z.pow_succ_r by lia.
  pose proof (u8_range b). lia.
Qed.

Lemma be_val_range bs : 0 <= be_val bs < 256 ^ zlen bs.
Proof. unfold be_val. pose proof (le_val_range (reverse bs)) as H. unfold zlen in *. by rewrite length_reverse in H. Qed.

Lemma le_val_le_bytes n z : le_val (le_bytes n z) = z mod 256 ^ Z.of_nat n.
Proof.
  revert z; induction n as [|n IH]; intros z; [cbn; by rewrite Z.mod_1_r|].
  cbn [le_bytes le_val]. rewrite IH, u8_byte_of, Nat2Z.inj_succ, Z.pow_succ_r by lia.
  by rewrite Z.rem_mul_r by lia.
Qed.

Lemma le_bytes_le_val bs : le_bytes (length bs) (le_val bs) = bs.
Proof.
  induction bs as [|b bs IH]; [done|]. cbn [length le_bytes le_val].
  pose proof (u8_range b). f_equal.
  - apply u8_inj. rewrite u8_byte_of, Z.mul_comm, Z.mod_add by lia. by apply Z.mod_small.
  - rewrite Z.mul_comm, Z.div_add, Z.div_small by lia. exact IH.
Qed.

(** [l.iter().position(p)] *)
Fixpoint position {A} (p : A -> bool) (l : list A) : option nat :=
  match l with
  | [] => None
  | x :: r => if p x then Some O else option_map S (position p r)
  end.

Lemma position_Some {A} (p : A -> bool) l n :
  position p l = Some n <->
  (exists x, l !! n = Some x /\ p x = true) /\ Forall (fun x => p x = false) (take n l).
Proof.
  revert n; induction l as [|x l IH]; intros n; cbn.
  - split; [done|]. intros [(y & Hy & _) _]. by rewrite lookup_nil in Hy.
  - destruct (p x) eqn:Px.
    + split.
      * intros [= <-]. cbn. eauto.
      * intros [_ Hf]. destruct n; [done|]. cbn in Hf. inversion Hf; congruence.
    + destruct n as [|n]; cbn.
      * split; [by destruct (position p l)|]. intros [(y & [= <-] & ?) _]. congruence.
      * specialize (IH n). split.
        -- destruct (position p l) as [m|]; [|done]. intros [= ->].
           destruct (proj1 IH eq_refl) as [? ?]. eauto.
        -- intros [Hy Hf]. inversion Hf; subst. rewrite (proj2 IH (conj Hy H2)). done.
Qed.

Lemma position_lt {A} (p : A -> bool) l n : position p l = Some n -> (n < length l)%nat.
Proof. intros [(x & Hx & _) _]%position_Some. by eapply lookup_lt_Some. Qed.

(** [s.starts_with(p)] on byte slices *)
Fixpoint starts_with (s p : bytes) {struct p} : bool :=
  match p, s with
  | [], _ => true
  | a :: p', b :: s' => bool_decide (a = b) && starts_with s' p'
  | _ :: _, [] => false
  end.

Lemma starts_with_spec s p : starts_with s p = true <-> exists r, s = p ++ r.
Proof.
  revert s; induction p as [|a p IH]; intros s; cbn; [split; eauto|].
  destruct s as [|c s]; cbn; [split; [done|by intros [r ?]]|].
  rewrite andb_true_iff, bool_decide_eq_true, IH. split.
  - intros [-> [r ->]]. by exists r.
  - intros [r [= -> ->]]. eauto.
Qed.

(** [&s[start..stop]] *)
Definition index_range {E} (s : bytes) (start stop : Z) : outcome E bytes :=
  if (start <=? stop) && (stop <=? zlen s)
  then Ok (take (Z.to_nat (stop - start)) (drop (Z.to_nat start) s))
  else Panic "range end index out of range for slice".

(** [s[i]] *)
Definition index_at {E A} (s : list A) (i : Z) : outcome E A :=
  or_panic "index out of bounds" (if 0 <=? i then s !! Z.to_nat i else None).

(** The bytes of a string literal [b"..."], and of a [&str]. *)
Definition bstr (s : string) : bytes := String.list_byte_of_string s.
Arguments bstr s%_string.

(** ** Loops *)

Section Loops.
Context {E S : Type}.

(** [for i in 0..n { s = f(i, s)?; }], counting up from [i]. *)
Fixpoint for_range (n : nat) (i : Z) (f : Z -> S -> outcome E S) (s : S) : outcome E S :=
  match n with
  | O => Ok s
  | Datatypes.S m => let* s' := f i s in for_range m (i + 1) f s'
  end.

(** [for x in l { s = f(x, s)?; }] *)
Fixpoint for_each {A} (l : list A) (f : A -> S -> outcome E S) (s : S) : outcome E S :=
  match l with
  | [] => Ok s
  | x :: r => let* s' := f x s in for_each r f s'
  end.

Lemma for_range_inv (P : Z -> S -> Prop) n i f s s' :
  P i s ->
  (forall j a a', i <= j < i + Z.of_nat n -> P j a -> f j a = Ok a' -> P (j + 1) a') ->
  for_range n i f s = Ok s' -> P (i + Z.of_nat n) s'.
Proof.
  revert i s; induction n as [|n IH]; intros i s HP Hstep; cbn [for_range].
  - intros [= <-]. by rewrite Z.add_0_r.
  - intros (a & Ha & Hr)%bind_Ok. replace (i + Z.of_nat (Datatypes.S n)) with (i + 1 + Z.of_nat n) by lia.
    apply (IH (i + 1) a); [|intros j b c Hj|done].
    + eapply Hstep; [|done|done]. lia.
    + apply Hstep. lia.
Qed.

Lemma for_each_inv {A} (P : list A -> S -> Prop) done l f s s' :
  P done s ->
  (forall pre x a a', P pre a -> x ∈ l -> f x a = Ok a' -> P (pre ++ [x]) a') ->
  for_each l f s = Ok s' -> P (done ++ l) s'.
Proof.
  revert done s; induction l as [|x l IH]; intros done s HP Hstep; cbn [for_each].
  - intros [= <-]. by rewrite app_nil_r.
  - intros (a & Ha & Hr)%bind_Ok. replace (done ++ x :: l) with ((done ++ [x]) ++ l)
      by (by rewrite <- app_assoc).
    apply (IH (done ++ [x]) a); [|intros ???? ? Hx|done].
    + eapply Hstep; [done| |done]. by left.
    + apply Hstep; [done|]. by right.
Qed.

Lemma for_range_returns n i f s :
  (forall j a, returns (f j a)) -> returns (for_range n i f s).
Proof.
  intros Hf. revert i s; induction n as [|n IH]; intros i s; cbn; [done|].
  apply returns_bind; eauto.
Qed.

Lemma for_each_returns {A} (l : list A) f s :
  (forall x a, returns (f x a)) -> returns (for_each l f s).
Proof.
  intros Hf. revert s; induction l as [|x l IH]; intros s; cbn; [done|].
  apply returns_bind; eauto.
Qed.
End Loops.

(** A loop that appends to a list. *)
Lemma for_range_appends {E A} n i (f : Z -> list A -> outcome E (list A)) (R : Z -> list A -> Prop) s s' :
  (forall j s s', i <= j < i + Z.of_nat n -> f j s = Ok s' -> exists g, R j g /\ s' = s ++ g) ->
  for_range n i f s = Ok s' ->
  exists gs, length gs = n /\ (forall k g, gs !! k = Some g -> R (i + Z.of_nat k) g) /\ s' = s ++ concat gs.
Proof.
  revert i s; induction n as [|n IH]; intros i s Hf; cbn [for_range].
  - intros [= <-]. exists []. split; [done|]. split; [by intros k g Hk|]. by rewrite app_nil_r.
  - intros (a & (g & Hg & ->)%Hf & Hr)%bind_Ok; [|lia].
    apply IH in Hr as (gs & Hl & Hgs & ->); [|intros j t t' Hj; apply Hf; lia].
    exists (g :: gs). split; [cbn; lia|]. split; [|cbn; by rewrite app_assoc].
    intros [|k] h Hk; [injection Hk as <-; by rewrite Z.add_0_r|].
    replace (i + Z.of_nat (S k)) with (i + 1 + Z.of_nat k) by lia. by apply Hgs.
Qed.

(** The same, when what one iteration does is known exactly. *)
Lemma for_range_concat {E A} n i (f : Z -> list A -> outcome E (list A)) (R : Z -> list A -> Prop) s s' :
  (forall j s s', i <= j < i + Z.of_nat n -> f j s = Ok s' <-> exists g, R j g /\ s' = s ++ g) ->
  for_range n i f s = Ok s' <->
  exists gs, length gs = n /\ (forall k g, gs !! k = Some g -> R (i + Z.of_nat k) g) /\ s' = s ++ concat gs.
Proof.
  intros Hf. split; [apply for_range_appends; intros j t t' Hj; by apply Hf|].
  revert i s Hf; induction n as [|n IH]; intros i s Hf; cbn [for_range].
  - intros ([|] & Hl & _ & ->); [|done]. cbn. by rewrite app_nil_r.
  - intros ([|g gs] & Hl & Hgs & ->); [done|]. cbn in Hl. apply bind_Ok. exists (s ++ g). split.
    + apply Hf; [lia|]. exists g. split; [|done]. specialize (Hgs 0%nat g eq_refl). by rewrite Z.add_0_r in Hgs.
    + apply IH; [intros j t t' Hj; apply Hf; lia|]. exists gs. split; [lia|]. split; [|cbn; by rewrite app_assoc].
      intros k h Hk. replace (i + 1 + Z.of_nat k) with (i + Z.of_nat (S k)) by lia. by apply (Hgs (S k)).
Qed.

(** ** Calls that end *)

(** The call ended: a value, an error or a panic; no fault, no endless loop. *)
Definition ends {E A} (m : outcome E A) : Prop :=
  match m with Fault | Diverge => False | _ => True end.

Lemma ends_bind {E A B} (m : outcome E A) (f : A -> outcome E B) :
  ends m -> (forall a, m = Ok a -> ends (f a)) -> ends (bind m f).
Proof. destruct m; cbn; auto. Qed.

Lemma ends_in_range {E} `{BuildProfile} w z why : ends (@in_range E _ w z why).
Proof. unfold in_range. by destruct (fitsb w z), overflow_checks. Qed.

Lemma ends_map_err {E F A} (e : F) (m : outcome E A) : ends m -> ends (map_err e m).
Proof. by destruct m. Qed.

Lemma ends_as_option {E A} (m : outcome unit A) : ends m -> ends (@as_option E A m).
Proof. by destruct m. Qed.

Lemma ends_ok_or {E A} (e : E) (o : option A) : ends (ok_or e o).
Proof. by destruct o. Qed.

Lemma ends_or_panic {E A} w (o : option A) : ends (@or_panic E A w o).
Proof. by destruct o. Qed.

Lemma ends_index_at {E A} (s : list A) i : ends (@index_at E A s i).
Proof. apply ends_or_panic. Qed.

Lemma ends_index_range {E} s start stop : ends (@index_range E s start stop).
Proof. unfold index_range. by destruct (_ && _). Qed.

Lemma for_range_ends {E S} (P : S -> Prop) n i (f : Z -> S -> outcome E S) s :
  P s -> (forall j a, i <= j < i + Z.of_nat n -> P a -> ends (f j a) /\ forall a', f j a = Ok a' -> P a') ->
  ends (for_range n i f s) /\ forall s', for_range n i f s = Ok s' -> P s'.
Proof.
  revert i s; induction n as [|n IH]; intros i s HP Hf; cbn [for_range]; [split; [done|by intros ? [= <-]]|].
  destruct (Hf i s) as [He Hok]; [lia|done|].
  destruct (f i s) as [a|e|w| |] eqn:Ef; cbn; try done.
  destruct (IH (i + 1) a) as [IH1 IH2]; [by apply Hok|intros j b Hj; apply Hf; lia|]. done.
Qed.

(** [Option::is_none] *)
Definition is_none {A} (o : option A) : bool := match o with None => true | Some _ => false end.

(** ** Automation *)

Create HintDb dynld.
#[export] Hint Resolve u8_range le_val_range be_val_range ptr_add_range : dynld.
#[export] Hint Resolve returns_bind for_range_returns for_each_returns : dynld.

Create Rewrite HintDb dynld_len.
#[export] Hint Rewrite @length_app @length_drop @length_take @length_reverse
  @length_insert @length_replicate @length_fmap length_le_bytes : dynld_len.

(** Split the hypotheses that say a sequence of calls returned [Ok]. *)
Ltac inv_ok_step :=
  match goal with
  | H : bind _ _ = Ok _ |- _ =>
      let x := fresh "x" in let Hx := fresh "Hx" in
      apply bind_Ok in H as (x & Hx & H)
  | H : Ok _ = Ok _ |- _ => injection H as H; try subst
  | H : Err _ = Ok _ |- _ => discriminate H
  | H : Panic _ = Ok _ |- _ => discriminate H
  | H : Fault = Ok _ |- _ => discriminate H
  | H : Diverge = Ok _ |- _ => discriminate H
  | H : map_err _ _ = Ok _ |- _ => apply map_err_Ok in H
  | H : ok_or _ _ = Ok _ |- _ => apply ok_or_Ok in H
  | H : or_panic _ _ = Ok _ |- _ => apply or_panic_Ok in H
  | H : Some _ = Some _ |- _ => injection H as H; try subst
  | H : Some _ = None |- _ => discriminate H
  | H : None = Some _ |- _ => discriminate H
  end.
Ltac inv_ok := repeat inv_ok_step.

(** The elements of a concrete list of ranges are pairwise apart, each before the next. *)
Ltac pairs_apart :=
  repeat apply List.FOP_cons; try apply List.FOP_nil;
  repeat (apply Forall_cons; split; [left; vm_compute; discriminate|]); try apply Forall_nil_2.

(** Case analysis on the innermost [match] or [if] of the goal. *)
Ltac split_match :=
  match goal with
  | |- context [match ?x with _ => _ end] =>
      lazymatch x with
      | context [match _ with _ => _ end] => fail
      | _ => let E := fresh "E" in destruct x eqn:E
      end
  end.
(** The same in a hypothesis. *)
Ltac split_match_in H :=
  match type of H with
  | context [match ?x with _ => _ end] =>
      lazymatch x with
      | context [match _ with _ => _ end] => fail
      | _ => let E := fresh "E" in destruct x eqn:E
      end
  end.

(** Lengths of lists, then linear arithmetic. *)
Ltac len := unfold zlen in *; autorewrite with dynld_len in *; cbn [length] in *; try lia.

(** The call ends because each call of it does; a component adds the calls it
    offers to the hints [ends]. *)
Create HintDb ends.
#[export] Hint Resolve ends_in_range ends_ok_or ends_or_panic ends_index_at ends_index_range : ends.
Ltac solve_ends :=
  repeat first [ exact I | solve [eauto 3 with ends nocore] | apply ends_map_err | apply ends_as_option
               | (apply ends_bind; [|intros ? ?]) | split_match ].
