(* ===== verification/Scroll.v ===== *)
(** The interface to the [scroll] and [scroll_derive] crates.

    Every structure is read from an image through [Pread::pread_with], and the
    readers of the structures are generated by [#[derive(Pread)]]. Both are
    third-party code, so the development is parametric in them: [Scroll] is
    the reader the crates provide and [ScrollLaws] what their documentation
    says of it. A structure declares its fields in order ([Pread]); the
    layout [repr(C)] gives it, which [size_of] measures, is the language's. *)
From S2P Require Import Prelude.

(** ** Fields of a structure *)

(** A field of a structure declaration: an unsigned or signed integer of [n]
    bytes, an array of [n] bytes, or a [repr(uN)] enumeration with the partial
    map from discriminants to its variants. *)
Inductive field : Type :=
| UInt (n : nat)
| SInt (n : nat)
| Arr (n : nat)
| CEnum (n : nat) (T : Set) (of_discr : Z -> option T).

Definition fval (f : field) : Type :=
  match f with
  | UInt _ | SInt _ => Z
  | Arr _ => bytes
  | CEnum _ T _ => T
  end.

Fixpoint fvals (l : list field) : Type :=
  match l with [] => unit | f :: r => (fval f * fvals r)%type end.

Definition fsize (f : field) : nat :=
  match f with UInt n | SInt n | Arr n | CEnum n _ _ => n end.

(** The bytes a derived reader consumes: the fields with no padding. *)
Definition layout_size (l : list field) : Z :=
  Z.of_nat (foldr (fun f n => (fsize f + n)%nat) 0%nat l).

(** ** [repr(C)]: each field at the next multiple of its alignment, the size
    rounded up to the largest alignment. *)
Definition falign (f : field) : Z :=
  match f with UInt n | SInt n | CEnum n _ _ => Z.of_nat n | Arr _ => 1 end.

Definition round_up (z a : Z) : Z := (z + (a - 1)) / a * a.

Definition repr_c_size (l : list field) : Z :=
  let '(off, al) :=
    foldl (fun '(off, al) f => (round_up off (falign f) + Z.of_nat (fsize f), Z.max al (falign f)))
      (0, 1) l in
  round_up off al.

(** The offset of field [i]. *)
Definition repr_c_offset (l : list field) (i : nat) : Z :=
  let off := foldl (fun off f => round_up off (falign f) + Z.of_nat (fsize f)) 0 (take i l) in
  match l !! i with Some f => round_up off (falign f) | None => off end.

(** ** The reader *)

(** [scroll::Endian] *)
Inductive scroll_endian := LE | BE.

Definition int_of (e : scroll_endian) (bs : bytes) : Z :=
  match e with LE => le_val bs | BE => be_val bs end.

(** The value of one field from its own bytes. *)
Definition decode_field (e : scroll_endian) (f : field) (bs : bytes) : option (fval f) :=
  match f with
  | UInt _ => Some (int_of e bs)
  | SInt n => Some (as_i (8 * Z.of_nat n) (int_of e bs))
  | Arr _ => Some bs
  | CEnum _ _ of_discr => of_discr (int_of e bs)
  end.

(** The fields in declaration order, each from the bytes after the last. *)
Fixpoint decode_fields (e : scroll_endian) (l : list field) (bs : bytes) : option (fvals l) :=
  match l with
  | [] => Some tt
  | f :: r =>
      match decode_field e f (take (fsize f) bs) with
      | Some v =>
          match decode_fields e r (drop (fsize f) bs) with
          | Some vs => Some (v, vs)
          | None => None
          end
      | None => None
      end
  end.

(** [data.pread_with::<T>(offset, endian)] for the structure with these fields. *)
Class Scroll := {
  pread_with : forall (e : scroll_endian) (l : list field), bytes -> Z -> option (fvals l)
}.

(** What the crates document: a read past the end of the buffer is an error,
    any other read decodes the fields in order, and fails on a discriminant
    the enumeration does not have. *)
Class ScrollLaws (S : Scroll) : Prop := {
  pread_short e l bs off :
    0 <= off -> zlen bs < off + layout_size l -> pread_with e l bs off = None;
  pread_fields e l bs off :
    0 <= off -> off + layout_size l <= zlen bs ->
    pread_with e l bs off = decode_fields e l (drop (Z.to_nat off) bs)
}.

(** A type with a derived reader. *)
Class Pread (T : Type) := {
  fields_of : list field;
  of_fields : fvals fields_of -> T
}.
Arguments fields_of T {_}.

(** [core::mem::size_of::<T>()] *)
Definition size_of (T : Type) `{Pread T} : Z := repr_c_size (fields_of T).

Arguments size_of : simpl never.
Arguments layout_size : simpl never.

Definition pread_u8 : Pread Z := {| fields_of := [UInt 1]; of_fields '(v, _) := v |}.
Definition pread_u16 : Pread Z := {| fields_of := [UInt 2]; of_fields '(v, _) := v |}.
Definition pread_u32 : Pread Z := {| fields_of := [UInt 4]; of_fields '(v, _) := v |}.
Definition pread_u64 : Pread Z := {| fields_of := [UInt 8]; of_fields '(v, _) := v |}.

(** ** A concrete reader

    It satisfies the laws, so no theorem that assumes them is vacuous, and
    the examples of the development evaluate with it. *)
Definition scroll_ref : Scroll := {|
  pread_with e l bs off :=
    if zlen bs <? off + layout_size l then None
    else decode_fields e l (drop (Z.to_nat off) bs)
|}.

#[export] Instance scroll_ref_laws : ScrollLaws scroll_ref.
Proof.
  split; intros e l bs off Hoff Hlen; cbn;
    destruct (Z.ltb_spec (zlen bs) (off + layout_size l)); (done || lia).
Qed.

Section Laws.
Context `{SL : ScrollLaws}.

Lemma pread_Some e l bs off vs :
  0 <= off -> pread_with e l bs off = Some vs ->
  off + layout_size l <= zlen bs /\ decode_fields e l (drop (Z.to_nat off) bs) = Some vs.
Proof.
  intros Hoff Hp. destruct (Z_le_gt_dec (off + layout_size l) (zlen bs)) as [Hle|Hgt].
  - by rewrite <- pread_fields.
  - rewrite pread_short in Hp by lia. done.
Qed.

(** A reader sees only the bytes from its offset on. *)
Lemma pread_app e l pre bs off :
  0 <= off -> pread_with e l (pre ++ bs) (zlen pre + off) = pread_with e l bs off.
Proof.
  intros Hoff.
  destruct (Z_le_gt_dec (off + layout_size l) (zlen bs)) as [Hle|Hgt].
  - rewrite !pread_fields by len. f_equal.
    rewrite drop_app_ge by len. f_equal. len.
  - rewrite !pread_short by len. done.
Qed.
End Laws.

Lemma layout_size_nonneg l : 0 <= layout_size l.
Proof. unfold layout_size. lia. Qed.

Lemma layout_size_cons f l : layout_size (f :: l) = Z.of_nat (fsize f) + layout_size l.
Proof. unfold layout_size. cbn. lia. Qed.

(** Only the structure's own bytes are decoded. *)
Lemma decode_fields_take e l bs : decode_fields e l (take (Z.to_nat (layout_size l)) bs) = decode_fields e l bs.
Proof.
  revert bs; induction l as [|f l IH]; intros bs; [done|]. cbn [decode_fields].
  rewrite layout_size_cons. pose proof (layout_size_nonneg l).
  rewrite take_take, Nat.min_l by lia. destruct (decode_field e f _); [|done].
  by rewrite skipn_firstn_comm, <- (IH (drop (fsize f) bs)), Z2Nat.inj_add, Nat2Z.id, Nat.add_comm, Nat.add_sub by lia.
Qed.

(** ** The values a field can hold *)
Definition fval_ok (f : field) : fval f -> Prop :=
  match f with
  | UInt n => fun v => fits (8 * Z.of_nat n) v
  | SInt n => fun v => - 2 ^ (8 * Z.of_nat n - 1) <= v < 2 ^ (8 * Z.of_nat n - 1)
  | Arr n => fun v => length v = n
  | CEnum _ _ of_discr => fun v => exists z, of_discr z = Some v
  end.

Fixpoint fvals_ok (l : list field) : fvals l -> Prop :=
  match l with
  | [] => fun _ => True
  | f :: r => fun vs => fval_ok f (fst vs) /\ fvals_ok r (snd vs)
  end.

Lemma int_of_range e bs : fits (8 * zlen bs) (int_of e bs).
Proof.
  unfold fits. rewrite Z.pow_mul_r by (unfold zlen; lia). change (2 ^ 8) with 256.
  destruct e; auto with dynld.
Qed.

Lemma as_i_range w z : 0 < w -> - 2 ^ (w - 1) <= as_i w z < 2 ^ (w - 1).
Proof.
  intros Hw. unfold as_i. replace (2 ^ w) with (2 * 2 ^ (w - 1))
    by (rewrite <- Z.pow_succ_r by lia; f_equal; lia).
  pose proof (Z.pow_pos_nonneg 2 (w - 1) ltac:(lia) ltac:(lia)).
  pose proof (Z.mod_pos_bound z (2 * 2 ^ (w - 1)) ltac:(lia)).
  destruct (Z.ltb_spec (z mod (2 * 2 ^ (w - 1))) (2 ^ (w - 1))); lia.
Qed.

Lemma decode_field_ok e f bs v :
  length bs = fsize f -> (0 < fsize f)%nat -> decode_field e f bs = Some v -> fval_ok f v.
Proof.
  intros Hl Hpos. destruct f as [n|n|n|n T d]; cbn in *.
  - intros [= <-]. pose proof (int_of_range e bs) as H. unfold zlen in H. by rewrite Hl in H.
  - intros [= <-]. apply as_i_range. lia.
  - by intros [= <-].
  - eauto.
Qed.

(** A structure read in bounds has its fields in range. *)
Lemma decode_fields_ok e l bs vs :
  layout_size l <= zlen bs -> Forall (fun f => (0 < fsize f)%nat) l ->
  decode_fields e l bs = Some vs -> fvals_ok l vs.
Proof.
  revert bs; induction l as [|f l IH]; intros bs Hle Hp; [done|].
  rewrite layout_size_cons in Hle. inversion Hp; subst. cbn.
  destruct (decode_field e f (take (fsize f) bs)) as [v|] eqn:Ev; [|done].
  destruct (decode_fields e l (drop (fsize f) bs)) as [r|] eqn:Er; [|done].
  intros [= <-]. cbn. pose proof (layout_size_nonneg l). split.
  - apply (decode_field_ok e f (take (fsize f) bs)); [len|done|done].
  - apply (IH _ (drop (fsize f) bs)); [len|done|done].
Qed.

#[export] Hint Resolve layout_size_nonneg : dynld.
