(* ===== verification/Bindings.v ===== *)
(** The Mach-O and shared-cache declarations of [src/bindings_macho.rs] and
    [src/bindings_dsc.rs]: enumerations with their discriminants, structures
    with their derived readers, the constants the linker uses, and the packed
    chained-fixup pointers with their accessors. Field names carry a prefix
    per structure; variants and types keep their names. *)
From S2P Require Import Prelude Scroll.

(** ** Enumerations *)

(** The variant with a discriminant, for a [repr(uN)] enumeration. *)
Definition variant_of_discr {T : Set} (all : list T) (discr : T -> Z) (z : Z) : option T :=
  List.find (fun v => discr v =? z) all.

(** Magic numbers. *)
Inductive mach_magic : Set :=
| MH_MAGIC
| MH_CIGAM
| MH_MAGIC_64
| MH_CIGAM_64
| FAT_MAGIC
| FAT_CIGAM
| FAT_MAGIC_64
| FAT_CIGAM_64.

Definition mach_magic_discr (v : mach_magic) : Z :=
  match v with
  | MH_MAGIC => 0xfeedface
  | MH_CIGAM => 0xcefaedfe
  | MH_MAGIC_64 => 0xfeedfacf
  | MH_CIGAM_64 => 0xcffaedfe
  | FAT_MAGIC => 0xcafebabe
  | FAT_CIGAM => 0xbebafeca
  | FAT_MAGIC_64 => 0xcafebabf
  | FAT_CIGAM_64 => 0xbfbafeca
  end.

Definition mach_magic_all : list mach_magic :=
  [MH_MAGIC; MH_CIGAM; MH_MAGIC_64; MH_CIGAM_64; FAT_MAGIC; FAT_CIGAM; FAT_MAGIC_64; FAT_CIGAM_64].

Definition mach_magic_of_discr : Z -> option mach_magic :=
  variant_of_discr mach_magic_all mach_magic_discr.

#[export] Instance mach_magic_eq_dec : EqDecision mach_magic.
Proof. solve_decision. Defined.

(** The [filetype] field of the header. *)
Inductive macho_filetype_variants : Set :=
| MH_OBJECT
| MH_EXECUTE
| MH_FVMLIB
| MH_CORE
| MH_PRELOAD
| MH_DYLIB
| MH_DYLINKER
| MH_BUNDLE
| MH_DYLIB_STUB
| MH_DSYM
| MH_KEXT_BUNDLE
| MH_FILESET
| MH_GPU_EXECUTE
| MH_GPU_DYLIB.

Definition macho_filetype_variants_discr (v : macho_filetype_variants) : Z :=
  match v with
  | MH_OBJECT => 0x1
  | MH_EXECUTE => 0x2
  | MH_FVMLIB => 0x3
  | MH_CORE => 0x4
  | MH_PRELOAD => 0x5
  | MH_DYLIB => 0x6
  | MH_DYLINKER => 0x7
  | MH_BUNDLE => 0x8
  | MH_DYLIB_STUB => 0x9
  | MH_DSYM => 0xa
  | MH_KEXT_BUNDLE => 0xb
  | MH_FILESET => 0xc
  | MH_GPU_EXECUTE => 0xd
  | MH_GPU_DYLIB => 0xe
  end.

Definition macho_filetype_variants_all : list macho_filetype_variants :=
  [MH_OBJECT; MH_EXECUTE; MH_FVMLIB; MH_CORE; MH_PRELOAD; MH_DYLIB; MH_DYLINKER; MH_BUNDLE; MH_DYLIB_STUB; MH_DSYM; MH_KEXT_BUNDLE; MH_FILESET; MH_GPU_EXECUTE; MH_GPU_DYLIB].

Definition macho_filetype_variants_of_discr : Z -> option macho_filetype_variants :=
  variant_of_discr macho_filetype_variants_all macho_filetype_variants_discr.

#[export] Instance macho_filetype_variants_eq_dec : EqDecision macho_filetype_variants.
Proof. solve_decision. Defined.

(** The [cmd] field of the load commands. *)
Inductive load_command_variants : Set :=
| LC_SEGMENT
| LC_SYMTAB
| LC_SYMSEG
| LC_THREAD
| LC_UNIXTHREAD
| LC_LOADFVMLIB
| LC_IDFVMLIB
| LC_IDENT
| LC_FVMFILE
| LC_PREPAGE
| LC_DYSYMTAB
| LC_LOAD_DYLIB
| LC_ID_DYLIB
| LC_LOAD_DYLINKER
| LC_ID_DYLINKER
| LC_PREBOUND_DYLIB
| LC_ROUTINES
| LC_SUB_FRAMEWORK
| LC_SUB_UMBRELLA
| LC_SUB_CLIENT
| LC_SUB_LIBRARY
| LC_TWOLEVEL_HINTS
| LC_PREBIND_CKSUM
| LC_LOAD_WEAK_DYLIB
| LC_SEGMENT_64
| LC_ROUTINES_64
| LC_UUID
| LC_RPATH
| LC_CODE_SIGNATURE
| LC_SEGMENT_SPLIT_INFO
| LC_REEXPORT_DYLIB
| LC_LAZY_LOAD_DYLIB
| LC_ENCRYPTION_INFO
| LC_DYLD_INFO
| LC_DYLD_INFO_ONLY
| LC_LOAD_UPWARD_DYLIB
| LC_VERSION_MIN_MACOSX
| LC_VERSION_MIN_IPHONEOS
| LC_FUNCTION_STARTS
| LC_DYLD_ENVIRONMENT
| LC_MAIN
| LC_DATA_IN_CODE
| LC_SOURCE_VERSION
| LC_DYLIB_CODE_SIGN_DRS
| LC_ENCRYPTION_INFO_64
| LC_LINKER_OPTION
| LC_LINKER_OPTIMIZATION_HINT
| LC_VERSION_MIN_TVOS
| LC_VERSION_MIN_WATCHOS
| LC_NOTE
| LC_BUILD_VERSION
| LC_DYLD_EXPORTS_TRIE
| LC_DYLD_CHAINED_FIXUPS
| LC_FILESET_ENTRY
| LC_ATOM_INFO
| LC_FUNCTION_VARIANTS
| LC_FUNCTION_VARIANT_FIXUPS
| LC_TARGET_TRIPLE.

Definition load_command_variants_discr (v : load_command_variants) : Z :=
  match v with
  | LC_SEGMENT => 0x1
  | LC_SYMTAB => 0x2
  | LC_SYMSEG => 0x3
  | LC_THREAD => 0x4
  | LC_UNIXTHREAD => 0x5
  | LC_LOADFVMLIB => 0x6
  | LC_IDFVMLIB => 0x7
  | LC_IDENT => 0x8
  | LC_FVMFILE => 0x9
  | LC_PREPAGE => 0xa
  | LC_DYSYMTAB => 0xb
  | LC_LOAD_DYLIB => 0xc
  | LC_ID_DYLIB => 0xd
  | LC_LOAD_DYLINKER => 0xe
  | LC_ID_DYLINKER => 0xf
  | LC_PREBOUND_DYLIB => 0x10
  | LC_ROUTINES => 0x11
  | LC_SUB_FRAMEWORK => 0x12
  | LC_SUB_UMBRELLA => 0x13
  | LC_SUB_CLIENT => 0x14
  | LC_SUB_LIBRARY => 0x15
  | LC_TWOLEVEL_HINTS => 0x16
  | LC_PREBIND_CKSUM => 0x17
  | LC_LOAD_WEAK_DYLIB => 0x80000018
  | LC_SEGMENT_64 => 0x19
  | LC_ROUTINES_64 => 0x1a
  | LC_UUID => 0x1b
  | LC_RPATH => 0x8000001c
  | LC_CODE_SIGNATURE => 0x1d
  | LC_SEGMENT_SPLIT_INFO => 0x1e
  | LC_REEXPORT_DYLIB => 0x8000001f
  | LC_LAZY_LOAD_DYLIB => 0x20
  | LC_ENCRYPTION_INFO => 0x21
  | LC_DYLD_INFO => 0x22
  | LC_DYLD_INFO_ONLY => 0x80000022
  | LC_LOAD_UPWARD_DYLIB => 0x80000023
  | LC_VERSION_MIN_MACOSX => 0x24
  | LC_VERSION_MIN_IPHONEOS => 0x25
  | LC_FUNCTION_STARTS => 0x26
  | LC_DYLD_ENVIRONMENT => 0x27
  | LC_MAIN => 0x80000028
  | LC_DATA_IN_CODE => 0x29
  | LC_SOURCE_VERSION => 0x2a
  | LC_DYLIB_CODE_SIGN_DRS => 0x2b
  | LC_ENCRYPTION_INFO_64 => 0x2c
  | LC_LINKER_OPTION => 0x2d
  | LC_LINKER_OPTIMIZATION_HINT => 0x2e
  | LC_VERSION_MIN_TVOS => 0x2f
  | LC_VERSION_MIN_WATCHOS => 0x30
  | LC_NOTE => 0x31
  | LC_BUILD_VERSION => 0x32
  | LC_DYLD_EXPORTS_TRIE => 0x80000033
  | LC_DYLD_CHAINED_FIXUPS => 0x80000034
  | LC_FILESET_ENTRY => 0x80000035
  | LC_ATOM_INFO => 0x36
  | LC_FUNCTION_VARIANTS => 0x37
  | LC_FUNCTION_VARIANT_FIXUPS => 0x38
  | LC_TARGET_TRIPLE => 0x39
  end.

Definition load_command_variants_all : list load_command_variants :=
  [LC_SEGMENT; LC_SYMTAB; LC_SYMSEG; LC_THREAD; LC_UNIXTHREAD; LC_LOADFVMLIB; LC_IDFVMLIB; LC_IDENT; LC_FVMFILE; LC_PREPAGE; LC_DYSYMTAB; LC_LOAD_DYLIB; LC_ID_DYLIB; LC_LOAD_DYLINKER; LC_ID_DYLINKER; LC_PREBOUND_DYLIB; LC_ROUTINES; LC_SUB_FRAMEWORK; LC_SUB_UMBRELLA; LC_SUB_CLIENT; LC_SUB_LIBRARY; LC_TWOLEVEL_HINTS; LC_PREBIND_CKSUM; LC_LOAD_WEAK_DYLIB; LC_SEGMENT_64; LC_ROUTINES_64; LC_UUID; LC_RPATH; LC_CODE_SIGNATURE; LC_SEGMENT_SPLIT_INFO; LC_REEXPORT_DYLIB; LC_LAZY_LOAD_DYLIB; LC_ENCRYPTION_INFO; LC_DYLD_INFO; LC_DYLD_INFO_ONLY; LC_LOAD_UPWARD_DYLIB; LC_VERSION_MIN_MACOSX; LC_VERSION_MIN_IPHONEOS; LC_FUNCTION_STARTS; LC_DYLD_ENVIRONMENT; LC_MAIN; LC_DATA_IN_CODE; LC_SOURCE_VERSION; LC_DYLIB_CODE_SIGN_DRS; LC_ENCRYPTION_INFO_64; LC_LINKER_OPTION; LC_LINKER_OPTIMIZATION_HINT; LC_VERSION_MIN_TVOS; LC_VERSION_MIN_WATCHOS; LC_NOTE; LC_BUILD_VERSION; LC_DYLD_EXPORTS_TRIE; LC_DYLD_CHAINED_FIXUPS; LC_FILESET_ENTRY; LC_ATOM_INFO; LC_FUNCTION_VARIANTS; LC_FUNCTION_VARIANT_FIXUPS; LC_TARGET_TRIPLE].

Definition load_command_variants_of_discr : Z -> option load_command_variants :=
  variant_of_discr load_command_variants_all load_command_variants_discr.

#[export] Instance load_command_variants_eq_dec : EqDecision load_command_variants.
Proof. solve_decision. Defined.

(** The pointer formats of chained fixups. *)
Inductive dyld_chained_ptr_format_variants : Set :=
| DYLD_CHAINED_PTR_ARM64E
| DYLD_CHAINED_PTR_64
| DYLD_CHAINED_PTR_32
| DYLD_CHAINED_PTR_32_CACHE
| DYLD_CHAINED_PTR_32_FIRMWARE
| DYLD_CHAINED_PTR_64_OFFSET
| DYLD_CHAINED_PTR_ARM64E_OFFSET
| DYLD_CHAINED_PTR_64_KERNEL_CACHE
| DYLD_CHAINED_PTR_ARM64E_USERLAND
| DYLD_CHAINED_PTR_ARM64E_FIRMWARE
| DYLD_CHAINED_PTR_X86_64_KERNEL_CACHE
| DYLD_CHAINED_PTR_ARM64E_USERLAND24
| DYLD_CHAINED_PTR_ARM64E_SHARED_CACHE
| DYLD_CHAINED_PTR_ARM64E_SEGMENTED.

Definition dyld_chained_ptr_format_variants_discr (v : dyld_chained_ptr_format_variants) : Z :=
  match v with
  | DYLD_CHAINED_PTR_ARM64E => 0x1
  | DYLD_CHAINED_PTR_64 => 0x2
  | DYLD_CHAINED_PTR_32 => 0x3
  | DYLD_CHAINED_PTR_32_CACHE => 0x4
  | DYLD_CHAINED_PTR_32_FIRMWARE => 0x5
  | DYLD_CHAINED_PTR_64_OFFSET => 0x6
  | DYLD_CHAINED_PTR_ARM64E_OFFSET => 0x7
  | DYLD_CHAINED_PTR_64_KERNEL_CACHE => 0x8
  | DYLD_CHAINED_PTR_ARM64E_USERLAND => 0x9
  | DYLD_CHAINED_PTR_ARM64E_FIRMWARE => 0xa
  | DYLD_CHAINED_PTR_X86_64_KERNEL_CACHE => 0xb
  | DYLD_CHAINED_PTR_ARM64E_USERLAND24 => 0xc
  | DYLD_CHAINED_PTR_ARM64E_SHARED_CACHE => 0xd
  | DYLD_CHAINED_PTR_ARM64E_SEGMENTED => 0xe
  end.

Definition dyld_chained_ptr_format_variants_all : list dyld_chained_ptr_format_variants :=
  [DYLD_CHAINED_PTR_ARM64E; DYLD_CHAINED_PTR_64; DYLD_CHAINED_PTR_32; DYLD_CHAINED_PTR_32_CACHE; DYLD_CHAINED_PTR_32_FIRMWARE; DYLD_CHAINED_PTR_64_OFFSET; DYLD_CHAINED_PTR_ARM64E_OFFSET; DYLD_CHAINED_PTR_64_KERNEL_CACHE; DYLD_CHAINED_PTR_ARM64E_USERLAND; DYLD_CHAINED_PTR_ARM64E_FIRMWARE; DYLD_CHAINED_PTR_X86_64_KERNEL_CACHE; DYLD_CHAINED_PTR_ARM64E_USERLAND24; DYLD_CHAINED_PTR_ARM64E_SHARED_CACHE; DYLD_CHAINED_PTR_ARM64E_SEGMENTED].

Definition dyld_chained_ptr_format_variants_of_discr : Z -> option dyld_chained_ptr_format_variants :=
  variant_of_discr dyld_chained_ptr_format_variants_all dyld_chained_ptr_format_variants_discr.

#[export] Instance dyld_chained_ptr_format_variants_eq_dec : EqDecision dyld_chained_ptr_format_variants.
Proof. solve_decision. Defined.

(** The formats of the imports table. *)
Inductive dyld_chained_import_format_variants : Set :=
| DYLD_CHAINED_IMPORT
| DYLD_CHAINED_IMPORT_ADDEND
| DYLD_CHAINED_IMPORT_ADDEND64.

Definition dyld_chained_import_format_variants_discr (v : dyld_chained_import_format_variants) : Z :=
  match v with
  | DYLD_CHAINED_IMPORT => 0x1
  | DYLD_CHAINED_IMPORT_ADDEND => 0x2
  | DYLD_CHAINED_IMPORT_ADDEND64 => 0x3
  end.

Definition dyld_chained_import_format_variants_all : list dyld_chained_import_format_variants :=
  [DYLD_CHAINED_IMPORT; DYLD_CHAINED_IMPORT_ADDEND; DYLD_CHAINED_IMPORT_ADDEND64].

Definition dyld_chained_import_format_variants_of_discr : Z -> option dyld_chained_import_format_variants :=
  variant_of_discr dyld_chained_import_format_variants_all dyld_chained_import_format_variants_discr.

#[export] Instance dyld_chained_import_format_variants_eq_dec : EqDecision dyld_chained_import_format_variants.
Proof. solve_decision. Defined.

(** The special page starts. *)
Inductive dyld_chained_ptr_start_variants : Set :=
| DYLD_CHAINED_PTR_START_NONE
| DYLD_CHAINED_PTR_START_MULTI.

Definition dyld_chained_ptr_start_variants_discr (v : dyld_chained_ptr_start_variants) : Z :=
  match v with
  | DYLD_CHAINED_PTR_START_NONE => 0xffff
  | DYLD_CHAINED_PTR_START_MULTI => 0x8000
  end.

Definition dyld_chained_ptr_start_variants_all : list dyld_chained_ptr_start_variants :=
  [DYLD_CHAINED_PTR_START_NONE; DYLD_CHAINED_PTR_START_MULTI].

Definition dyld_chained_ptr_start_variants_of_discr : Z -> option dyld_chained_ptr_start_variants :=
  variant_of_discr dyld_chained_ptr_start_variants_all dyld_chained_ptr_start_variants_discr.

#[export] Instance dyld_chained_ptr_start_variants_eq_dec : EqDecision dyld_chained_ptr_start_variants.
Proof. solve_decision. Defined.

(** ** Constants *)

Arguments mach_magic_of_discr : simpl never.
Arguments macho_filetype_variants_of_discr : simpl never.
Arguments load_command_variants_of_discr : simpl never.
Arguments dyld_chained_ptr_format_variants_of_discr : simpl never.
Arguments dyld_chained_import_format_variants_of_discr : simpl never.
Arguments dyld_chained_ptr_start_variants_of_discr : simpl never.

Definition CPU_TYPE_ARM64 : Z := 0x0100000c.
Definition LC_REQ_DYLD : Z := 0x80000000.
Definition SECTION_TYPE : Z := 0x000000ff.
Definition S_THREAD_LOCAL_VARIABLES : Z := 0x13.
Definition S_INIT_FUNC_OFFSETS : Z := 0x16.
Definition EXPORT_SYMBOL_FLAGS_REEXPORT : Z := 0x08.
Definition SEG_TEXT : bytes := bstr "__TEXT".
Definition SEG_DATA : bytes := bstr "__DATA".
Definition SELF_LIBRARY_ORDINAL : Z := 0x00.
Definition NO_SECT : Z := 0.
Definition N_STAB : Z := 0xe0.
Definition N_PEXT : Z := 0x10.
Definition N_TYPE : Z := 0x0e.
Definition N_EXT : Z := 0x01.
Definition N_UNDF : Z := 0x0.
Definition N_SECT : Z := 0xe.
Definition N_WEAK_REF : Z := 0x0040.
Definition N_WEAK_DEF : Z := 0x0080.
Definition N_ARM_THUMB_DEF : Z := 0x0008.
Definition N_SYMBOL_RESOLVER : Z := 0x0100.
Definition N_ALT_ENTRY : Z := 0x0200.
Definition N_COLD_FUNC : Z := 0x0400.
Definition BIND_SPECIAL_DYLIB_SELF : Z := 0.
Definition BIND_SPECIAL_DYLIB_MAIN_EXECUTABLE : Z := 255.
Definition BIND_SPECIAL_DYLIB_FLAT_LOOKUP : Z := 254.
Definition BIND_SPECIAL_DYLIB_WEAK_LOOKUP : Z := 253.

Definition PAGE_ZERO_SIZE : Z := 0x100000000.
Definition DYLD_LIKELY_UNSLID_VM_ADDR : Z := 0x180000000.
Definition SYMBOL_NAME_LEN : Z := 128.
Definition LIBSYSTEM_PATH : bytes := bstr "/usr/lib/libSystem.B.dylib".

(** ** Structures *)

(** Header of a universal binary. *)
Record fat_header := Mk_fat_header {
  fh_magic : mach_magic;
  fh_nfat_arch : Z
}.

#[export] Instance fat_header_pread : Pread fat_header := {|
  fields_of := [CEnum 4 _ mach_magic_of_discr; UInt 4];
  of_fields '(v0, (v1, _)) :=
    Mk_fat_header v0 v1
|}.

(** One architecture of a universal binary. *)
Record fat_arch := Mk_fat_arch {
  fa_cputype : Z;
  fa_cpusubtype : Z;
  fa_offset : Z;
  fa_size : Z;
  fa_align : Z
}.

#[export] Instance fat_arch_pread : Pread fat_arch := {|
  fields_of := [SInt 4; SInt 4; UInt 4; UInt 4; UInt 4];
  of_fields '(v0, (v1, (v2, (v3, (v4, _))))) :=
    Mk_fat_arch v0 v1 v2 v3 v4
|}.

(** The header of a 64-bit image. *)
Record mach_header_64 := Mk_mach_header_64 {
  mh_magic : mach_magic;
  mh_cputype : Z;
  mh_cpusubtype : Z;
  mh_filetype : macho_filetype_variants;
  mh_ncmds : Z;
  mh_sizeofcmds : Z;
  mh_flags : Z;
  mh_reserved : Z
}.

#[export] Instance mach_header_64_pread : Pread mach_header_64 := {|
  fields_of := [CEnum 4 _ mach_magic_of_discr; SInt 4; SInt 4; CEnum 4 _ macho_filetype_variants_of_discr; UInt 4; UInt 4; UInt 4; UInt 4];
  of_fields '(v0, (v1, (v2, (v3, (v4, (v5, (v6, (v7, _)))))))) :=
    Mk_mach_header_64 v0 v1 v2 v3 v4 v5 v6 v7
|}.

(** The common prefix of load commands. *)
Record load_command := Mk_load_command {
  lc_cmd : load_command_variants;
  lc_cmdsize : Z
}.

#[export] Instance load_command_pread : Pread load_command := {|
  fields_of := [CEnum 4 _ load_command_variants_of_discr; UInt 4];
  of_fields '(v0, (v1, _)) :=
    Mk_load_command v0 v1
|}.

(** A string of a load command. *)
Record lc_str := Mk_lc_str {
  ls_offset : Z
}.

#[export] Instance lc_str_pread : Pread lc_str := {|
  fields_of := [UInt 4];
  of_fields '(v0, _) :=
    Mk_lc_str v0
|}.

(** [LC_SEGMENT_64]. *)
Record segment_command_64 := Mk_segment_command_64 {
  sc_cmd : load_command_variants;
  sc_cmdsize : Z;
  sc_segname : bytes;
  sc_vmaddr : Z;
  sc_vmsize : Z;
  sc_fileoff : Z;
  sc_filesize : Z;
  sc_maxprot : Z;
  sc_initprot : Z;
  sc_nsects : Z;
  sc_flags : Z
}.

#[export] Instance segment_command_64_pread : Pread segment_command_64 := {|
  fields_of := [CEnum 4 _ load_command_variants_of_discr; UInt 4; Arr 16; UInt 8; UInt 8; UInt 8; UInt 8; UInt 4; UInt 4; UInt 4; UInt 4];
  of_fields '(v0, (v1, (v2, (v3, (v4, (v5, (v6, (v7, (v8, (v9, (v10, _))))))))))) :=
    Mk_segment_command_64 v0 v1 v2 v3 v4 v5 v6 v7 v8 v9 v10
|}.

(** A section header. *)
Record section_64 := Mk_section_64 {
  se_sectname : bytes;
  se_segname : bytes;
  se_addr : Z;
  se_size : Z;
  se_offset : Z;
  se_align : Z;
  se_reloff : Z;
  se_nreloc : Z;
  se_flags : Z;
  se_reserved1 : Z;
  se_reserved2 : Z;
  se_reserved3 : Z
}.

#[export] Instance section_64_pread : Pread section_64 := {|
  fields_of := [Arr 16; Arr 16; UInt 8; UInt 8; UInt 4; UInt 4; UInt 4; UInt 4; UInt 4; UInt 4; UInt 4; UInt 4];
  of_fields '(v0, (v1, (v2, (v3, (v4, (v5, (v6, (v7, (v8, (v9, (v10, (v11, _)))))))))))) :=
    Mk_section_64 v0 v1 v2 v3 v4 v5 v6 v7 v8 v9 v10 v11
|}.

(** The library of a dylib command. *)
Record dylib := Mk_dylib {
  dl_name : lc_str;
  dl_timestamp : Z;
  dl_current_version : Z;
  dl_compatibility_version : Z
}.

#[export] Instance dylib_pread : Pread dylib := {|
  fields_of := [UInt 4; UInt 4; UInt 4; UInt 4];
  of_fields '(v0, (v1, (v2, (v3, _)))) :=
    Mk_dylib (Mk_lc_str v0) v1 v2 v3
|}.

(** [LC_LOAD_DYLIB] and its kin. *)
Record dylib_command := Mk_dylib_command {
  dc_cmd : load_command_variants;
  dc_cmdsize : Z;
  dc_dylib : dylib
}.

#[export] Instance dylib_command_pread : Pread dylib_command := {|
  fields_of := [CEnum 4 _ load_command_variants_of_discr; UInt 4; UInt 4; UInt 4; UInt 4; UInt 4];
  of_fields '(v0, (v1, (v2, (v3, (v4, (v5, _)))))) :=
    Mk_dylib_command v0 v1 (Mk_dylib (Mk_lc_str v2) v3 v4 v5)
|}.

(** [LC_SYMTAB]. *)
Record symtab_command := Mk_symtab_command {
  sy_cmd : load_command_variants;
  sy_cmdsize : Z;
  sy_symoff : Z;
  sy_nsyms : Z;
  sy_stroff : Z;
  sy_strsize : Z
}.

#[export] Instance symtab_command_pread : Pread symtab_command := {|
  fields_of := [CEnum 4 _ load_command_variants_of_discr; UInt 4; UInt 4; UInt 4; UInt 4; UInt 4];
  of_fields '(v0, (v1, (v2, (v3, (v4, (v5, _)))))) :=
    Mk_symtab_command v0 v1 v2 v3 v4 v5
|}.

(** A blob of the __LINKEDIT segment. *)
Record linkedit_data_command := Mk_linkedit_data_command {
  ld_cmd : load_command_variants;
  ld_cmdsize : Z;
  ld_dataoff : Z;
  ld_datasize : Z
}.

#[export] Instance linkedit_data_command_pread : Pread linkedit_data_command := {|
  fields_of := [CEnum 4 _ load_command_variants_of_discr; UInt 4; UInt 4; UInt 4];
  of_fields '(v0, (v1, (v2, (v3, _)))) :=
    Mk_linkedit_data_command v0 v1 v2 v3
|}.

(** [LC_MAIN]. *)
Record entry_point_command := Mk_entry_point_command {
  ep_cmd : load_command_variants;
  ep_cmdsize : Z;
  ep_entryoff : Z;
  ep_stacksize : Z
}.

#[export] Instance entry_point_command_pread : Pread entry_point_command := {|
  fields_of := [CEnum 4 _ load_command_variants_of_discr; UInt 4; UInt 8; UInt 8];
  of_fields '(v0, (v1, (v2, (v3, _)))) :=
    Mk_entry_point_command v0 v1 v2 v3
|}.

(** [LC_RPATH]. *)
Record rpath_command := Mk_rpath_command {
  rp_cmd : Z;
  rp_cmdsize : Z;
  rp_path : lc_str
}.

#[export] Instance rpath_command_pread : Pread rpath_command := {|
  fields_of := [UInt 4; UInt 4; UInt 4];
  of_fields '(v0, (v1, (v2, _))) :=
    Mk_rpath_command v0 v1 (Mk_lc_str v2)
|}.

(** The string index of a symbol. *)
Record nlist_64_n_un := Mk_nlist_64_n_un {
  nu_n_strx : Z
}.

#[export] Instance nlist_64_n_un_pread : Pread nlist_64_n_un := {|
  fields_of := [UInt 4];
  of_fields '(v0, _) :=
    Mk_nlist_64_n_un v0
|}.

(** A symbol table entry. *)
Record nlist_64 := Mk_nlist_64 {
  nl_n_un : nlist_64_n_un;
  nl_n_type : Z;
  nl_n_sect : Z;
  nl_n_desc : Z;
  nl_n_value : Z
}.

#[export] Instance nlist_64_pread : Pread nlist_64 := {|
  fields_of := [UInt 4; UInt 1; UInt 1; UInt 2; UInt 8];
  of_fields '(v0, (v1, (v2, (v3, (v4, _))))) :=
    Mk_nlist_64 (Mk_nlist_64_n_un v0) v1 v2 v3 v4
|}.

(** Header of the chained fixups. *)
Record dyld_chained_fixups_header := Mk_dyld_chained_fixups_header {
  cf_fixups_version : Z;
  cf_starts_offset : Z;
  cf_imports_offset : Z;
  cf_symbols_offset : Z;
  cf_imports_count : Z;
  cf_imports_format : dyld_chained_import_format_variants;
  cf_symbols_format : Z
}.

#[export] Instance dyld_chained_fixups_header_pread : Pread dyld_chained_fixups_header := {|
  fields_of := [UInt 4; UInt 4; UInt 4; UInt 4; UInt 4; CEnum 4 _ dyld_chained_import_format_variants_of_discr; UInt 4];
  of_fields '(v0, (v1, (v2, (v3, (v4, (v5, (v6, _))))))) :=
    Mk_dyld_chained_fixups_header v0 v1 v2 v3 v4 v5 v6
|}.

(** Segment starts of an image. *)
Record dyld_chained_starts_in_image := Mk_dyld_chained_starts_in_image {
  si_seg_count : Z
}.

#[export] Instance dyld_chained_starts_in_image_pread : Pread dyld_chained_starts_in_image := {|
  fields_of := [UInt 4];
  of_fields '(v0, _) :=
    Mk_dyld_chained_starts_in_image v0
|}.

(** Page starts of a segment. *)
Record dyld_chained_starts_in_segment := Mk_dyld_chained_starts_in_segment {
  ss_size : Z;
  ss_page_size : Z;
  ss_pointer_format : dyld_chained_ptr_format_variants;
  ss_segment_offset : Z;
  ss_max_valid_pointer : Z;
  ss_page_count : Z;
  ss_page_start : Z
}.

#[export] Instance dyld_chained_starts_in_segment_pread : Pread dyld_chained_starts_in_segment := {|
  fields_of := [UInt 4; UInt 2; CEnum 2 _ dyld_chained_ptr_format_variants_of_discr; UInt 8; UInt 4; UInt 2; UInt 2];
  of_fields '(v0, (v1, (v2, (v3, (v4, (v5, (v6, _))))))) :=
    Mk_dyld_chained_starts_in_segment v0 v1 v2 v3 v4 v5 v6
|}.

(** An import: packed fields. *)
Record dyld_chained_import := Mk_dyld_chained_import {
  im_0 : Z
}.

#[export] Instance dyld_chained_import_pread : Pread dyld_chained_import := {|
  fields_of := [UInt 4];
  of_fields '(v0, _) :=
    Mk_dyld_chained_import v0
|}.

(** An import with a 32-bit addend. *)
Record dyld_chained_import_addend := Mk_dyld_chained_import_addend {
  ia_header : dyld_chained_import;
  ia_addend : Z
}.

#[export] Instance dyld_chained_import_addend_pread : Pread dyld_chained_import_addend := {|
  fields_of := [UInt 4; SInt 4];
  of_fields '(v0, (v1, _)) :=
    Mk_dyld_chained_import_addend (Mk_dyld_chained_import v0) v1
|}.

(** An import with a 64-bit addend. *)
Record dyld_chained_import_addend64 := Mk_dyld_chained_import_addend64 {
  ib_header : dyld_chained_import;
  ib_addend : Z
}.

#[export] Instance dyld_chained_import_addend64_pread : Pread dyld_chained_import_addend64 := {|
  fields_of := [UInt 4; UInt 8];
  of_fields '(v0, (v1, _)) :=
    Mk_dyld_chained_import_addend64 (Mk_dyld_chained_import v0) v1
|}.

(** The header of a shared-cache file. *)
Record dyld_cache_header := Mk_dyld_cache_header {
  ch_magic : bytes;
  ch_mapping_offset : Z;
  ch_mapping_count : Z;
  ch_images_offset_old : Z;
  ch_images_count_old : Z;
  ch_dyld_base_address : Z;
  ch_code_signature_offset : Z;
  ch_code_signature_size : Z;
  ch_slide_info_offset_unused : Z;
  ch_slide_info_size_unused : Z;
  ch_local_symbols_offset : Z;
  ch_local_symbols_size : Z;
  ch_uuid : bytes;
  ch_cache_type : Z;
  ch_branch_pools_offset : Z;
  ch_branch_pools_count : Z;
  ch_dyld_in_cache_mh : Z;
  ch_dyld_in_cache_entry : Z;
  ch_images_text_offset : Z;
  ch_images_text_count : Z;
  ch_patch_info_addr : Z;
  ch_patch_info_size : Z;
  ch_other_image_group_addr_unused : Z;
  ch_other_image_group_size_unused : Z;
  ch_prog_closures_addr : Z;
  ch_prog_closures_size : Z;
  ch_prog_closures_trie_addr : Z;
  ch_prog_closures_trie_size : Z;
  ch_platform : Z;
  ch_flags : Z;
  ch_shared_region_start : Z;
  ch_shared_region_size : Z;
  ch_max_slide : Z;
  ch_dylibs_image_array_addr : Z;
  ch_dylibs_image_array_size : Z;
  ch_dylibs_trie_addr : Z;
  ch_dylibs_trie_size : Z;
  ch_other_image_array_addr : Z;
  ch_other_image_array_size : Z;
  ch_other_trie_addr : Z;
  ch_other_trie_size : Z;
  ch_mapping_with_slide_offset : Z;
  ch_mapping_with_slide_count : Z;
  ch_dylibs_pbl_state_array_addr_unused : Z;
  ch_dylibs_pbl_set_addr : Z;
  ch_programs_pbl_set_pool_addr : Z;
  ch_programs_pbl_set_pool_size : Z;
  ch_program_trie_addr : Z;
  ch_program_trie_size : Z;
  ch_os_version : Z;
  ch_alt_platform : Z;
  ch_alt_os_version : Z;
  ch_swift_opts_offset : Z;
  ch_swift_opts_size : Z;
  ch_sub_cache_array_offset : Z;
  ch_sub_cache_array_count : Z;
  ch_symbol_file_uuid : bytes;
  ch_rosetta_read_only_addr : Z;
  ch_rosetta_read_only_size : Z;
  ch_rosetta_read_write_addr : Z;
  ch_rosetta_read_write_size : Z;
  ch_images_offset : Z;
  ch_images_count : Z;
  ch_cache_sub_type : Z;
  ch_objc_opts_offset : Z;
  ch_objc_opts_size : Z;
  ch_cache_atlas_offset : Z;
  ch_cache_atlas_size : Z;
  ch_dynamic_data_offset : Z;
  ch_dynamic_data_max_size : Z;
  ch_tpro_mappings_offset : Z;
  ch_tpro_mappings_count : Z;
  ch_function_variant_info_addr : Z;
  ch_function_variant_info_size : Z;
  ch_prewarming_data_offset : Z;
  ch_prewarming_data_size : Z
}.

#[export] Instance dyld_cache_header_pread : Pread dyld_cache_header := {|
  fields_of := [Arr 16; UInt 4; UInt 4; UInt 4; UInt 4; UInt 8; UInt 8; UInt 8; UInt 8; UInt 8; UInt 8; UInt 8; Arr 16; UInt 8; UInt 4; UInt 4; UInt 8; UInt 8; UInt 8; UInt 8; UInt 8; UInt 8; UInt 8; UInt 8; UInt 8; UInt 8; UInt 8; UInt 8; UInt 4; UInt 4; UInt 8; UInt 8; UInt 8; UInt 8; UInt 8; UInt 8; UInt 8; UInt 8; UInt 8; UInt 8; UInt 8; UInt 4; UInt 4; UInt 8; UInt 8; UInt 8; UInt 8; UInt 8; UInt 4; UInt 4; UInt 4; UInt 4; UInt 8; UInt 8; UInt 4; UInt 4; Arr 16; UInt 8; UInt 8; UInt 8; UInt 8; UInt 4; UInt 4; UInt 4; UInt 8; UInt 8; UInt 8; UInt 8; UInt 8; UInt 8; UInt 4; UInt 4; UInt 8; UInt 8; UInt 8; UInt 8];
  of_fields '(v0, (v1, (v2, (v3, (v4, (v5, (v6, (v7, (v8, (v9, (v10, (v11, (v12, (v13, (v14, (v15, (v16, (v17, (v18, (v19, (v20, (v21, (v22, (v23, (v24, (v25, (v26, (v27, (v28, (v29, (v30, (v31, (v32, (v33, (v34, (v35, (v36, (v37, (v38, (v39, (v40, (v41, (v42, (v43, (v44, (v45, (v46, (v47, (v48, (v49, (v50, (v51, (v52, (v53, (v54, (v55, (v56, (v57, (v58, (v59, (v60, (v61, (v62, (v63, (v64, (v65, (v66, (v67, (v68, (v69, (v70, (v71, (v72, (v73, (v74, (v75, _)))))))))))))))))))))))))))))))))))))))))))))))))))))))))))))))))))))))))))) :=
    Mk_dyld_cache_header v0 v1 v2 v3 v4 v5 v6 v7 v8 v9 v10 v11 v12 v13 v14 v15 v16 v17 v18 v19 v20 v21 v22 v23 v24 v25 v26 v27 v28 v29 v30 v31 v32 v33 v34 v35 v36 v37 v38 v39 v40 v41 v42 v43 v44 v45 v46 v47 v48 v49 v50 v51 v52 v53 v54 v55 v56 v57 v58 v59 v60 v61 v62 v63 v64 v65 v66 v67 v68 v69 v70 v71 v72 v73 v74 v75
|}.

(** One entry of the mapping table. *)
Record dyld_cache_mapping_info := Mk_dyld_cache_mapping_info {
  mi_address : Z;
  mi_size : Z;
  mi_file_offset : Z;
  mi_max_prot : Z;
  mi_init_prot : Z
}.

#[export] Instance dyld_cache_mapping_info_pread : Pread dyld_cache_mapping_info := {|
  fields_of := [UInt 8; UInt 8; UInt 8; UInt 4; UInt 4];
  of_fields '(v0, (v1, (v2, (v3, (v4, _))))) :=
    Mk_dyld_cache_mapping_info v0 v1 v2 v3 v4
|}.

(** One image of the cache. *)
Record dyld_cache_image_info := Mk_dyld_cache_image_info {
  ii_address : Z;
  ii_mod_time : Z;
  ii_inode : Z;
  ii_path_file_offset : Z;
  ii_pad : Z
}.

#[export] Instance dyld_cache_image_info_pread : Pread dyld_cache_image_info := {|
  fields_of := [UInt 8; UInt 8; UInt 8; UInt 4; UInt 4];
  of_fields '(v0, (v1, (v2, (v3, (v4, _))))) :=
    Mk_dyld_cache_image_info v0 v1 v2 v3 v4
|}.

(** One subcache. *)
Record dyld_subcache_entry := Mk_dyld_subcache_entry {
  su_uuid : bytes;
  su_cache_vm_offset : Z;
  su_file_suffix : bytes
}.

#[export] Instance dyld_subcache_entry_pread : Pread dyld_subcache_entry := {|
  fields_of := [Arr 16; UInt 8; Arr 32];
  of_fields '(v0, (v1, (v2, _))) :=
    Mk_dyld_subcache_entry v0 v1 v2
|}.

(** [LC_DYLD_INFO_ONLY]. *)
Record dyld_info_command := Mk_dyld_info_command {
  di_cmd : Z;
  di_cmdsize : Z;
  di_rebase_off : Z;
  di_rebase_size : Z;
  di_bind_off : Z;
  di_bind_size : Z;
  di_weak_bind_off : Z;
  di_weak_bind_size : Z;
  di_lazy_bind_off : Z;
  di_lazy_bind_size : Z;
  di_export_off : Z;
  di_export_size : Z
}.

#[export] Instance dyld_info_command_pread : Pread dyld_info_command := {|
  fields_of := [UInt 4; UInt 4; UInt 4; UInt 4; UInt 4; UInt 4; UInt 4; UInt 4; UInt 4; UInt 4; UInt 4; UInt 4];
  of_fields '(v0, (v1, (v2, (v3, (v4, (v5, (v6, (v7, (v8, (v9, (v10, (v11, _)))))))))))) :=
    Mk_dyld_info_command v0 v1 v2 v3 v4 v5 v6 v7 v8 v9 v10 v11
|}.

(** The header of a dylib command. *)
Record dylib_command_header := Mk_dylib_command_header {
  dh_cmd : Z;
  dh_cmdsize : Z;
  dh_name_offset : Z;
  dh_timestamp : Z;
  dh_current_version : Z;
  dh_compatibility_version : Z
}.

#[export] Instance dylib_command_header_pread : Pread dylib_command_header := {|
  fields_of := [UInt 4; UInt 4; UInt 4; UInt 4; UInt 4; UInt 4];
  of_fields '(v0, (v1, (v2, (v3, (v4, (v5, _)))))) :=
    Mk_dylib_command_header v0 v1 v2 v3 v4 v5
|}.

(** ** Packed chained-fixup pointers

    The tuple structures over a [u64] (a [u32] for the import) and their
    accessors, as functions of the word they wrap. *)

(** *** [dyld_chained_ptr_arm64e_rebase] *)

Definition dyld_chained_ptr_arm64e_rebase_target (v : Z) : Z := Z.land v 0x7ffffffffff.
Definition dyld_chained_ptr_arm64e_rebase_high8 (v : Z) : Z := as_u 8 (Z.land (Z.shiftr v 43) 0xff).
Definition dyld_chained_ptr_arm64e_rebase_next (v : Z) : Z := as_u 16 (Z.land (Z.shiftr v 51) 0x7ff).

(** *** [dyld_chained_ptr_arm64e_bind] *)

Definition dyld_chained_ptr_arm64e_bind_ordinal (v : Z) : Z := as_u 16 (Z.land v 0xffff).
Definition dyld_chained_ptr_arm64e_bind_addend (v : Z) : Z := as_i 32 (Z.land (Z.shiftr v 32) 0x7ffff).
Definition dyld_chained_ptr_arm64e_bind_next (v : Z) : Z := as_u 16 (Z.land (Z.shiftr v 51) 0x7ff).

(** *** [dyld_chained_ptr_arm64e_auth_rebase] *)

Definition dyld_chained_ptr_arm64e_auth_rebase_target (v : Z) : Z := as_u 32 (Z.land v 0xffffffff).
Definition dyld_chained_ptr_arm64e_auth_rebase_diversity (v : Z) : Z := as_u 16 (Z.land (Z.shiftr v 32) 0xffff).
Definition dyld_chained_ptr_arm64e_auth_rebase_addr_div (v : Z) : bool := negb (Z.land v (Z.shiftl 1 48) =? 0).
Definition dyld_chained_ptr_arm64e_auth_rebase_key (v : Z) : Z := as_u 8 (Z.land (Z.shiftr v 49) 0x3).
Definition dyld_chained_ptr_arm64e_auth_rebase_next (v : Z) : Z := as_u 16 (Z.land (Z.shiftr v 51) 0x7ff).

(** *** [dyld_chained_ptr_arm64e_auth_bind] *)

Definition dyld_chained_ptr_arm64e_auth_bind_ordinal (v : Z) : Z := as_u 16 (Z.land v 0xffff).
Definition dyld_chained_ptr_arm64e_auth_bind_diversity (v : Z) : Z := as_u 16 (Z.land (Z.shiftr v 32) 0xffff).
Definition dyld_chained_ptr_arm64e_auth_bind_addr_div (v : Z) : bool := negb (Z.land v (Z.shiftl 1 48) =? 0).
Definition dyld_chained_ptr_arm64e_auth_bind_key (v : Z) : Z := as_u 8 (Z.land (Z.shiftr v 49) 0x3).
Definition dyld_chained_ptr_arm64e_auth_bind_next (v : Z) : Z := as_u 16 (Z.land (Z.shiftr v 51) 0x7ff).

(** *** [dyld_chained_ptr_64_rebase] *)

Definition dyld_chained_ptr_64_rebase_target (v : Z) : Z := Z.land v 0xfffffffff.
Definition dyld_chained_ptr_64_rebase_high8 (v : Z) : Z := as_u 8 (Z.land (Z.shiftr v 36) 0xff).
Definition dyld_chained_ptr_64_rebase_next (v : Z) : Z := as_u 16 (Z.land (Z.shiftr v 51) 0xfff).

(** *** [dyld_chained_ptr_64_bind] *)

Definition dyld_chained_ptr_64_bind_ordinal (v : Z) : Z := as_u 32 (Z.land v 0xffffff).
Definition dyld_chained_ptr_64_bind_addend (v : Z) : Z := as_u 8 (Z.land (Z.shiftr v 24) 0xff).
Definition dyld_chained_ptr_64_bind_next (v : Z) : Z := as_u 16 (Z.land (Z.shiftr v 51) 0xfff).

(** *** [dyld_chained_ptr_arm64e_bind_24] *)

Definition dyld_chained_ptr_arm64e_bind_24_ordinal (v : Z) : Z := as_u 32 (Z.land v 0xffffff).
Definition dyld_chained_ptr_arm64e_bind_24_addend (v : Z) : Z := as_i 32 (Z.land (Z.shiftr v 32) 0x7ffff).
Definition dyld_chained_ptr_arm64e_bind_24_next (v : Z) : Z := as_u 16 (Z.land (Z.shiftr v 51) 0x7ff).

(** *** [dyld_chained_ptr_arm64e_auth_bind_24] *)

Definition dyld_chained_ptr_arm64e_auth_bind_24_ordinal (v : Z) : Z := as_u 32 (Z.land v 0xffffff).
Definition dyld_chained_ptr_arm64e_auth_bind_24_diversity (v : Z) : Z := as_u 16 (Z.land (Z.shiftr v 32) 0xffff).
Definition dyld_chained_ptr_arm64e_auth_bind_24_addr_div (v : Z) : bool := negb (Z.land v (Z.shiftl 1 48) =? 0).
Definition dyld_chained_ptr_arm64e_auth_bind_24_key (v : Z) : Z := as_u 8 (Z.land (Z.shiftr v 49) 0x3).
Definition dyld_chained_ptr_arm64e_auth_bind_24_next (v : Z) : Z := as_u 16 (Z.land (Z.shiftr v 51) 0x7ff).

(** *** [dyld_chained_ptr_arm64e_segmented_rebase] *)

Definition dyld_chained_ptr_arm64e_segmented_rebase_target_seg_offset (v : Z) : Z := as_u 32 (Z.land v 0xfffffff).
Definition dyld_chained_ptr_arm64e_segmented_rebase_target_seg_index (v : Z) : Z := as_u 8 (Z.land (Z.shiftr v 28) 0xf).
Definition dyld_chained_ptr_arm64e_segmented_rebase_next (v : Z) : Z := as_u 16 (Z.land (Z.shiftr v 51) 0xfff).

(** *** [dyld_chained_ptr_arm64e_auth_segmented_rebase] *)

Definition dyld_chained_ptr_arm64e_auth_segmented_rebase_target_seg_offset (v : Z) : Z := as_u 32 (Z.land v 0xfffffff).
Definition dyld_chained_ptr_arm64e_auth_segmented_rebase_target_seg_index (v : Z) : Z := as_u 8 (Z.land (Z.shiftr v 28) 0xf).
Definition dyld_chained_ptr_arm64e_auth_segmented_rebase_diversity (v : Z) : Z := as_u 16 (Z.land (Z.shiftr v 32) 0xffff).
Definition dyld_chained_ptr_arm64e_auth_segmented_rebase_addr_div (v : Z) : bool := negb (Z.land v (Z.shiftl 1 48) =? 0).
Definition dyld_chained_ptr_arm64e_auth_segmented_rebase_key (v : Z) : Z := as_u 8 (Z.land (Z.shiftr v 49) 0x3).
Definition dyld_chained_ptr_arm64e_auth_segmented_rebase_next (v : Z) : Z := as_u 16 (Z.land (Z.shiftr v 51) 0xfff).

(** *** [dyld_chained_ptr_64_kernel_cache_rebase] *)

Definition dyld_chained_ptr_64_kernel_cache_rebase_target (v : Z) : Z := as_u 32 (Z.land v 0x3fffffff).
Definition dyld_chained_ptr_64_kernel_cache_rebase_cache_level (v : Z) : Z := as_u 8 (Z.land (Z.shiftr v 30) 0x3).
Definition dyld_chained_ptr_64_kernel_cache_rebase_diversity (v : Z) : Z := as_u 16 (Z.land (Z.shiftr v 32) 0xffff).
Definition dyld_chained_ptr_64_kernel_cache_rebase_addr_div (v : Z) : bool := negb (Z.land v (Z.shiftl 1 48) =? 0).
Definition dyld_chained_ptr_64_kernel_cache_rebase_key (v : Z) : Z := as_u 8 (Z.land (Z.shiftr v 49) 0x3).
Definition dyld_chained_ptr_64_kernel_cache_rebase_next (v : Z) : Z := as_u 16 (Z.land (Z.shiftr v 51) 0xfff).
Definition dyld_chained_ptr_64_kernel_cache_rebase_is_auth (v : Z) : bool := negb (Z.land v (Z.shiftl 1 63) =? 0).

(** *** [dyld_chained_ptr_arm64e_shared_cache_rebase] *)

Definition dyld_chained_ptr_arm64e_shared_cache_rebase_runtime_offset (v : Z) : Z := Z.land v 0x3ffffffff.
Definition dyld_chained_ptr_arm64e_shared_cache_rebase_high8 (v : Z) : Z := as_u 8 (Z.land (Z.shiftr v 34) 0xff).
Definition dyld_chained_ptr_arm64e_shared_cache_rebase_next (v : Z) : Z := as_u 16 (Z.land (Z.shiftr v 52) 0x7ff).

(** *** [dyld_chained_import] *)

Definition dyld_chained_import_lib_ordinal (v : Z) : Z := as_u 8 (Z.land v 0xff).
Definition dyld_chained_import_weak_import (v : Z) : bool := negb (Z.land v 0x100 =? 0).
Definition dyld_chained_import_name_offset (v : Z) : Z := Z.shiftr (Z.land v 0xfffffe00) 9.

(** [get_library_ordinal(n_desc)] *)
Definition get_library_ordinal (n_desc : Z) : Z :=
  as_u 8 (Z.land (Z.shiftr n_desc 8) 0xff).

(** [set_library_ordinal(&mut n_desc, ordinal)]: the new descriptor *)
Definition set_library_ordinal (n_desc ordinal : Z) : Z :=
  Z.lor (Z.land n_desc 0x00ff) (as_u 16 (Z.shiftl ordinal 8)).

(** ** Discriminants *)

Section Discr.
Context {T : Set} (all : list T) (discr : T -> Z).
Hypothesis Hall : forall v, v ∈ all.
Hypothesis Hnodup : NoDup (discr <$> all).

Lemma discr_inj v w : discr v = discr w -> v = w.
Proof.
  intros Hvw.
  destruct (proj1 (list_elem_of_lookup _ _) (Hall v)) as [i Hi].
  destruct (proj1 (list_elem_of_lookup _ _) (Hall w)) as [j Hj].
  assert (i = j) as ->.
  { apply (NoDup_lookup (discr <$> all) i j (discr v)); [done|..];
      rewrite list_lookup_fmap, ?Hi, ?Hj; cbn; congruence. }
  congruence.
Qed.

Lemma variant_of_discr_Some z v :
  variant_of_discr all discr z = Some v <-> discr v = z.
Proof.
  unfold variant_of_discr. split.
  - intros [_ Hv]%List.find_some. by apply Z.eqb_eq.
  - intros Hv. destruct (List.find _ all) as [w|] eqn:E.
    + apply List.find_some in E as [_ Hw%Z.eqb_eq]. f_equal. apply discr_inj. congruence.
    + pose proof (List.find_none _ _ E v (proj1 (list_elem_of_In _ _) (Hall v))) as H%Z.eqb_neq. done.
Qed.
End Discr.

(** Close the two conditions of [variant_of_discr_Some] by enumeration. *)
Ltac solve_discr :=
  apply variant_of_discr_Some;
  [ intros []; apply (bool_decide_eq_true_1 _); reflexivity
  | apply (bool_decide_eq_true_1 _); vm_compute; reflexivity ].

Lemma mach_magic_of_discr_Some z v :
  mach_magic_of_discr z = Some v <-> mach_magic_discr v = z.
Proof. solve_discr. Qed.

Lemma macho_filetype_variants_of_discr_Some z v :
  macho_filetype_variants_of_discr z = Some v <-> macho_filetype_variants_discr v = z.
Proof. solve_discr. Qed.

(** ** Bit fields *)

(** Bits [lo .. lo + n - 1] of [v]. *)
Definition bits (v lo n : Z) : Z := (v / 2 ^ lo) mod 2 ^ n.

Lemma bits_range v lo n : 0 <= n -> 0 <= bits v lo n < 2 ^ n.
Proof. intros. apply Z.mod_pos_bound, Z.pow_pos_nonneg; lia. Qed.

Lemma land_shiftr_bits v lo n m :
  m = Z.ones n -> 0 <= lo -> 0 <= n -> Z.land (Z.shiftr v lo) m = bits v lo n.
Proof. intros -> Hlo Hn. by rewrite Z.land_ones, Z.shiftr_div_pow2. Qed.

Lemma land_bits v n m : m = Z.ones n -> 0 <= n -> Z.land v m = bits v 0 n.
Proof. intros -> Hn. rewrite Z.land_ones by done. unfold bits. by rewrite Z.div_1_r. Qed.

Lemma as_u_bits w v lo n : 0 <= n <= w -> as_u w (bits v lo n) = bits v lo n.
Proof.
  intros Hn. unfold as_u. apply Z.mod_small.
  pose proof (bits_range v lo n ltac:(lia)).
  pose proof (Z.pow_le_mono_r 2 n w ltac:(lia) ltac:(lia)). lia.
Qed.

Lemma as_i_bits w v lo n : 0 <= n < w -> as_i w (bits v lo n) = bits v lo n.
Proof.
  intros Hn. pose proof (bits_range v lo n ltac:(lia)).
  pose proof (Z.pow_le_mono_r 2 n (w - 1) ltac:(lia) ltac:(lia)).
  pose proof (Z.pow_lt_mono_r 2 (w - 1) w ltac:(lia) ltac:(lia) ltac:(lia)).
  unfold as_i. rewrite Z.mod_small by lia.
  by destruct (Z.ltb_spec (bits v lo n) (2 ^ (w - 1))); [|lia].
Qed.

Lemma flag_testbit v k : 0 <= k -> negb (Z.land v (Z.shiftl 1 k) =? 0) = Z.testbit v k.
Proof.
  intros Hk. rewrite Z.shiftl_1_l. destruct (Z.testbit v k) eqn:E.
  - apply negb_true_iff, Z.eqb_neq. intros H0.
    assert (Z.testbit (Z.land v (2 ^ k)) k = false) as Hf by (by rewrite H0, Z.bits_0).
    rewrite Z.land_spec, E, Z.pow2_bits_true in Hf by lia. done.
  - apply negb_false_iff, Z.eqb_eq, Z.bits_inj'. intros i Hi.
    rewrite Z.land_spec, Z.bits_0.
    destruct (decide (i = k)) as [->|Hne]; [by rewrite E|].
    rewrite Z.pow2_bits_false by lia. apply andb_false_r.
Qed.

(** A flag as the one bit of its field *)
Definition flag (f : Z -> bool) (v : Z) : Z := Z.b2z (f v).

(** Every accessor, with the first bit and the number of bits its type documents,
    and whether the documented values are signed: the addends of nineteen bits
    are (+/-256K). *)
Definition packed_fields : list ((Z -> Z) * Z * Z * bool) :=
  [(dyld_chained_ptr_arm64e_rebase_target, 0, 43, false);
   (dyld_chained_ptr_arm64e_rebase_high8, 43, 8, false);
   (dyld_chained_ptr_arm64e_rebase_next, 51, 11, false);
   (dyld_chained_ptr_arm64e_bind_ordinal, 0, 16, false);
   (dyld_chained_ptr_arm64e_bind_addend, 32, 19, true);
   (dyld_chained_ptr_arm64e_bind_next, 51, 11, false);
   (dyld_chained_ptr_arm64e_auth_rebase_target, 0, 32, false);
   (dyld_chained_ptr_arm64e_auth_rebase_diversity, 32, 16, false);
   (flag dyld_chained_ptr_arm64e_auth_rebase_addr_div, 48, 1, false);
   (dyld_chained_ptr_arm64e_auth_rebase_key, 49, 2, false);
   (dyld_chained_ptr_arm64e_auth_rebase_next, 51, 11, false);
   (dyld_chained_ptr_arm64e_auth_bind_ordinal, 0, 16, false);
   (dyld_chained_ptr_arm64e_auth_bind_diversity, 32, 16, false);
   (flag dyld_chained_ptr_arm64e_auth_bind_addr_div, 48, 1, false);
   (dyld_chained_ptr_arm64e_auth_bind_key, 49, 2, false);
   (dyld_chained_ptr_arm64e_auth_bind_next, 51, 11, false);
   (dyld_chained_ptr_64_rebase_target, 0, 36, false);
   (dyld_chained_ptr_64_rebase_high8, 36, 8, false);
   (dyld_chained_ptr_64_rebase_next, 51, 12, false);
   (dyld_chained_ptr_64_bind_ordinal, 0, 24, false);
   (dyld_chained_ptr_64_bind_addend, 24, 8, false);
   (dyld_chained_ptr_64_bind_next, 51, 12, false);
   (dyld_chained_ptr_arm64e_bind_24_ordinal, 0, 24, false);
   (dyld_chained_ptr_arm64e_bind_24_addend, 32, 19, true);
   (dyld_chained_ptr_arm64e_bind_24_next, 51, 11, false);
   (dyld_chained_ptr_arm64e_auth_bind_24_ordinal, 0, 24, false);
   (dyld_chained_ptr_arm64e_auth_bind_24_diversity, 32, 16, false);
   (flag dyld_chained_ptr_arm64e_auth_bind_24_addr_div, 48, 1, false);
   (dyld_chained_ptr_arm64e_auth_bind_24_key, 49, 2, false);
   (dyld_chained_ptr_arm64e_auth_bind_24_next, 51, 11, false);
   (dyld_chained_ptr_arm64e_segmented_rebase_target_seg_offset, 0, 28, false);
   (dyld_chained_ptr_arm64e_segmented_rebase_target_seg_index, 28, 4, false);
   (dyld_chained_ptr_arm64e_segmented_rebase_next, 51, 12, false);
   (dyld_chained_ptr_arm64e_auth_segmented_rebase_target_seg_offset, 0, 28, false);
   (dyld_chained_ptr_arm64e_auth_segmented_rebase_target_seg_index, 28, 4, false);
   (dyld_chained_ptr_arm64e_auth_segmented_rebase_diversity, 32, 16, false);
   (flag dyld_chained_ptr_arm64e_auth_segmented_rebase_addr_div, 48, 1, false);
   (dyld_chained_ptr_arm64e_auth_segmented_rebase_key, 49, 2, false);
   (dyld_chained_ptr_arm64e_auth_segmented_rebase_next, 51, 12, false);
   (dyld_chained_ptr_64_kernel_cache_rebase_target, 0, 30, false);
   (dyld_chained_ptr_64_kernel_cache_rebase_cache_level, 30, 2, false);
   (dyld_chained_ptr_64_kernel_cache_rebase_diversity, 32, 16, false);
   (flag dyld_chained_ptr_64_kernel_cache_rebase_addr_div, 48, 1, false);
   (dyld_chained_ptr_64_kernel_cache_rebase_key, 49, 2, false);
   (dyld_chained_ptr_64_kernel_cache_rebase_next, 51, 12, false);
   (flag dyld_chained_ptr_64_kernel_cache_rebase_is_auth, 63, 1, false);
   (dyld_chained_ptr_arm64e_shared_cache_rebase_runtime_offset, 0, 34, false);
   (dyld_chained_ptr_arm64e_shared_cache_rebase_high8, 34, 8, false);
   (dyld_chained_ptr_arm64e_shared_cache_rebase_next, 52, 11, false);
   (dyld_chained_import_lib_ordinal, 0, 8, false);
   (flag dyld_chained_import_weak_import, 8, 1, false);
   (dyld_chained_import_name_offset, 9, 23, false)].

Lemma name_offset_bits v : dyld_chained_import_name_offset v = bits v 9 23.
Proof.
  unfold dyld_chained_import_name_offset. rewrite Z.shiftr_land.
  change (Z.shiftr 0xfffffe00 9) with (Z.ones 23).
  by apply land_shiftr_bits.
Qed.

Lemma flag_bits v k : 0 <= k -> Z.b2z (negb (Z.land v (Z.shiftl 1 k) =? 0)) = bits v k 1.
Proof. intros Hk. rewrite flag_testbit by done. by rewrite Z.testbit_spec'. Qed.

(** Read an accessor as the range of bits it extracts. *)
Ltac solve_bits :=
  first
    [ apply name_offset_bits
    | lazymatch goal with
      | |- flag ?f ?v = bits ?v ?k 1 => unfold flag, f; exact (flag_bits v k ltac:(lia))
      end
    | lazymatch goal with
      | |- ?f ?v = bits ?v ?lo ?n =>
          unfold f;
          first [ rewrite (land_shiftr_bits v lo n) by (reflexivity || lia)
                | rewrite (land_bits v n) by (reflexivity || lia) ]
      end;
      rewrite ?as_u_bits, ?as_i_bits by lia; reflexivity ].

Lemma packed_fields_bits :
  Forall (fun '(f, lo, n, _) => forall v, f v = bits v lo n) packed_fields.
Proof.
  unfold packed_fields.
  repeat (apply Forall_cons; split; [intros v; solve_bits|]).
  by apply Forall_nil.
Qed.

(** Overwrite bits [lo .. lo + n - 1] of [v] with [x]: how a static linker
    fills one field of a packed word. *)
Definition set_bits (v lo n x : Z) : Z :=
  Z.lor (Z.ldiff v (Z.shiftl (Z.ones n) lo)) (Z.shiftl x lo).

Lemma testbit_bits v lo n i :
  0 <= lo -> 0 <= n -> 0 <= i ->
  Z.testbit (bits v lo n) i = (i <? n) && Z.testbit v (i + lo).
Proof.
  intros Hlo Hn Hi. unfold bits.
  destruct (Z.ltb_spec i n) as [Hlt|Hge]; cbn.
  - by rewrite Z.mod_pow2_bits_low, Z.div_pow2_bits by lia.
  - by rewrite Z.mod_pow2_bits_high by lia.
Qed.

Lemma testbit_set_bits v lo n x i :
  0 <= lo -> 0 <= n -> 0 <= x < 2 ^ n -> 0 <= i ->
  Z.testbit (set_bits v lo n x) i =
    if (lo <=? i) && (i <? lo + n) then Z.testbit x (i - lo) else Z.testbit v i.
Proof.
  intros Hlo Hn Hx Hi. unfold set_bits.
  rewrite Z.lor_spec, Z.ldiff_spec, !Z.shiftl_spec by lia.
  destruct (Z.leb_spec lo i) as [Hl|Hl]; cbn.
  - rewrite Z.testbit_ones by lia.
    destruct (Z.ltb_spec i (lo + n)) as [Hu|Hu].
    + rewrite (proj2 (Z.leb_le 0 (i - lo))), (proj2 (Z.ltb_lt (i - lo) n)) by lia.
      cbn. by rewrite andb_false_r.
    + rewrite (proj2 (Z.ltb_ge (i - lo) n)), andb_false_r by lia. cbn.
      rewrite andb_true_r. rewrite <- (Z.mod_small x (2 ^ n)) by lia.
      rewrite Z.mod_pow2_bits_high by lia. apply orb_false_r.
  - rewrite !(Z.testbit_neg_r _ (i - lo)) by lia. cbn.
    by rewrite andb_true_r, orb_false_r.
Qed.

Lemma bits_set_same v lo n x :
  0 <= lo -> 0 <= n -> 0 <= x < 2 ^ n -> bits (set_bits v lo n x) lo n = x.
Proof.
  intros Hlo Hn Hx. apply Z.bits_inj'. intros i Hi.
  rewrite testbit_bits, testbit_set_bits by lia.
  rewrite (proj2 (Z.leb_le lo (i + lo))) by lia.
  destruct (Z.ltb_spec i n) as [Hlt|Hge]; cbn.
  - rewrite (proj2 (Z.ltb_lt (i + lo) (lo + n))) by lia. f_equal. lia.
  - rewrite <- (Z.mod_small x (2 ^ n)) by lia. by rewrite Z.mod_pow2_bits_high by lia.
Qed.

Lemma bits_set_other v lo n x lo' n' :
  0 <= lo -> 0 <= n -> 0 <= x < 2 ^ n -> 0 <= lo' -> 0 <= n' ->
  lo' + n' <= lo \/ lo + n <= lo' ->
  bits (set_bits v lo n x) lo' n' = bits v lo' n'.
Proof.
  intros Hlo Hn Hx Hlo' Hn' Hdisj. apply Z.bits_inj'. intros i Hi.
  rewrite !testbit_bits by lia. destruct (Z.ltb_spec i n') as [Hlt|Hge]; cbn; [|done].
  rewrite testbit_set_bits by lia.
  destruct (Z.leb_spec lo (i + lo')), (Z.ltb_spec (i + lo') (lo + n)); cbn; (done || lia).
Qed.

(** The documented values of a field *)
Definition field_range (signed : bool) (n x : Z) : Prop :=
  if signed then - 2 ^ (n - 1) <= x < 2 ^ (n - 1) else 0 <= x < 2 ^ n.

Lemma packed_fields_range f lo n s : (f, lo, n, s) ∈ packed_fields -> 0 <= lo /\ 0 < n.
Proof.
  assert (Forall (fun '(f, lo, n, _) => 0 <= lo /\ 0 < n) packed_fields) as HF.
  { unfold packed_fields. repeat (apply Forall_cons; split; [lia|]). by apply Forall_nil. }
  rewrite Forall_forall in HF. apply (HF (f, lo, n, s)).
Qed.

(** Two's complement of a documented value *)
Lemma field_as_u s n x :
  0 < n -> field_range s n x -> as_u n x = if 0 <=? x then x else x + 2 ^ n.
Proof.
  intros Hn Hx. unfold field_range, as_u in *. assert (2 ^ n = 2 * 2 ^ (n - 1)) as E.
  { rewrite <- Z.pow_succ_r by lia. f_equal. lia. }
  assert (0 < 2 ^ (n - 1)) by (apply Z.pow_pos_nonneg; lia).
  destruct (Z.leb_spec 0 x), s; try (apply Z.mod_small; lia); try lia.
  rewrite <- (Z.mod_add _ 1) by lia. rewrite Z.mul_1_l. apply Z.mod_small. lia.
Qed.

(** C35 The accessors of the packed chained-fixup words, flags included, are
    lenses onto the bit ranges their types document: writing a documented value
    into the range of one field and reading the field back gives the value, but
    for a negative addend, which comes back unsigned; every other field whose
    documented range does not overlap is unchanged. *)
Theorem packed_fields_roundtrip f lo n s g lo' n' s' v x :
  (f, lo, n, s) ∈ packed_fields -> (g, lo', n', s') ∈ packed_fields -> field_range s n x ->
  f (set_bits v lo n (as_u n x)) = (if 0 <=? x then x else x + 2 ^ n) /\
  (lo' + n' <= lo \/ lo + n <= lo' -> g (set_bits v lo n (as_u n x)) = g v).
Proof.
  intros Hf Hg Hx.
  destruct (packed_fields_range _ _ _ _ Hf), (packed_fields_range _ _ _ _ Hg).
  pose proof packed_fields_bits as HF. rewrite Forall_forall in HF.
  pose proof (HF _ Hf) as Ef. pose proof (HF _ Hg) as Eg. cbn in Ef, Eg.
  rewrite <- (field_as_u s n x) by done.
  assert (0 <= as_u n x < 2 ^ n) by (apply Z.mod_pos_bound, Z.pow_pos_nonneg; lia).
  rewrite Ef, !Eg. split; [apply bits_set_same; lia|]. intros. apply bits_set_other; lia.
Qed.

(** Bits 51 to 62 of a bind word written, its ordinal kept; and a flag. *)
Lemma packed_fields_roundtrip_witness :
  (dyld_chained_ptr_64_bind_next (set_bits 0x8000000000000007 51 12 (as_u 12 4)) = 4 /\
   (0 + 24 <= 51 \/ 51 + 12 <= 0 ->
    dyld_chained_ptr_64_bind_ordinal (set_bits 0x8000000000000007 51 12 (as_u 12 4)) =
    dyld_chained_ptr_64_bind_ordinal 0x8000000000000007)) /\
  flag dyld_chained_import_weak_import (set_bits 0x207 8 1 (as_u 1 1)) = 1.
Proof.
  split.
  - apply (packed_fields_roundtrip dyld_chained_ptr_64_bind_next 51 12 false
             dyld_chained_ptr_64_bind_ordinal 0 24 false).
    + unfold packed_fields. repeat (apply list_elem_of_here || apply list_elem_of_further).
    + unfold packed_fields. repeat (apply list_elem_of_here || apply list_elem_of_further).
    + split; [discriminate|reflexivity].
  - refine (proj1 (packed_fields_roundtrip (flag dyld_chained_import_weak_import) 8 1 false
             dyld_chained_import_name_offset 9 23 false 0x207 1 _ _ _)).
    + unfold packed_fields. repeat (apply list_elem_of_here || apply list_elem_of_further).
    + unfold packed_fields. repeat (apply list_elem_of_here || apply list_elem_of_further).
    + split; [discriminate|reflexivity].
Defined.

(** [set_library_ordinal] then [get_library_ordinal]. *)
Lemma get_set_library_ordinal n_desc ordinal :
  0 <= ordinal < 256 -> get_library_ordinal (set_library_ordinal n_desc ordinal) = ordinal.
Proof.
  intros Ho. unfold get_library_ordinal, set_library_ordinal, as_u.
  rewrite Z.shiftl_mul_pow2, (Z.mod_small (ordinal * _)) by lia.
  rewrite Z.shiftr_lor, Z.shiftr_land. change (Z.shiftr 0x00ff 8) with 0.
  rewrite Z.land_0_r, Z.lor_0_l, Z.shiftr_div_pow2, Z.div_mul by lia.
  change 0xff with (Z.ones 8). rewrite Z.land_ones by lia.
  by rewrite Z.mod_mod, Z.mod_small by lia.
Qed.

Lemma load_command_variants_of_discr_Some z v :
  load_command_variants_of_discr z = Some v <-> load_command_variants_discr v = z.
Proof. solve_discr. Qed.
