(* ===== verification/Container.v ===== *)
(** The image container: [src/container.rs].

    A [Container] is a byte slice with an endianness; every structure and
    string of an image is read through it. The file also holds the ULEB128
    decoder the exports trie uses, with its reference encoder. *)
From stdpp Require Import list_numbers.
From S2P Require Import Prelude Scroll.

(** ** Slices and text *)

(** [&[u8]]: an address and the bytes there. *)
Record slice := Mk_slice { s_ptr : Z; s_bytes : bytes }.

(** [slice.get(offset..)] *)
Definition get_from (s : bytes) (offset : Z) : option bytes :=
  if offset <=? zlen s then Some (drop (Z.to_nat offset) s) else None.

(** [slice.get(start..end)] *)
Definition get_range (s : slice) (start stop : Z) : option slice :=
  if (start <=? stop) && (stop <=? zlen (s_bytes s))
  then Some (Mk_slice (s_ptr s + start)
               (take (Z.to_nat (stop - start)) (drop (Z.to_nat start) (s_bytes s))))
  else None.

(** [&slice[offset..]] *)
Definition index_from {E} (s : bytes) (offset : Z) : outcome E bytes :=
  or_panic "range start index out of range for slice" (get_from s offset).

Definition is_nul (c : byte) : bool := u8 c =? 0.

(** [core::str::from_utf8(bytes).is_ok()]: no overlong form, no surrogate, no
    value above U+10FFFF. *)
Definition in_byte_range (lo hi : Z) (c : byte) : bool := (lo <=? u8 c) && (u8 c <=? hi).
Definition is_cont := in_byte_range 0x80 0xbf.

Fixpoint from_utf8_ok (bs : bytes) : bool :=
  match bs with
  | [] => true
  | b0 :: r0 =>
      if u8 b0 <? 0x80 then from_utf8_ok r0
      else match r0 with
      | [] => false
      | b1 :: r1 =>
          if in_byte_range 0xc2 0xdf b0 then is_cont b1 && from_utf8_ok r1
          else match r1 with
          | [] => false
          | b2 :: r2 =>
              if in_byte_range 0xe0 0xef b0 then
                in_byte_range (if u8 b0 =? 0xe0 then 0xa0 else 0x80)
                  (if u8 b0 =? 0xed then 0x9f else 0xbf) b1
                && is_cont b2 && from_utf8_ok r2
              else match r2 with
              | [] => false
              | b3 :: r3 =>
                  if in_byte_range 0xf0 0xf4 b0 then
                    in_byte_range (if u8 b0 =? 0xf0 then 0x90 else 0x80)
                      (if u8 b0 =? 0xf4 then 0x8f else 0xbf) b1
                    && is_cont b2 && is_cont b3 && from_utf8_ok r3
                  else false
              end
          end
      end
  end.

(** Well-formed text followed by well-formed text is well formed. *)
Lemma from_utf8_ok_app a b :
  from_utf8_ok a = true -> from_utf8_ok b = true -> from_utf8_ok (a ++ b) = true.
Proof.
  intros Ha Hb. revert Ha.
  induction a as [a IH] using (induction_ltof1 _ length). unfold ltof in IH.
  destruct a as [|c0 a]; [done|]. cbn.
  destruct (u8 c0 <? 0x80); [apply IH; cbn; lia|].
  destruct a as [|c1 a]; [done|]. cbn.
  destruct (in_byte_range 0xc2 0xdf c0).
  { rewrite !andb_true_iff. intros [? ?]. split; [done|]. apply IH; [cbn; lia|done]. }
  destruct a as [|c2 a]; [done|]. cbn.
  destruct (in_byte_range 0xe0 0xef c0).
  { rewrite !andb_true_iff. intros [[? ?] ?]. split_and!; try done. apply IH; [cbn; lia|done]. }
  destruct a as [|c3 a]; [done|]. cbn.
  destruct (in_byte_range 0xf0 0xf4 c0); [|done].
  rewrite !andb_true_iff. intros [[[? ?] ?] ?]. split_and!; try done. apply IH; [cbn; lia|done].
Qed.

(** ** The container *)

(** The endianness of a Mach-O binary *)
Inductive Endian := Little | Big.

#[export] Instance Endian_eq_dec : EqDecision Endian.
Proof. solve_decision. Defined.

(** [impl From<Endian> for scroll::Endian] *)
Definition scroll_endian_from (e : Endian) : scroll_endian :=
  match e with Little => LE | Big => BE end.

Record Container := Mk_Container { data : slice; endian : Endian }.

Definition with_bytes (d : slice) (e : Endian) : Container := Mk_Container d e.

Definition as_bytes (c : Container) : slice := data c.

(** The bytes of a container, for the readers. *)
Definition raw (c : Container) : bytes := s_bytes (data c).

Definition deserialize_type_at_offset `{Scroll} (T : Type) `{Pread T}
    (c : Container) (offset : Z) : outcome unit T :=
  match pread_with (scroll_endian_from (endian c)) (fields_of T) (raw c) offset with
  | Some vs => Ok (of_fields vs)
  | None => Err tt
  end.

(** [container.slice(offset, len)] *)
Definition container_slice (c : Container) (offset len : Z) : option slice :=
  match checked_add64 offset len with
  | Some stop => get_range (data c) offset stop
  | None => None
  end.

Definition deserialize_string_at_offset {E} (c : Container) (offset : Z) : outcome E bytes :=
  let* bytes_from_offset := or_panic "out of bounds" (get_from (raw c) offset) in
  let* null_pos := or_panic "no null terminator" (position is_nul bytes_from_offset) in
  let cstring_bytes := take null_pos bytes_from_offset in
  if from_utf8_ok cstring_bytes then Ok cstring_bytes else Panic "invalid UTF-8".

(** [CStr::from_bytes_with_nul]: the only NUL is the last byte. *)
Definition cstr_from_bytes_with_nul (bs : bytes) : option bytes :=
  match position is_nul bs with
  | Some p => if (S p =? length bs)%nat then Some bs else None
  | None => None
  end.

(** [cstr.to_bytes()]: without the terminator *)
Definition cstr_to_bytes (cstr : bytes) : bytes := take (pred (length cstr)) cstr.

Definition deserialize_cstr_at_offset {E} (c : Container) (offset : Z) : outcome E bytes :=
  let* bytes_from_offset := or_panic "out of bounds" (get_from (raw c) offset) in
  let* null_pos := or_panic "no null terminator" (position is_nul bytes_from_offset) in
  or_panic "invalid CStr" (cstr_from_bytes_with_nul (take (S null_pos) bytes_from_offset)).

(** ** ULEB128 *)

Fixpoint read_uleb128_loop (bs : bytes) (i result shift : Z) : option (Z * Z) :=
  match bs with
  | [] => None
  | c :: r =>
      let result := Z.lor result (as_u 64 (Z.shiftl (Z.land (u8 c) 0x7f) shift)) in
      if Z.land (u8 c) 0x80 =? 0 then Some (result, i + 1)
      else
        let shift := shift + 7 in
        if 64 <=? shift then None else read_uleb128_loop r (i + 1) result shift
  end.

Definition read_uleb128 (bs : bytes) : option (Z * Z) := read_uleb128_loop bs 0 0 0.

(** The reference encoder: seven bits a byte, the last with its high bit
    clear. Ten bytes are enough for 64 bits. *)
Fixpoint uleb128_encode_fuel (fuel : nat) (n : Z) : bytes :=
  match fuel with
  | O => []
  | S k =>
      if n <? 128 then [byte_of n]
      else byte_of (128 + n mod 128) :: uleb128_encode_fuel k (n / 128)
  end.
Definition uleb128_encode (n : Z) : bytes := uleb128_encode_fuel 10 n.

(** The number a run of groups stands for, unbounded. *)
Fixpoint uleb_groups (bs : bytes) : Z :=
  match bs with [] => 0 | c :: r => u8 c mod 128 + 128 * uleb_groups r end.

Definition uleb_stop (c : byte) : bool := Z.land (u8 c) 0x80 =? 0.

(** ** Reading structures *)

Lemma get_from_Some s off r :
  get_from s off = Some r <-> off <= zlen s /\ r = drop (Z.to_nat off) s.
Proof.
  unfold get_from. destruct (Z.leb_spec off (zlen s)); split.
  - by intros [= <-].
  - by intros [_ ->].
  - done.
  - intros [? _]. lia.
Qed.

Lemma get_range_Some s a z r :
  0 <= a -> get_range s a z = Some r ->
  a <= z <= zlen (s_bytes s) /\ s_ptr r = s_ptr s + a /\
  s_bytes r = take (Z.to_nat (z - a)) (drop (Z.to_nat a) (s_bytes s)) /\
  zlen (s_bytes r) = z - a.
Proof.
  intros Ha. unfold get_range.
  destruct (Z.leb_spec a z), (Z.leb_spec z (zlen (s_bytes s))); cbn; try done.
  intros [= <-]. cbn. repeat split; try lia. len.
Qed.

(** A container slice is exactly the requested window, and never reaches past
    the end of the image. *)
Lemma container_slice_Some c off n r :
  0 <= off -> 0 <= n -> container_slice c off n = Some r <->
  off + n <= zlen (raw c) /\ off + n < 2 ^ 64 /\
  r = Mk_slice (s_ptr (data c) + off) (take (Z.to_nat n) (drop (Z.to_nat off) (raw c))).
Proof.
  intros Hoff Hn. unfold container_slice, get_range, raw.
  destruct (checked_add64 off n) as [stop|] eqn:E.
  - apply checked_add64_Some in E as [-> Hf]. unfold fits in Hf.
    replace (off + n - off) with n by lia.
    destruct (Z.leb_spec off (off + n)), (Z.leb_spec (off + n) (zlen (s_bytes (data c))));
      cbn; try lia.
    + split; [intros [= <-]; repeat split; lia|by intros (? & ? & ->)].
    + split; [done|lia].
  - split; [done|]. intros (? & ? & ->). unfold checked_add64 in E.
    destruct (fitsb_spec 64 (off + n)) as [|Hnf]; [done|]. unfold fits in Hnf. lia.
Qed.

(** Reading ends, whatever the bytes. *)
Lemma ends_deserialize `{Scroll} T `{Pread T} c off : ends (deserialize_type_at_offset T c off).
Proof. unfold deserialize_type_at_offset. by destruct (pread_with _ _ _ _). Qed.

Lemma deserialize_cases `{Scroll} T `{Pread T} c off :
  (exists v, deserialize_type_at_offset T c off = Ok v) \/ deserialize_type_at_offset T c off = Err tt.
Proof. unfold deserialize_type_at_offset. destruct (pread_with _ _ _ _); [left; eauto|by right]. Qed.

Lemma ends_index_from {E} s offset : ends (@index_from E s offset).
Proof. apply ends_or_panic. Qed.

Lemma deserialize_string_ends {E} c off : ends (@deserialize_string_at_offset E c off).
Proof. unfold deserialize_string_at_offset. solve_ends. Qed.

Lemma deserialize_cstr_ends {E} c off : ends (@deserialize_cstr_at_offset E c off).
Proof. unfold deserialize_cstr_at_offset. solve_ends. Qed.
#[export] Hint Resolve ends_deserialize ends_index_from deserialize_string_ends deserialize_cstr_ends : ends.

Section Reads.
Context `{SL : ScrollLaws}.

Lemma deserialize_Ok T `{Pread T} c off v :
  0 <= off -> deserialize_type_at_offset T c off = Ok v ->
  off + layout_size (fields_of T) <= zlen (raw c) /\
  exists vs, v = of_fields vs /\
    decode_fields (scroll_endian_from (endian c)) (fields_of T)
      (drop (Z.to_nat off) (raw c)) = Some vs.
Proof.
  intros Hoff. unfold deserialize_type_at_offset.
  destruct (pread_with _ _ _ _) as [vs|] eqn:E; [|done].
  intros [= <-]. apply pread_Some in E as [Hle Hd]; [|done]. eauto.
Qed.

(** The same, with what the types of the fields say of their values. *)
Lemma deserialize_wf T `{Pread T} c off v :
  0 <= off -> Forall (fun f => (0 < fsize f)%nat) (fields_of T) ->
  deserialize_type_at_offset T c off = Ok v ->
  off + layout_size (fields_of T) <= zlen (raw c) /\
  exists vs, v = of_fields vs /\ fvals_ok (fields_of T) vs.
Proof.
  intros Hoff Hp Hd. apply deserialize_Ok in Hd as (Hle & vs & -> & Hd); [|done].
  split; [done|]. exists vs. split; [done|]. eapply decode_fields_ok; [|done|done].
  pose proof (layout_size_nonneg (fields_of T)). len.
Qed.

Lemma deserialize_short T `{Pread T} c off :
  0 <= off -> zlen (raw c) < off + layout_size (fields_of T) ->
  deserialize_type_at_offset T c off = Err tt.
Proof.
  intros Hoff Hlen. unfold deserialize_type_at_offset. by rewrite pread_short.
Qed.

Lemma deserialize_fields T `{Pread T} c off :
  0 <= off -> off + layout_size (fields_of T) <= zlen (raw c) ->
  deserialize_type_at_offset T c off =
    match decode_fields (scroll_endian_from (endian c)) (fields_of T)
            (drop (Z.to_nat off) (raw c)) with
    | Some vs => Ok (of_fields vs)
    | None => Err tt
    end.
Proof.
  intros Hoff Hlen. unfold deserialize_type_at_offset. by rewrite pread_fields.
Qed.
End Reads.

Lemma deserialize_returns `{Scroll} T `{Pread T} c off :
  returns (deserialize_type_at_offset T c off).
Proof. unfold deserialize_type_at_offset. by destruct (pread_with _ _ _ _). Qed.
#[export] Hint Resolve deserialize_returns : dynld.

(** ** Strings *)

Lemma position_take {A} (p : A -> bool) l n :
  position p l = Some n -> position p (take (S n) l) = Some n.
Proof.
  revert n; induction l as [|x l IH]; intros n; cbn; [done|].
  destruct (p x) eqn:Px; [by intros [= <-]|].
  destruct (position p l) as [m|] eqn:E; [|done]. intros [= <-].
  specialize (IH m eq_refl). cbn in IH. cbn. by rewrite IH.
Qed.

(** [CStr::from_bytes_with_nul] accepts what [deserialize_cstr_at_offset]
    hands it: the [invalid CStr] panic is dead code. *)
Lemma cstr_of_first_nul l n :
  position is_nul l = Some n ->
  cstr_from_bytes_with_nul (take (S n) l) = Some (take (S n) l) /\
  cstr_to_bytes (take (S n) l) = take n l.
Proof.
  intros Hp. unfold cstr_from_bytes_with_nul, cstr_to_bytes.
  rewrite (position_take _ _ _ Hp). apply position_lt in Hp.
  rewrite length_take_le by lia. rewrite Nat.eqb_refl. split; [done|].
  cbn [pred]. by rewrite take_take, Nat.min_l by lia.
Qed.

Definition cstring_at (bs : bytes) (off : Z) (s : bytes) : Prop :=
  exists rest, drop (Z.to_nat off) bs = s ++ x00 :: rest /\ Forall (fun c => c <> x00) s.

Lemma is_nul_spec c : is_nul c = true <-> c = x00.
Proof.
  unfold is_nul. rewrite Z.eqb_eq. change 0 with (u8 x00). split; [apply u8_inj|congruence].
Qed.

Lemma position_nul l n :
  position is_nul l = Some n <->
  exists rest, l = take n l ++ x00 :: rest /\ Forall (fun c => c <> x00) (take n l) /\
    length (take n l) = n.
Proof.
  rewrite position_Some. split.
  - intros [(c & Hc & ->%is_nul_spec) Hf]. exists (drop (S n) l). repeat split.
    + by rewrite (take_drop_middle l n x00).
    + eapply Forall_impl; [done|]. cbn. by intros ? Hc' ->.
    + apply lookup_lt_Some in Hc. len.
  - intros (rest & Hl & Hf & Hlen). split.
    + exists x00. split; [|done]. rewrite Hl at 1. rewrite lookup_app_r by lia.
      by rewrite Hlen, Nat.sub_diag.
    + eapply Forall_impl; [done|]. cbn. intros c Hc. apply not_true_iff_false.
      by rewrite is_nul_spec.
Qed.

Lemma position_nul_iff l s :
  (exists rest, l = s ++ x00 :: rest /\ Forall (fun c => c <> x00) s) <->
  position is_nul l = Some (length s) /\ take (length s) l = s.
Proof.
  split.
  - intros (rest & -> & Hf). assert (take (length s) (s ++ x00 :: rest) = s) as Ht
      by (rewrite take_app_le by lia; by rewrite take_ge).
    split; [|done]. apply position_nul. exists rest. by rewrite Ht.
  - intros [Hp Ht]. apply position_nul in Hp as (rest & Hl & Hf & _). rewrite Ht in Hl, Hf. eauto.
Qed.

(** [deserialize_string_at_offset] returns exactly the text up to the first
    NUL at or after the offset, and only when the offset is in the image, a
    NUL follows and the text is UTF-8; in every other case it panics, and it
    has no third outcome. *)
Theorem deserialize_string_spec {E} c off s :
  0 <= off ->
  (@deserialize_string_at_offset E c off = Ok s <->
     off <= zlen (raw c) /\ cstring_at (raw c) off s /\ from_utf8_ok s = true) /\
  ((forall s, @deserialize_string_at_offset E c off <> Ok s) ->
     exists why, @deserialize_string_at_offset E c off = Panic why).
Proof.
  intros Hoff. unfold deserialize_string_at_offset, cstring_at.
  destruct (get_from (raw c) off) as [r|] eqn:Eg; cbn.
  2: { split; [|by eexists]. split; [done|]. intros (Hle & _).
       unfold get_from in Eg. by destruct (Z.leb_spec off (zlen (raw c))); [|lia]. }
  apply get_from_Some in Eg as [Hle ->]. rewrite position_nul_iff.
  destruct (position is_nul _) as [n|] eqn:Ep; cbn.
  2: { split; [|by eexists]. split; [done|]. by intros (_ & [? _] & _). }
  pose proof (position_lt _ _ _ Ep) as Hlt.
  destruct (from_utf8_ok (take n _)) eqn:Eu.
  - split; [|intros Hn; by destruct (Hn (take n (drop (Z.to_nat off) (raw c))))].
    split.
    + intros [= <-]. rewrite length_take_le by lia. done.
    + intros (_ & [[= ->] Ht] & _). by rewrite Ht.
  - split; [|by eexists]. split; [done|].
    intros (_ & [[= ->] Ht] & Hu). congruence.
Qed.

(** A string that is read ends in the image. *)
Lemma deserialize_string_read {E} c off s :
  @deserialize_string_at_offset E c off = Ok s -> off <= zlen (raw c) /\ cstring_at (raw c) off s.
Proof.
  unfold deserialize_string_at_offset, cstring_at. intros H. inv_ok.
  apply get_from_Some in Hx as [Hle ->]. split; [done|]. apply position_nul_iff.
  destruct (from_utf8_ok _) in H; [|done]. injection H as <-.
  pose proof (position_lt _ _ _ Hx0). rewrite length_take_le by lia. done.
Qed.

Lemma deserialize_string_spec_utf8 {E} c off s :
  0 <= off -> @deserialize_string_at_offset E c off = Ok s -> from_utf8_ok s = true.
Proof.
  unfold deserialize_string_at_offset. intros _ H.
  apply bind_Ok in H as (r & _ & H). apply bind_Ok in H as (p & _ & H).
  destruct (from_utf8_ok (take p r)) eqn:Eu; [|done]. by injection H as <-.
Qed.

(** ** ULEB128 *)

Lemma lor_high_add a x s :
  0 <= s -> 0 <= a < 2 ^ s -> Z.lor a (x * 2 ^ s) = a + x * 2 ^ s.
Proof.
  intros Hs Ha.
  assert (Z.land a (x * 2 ^ s) = 0) as H0.
  { apply Z.bits_inj'. intros i Hi. rewrite Z.land_spec, Z.bits_0.
    destruct (Z_lt_ge_dec i s) as [Hlt|Hge].
    - by rewrite (Z.mul_pow2_bits_low x s i), andb_false_r by lia.
    - rewrite <- (Z.mod_small a (2 ^ s)) by lia.
      by rewrite Z.mod_pow2_bits_high by lia. }
  rewrite <- Z.lxor_lor by done. symmetry. by apply Z.add_nocarry_lxor.
Qed.

(** One step of the decoder adds seven bits, those above bit 63 dropped. *)
Lemma uleb_step acc c j :
  0 <= j <= 9 -> 0 <= acc < 2 ^ (7 * j) ->
  Z.lor acc (as_u 64 (Z.shiftl (Z.land (u8 c) 0x7f) (7 * j))) =
    acc + (u8 c mod 128 * 2 ^ (7 * j)) mod 2 ^ 64.
Proof.
  intros Hj Hacc. change 0x7f with (Z.ones 7).
  rewrite Z.land_ones, Z.shiftl_mul_pow2 by lia. unfold as_u. change (2 ^ 7) with 128.
  replace (2 ^ 64) with (2 ^ (64 - 7 * j) * 2 ^ (7 * j))
    by (rewrite <- Z.pow_add_r by lia; f_equal; lia).
  pose proof (Z.pow_pos_nonneg 2 (64 - 7 * j) ltac:(lia) ltac:(lia)).
  pose proof (Z.pow_pos_nonneg 2 (7 * j) ltac:(lia) ltac:(lia)).
  rewrite Zmult_mod_distr_r. apply lor_high_add; lia.
Qed.

Lemma uleb_loop_spec bs j acc :
  0 <= j <= 9 -> 0 <= acc < 2 ^ (7 * j) ->
  read_uleb128_loop bs j acc (7 * j) =
    match position uleb_stop bs with
    | Some p =>
        if Z.of_nat p + j <=? 9
        then Some ((acc + 2 ^ (7 * j) * uleb_groups (take (S p) bs)) mod 2 ^ 64,
                   j + Z.of_nat p + 1)
        else None
    | None => None
    end.
Proof.
  revert j acc; induction bs as [|c bs IH]; intros j acc Hj Hacc; [done|].
  cbn [read_uleb128_loop position]. rewrite uleb_step by done.
  pose proof (Z.pow_le_mono_r 2 (7 * j) 63 ltac:(lia) ltac:(lia)).
  assert (0 <= u8 c mod 128 < 128) as Hc by (apply Z.mod_pos_bound; lia).
  assert (0 <= u8 c mod 128 * 2 ^ (7 * j) <= 127 * 2 ^ (7 * j)) as Hm
    by (split; [|apply Z.mul_le_mono_nonneg_r]; lia).
  fold (uleb_stop c). destruct (uleb_stop c) eqn:Es.
  - rewrite (proj2 (Z.leb_le (Z.of_nat 0 + j) 9)) by lia. f_equal. f_equal; [|lia].
    cbn [take uleb_groups]. rewrite Z.mul_0_r, Z.add_0_r, (Z.mul_comm (2 ^ _)).
    rewrite <- Z.add_mod_idemp_r by lia. symmetry. apply Z.mod_small.
    destruct (Z.eq_dec j 9) as [->|Hj9].
    + change (7 * 9) with 63 in *. change (2 ^ 64) with (2 * 2 ^ 63).
      rewrite Zmult_mod_distr_r. pose proof (Z.mod_pos_bound (u8 c mod 128) 2). lia.
    + pose proof (Z.pow_le_mono_r 2 (7 * j + 7) 63 ltac:(lia) ltac:(lia)) as Hp.
      rewrite Z.pow_add_r in Hp by lia. rewrite Z.mod_small by lia. lia.
  - replace (7 * j + 7) with (7 * (j + 1)) by lia.
    destruct (Z.leb_spec 64 (7 * (j + 1))) as [Hs|Hs].
    + destruct (position uleb_stop bs) as [p|]; cbn; [|done].
      by rewrite (proj2 (Z.leb_gt (Z.of_nat (S p) + j) 9)) by lia.
    + assert (2 ^ (7 * (j + 1)) = 128 * 2 ^ (7 * j)) as Ep
        by (rewrite Z.mul_add_distr_l, Z.pow_add_r by lia; lia).
      pose proof (Z.pow_le_mono_r 2 (7 * (j + 1)) 63 ltac:(lia) ltac:(lia)).
      rewrite (Z.mod_small (_ * _)) by lia.
      rewrite IH by lia. destruct (position uleb_stop bs) as [p|]; cbn [option_map]; [|done].
      replace (Z.of_nat (S p) + j) with (Z.of_nat p + (j + 1)) by lia.
      destruct (Z.leb_spec (Z.of_nat p + (j + 1)) 9); [|done].
      f_equal. f_equal; [|lia]. f_equal. cbn [take uleb_groups]. rewrite Ep. lia.
Qed.

(** The decoder by the first byte that ends a number *)
Lemma read_uleb128_first_stop bs :
  read_uleb128 bs =
    match position uleb_stop bs with
    | Some p =>
        if Z.of_nat p <=? 9
        then Some (uleb_groups (take (S p) bs) mod 2 ^ 64, Z.of_nat p + 1)
        else None
    | None => None
    end.
Proof.
  unfold read_uleb128. change 0 with (7 * 0) at 3. rewrite uleb_loop_spec by lia.
  destruct (position uleb_stop bs) as [p|]; [|done].
  rewrite Z.add_0_r. by rewrite Z.mul_0_r, Z.pow_0_r, Z.mul_1_l, !Z.add_0_l.
Qed.

(** C40 [read_uleb128] decodes the bytes up to and including the first one with
    its high bit clear, provided it is among the first ten: the value is the
    number the seven-bit groups stand for, reduced modulo 2^64, and the second
    component is the number of bytes, so the decoder never reads past the
    terminating byte. Without such a byte in the first ten it returns [None].
    Groups above bit 63 are dropped and not rejected. *)
Theorem read_uleb128_spec bs :
  read_uleb128 bs =
    match position uleb_stop bs with
    | Some p =>
        if Z.of_nat p <=? 9
        then Some (uleb_groups (take (S p) bs) mod 2 ^ 64, Z.of_nat p + 1)
        else None
    | None => None
    end.
Proof. exact (read_uleb128_first_stop bs). Qed.

Lemma read_uleb128_Some bs v k :
  read_uleb128 bs = Some (v, k) -> fits 64 v /\ 1 <= k <= zlen bs /\ k <= 10.
Proof.
  rewrite read_uleb128_first_stop. destruct (position uleb_stop bs) as [p|] eqn:Ep; [|done].
  apply position_lt in Ep. destruct (Z.leb_spec (Z.of_nat p) 9); [|done].
  intros [= <- <-]. unfold fits, zlen. pose proof (Z.mod_pos_bound (uleb_groups (take (S p) bs)) (2 ^ 64)).
  lia.
Qed.

(** ** Bounds *)

(** Two containers with the same bytes in the [n] from an offset *)
Definition same_window (c c' : Container) (off n : Z) : Prop :=
  endian c = endian c' /\ off + n <= zlen (raw c) /\ off + n <= zlen (raw c') /\
  take (Z.to_nat n) (drop (Z.to_nat off) (raw c)) = take (Z.to_nat n) (drop (Z.to_nat off) (raw c')).

(** C16 No reader of an image leaves it. A structure is read from exactly its
    [layout_size] bytes at the offset: if they are not all in the image the reader
    reports it, and if they are, no other byte of the image matters. A slice is the
    requested window of the image, at its place. The text and the NUL of a string,
    and the bytes a ULEB128 number is decoded from, at most ten, lie in the image;
    a decoded number is a [u64]. *)
Theorem container_reads_in_bounds `{ScrollLaws} {E} c off :
  0 <= off ->
  (forall T `{Pread T}, zlen (raw c) < off + layout_size (fields_of T) ->
     deserialize_type_at_offset T c off = Err tt) /\
  (forall T `{Pread T} c', same_window c c' off (layout_size (fields_of T)) ->
     deserialize_type_at_offset T c off = deserialize_type_at_offset T c' off) /\
  (forall n r, 0 <= n -> container_slice c off n = Some r ->
     s_ptr r = s_ptr (data c) + off /\ zlen (s_bytes r) = n /\ off + n <= zlen (raw c) /\
     forall i b, s_bytes r !! i = Some b -> raw c !! (Z.to_nat off + i)%nat = Some b) /\
  (forall s, @deserialize_string_at_offset E c off = Ok s ->
     off + zlen s + 1 <= zlen (raw c) /\ raw c !! Z.to_nat (off + zlen s) = Some x00 /\
     forall i b, s !! i = Some b -> raw c !! (Z.to_nat off + i)%nat = Some b /\ b <> x00) /\
  (forall v k, off <= zlen (raw c) -> read_uleb128 (drop (Z.to_nat off) (raw c)) = Some (v, k) ->
     fits 64 v /\ 1 <= k <= 10 /\ off + k <= zlen (raw c)).
Proof.
  intros Hoff. split; [|split; [|split; [|split]]].
  - intros T HT Hlen. by apply deserialize_short.
  - intros T HT c' (He & Hn & Hn' & Hw). rewrite !deserialize_fields, He by lia.
    by rewrite <- decode_fields_take, Hw, decode_fields_take.
  - intros n r Hn (Hle & _ & ->)%container_slice_Some; [|done..]. cbn. split; [done|]. split; [len|]. split; [done|].
    intros i b Hi. pose proof (lookup_lt_Some _ _ _ Hi). rewrite length_take in *.
    rewrite lookup_take_lt, lookup_drop in Hi by lia. done.
  - intros s Hs. apply deserialize_string_read in Hs as (Hle & rest & Hs & Hnz).
    apply (f_equal length) in Hs as Hlen. rewrite length_drop, length_app in Hlen. cbn in Hlen.
    assert (forall i, raw c !! (Z.to_nat off + i)%nat = (s ++ x00 :: rest) !! i) as Hat
      by (intros i; by rewrite <- Hs, lookup_drop).
    split; [len|]. split.
    + replace (Z.to_nat (off + zlen s)) with (Z.to_nat off + length s)%nat by len. by rewrite Hat, lookup_app_r, Nat.sub_diag.
    + intros i b Hi. rewrite Hat, lookup_app_l by (by eapply lookup_lt_Some). split; [done|].
      rewrite Forall_forall in Hnz. apply Hnz. by eapply list_elem_of_lookup_2.
  - intros v k Hle (Hv & Hk & Hk10)%read_uleb128_Some. split; [done|]. split; [lia|]. len.
Qed.

Lemma uleb_stop_lt c : uleb_stop c = (u8 c <? 128).
Proof.
  assert (forallb (fun n => Bool.eqb (Z.land n 0x80 =? 0) (n <? 128)) (seqZ 0 256) = true) as H
    by reflexivity.
  rewrite List.forallb_forall in H. apply eqb_prop, H.
  apply list_elem_of_In, elem_of_seqZ. pose proof (u8_range c). lia.
Qed.

Lemma uleb_encode_fuel_spec fuel n rest :
  (0 < fuel)%nat -> 0 <= n < 128 ^ Z.of_nat fuel ->
  exists p, position uleb_stop (uleb128_encode_fuel fuel n ++ rest) = Some p /\
    (p < fuel)%nat /\ S p = length (uleb128_encode_fuel fuel n) /\
    uleb_groups (uleb128_encode_fuel fuel n) = n.
Proof.
  revert n; induction fuel as [|k IH]; intros n Hfuel Hn; [lia|].
  cbn [uleb128_encode_fuel]. destruct (Z.ltb_spec n 128) as [Hlt|Hge].
  - exists 0%nat. cbn [app position length uleb_groups]. rewrite uleb_stop_lt, u8_byte_of.
    rewrite (Z.mod_small n 256), (Z.mod_small n 128) by lia.
    rewrite (proj2 (Z.ltb_lt n 128)) by lia. repeat split; lia.
  - rewrite Nat2Z.inj_succ, Z.pow_succ_r in Hn by lia.
    destruct (IH (n / 128)) as (p & Hp & Hk & Hl & Hg).
    { destruct k; [cbn in Hn|]; lia. }
    { split; [apply Z.div_pos; lia|apply Z.div_lt_upper_bound; lia]. }
    exists (S p). cbn [app position length uleb_groups].
    assert (0 <= n mod 128 < 128) by (apply Z.mod_pos_bound; lia).
    rewrite uleb_stop_lt, u8_byte_of, (Z.mod_small (128 + _)) by lia.
    rewrite (proj2 (Z.ltb_ge (128 + n mod 128) 128)) by lia.
    rewrite Hp, Hg. cbn [option_map]. repeat split; try lia.
    replace (128 + n mod 128) with (n mod 128 + 1 * 128) by lia.
    rewrite Z.mod_add, Z.mod_mod by lia. pose proof (Z.div_mod n 128). lia.
Qed.

(** C21 Decoding the reference encoding of any [u64] gives the number back and
    consumes exactly its bytes, whatever follows in the buffer: ten bytes are
    enough, and the decoder does not stop short of them. *)
Theorem uleb128_roundtrip n rest :
  fits 64 n ->
  read_uleb128 (uleb128_encode n ++ rest) = Some (n, zlen (uleb128_encode n)) /\
  1 <= zlen (uleb128_encode n) <= 10.
Proof.
  intros Hn. unfold fits in Hn.
  destruct (uleb_encode_fuel_spec 10 n rest) as (p & Hp & Hk & Hl & Hg); [lia..|].
  fold (uleb128_encode n) in *. rewrite read_uleb128_first_stop, Hp.
  rewrite (proj2 (Z.leb_le (Z.of_nat p) 9)) by lia. unfold zlen. split; [|lia].
  rewrite Hl, take_app_le, take_ge by lia. rewrite Hg, Z.mod_small by lia.
  f_equal. f_equal. lia.
Qed.

Lemma uleb128_roundtrip_witness :
  fits 64 624485 /\
  read_uleb128 (uleb128_encode 624485 ++ [x00; x80]) =
    Some (624485, zlen (uleb128_encode 624485)) /\
  1 <= zlen (uleb128_encode 624485) <= 10.
Proof.
  split; [unfold fits; lia|]. apply (uleb128_roundtrip 624485 [x00; x80]). unfold fits. lia.
Defined.

Example uleb128_bytes : uleb128_encode 624485 = [xe5; x8e; x26].
Proof. vm_compute. reflexivity. Qed.

(** A container whose bytes are an image stored in a file. *)
Definition image_le (bs : bytes) : Container := with_bytes (Mk_slice 0 bs) Little.

(** The NUL-terminated name at offset 2. *)
Lemma deserialize_string_spec_witness :
  0 <= 2 /\
  (@deserialize_string_at_offset string (image_le (bstr "xxabc" ++ [x00])) 2 = Ok (bstr "abc") <->
     2 <= zlen (raw (image_le (bstr "xxabc" ++ [x00]))) /\
     cstring_at (raw (image_le (bstr "xxabc" ++ [x00]))) 2 (bstr "abc") /\
     from_utf8_ok (bstr "abc") = true) /\
  ((forall s, @deserialize_string_at_offset string (image_le (bstr "xxabc" ++ [x00])) 2 <> Ok s) ->
     exists why, @deserialize_string_at_offset string (image_le (bstr "xxabc" ++ [x00])) 2 = Panic why).
Proof.
  split; [lia|].
  apply (@deserialize_string_spec string (image_le (bstr "xxabc" ++ [x00])) 2 (bstr "abc")).
  lia.
Defined.

(** What the C-string reader returns, the string reader accepts or rejects only
    for its encoding: both stop at the same NUL. *)
Lemma deserialize_cstr_to_bytes {E} c off s :
  @deserialize_cstr_at_offset E c off = Ok s ->
  cstring_at (raw c) off (cstr_to_bytes s).
Proof.
  unfold deserialize_cstr_at_offset, cstring_at. intros H. inv_ok.
  apply get_from_Some in Hx as [Hle ->].
  pose proof (cstr_of_first_nul _ _ Hx0) as [E1 E2]. rewrite E1 in H. inv_ok. rewrite E2.
  apply position_nul_iff. pose proof (position_lt _ _ _ Hx0).
  rewrite length_take_le by lia. done.
Qed.

(** The string and a four-byte read at offset 2 of six bytes, and one past the end *)
Lemma container_reads_in_bounds_witness :
  0 <= 2 /\
  @deserialize_type_at_offset scroll_ref Z pread_u64 (image_le (bstr "xxabc" ++ [x00])) 2 = Err tt /\
  @deserialize_type_at_offset scroll_ref Z pread_u32 (image_le (bstr "xxabc" ++ [x00])) 2 =
    @deserialize_type_at_offset scroll_ref Z pread_u32 (image_le (bstr "yyabc" ++ [x00; x01])) 2 /\
  raw (image_le (bstr "xxabc" ++ [x00])) !! 5%nat = Some x00.
Proof.
  split; [lia|].
  destruct (@container_reads_in_bounds scroll_ref _ string (image_le (bstr "xxabc" ++ [x00])) 2 ltac:(lia))
    as (Hshort & Hwin & _ & Hstr & _).
  split; [apply (Hshort Z pread_u64); vm_compute; reflexivity|]. split.
  - apply (Hwin Z pread_u32). split; [reflexivity|]. split; [vm_compute; discriminate|].
    split; [vm_compute; discriminate|vm_compute; reflexivity].
  - exact (proj1 (proj2 (Hstr (bstr "abc") ltac:(vm_compute; reflexivity)))).
Defined.
