(* ===== verification/ArrayVec.v ===== *)
(** Fixed-capacity vectors and strings: [src/array.rs].

    [FixedVec] stores its elements in a buffer of slots that may be
    uninitialised; [len] counts the initialised ones. A slot is an [option],
    and reading an uninitialised one is [Fault]. The file shows that the
    vector implements a bounded list, its owning iterator a double-ended
    queue in which every element is yielded or dropped exactly once, and
    that [FixedString] keeps its bytes valid UTF-8. *)
From S2P Require Import Prelude Container.

(** ** FixedVec *)

(** [FixedVec<A>]: [fv_array] is the [UninitArray], [None] an uninitialised
    element. [ArrayVec<T, N>] is the case of an array of [N] slots. *)
Record FixedVec (T : Type) := Mk_FixedVec { fv_len : Z; fv_array : list (option T) }.
Arguments Mk_FixedVec {T}.
Arguments fv_len {T}.
Arguments fv_array {T}.

Section Vec.
Context {E : Type} {bp : BuildProfile} {T : Type}.


(** [FixedVec::new] and [FixedVec::new_array] *)
Definition new (array : list (option T)) : FixedVec T := Mk_FixedVec 0 array.
Definition new_array (n : nat) : FixedVec T := new (replicate n None).

Definition into_inner (v : FixedVec T) : list (option T) := fv_array v.

(** A reference to a run of slots: every one must be initialised. *)
Definition init_slots (slots : list (option T)) : outcome E (list T) :=
  match mapM id slots with Some l => Ok l | None => Fault end.

(** The elements a [FixedVec] over a borrowed slice exposes when it gives its
    storage back: all [capacity] slots. *)
Definition into_inner_slice (v : FixedVec T) : outcome E (list T) := init_slots (into_inner v).

Definition fv_length (v : FixedVec T) : Z := fv_len v.
Definition capacity (v : FixedVec T) : Z := zlen (fv_array v).
Definition remaining_capacity (v : FixedVec T) : outcome E Z := sub64 (capacity v) (fv_length v).
Definition is_full (v : FixedVec T) : outcome E bool :=
  let* r := remaining_capacity v in Ok (r =? 0).
Definition is_empty (v : FixedVec T) : bool := fv_length v =? 0.

(** [array.as_mut_ptr().add(i).read()] *)
Definition slot_read (array : list (option T)) (i : Z) : outcome E T :=
  match array !! Z.to_nat i with Some (Some x) => Ok x | _ => Fault end.

(** The second component is the [Result]: [inr item] gives the item back. *)
Definition try_push (v : FixedVec T) (x : T) : outcome E (FixedVec T * (unit + T)) :=
  let* full := is_full v in
  if full then Ok (v, inr x)
  else
    let array := <[Z.to_nat (fv_len v) := Some x]> (fv_array v) in
    let* n := add32 (fv_len v) 1 in
    Ok (Mk_FixedVec n array, inl tt).

Definition push (v : FixedVec T) (x : T) : outcome E (FixedVec T) :=
  let* r := try_push v x in
  match r with
  | (v', inl _) => Ok v'
  | (_, inr _) => Panic "ArrayVec is full"
  end.

Definition pop (v : FixedVec T) : outcome E (FixedVec T * option T) :=
  if is_empty v then Ok (v, None)
  else
    let* n := sub_w 32 (fv_len v) 1 in
    let* x := slot_read (fv_array v) n in
    Ok (Mk_FixedVec n (fv_array v), Some x).

(** [while self.pop().is_some() {}] *)
Fixpoint clear_fuel (fuel : nat) (v : FixedVec T) : outcome E (FixedVec T) :=
  match fuel with
  | O => Diverge
  | S k =>
      let* r := pop v in
      match r with
      | (v', Some _) => clear_fuel k v'
      | (v', None) => Ok v'
      end
  end.
Definition clear (v : FixedVec T) : outcome E (FixedVec T) := clear_fuel (S (Z.to_nat (fv_len v))) v.

(** [&self[..]] *)
Definition deref (v : FixedVec T) : outcome E (list T) := init_slots (take (Z.to_nat (fv_len v)) (fv_array v)).

(** [&mut self[..]]: the same elements, to be changed in place *)
Definition deref_mut (v : FixedVec T) : outcome E (list T) := deref v.

(** What the borrowing iterators yield *)
Definition iter (v : FixedVec T) : outcome E (list T) := deref v.
Definition iter_mut (v : FixedVec T) : outcome E (list T) := deref_mut v.

Definition extend (v : FixedVec T) (items : list T) : outcome E (FixedVec T) :=
  for_each items (fun x v => push v x) v.

(** The elements [Drop] destroys. *)
Definition fv_drop (v : FixedVec T) : outcome E (list T) := deref v.

(** ** The owning iterator *)

Record IntoIter := Mk_IntoIter { it_index : Z; it_len : Z; it_array : list (option T) }.

Definition into_iter (v : FixedVec T) : IntoIter := Mk_IntoIter 0 (fv_len v) (into_inner v).

Definition next (it : IntoIter) : outcome E (IntoIter * option T) :=
  if it_index it =? it_len it then Ok (it, None)
  else
    let* i := add64 (it_index it) 1 in
    let* x := slot_read (it_array it) (it_index it) in
    Ok (Mk_IntoIter i (it_len it) (it_array it), Some x).

Definition next_back (it : IntoIter) : outcome E (IntoIter * option T) :=
  if it_index it =? it_len it then Ok (it, None)
  else
    let* n := sub64 (it_len it) 1 in
    let* x := slot_read (it_array it) n in
    Ok (Mk_IntoIter (it_index it) n (it_array it), Some x).

Definition size_hint (it : IntoIter) : outcome E (Z * option Z) :=
  let* remaining := sub64 (it_len it) (it_index it) in Ok (remaining, Some remaining).
Definition it_exact_len (it : IntoIter) : outcome E Z := sub64 (it_len it) (it_index it).

(** The elements [Drop] of the iterator destroys. *)
Definition it_drop (it : IntoIter) : outcome E (list T) :=
  let* len := sub64 (it_len it) (it_index it) in
  init_slots (take (Z.to_nat len) (drop (Z.to_nat (it_index it)) (it_array it))).

(** ** The bounded list it implements *)

(** [v] holds the elements [l]: they are the first [len] slots, and the
    capacity is one a [u32] length can count. *)
Definition rep (v : FixedVec T) (l : list T) : Prop :=
  fv_len v = zlen l /\ zlen l <= capacity v /\ capacity v < 2 ^ 32 /\
  take (length l) (fv_array v) = Some <$> l.

Lemma init_slots_fmap (l : list T) : init_slots (Some <$> l) = Ok l.
Proof.
  unfold init_slots. assert (mapM id (Some <$> l) = Some l) as ->; [|done].
  induction l as [|x l IH]; cbn in *; [done|]. by rewrite IH.
Qed.

Lemma rep_new n : Z.of_nat n < 2 ^ 32 -> rep (new_array n) [].
Proof. intros Hn. unfold rep, new_array, new, capacity. cbn. repeat split; len. Qed.

Lemma rep_remaining v l : rep v l -> remaining_capacity v = Ok (capacity v - zlen l).
Proof.
  intros (Hl & Hc & Hm & _). unfold remaining_capacity, fv_length. rewrite Hl.
  apply in_range_fits. unfold fits. unfold zlen in *. lia.
Qed.

Lemma rep_is_full v l : rep v l -> is_full v = Ok (capacity v - zlen l =? 0).
Proof. intros H. unfold is_full. by rewrite (rep_remaining _ _ H). Qed.

Lemma rep_lookup v l i : rep v l -> (i < length l)%nat -> fv_array v !! i = Some <$> l !! i.
Proof.
  intros (_ & _ & _ & Ht) Hi. rewrite <- list_lookup_fmap, <- Ht.
  by rewrite lookup_take_lt.
Qed.

Lemma rep_slot_read v l i x :
  rep v l -> l !! i = Some x -> slot_read (fv_array v) (Z.of_nat i) = Ok x.
Proof.
  intros Hr Hx. unfold slot_read. rewrite Nat2Z.id.
  rewrite (rep_lookup _ _ _ Hr) by (by eapply lookup_lt_Some). by rewrite Hx.
Qed.

Lemma try_push_rep v l x :
  rep v l ->
  if zlen l <? capacity v
  then exists v', try_push v x = Ok (v', inl tt) /\ rep v' (l ++ [x]) /\ capacity v' = capacity v
  else try_push v x = Ok (v, inr x).
Proof.
  intros Hr. pose proof Hr as (Hl & Hc & Hm & Ht). unfold try_push.
  rewrite (rep_is_full _ _ Hr). cbn.
  destruct (Z.ltb_spec (zlen l) (capacity v)) as [Hlt|Hge].
  - rewrite (proj2 (Z.eqb_neq _ _)) by lia.
    unfold add_w. rewrite in_range_fits by (unfold fits, zlen in *; lia). cbn.
    eexists. split; [done|]. unfold rep, capacity in *. cbn.
    rewrite Hl. unfold zlen in *. rewrite Nat2Z.id.
    rewrite length_insert, length_app. cbn. repeat split; try lia.
    rewrite Nat.add_1_r, (take_S_r _ _ (Some x)).
    + by rewrite take_insert_ge, Ht, fmap_app by lia.
    + apply list_lookup_insert_eq. lia.
  - by rewrite (proj2 (Z.eqb_eq _ _)) by lia.
Qed.

Lemma push_rep v l x :
  rep v l ->
  if zlen l <? capacity v
  then exists v', push v x = Ok v' /\ rep v' (l ++ [x]) /\ capacity v' = capacity v
  else push v x = Panic "ArrayVec is full".
Proof.
  intros Hr. pose proof (try_push_rep _ _ x Hr) as H. unfold push.
  destruct (zlen l <? capacity v); [destruct H as (v' & -> & ?)|rewrite H]; cbn; eauto.
Qed.

Lemma rep_last v l x :
  rep v (l ++ [x]) -> rep (Mk_FixedVec (zlen l) (fv_array v)) l.
Proof.
  intros (Hl & Hc & Hm & Ht). unfold rep, capacity in *. cbn [fv_len fv_array].
  repeat split; [len..|].
  apply (f_equal (take (length l))) in Ht. rewrite take_take, Nat.min_l in Ht by len.
  rewrite Ht, fmap_app, take_app_le, take_ge by len. done.
Qed.

Lemma pop_rep v l :
  rep v l ->
  match last l with
  | None => pop v = Ok (v, None)
  | Some x => exists v', pop v = Ok (v', Some x) /\ rep v' (removelast l) /\ capacity v' = capacity v
  end.
Proof.
  intros Hr. pose proof Hr as (Hl & _). unfold pop, is_empty, fv_length. rewrite Hl.
  destruct l as [|x l _] using rev_ind; cbn; [done|].
  rewrite last_snoc, List.removelast_last. unfold zlen. rewrite length_app. cbn.
  rewrite (proj2 (Z.eqb_neq _ _)) by lia.
  replace (Z.of_nat (length l + 1) - 1) with (Z.of_nat (length l)) by lia.
  assert (fits 32 (Z.of_nat (length l))) as Hf.
  { destruct Hr as (_ & Hc & Hm & _). unfold fits. len. }
  unfold sub_w. replace (Z.of_nat (length l + 1) - 1) with (Z.of_nat (length l)) by lia.
  rewrite in_range_fits by done. cbn.
  rewrite (rep_slot_read v (l ++ [x]) (length l) x Hr)
    by (rewrite (lookup_app_r l) by lia; by rewrite Nat.sub_diag).
  cbn. eexists. split; [done|]. split; [by eapply rep_last|done].
Qed.

Lemma deref_rep v l : rep v l -> deref v = Ok l.
Proof.
  intros (Hl & _ & _ & Ht). unfold deref. rewrite Hl. unfold zlen. rewrite Nat2Z.id, Ht.
  apply init_slots_fmap.
Qed.

Lemma removelast_length (l : list T) : length (removelast l) = pred (length l).
Proof.
  destruct l as [|x l _] using rev_ind; [done|].
  rewrite List.removelast_last, length_app. cbn. lia.
Qed.

Lemma clear_rep v l : rep v l -> exists v', clear v = Ok v' /\ rep v' [] /\ capacity v' = capacity v.
Proof.
  intros Hr. unfold clear. rewrite (proj1 Hr). unfold zlen. rewrite Nat2Z.id.
  assert (forall fuel, (length l < fuel)%nat ->
    exists v', clear_fuel fuel v = Ok v' /\ rep v' [] /\ capacity v' = capacity v) as H; [|apply H; lia].
  intros fuel. revert v l Hr; induction fuel as [|k IH]; intros v l Hr Hk; [lia|].
  cbn [clear_fuel]. pose proof (pop_rep _ _ Hr) as Hp.
  destruct (last l) as [x|] eqn:El.
  - destruct Hp as (v' & -> & Hr' & Hc). cbn.
    destruct (IH v' _ Hr') as (v'' & -> & ? & ?); [|eexists; split; [done|split; [done|congruence]]].
    rewrite removelast_length. destruct l; [done|cbn in *; lia].
  - rewrite Hp. cbn. apply last_None in El as ->. eauto.
Qed.

Lemma extend_rep v l items :
  rep v l ->
  if zlen l + zlen items <=? capacity v
  then exists v', extend v items = Ok v' /\ rep v' (l ++ items) /\ capacity v' = capacity v
  else extend v items = Panic "ArrayVec is full".
Proof.
  unfold extend. revert v l; induction items as [|x items IH]; intros v l Hr; cbn [for_each].
  - rewrite app_nil_r. rewrite (proj2 (Z.leb_le _ _)); [by eauto|].
    destruct Hr as (_ & Hc & _). len.
  - pose proof (push_rep _ _ x Hr) as Hp.
    destruct (Z.ltb_spec (zlen l) (capacity v)) as [Hlt|Hge].
    + destruct Hp as (v' & -> & Hr' & Hc). cbn. specialize (IH v' _ Hr').
      rewrite Hc, <- app_assoc in IH. cbn in IH.
      replace (zlen (l ++ [x]) + zlen items) with (zlen l + zlen (x :: items)) in IH by len.
      done.
    + rewrite Hp. cbn. by rewrite (proj2 (Z.leb_gt _ _)) by len.
Qed.

(** *** Programs over a vector

    The operations of the interface, and what a list bounded by [cap] does for
    each of them; [None] is the panic of a full vector. *)
Inductive vec_op := OpPush (x : T) | OpTryPush (x : T) | OpPop | OpClear | OpExtend (xs : list T).

Definition run_op (o : vec_op) (v : FixedVec T) : outcome E (FixedVec T * option T) :=
  match o with
  | OpPush x => let* w := push v x in Ok (w, None)
  | OpTryPush x =>
      let* r := try_push v x in
      match r with (v', inl _) => Ok (v', None) | (v', inr y) => Ok (v', Some y) end
  | OpPop => pop v
  | OpClear => let* w := clear v in Ok (w, None)
  | OpExtend xs => let* w := extend v xs in Ok (w, None)
  end.

Definition spec_op (cap : Z) (o : vec_op) (l : list T) : option (list T * option T) :=
  match o with
  | OpPush x => if zlen l <? cap then Some (l ++ [x], None) else None
  | OpTryPush x => if zlen l <? cap then Some (l ++ [x], None) else Some (l, Some x)
  | OpPop => Some (removelast l, last l)
  | OpClear => Some ([], None)
  | OpExtend xs => if zlen l + zlen xs <=? cap then Some (l ++ xs, None) else None
  end.

Fixpoint run_ops (os : list vec_op) (v : FixedVec T) : outcome E (FixedVec T * list (option T)) :=
  match os with
  | [] => Ok (v, [])
  | o :: r =>
      let* (w, y) := run_op o v in
      let* (w', ys) := run_ops r w in
      Ok (w', y :: ys)
  end.

Fixpoint spec_ops (cap : Z) (os : list vec_op) (l : list T) : option (list T * list (option T)) :=
  match os with
  | [] => Some (l, [])
  | o :: r =>
      match spec_op cap o l with
      | Some (l', y) =>
          match spec_ops cap r l' with
          | Some (l'', ys) => Some (l'', y :: ys)
          | None => None
          end
      | None => None
      end
  end.

Lemma run_op_rep o v l :
  rep v l ->
  match spec_op (capacity v) o l with
  | Some (l', y) => exists v', run_op o v = Ok (v', y) /\ rep v' l' /\ capacity v' = capacity v
  | None => run_op o v = Panic "ArrayVec is full"
  end.
Proof.
  intros Hr. destruct o as [x|x| | |xs]; cbn [run_op spec_op].
  - pose proof (push_rep _ _ x Hr) as H. destruct (zlen l <? capacity v).
    + destruct H as (v' & -> & ? & ?). cbn. eauto.
    + by rewrite H.
  - pose proof (try_push_rep _ _ x Hr) as H. destruct (zlen l <? capacity v).
    + destruct H as (v' & -> & ? & ?). cbn. eauto.
    + rewrite H. cbn. eauto.
  - pose proof (pop_rep _ _ Hr) as H. destruct (last l) as [x|] eqn:El; [done|].
    apply last_None in El as ->. eauto.
  - destruct (clear_rep _ _ Hr) as (v' & -> & ? & ?). cbn. eauto.
  - pose proof (extend_rep _ _ xs Hr) as H. destruct (zlen l + zlen xs <=? capacity v).
    + destruct H as (v' & -> & ? & ?). cbn. eauto.
    + by rewrite H.
Qed.

(** C20 Any sequence of [push], [try_push], [pop], [clear] and [extend] on a
    [FixedVec] behaves as the same sequence on a list bounded by the
    capacity: the same elements and items come back in order, the vector then
    dereferences to exactly the list's elements, and the only panic is the
    one of [push] on a full vector, where the list has no room. No operation
    reads an uninitialised slot or overflows its [u32] length. *)
Theorem fixedvec_refines_list os v l :
  rep v l ->
  match spec_ops (capacity v) os l with
  | Some (l', ys) =>
      exists v', run_ops os v = Ok (v', ys) /\ rep v' l' /\ deref v' = Ok l' /\
        capacity v' = capacity v
  | None => run_ops os v = Panic "ArrayVec is full"
  end.
Proof.
  revert v l; induction os as [|o os IH]; intros v l Hr; cbn.
  - exists v. auto using deref_rep.
  - pose proof (run_op_rep o _ _ Hr) as Ho.
    destruct (spec_op (capacity v) o l) as [[l' y]|]; [|by rewrite Ho].
    destruct Ho as (v' & -> & Hr' & Hc). cbn. specialize (IH v' l' Hr'). rewrite Hc in IH.
    destruct (spec_ops (capacity v) os l') as [[l'' ys]|]; [|by rewrite IH].
    destruct IH as (v'' & -> & ? & ? & ?). cbn. eauto.
Qed.

(** *** The iterator *)

(** Which end an iteration step takes from. *)
Inductive side := Front | Back.

Fixpoint run_iter (ss : list side) (it : IntoIter) : outcome E (IntoIter * list (option T)) :=
  match ss with
  | [] => Ok (it, [])
  | s :: r =>
      let* (it', y) := match s with Front => next it | Back => next_back it end in
      let* (it'', ys) := run_iter r it' in
      Ok (it'', y :: ys)
  end.

Definition deque_step (s : side) (l : list T) : list T * option T :=
  match s with
  | Front => match l with [] => ([], None) | x :: r => (r, Some x) end
  | Back => (removelast l, last l)
  end.

Fixpoint run_deque (ss : list side) (l : list T) : list T * list (option T) :=
  match ss with
  | [] => (l, [])
  | s :: r =>
      let '(l', y) := deque_step s l in
      let '(l'', ys) := run_deque r l' in (l'', y :: ys)
  end.

(** The iterator still owns [l]. *)
Definition it_rep (it : IntoIter) (l : list T) : Prop :=
  0 <= it_index it /\ it_len it = it_index it + zlen l /\ fits 64 (it_len it) /\
  take (length l) (drop (Z.to_nat (it_index it)) (it_array it)) = Some <$> l.

Lemma into_iter_rep v l : rep v l -> it_rep (into_iter v) l.
Proof.
  intros (Hl & Hc & Hm & Ht). unfold it_rep, into_iter. cbn. rewrite Hl.
  unfold fits. repeat split; try done; unfold zlen in *; lia.
Qed.

Lemma it_slot_read it l i x :
  it_rep it l -> l !! i = Some x ->
  slot_read (it_array it) (it_index it + Z.of_nat i) = Ok x.
Proof.
  intros (Hi & _ & _ & Ht) Hx. pose proof (lookup_lt_Some _ _ _ Hx) as Hlt.
  unfold slot_read. apply (f_equal (lookup i)) in Ht.
  rewrite lookup_take_lt, lookup_drop, list_lookup_fmap, Hx in Ht by done. cbn in Ht.
  replace (Z.to_nat (it_index it + Z.of_nat i)) with (Z.to_nat (it_index it) + i)%nat by lia.
  by rewrite Ht.
Qed.

Lemma it_tail (array : list (option T)) i (x : T) l :
  take (length (x :: l)) (drop i array) = Some <$> x :: l ->
  take (length l) (drop (i + 1) array) = Some <$> l.
Proof.
  rewrite <- drop_drop. destruct (drop i array) as [|d r]; cbn; [done|].
  rewrite drop_0. by intros [= _ ->].
Qed.

Lemma next_rep it l :
  it_rep it l ->
  exists it', next it = Ok (it', snd (deque_step Front l)) /\ it_rep it' (fst (deque_step Front l)).
Proof.
  intros Hr. pose proof Hr as (Hi & Hl & Hf & Ht). unfold next, fits in *.
  destruct l as [|x l]; cbn [deque_step fst snd].
  - rewrite (proj2 (Z.eqb_eq _ _)) by len. eauto.
  - rewrite (proj2 (Z.eqb_neq _ _)) by len. unfold add_w.
    rewrite in_range_fits by (unfold fits; len). cbn.
    pose proof (it_slot_read it (x :: l) 0 x Hr eq_refl) as Hs. rewrite Z.add_0_r in Hs.
    rewrite Hs. cbn. eexists. split; [done|]. unfold it_rep. cbn. unfold fits.
    repeat split; [len..|].
    apply it_tail in Ht. by rewrite Z2Nat.inj_add in * by lia.
Qed.

Lemma next_back_rep it l :
  it_rep it l ->
  exists it', next_back it = Ok (it', snd (deque_step Back l)) /\ it_rep it' (fst (deque_step Back l)).
Proof.
  intros Hr. pose proof Hr as (Hi & Hl & Hf & Ht). unfold next_back, fits in *.
  destruct l as [|x l _] using rev_ind; cbn [deque_step fst snd].
  - rewrite (proj2 (Z.eqb_eq _ _)) by len. eauto.
  - rewrite (proj2 (Z.eqb_neq _ _)) by len. unfold sub_w.
    rewrite in_range_fits by (unfold fits; len). cbn.
    rewrite last_snoc, List.removelast_last.
    pose proof (it_slot_read it (l ++ [x]) (length l) x Hr) as Hs.
    replace (it_index it + Z.of_nat (length l)) with (it_len it - 1) in Hs by len.
    rewrite Hs by (rewrite lookup_app_r by lia; by rewrite Nat.sub_diag).
    cbn. eexists. split; [done|]. unfold it_rep. cbn. unfold fits.
    repeat split; [len..|].
    apply (f_equal (take (length l))) in Ht. rewrite take_take, Nat.min_l in Ht by len.
    by rewrite Ht, fmap_app, take_app_le, take_ge by len.
Qed.

Lemma it_drop_rep it l : it_rep it l -> it_drop it = Ok l.
Proof.
  intros (Hi & Hl & Hf & Ht). unfold it_drop, sub_w, fits in *.
  rewrite in_range_fits by (unfold fits; len). cbn.
  replace (Z.to_nat (it_len it - it_index it)) with (length l) by len.
  rewrite Ht. apply init_slots_fmap.
Qed.

(** C38 A vector consumed by its iterator is a double-ended queue: any
    interleaving of [next] and [next_back] yields what the same takes from the
    two ends of its list yield, the exact length reported is the number of
    elements left, and the iterator's [Drop] destroys exactly those left, so
    every element is moved out or dropped once and none twice. *)
Theorem into_iter_is_deque ss v l :
  rep v l ->
  exists it, run_iter ss (into_iter v) = Ok (it, snd (run_deque ss l)) /\
    it_exact_len it = Ok (zlen (fst (run_deque ss l))) /\
    it_drop it = Ok (fst (run_deque ss l)).
Proof.
  intros Hr%into_iter_rep. revert Hr. generalize (into_iter v). clear v.
  revert l; induction ss as [|s ss IH]; intros l it Hr; cbn [run_iter run_deque].
  - exists it. cbn. split; [done|]. split; [|by apply it_drop_rep].
    destruct Hr as (Hi & Hl & Hf & _). unfold it_exact_len, sub_w.
    rewrite in_range_fits by (unfold fits in *; len). f_equal. lia.
  - assert (exists it', (match s with Front => next it | Back => next_back it end) =
      Ok (it', snd (deque_step s l)) /\ it_rep it' (fst (deque_step s l))) as (it' & -> & Hr').
    { destruct s; [by apply next_rep|by apply next_back_rep]. }
    destruct (deque_step s l) as [l' y]; cbn in *.
    destruct (IH _ _ Hr') as (it'' & -> & He & Hd).
    destruct (run_deque ss l') as [l'' ys]; cbn in *. eauto.
Qed.

(** [size_hint] is exact. *)
Lemma size_hint_rep it l : it_rep it l -> size_hint it = Ok (zlen l, Some (zlen l)).
Proof.
  intros (Hi & Hl & Hf & _). unfold size_hint, sub_w.
  rewrite in_range_fits by (unfold fits in *; len). cbn. do 3 f_equal; lia.
Qed.

(** [into_inner_slice] of a vector that is not full exposes slots that were
    never written. *)
Lemma into_inner_slice_uninit v :
  None ∈ fv_array v -> into_inner_slice v = Fault.
Proof.
  unfold into_inner_slice, init_slots, into_inner. intros Hin.
  destruct (mapM id (fv_array v)) as [l|] eqn:Em; [|done].
  apply mapM_Some_1 in Em. apply list_elem_of_lookup_1 in Hin as [i Hi].
  by destruct (Forall2_lookup_l _ _ _ _ _ Em Hi) as (y & _ & ?).
Qed.
End Vec.
Arguments IntoIter : clear implicits.
Arguments vec_op : clear implicits.

(** ** FixedString *)

(** [ArrayString<N>] is [FixedString] over an array of [N] bytes. *)
Record FixedString := Mk_FixedString { fs_vec : FixedVec byte }.

Section Str.
Context {E : Type} {bp : BuildProfile}.

Definition string_new (n : nat) : FixedString := Mk_FixedString (new_array n).

Definition string_remaining_capacity (s : FixedString) : outcome E Z :=
  remaining_capacity (fs_vec s).

Definition as_str (s : FixedString) : outcome E bytes := deref (fs_vec s).

(** [Deref for FixedString] *)
Definition string_deref (s : FixedString) : outcome E bytes := as_str s.

Definition try_push_str (this : FixedString) (s : bytes) : outcome E (FixedString * bool) :=
  let* room := string_remaining_capacity this in
  if room <? zlen s then Ok (this, false)
  else
    let* vec := for_each s (fun b vec => let* r := try_push vec b in Ok (fst r)) (fs_vec this) in
    Ok (Mk_FixedString vec, true).

Definition try_from_str (n : nat) (s : bytes) : outcome E (option FixedString) :=
  let* r := try_push_str (string_new n) s in
  let '(this, pushed) := r in Ok (if pushed : bool then Some this else None).

(** The string holds the text [t]. *)
Definition text_rep (s : FixedString) (t : bytes) : Prop :=
  rep (fs_vec s) t /\ from_utf8_ok t = true.

Lemma try_push_all (v : FixedVec byte) l s :
  rep v l -> zlen l + zlen s <= capacity v ->
  exists w, for_each s (fun b vec => let* r := try_push vec b in Ok (fst r)) v = @Ok E _ w /\
    rep w (l ++ s) /\ capacity w = capacity v.
Proof.
  revert v l; induction s as [|b s IH]; intros v l Hr Hc; cbn [for_each].
  - exists v. by rewrite app_nil_r.
  - pose proof (@try_push_rep E _ _ _ _ b Hr) as Hp.
    rewrite (proj2 (Z.ltb_lt (zlen l) (capacity v))) in Hp by len.
    destruct Hp as (w & -> & Hr' & Ec). cbn. destruct (IH w _ Hr') as (w' & -> & Hr'' & Ec').
    { rewrite Ec. len. }
    rewrite <- app_assoc in Hr''. eexists. split; [done|]. split; [done|congruence].
Qed.

Lemma try_push_str_rep this t s :
  rep (fs_vec this) t ->
  if zlen t + zlen s <=? capacity (fs_vec this)
  then exists this', try_push_str this s = Ok (this', true) /\ rep (fs_vec this') (t ++ s)
  else try_push_str this s = Ok (this, false).
Proof.
  intros Hr. unfold try_push_str, string_remaining_capacity.
  rewrite (rep_remaining _ _ Hr). cbn.
  destruct (Z.ltb_spec (capacity (fs_vec this) - zlen t) (zlen s)) as [Hlt|Hge].
  - by rewrite (proj2 (Z.leb_gt _ _)) by lia.
  - destruct (try_push_all _ _ s Hr ltac:(lia)) as (w & -> & Hr' & Hc). cbn.
    rewrite (proj2 (Z.leb_le (zlen t + _) _)) by lia. eauto.
Qed.

(** C39 [try_push_str] is all or nothing: with room for the whole of [s] it
    appends it and returns [true], otherwise it returns [false] and leaves the
    string alone. Either way the contents are valid UTF-8, so the
    [from_utf8_unchecked] of [as_str] is sound and gives the text back. *)
Theorem try_push_str_spec this t s :
  text_rep this t -> from_utf8_ok s = true ->
  exists this' pushed, try_push_str this s = Ok (this', pushed) /\
    pushed = (zlen t + zlen s <=? capacity (fs_vec this)) /\
    (if pushed then text_rep this' (t ++ s) /\ as_str this' = Ok (t ++ s)
     else this' = this /\ as_str this = Ok t).
Proof.
  intros [Hr Hu] Hs. pose proof (try_push_str_rep this t s Hr) as Hp.
  destruct (zlen t + zlen s <=? capacity (fs_vec this)).
  - destruct Hp as (this' & -> & Hr'). exists this', true.
    split_and!; try done; [split; [done|by apply from_utf8_ok_app]|by apply deref_rep].
  - rewrite Hp. exists this, false. by rewrite <- (deref_rep _ _ Hr).
Qed.

(** [try_from_str] is [None] exactly for a text longer than the array. *)
Lemma try_from_str_spec n s :
  Z.of_nat n < 2 ^ 32 -> from_utf8_ok s = true ->
  if zlen s <=? Z.of_nat n
  then exists this, try_from_str n s = Ok (Some this) /\ text_rep this s
  else try_from_str n s = Ok None.
Proof.
  intros Hn Hs. pose proof (try_push_str_rep (string_new n) [] s (rep_new _ Hn)) as Hp.
  assert (capacity (fs_vec (string_new n)) = Z.of_nat n) as Hc.
  { unfold capacity, zlen. cbn. by rewrite length_replicate. }
  rewrite Hc in Hp.
  change (zlen [] + zlen s) with (zlen s) in Hp. unfold try_from_str.
  destruct (zlen s <=? Z.of_nat n); [destruct Hp as (this & -> & ?)|rewrite Hp]; cbn; [|done].
  eexists. split; [done|]. by split.
Qed.
End Str.

(** ** Concrete vectors *)

Lemma rep_example : rep (Mk_FixedVec 2 [Some x61; Some x62; None]) [x61; x62].
Proof. by split_and!. Qed.

(** A push that fills a vector of three slots, a refused one, and a pop. *)
Lemma fixedvec_refines_list_witness :
  rep (Mk_FixedVec 2 [Some x61; Some x62; None]) [x61; x62] /\
  exists v', @run_ops string dev_profile _ [OpPush x63; OpTryPush x64; OpPop]
      (Mk_FixedVec 2 [Some x61; Some x62; None]) = Ok (v', [None; Some x64; Some x63]) /\
    rep v' [x61; x62] /\ @deref string _ v' = Ok [x61; x62] /\
    capacity v' = 3.
Proof.
  split; [apply rep_example|].
  apply (@fixedvec_refines_list string dev_profile byte [OpPush x63; OpTryPush x64; OpPop] _ _ rep_example).
Defined.

Lemma into_iter_is_deque_witness :
  rep (Mk_FixedVec 2 [Some x61; Some x62; None]) [x61; x62] /\
  exists it, @run_iter string dev_profile _ [Back] (into_iter (Mk_FixedVec 2 [Some x61; Some x62; None]))
      = Ok (it, [Some x62]) /\
    @it_exact_len string dev_profile _ it = Ok 1 /\ @it_drop string dev_profile _ it = Ok [x61].
Proof.
  split; [apply rep_example|].
  apply (@into_iter_is_deque string dev_profile byte [Back] _ _ rep_example).
Defined.

Lemma try_push_str_spec_witness :
  text_rep (Mk_FixedString (Mk_FixedVec 2 [Some x61; Some x62; None])) (bstr "ab") /\
  exists this' pushed, @try_push_str string dev_profile
      (Mk_FixedString (Mk_FixedVec 2 [Some x61; Some x62; None])) (bstr "cd") = Ok (this', pushed) /\
    pushed = false /\
    (if pushed then text_rep this' (bstr "abcd") /\ @as_str string this' = Ok (bstr "abcd")
     else this' = Mk_FixedString (Mk_FixedVec 2 [Some x61; Some x62; None]) /\
       @as_str string (Mk_FixedString (Mk_FixedVec 2 [Some x61; Some x62; None])) = Ok (bstr "ab")).
Proof.
  split; [split; [apply rep_example|done]|].
  apply (@try_push_str_spec string dev_profile
    (Mk_FixedString (Mk_FixedVec 2 [Some x61; Some x62; None])) (bstr "ab") (bstr "cd"));
    [split; [apply rep_example|done]|done].
Defined.
