(* ===== verification/Memory.v ===== *)
(** The memory the program reads and writes through raw pointers.

    A finite map from addresses to bytes: an address outside it is not mapped,
    and an access to one is [Fault]. [core::slice::from_raw_parts] takes a
    window of it, an assignment through [*mut u64] stores eight bytes,
    little-endian as on aarch64. *)
From stdpp Require Import list_numbers.
From S2P Require Import Prelude Container.

Abbreviation memory := (gmap Z byte).

(** The [n] addresses from [p], with the wrap-around of pointer arithmetic. *)
Fixpoint addresses (p : Z) (n : nat) : list Z :=
  match n with O => [] | S m => p :: addresses (ptr_add p 1) m end.

Definition load_bytes (m : memory) (p : Z) (n : nat) : option bytes :=
  mapM (fun a => m !! a) (addresses p n).

(** Each byte goes to an address that is mapped already. *)
Fixpoint store_bytes (m : memory) (p : Z) (bs : bytes) : option memory :=
  match bs with
  | [] => Some m
  | b :: r =>
      match m !! p with
      | Some _ => store_bytes (<[p := b]> m) (ptr_add p 1) r
      | None => None
      end
  end.

(** [*(p as *mut u64) = v] *)
Definition store_u64 {E} (m : memory) (p v : Z) : outcome E memory :=
  match store_bytes m p (le_bytes 8 v) with Some m => Ok m | None => Fault end.

(** [*(p as *const u64)] *)
Definition load_u64 (m : memory) (p : Z) : option Z := le_val <$> load_bytes m p 8.

(** [slice::from_raw_parts(p, len)] *)
Definition from_raw_parts {E} (m : memory) (p len : Z) : outcome E slice :=
  match load_bytes m p (Z.to_nat len) with
  | Some bs => Ok (Mk_slice p bs)
  | None => Fault
  end.

Arguments load_bytes : simpl never.
Arguments load_u64 : simpl never.
Arguments store_u64 {E} : simpl never.

(** A memory holding [bs] from [p] on. *)
Fixpoint mem_of (p : Z) (bs : bytes) : memory :=
  match bs with [] => ∅ | b :: r => <[p := b]> (mem_of (p + 1) r) end.

(** ** Lemmas *)

(** The bytes of [p .. p+n) are mapped and the range does not wrap. *)
Definition mapped (m : memory) (p n : Z) : Prop :=
  0 <= p /\ p + n <= 2 ^ 64 /\ forall a, p <= a < p + n -> is_Some (m !! a).

Lemma addresses_seqZ p n : 0 <= p -> p + Z.of_nat n <= 2 ^ 64 -> addresses p n = seqZ p (Z.of_nat n).
Proof.
  revert p; induction n as [|n IH]; intros p Hp Hn; [done|].
  rewrite seqZ_cons by lia. cbn [addresses]. f_equal.
  replace (Z.pred (Z.of_nat (S n))) with (Z.of_nat n) by lia.
  destruct n as [|n]; [done|].
  rewrite ptr_add_small by lia. apply IH; lia.
Qed.

Lemma mapped_sub m p n q k : mapped m p n -> p <= q -> q + k <= p + n -> mapped m q k.
Proof. intros (? & ? & Hm) ? ?. split_and!; [lia|lia|]. intros a Ha. apply Hm. lia. Qed.

Lemma load_bytes_mapped m p n :
  mapped m p (Z.of_nat n) -> exists bs, load_bytes m p n = Some bs /\ length bs = n.
Proof.
  intros (Hp & Hn & Hm). unfold load_bytes. rewrite addresses_seqZ by done.
  destruct (mapM _ _) as [bs|] eqn:E.
  - exists bs. split; [done|]. apply length_mapM in E. rewrite length_seqZ in E. lia.
  - exfalso. apply mapM_None, Exists_exists in E as (a & Ha%elem_of_seqZ & E).
    destruct (Hm a) as [? ?]; [lia|congruence].
Qed.

Lemma load_bytes_length m p n bs : load_bytes m p n = Some bs -> length bs = n.
Proof.
  unfold load_bytes. intros E%length_mapM. rewrite <- E. clear E. revert p.
  induction n; intros p; cbn; auto.
Qed.

(** A store that stays in mapped memory succeeds, maps the same addresses, and
    changes only its own. *)
Lemma store_bytes_mapped m p bs :
  mapped m p (zlen bs) ->
  exists m', store_bytes m p bs = Some m' /\ dom m' = dom m /\
    forall a, m' !! a = if bool_decide (p <= a < p + zlen bs) then bs !! Z.to_nat (a - p) else m !! a.
Proof.
  revert m p; induction bs as [|b bs IH]; intros m p (Hp & Hn & Hm); cbn [store_bytes].
  - exists m. split; [done|]. split; [done|]. intros a. by rewrite bool_decide_false by len.
  - destruct (Hm p) as [c Hc]; [len|]. rewrite Hc.
    destruct (decide (bs = [])) as [->|Hne].
    + exists (<[p := b]> m). split; [done|]. split; [apply dom_insert_lookup_L; eauto|].
      intros a. case_bool_decide as Ha.
      * replace a with p by len. rewrite lookup_insert_eq, Z.sub_diag. done.
      * apply lookup_insert_ne. len.
    + assert (0 < zlen bs) by (destruct bs; [done|len]).
      rewrite ptr_add_small by len.
      destruct (IH (<[p := b]> m) (p + 1)) as (m' & -> & Hd & Hl).
      { split; [lia|]. split; [len|]. intros a Ha. rewrite lookup_insert_ne by lia. apply Hm. len. }
      exists m'. split; [done|]. split; [rewrite Hd; apply dom_insert_lookup_L; eauto|].
      intros a. rewrite Hl. destruct (decide (a = p)) as [->|Hap].
      * rewrite bool_decide_false, bool_decide_true by len. by rewrite lookup_insert_eq, Z.sub_diag.
      * rewrite lookup_insert_ne by done. repeat case_bool_decide; try len; try done.
        replace (Z.to_nat (a - p)) with (S (Z.to_nat (a - (p + 1)))) by lia. done.
Qed.

Lemma store_u64_mapped {E} m p v :
  mapped m p 8 ->
  exists m', store_u64 m p v = @Ok E _ m' /\ dom m' = dom m /\
    (forall a, ~ p <= a < p + 8 -> m' !! a = m !! a) /\ load_u64 m' p = Some (v mod 2 ^ 64).
Proof.
  intros Hm. unfold store_u64.
  destruct (store_bytes_mapped m p (le_bytes 8 v)) as (m' & -> & Hd & Hl); [done|].
  change (zlen (le_bytes 8 v)) with 8 in Hl.
  exists m'. split; [done|]. split; [done|]. split.
  - intros a Ha. rewrite Hl. by rewrite bool_decide_false by done.
  - unfold load_u64, load_bytes. destruct Hm as (Hp & Hn & _). rewrite addresses_seqZ by lia.
    assert (mapM (fun a => m' !! a) (seqZ p (Z.of_nat 8)) = Some (le_bytes 8 v)) as ->.
    { apply mapM_Some. apply Forall2_same_length_lookup. split; [by rewrite length_seqZ|].
      intros i a b [-> Hi]%lookup_seqZ Hb. rewrite Hl, bool_decide_true by lia.
      rewrite <- Hb. f_equal. lia. }
    unfold fmap, option_fmap, option_map. by rewrite le_val_le_bytes.
Qed.

(** A store that succeeds maps nothing and unmaps nothing. *)
Lemma store_bytes_dom m p bs m' : store_bytes m p bs = Some m' -> dom m' = dom m.
Proof.
  revert m p; induction bs as [|b bs IH]; intros m p; cbn [store_bytes]; [by intros [= <-]|].
  destruct (m !! p) eqn:Ep; [|done]. intros ->%IH. apply dom_insert_lookup_L. eauto.
Qed.

Lemma store_u64_dom {E} m p v m' : store_u64 m p v = @Ok E _ m' -> dom m' = dom m.
Proof. unfold store_u64. destruct (store_bytes _ _ _) eqn:Es; [|done]. intros [= <-]. by eapply store_bytes_dom. Qed.

Lemma mapped_dom (m m' : memory) p n : dom m' = dom m -> mapped m p n -> mapped m' p n.
Proof.
  intros Hd (? & ? & Hm). split_and!; try done. intros a Ha. apply elem_of_dom. rewrite Hd.
  apply elem_of_dom. auto.
Qed.

Lemma mapped_union_l (m m' : memory) p n : mapped m p n -> mapped (m ∪ m') p n.
Proof. intros (? & ? & Hm). split_and!; try done. intros a Ha. apply lookup_union_is_Some. auto. Qed.

Lemma mapped_same m m' p n : mapped m p n -> (forall x, p <= x < p + n -> m' !! x = m !! x) -> mapped m' p n.
Proof. intros (? & ? & Hm) Hs. split_and!; try done. intros a Ha. rewrite Hs by done. by apply Hm. Qed.

Lemma mem_of_lookup p bs a :
  mem_of p bs !! a = if bool_decide (p <= a < p + zlen bs) then bs !! Z.to_nat (a - p) else None.
Proof.
  revert p; induction bs as [|b bs IH]; intros p; cbn [mem_of].
  - by rewrite bool_decide_false by len.
  - destruct (decide (a = p)) as [->|Ha].
    + rewrite lookup_insert_eq, bool_decide_true by len. by rewrite Z.sub_diag.
    + rewrite lookup_insert_ne, IH by done. repeat case_bool_decide; try len; try done.
      replace (Z.to_nat (a - p)) with (S (Z.to_nat (a - (p + 1)))) by lia. done.
Qed.

Lemma mem_of_mapped p bs : 0 <= p -> p + zlen bs <= 2 ^ 64 -> mapped (mem_of p bs) p (zlen bs).
Proof.
  intros Hp Hn. split_and!; try done. intros a Ha. rewrite mem_of_lookup, bool_decide_true by done.
  apply lookup_lt_is_Some_2. len.
Qed.

Lemma load_bytes_ext (m m' : memory) p n :
  0 <= p -> p + Z.of_nat n <= 2 ^ 64 -> (forall a, p <= a < p + Z.of_nat n -> m !! a = m' !! a) ->
  load_bytes m p n = load_bytes m' p n.
Proof.
  intros Hp Hn Hext. unfold load_bytes. rewrite addresses_seqZ by done.
  assert (forall a, a ∈ seqZ p (Z.of_nat n) -> m !! a = m' !! a) as H.
  { intros a Ha%elem_of_seqZ. apply Hext. lia. }
  induction (seqZ p (Z.of_nat n)) as [|a l IH]; [done|]. cbn.
  rewrite (H a) by (by left). rewrite IH; [done|]. intros b Hb. apply H. by right.
Qed.

(** Two stored pointers do not overlap. *)
Definition disjoint8 (p q : Z) : Prop := p + 8 <= q \/ q + 8 <= p.

(** A run of bytes that are where they should be is what a load gives. *)
Lemma load_bytes_stored (m : memory) p bs :
  0 <= p -> p + zlen bs <= 2 ^ 64 ->
  (forall i b, bs !! i = Some b -> m !! (p + Z.of_nat i) = Some b) ->
  load_bytes m p (length bs) = Some bs.
Proof.
  intros Hp Hn Hl. unfold load_bytes. rewrite addresses_seqZ by len.
  apply mapM_Some, Forall2_same_length_lookup. split; [rewrite length_seqZ; lia|].
  intros i a b [-> Hi]%lookup_seqZ Hb. by apply Hl.
Qed.

Lemma load_bytes_take (m : memory) p bs k :
  load_bytes m p (length bs) = Some bs -> (k <= length bs)%nat -> load_bytes m p k = Some (take k bs).
Proof.
  unfold load_bytes. revert p bs; induction k as [|k IH]; intros p bs Hl Hk; [done|].
  destruct bs as [|b bs]; [cbn in Hk; lia|].
  cbn in Hl. destruct (m !! p) as [c|] eqn:Ec; [|done]. cbn in Hl.
  destruct (mapM _ (addresses (ptr_add p 1) (length bs))) as [r|] eqn:Er; [|done]. cbn in Hl.
  injection Hl as -> ->. cbn. rewrite Ec. cbn. rewrite (IH _ bs Er) by (cbn in Hk; lia). done.
Qed.

(** A slice whose bytes are in memory *)
Definition buffer_ok (m : memory) (buf : slice) : Prop :=
  0 <= s_ptr buf /\ s_ptr buf + zlen (s_bytes buf) <= 2 ^ 64 /\
  forall i b, s_bytes buf !! i = Some b -> m !! (s_ptr buf + Z.of_nat i) = Some b.

Lemma mem_of_buffer (m : memory) p bs :
  0 <= p -> p + zlen bs <= 2 ^ 64 -> buffer_ok (mem_of p bs ∪ m) (Mk_slice p bs).
Proof.
  intros Hp Ht. split; [done|]. split; [done|]. cbn. intros i b Hi. apply lookup_union_Some_l.
  pose proof (lookup_lt_Some _ _ _ Hi). rewrite mem_of_lookup, bool_decide_true by len. rewrite <- Hi. f_equal. lia.
Qed.

(** What a load gives, byte by byte. *)
Lemma load_bytes_lookup (m : memory) p n bs i b :
  0 <= p -> p + Z.of_nat n <= 2 ^ 64 -> load_bytes m p n = Some bs -> bs !! i = Some b ->
  m !! (p + Z.of_nat i) = Some b.
Proof.
  intros Hp Hn Hl Hi. pose proof (load_bytes_length _ _ _ _ Hl) as Hlen. unfold load_bytes in Hl.
  rewrite addresses_seqZ in Hl by lia. apply mapM_Some in Hl.
  pose proof (lookup_lt_Some _ _ _ Hi). destruct (Forall2_lookup_r _ _ _ _ _ Hl Hi) as (a & Ha & Hb).
  apply lookup_seqZ in Ha as [-> _]. exact Hb.
Qed.

(** A range that is mapped and one that is not do not overlap. *)
Lemma unmapped_apart (m : memory) p n q k :
  0 < n -> 0 < k -> (forall x, p <= x < p + n -> is_Some (m !! x)) -> (forall x, q <= x < q + k -> m !! x = None) ->
  p + n <= q \/ q + k <= p.
Proof.
  intros Hn Hk Hp Hq. destruct (Z.le_gt_cases (p + n) q); [by left|]. destruct (Z.le_gt_cases (q + k) p); [by right|].
  exfalso. destruct (Hp (Z.max p q)) as [b Hb]; [lia|]. rewrite Hq in Hb by lia. done.
Qed.

(** A part of a buffer in memory *)
Lemma buffer_ok_load (m : memory) buf off n :
  buffer_ok m buf -> 0 <= off -> off + Z.of_nat n <= zlen (s_bytes buf) ->
  load_bytes m (s_ptr buf + off) n = Some (take n (drop (Z.to_nat off) (s_bytes buf))).
Proof.
  intros (Hp & Hn & Hb) Ho Hle. set (bs := take n (drop (Z.to_nat off) (s_bytes buf))).
  assert (length bs = n) as Hl by (unfold bs; len). rewrite <- Hl at 1. apply load_bytes_stored; [lia|len|].
  intros i b Hi. unfold bs in Hi. apply lookup_take_Some in Hi as [Hi _]. rewrite lookup_drop in Hi.
  rewrite <- (Hb _ _ Hi). f_equal. lia.
Qed.
