(* ===== verification/Kernel.v ===== *)
(** The kernel interface and the foreign code: [src/syscalls.rs],
    [src/mach.rs], [src/mmap.rs], [src/libc.rs], [src/jump.rs], [src/tlv.rs].

    The [svc] instruction, the code of the loaded program and the C functions
    the program links are not in the sources: they are the operations of the
    class [Machine]. Everything the program does around them (numbers and
    arguments of the traps, decoding of results, the checks before a call, the
    loops) is defined here. Local variables whose address the program takes
    live in memory, at the stack slot [w_sp] of the world. *)
From S2P Require Import Prelude Scroll Container Memory.

(** ** The world *)

Class Machine := {
  kstate : Type;
  (** [svc #0x80] with the number in [x16] and the arguments in [x0] on: the
      value of [x0] and the carry flag *)
  svc : kstate -> memory -> Z -> list Z -> kstate * memory * (Z * bool);
  (** the [alloc] crate's placing of a string: its bytes are in memory, at the
      address returned *)
  alloc_string : kstate -> memory -> bytes -> kstate * memory * Z;
  (** a call of the code at an address, with four argument registers *)
  call_code : kstate -> memory -> Z -> list Z -> kstate * memory;
  (** [libtlv]'s [tlv_initialize_descriptors_export] *)
  tlv_initialize_descriptors_export : kstate -> memory -> Z -> kstate * memory;
  (** [libdsc]'s [dyld_shared_cache_base_address_get]: it may fill in the [u64]
      at the address, and returns a C [bool] *)
  dyld_shared_cache_base_address_get : kstate -> memory -> Z -> kstate * memory * Z
}.

(** [decode_ret] of [syscalls.rs]: a [Result<usize, usize>] as a value: [inl] is [Ok] *)
Definition decode_ret (val : Z) (err_bit : bool) : Z + Z := if err_bit then inr val else inl val.

Section Kernel.
Context {M : Machine}.

(** [w_sp] is the stack slot of the locals whose address is taken,
    [w_rebased] the program's [HAS_REBASED_SELF]. *)
Record world := Mk_world { w_kernel : kstate; w_mem : memory; w_sp : Z; w_rebased : bool }.

Definition set_kernel (w : world) (k : kstate) (m : memory) : world := Mk_world k m (w_sp w) (w_rebased w).
Definition set_mem (w : world) (m : memory) : world := set_kernel w (w_kernel w) m.

(** A computation that may change the world; whatever its outcome, the world is
    left as it was when the computation stopped. *)
Definition io (E A : Type) : Type := world -> world * outcome E A.

(** A computation that does not touch the world, and one that reads the memory *)
Definition lift {E A} (m : outcome E A) : io E A := fun w => (w, m).
Definition reading {E A} (f : memory -> outcome E A) : io E A := fun w => (w, f (w_mem w)).
Definition ret {E A} (a : A) : io E A := lift (Ok a).
Definition fail {E A} (e : E) : io E A := lift (Err e).

Definition io_bind {E A B} (m : io E A) (f : A -> io E B) : io E B := fun w =>
  match m w with
  | (w, Ok a) => f a w
  | (w, Err e) => (w, Err e)
  | (w, Panic why) => (w, Panic why)
  | (w, Fault) => (w, Fault)
  | (w, Diverge) => (w, Diverge)
  end.

(** A change of the memory; one that does not succeed leaves it alone. *)
Definition updating {E A} (f : memory -> outcome E (memory * A)) : io E A := fun w =>
  match f (w_mem w) with
  | Ok (m, a) => (set_mem w m, Ok a)
  | Err e => (w, Err e)
  | Panic why => (w, Panic why)
  | Fault => (w, Fault)
  | Diverge => (w, Diverge)
  end.

(** [m.unwrap_or_else(|e| ..)] *)
Definition unwrap_or_else {E F A} (m : io E A) (h : E -> io F A) : io F A := fun w =>
  match m w with
  | (w, Ok a) => (w, Ok a)
  | (w, Err e) => h e w
  | (w, Panic why) => (w, Panic why)
  | (w, Fault) => (w, Fault)
  | (w, Diverge) => (w, Diverge)
  end.

(** A computation that uses the address of a local *)
Definition with_sp {E A} (f : Z -> io E A) : io E A := fun w => f (w_sp w) w.
End Kernel.
Arguments world {M}.

Notation "'let!' p ':=' m 'in' k" := (io_bind m (fun x => match x with p => k end))
  (at level 10, p pattern, m at level 200, k at level 200,
   format "'[' 'let!'  p  ':='  m  'in' ']' '//' k") : dynld_scope.

(** Reduces what has run already. *)
Ltac io_cbn :=
  cbn [ret lift fail reading updating with_sp set_mem set_kernel w_kernel w_mem w_sp w_rebased bind decode_ret].

Section IoLemmas.
Context {M : Machine} {E : Type}.

Lemma io_bind_Ok {A B} (m : io E A) (f : A -> io E B) w w' b :
  io_bind m f w = (w', Ok b) <-> exists w1 a, m w = (w1, Ok a) /\ f a w1 = (w', Ok b).
Proof.
  unfold io_bind. destruct (m w) as [w1 [a|e|y| |]]; split; intros H; try discriminate H; eauto;
    destruct H as (w2 & a2 & [= <- <-] & ?) || destruct H as (? & ? & ? & _); done.
Qed.

(** Running the first half of a sequence *)
Lemma io_bind_run {A B} (m : io E A) (f : A -> io E B) w w1 a :
  m w = (w1, Ok a) -> io_bind m f w = f a w1.
Proof. unfold io_bind. by intros ->. Qed.

Lemma io_bind_assoc {A B C} (m : io E A) (f : A -> io E B) (g : B -> io E C) w :
  io_bind m (fun a => io_bind (f a) g) w = io_bind (io_bind m f) g w.
Proof. unfold io_bind. by destruct (m w) as [w1 [a|e|y| |]]. Qed.

Lemma io_bind_lift {A B} (m : outcome E A) (f : A -> io E B) w a : m = Ok a -> io_bind (lift m) f w = f a w.
Proof. by intros ->. Qed.

Lemma updating_Ok {A} (f : memory -> outcome E (memory * A)) w w' a :
  updating f w = (w', Ok a) <-> exists m, f (w_mem w) = Ok (m, a) /\ w' = set_mem w m.
Proof.
  unfold updating. destruct (f (w_mem w)) as [[m a1]|e|y| |]; split; intros H;
    try (by destruct H as (? & ? & ?)); try discriminate H; [injection H as <- <-; eauto|].
  destruct H as (m1 & [= <- <-] & ->). done.
Qed.

Lemma set_mem_same (w : world) : set_mem w (w_mem w) = w.
Proof. by destruct w. Qed.
End IoLemmas.

(** ** [syscalls.rs] *)

Definition SYS_EXIT : Z := 1.
Definition SYS_READ : Z := 3.
Definition SYS_WRITE : Z := 4.
Definition SYS_OPEN : Z := 5.
Definition SYS_CLOSE : Z := 6.
Definition SYS_FSTAT : Z := 339.
Definition SYS_MMAP : Z := 197.
Definition SYS_MUNMAP : Z := 73.
Definition SYS_MPROTECT : Z := 74.
Definition SYS_FCNTL : Z := 92.
Definition F_GETPATH : Z := 50.
Definition SYS_READLINK : Z := 58.
Definition O_SYMLINK : Z := 0x200000.

Section Calls.
Context {M : Machine} {bp : BuildProfile}.

Definition syscall {E} (num : Z) (args : list Z) : io E (Z + Z) := fun w =>
  let '(k, m, (val, err)) := svc (w_kernel w) (w_mem w) num args in
  (set_kernel w k m, Ok (decode_ret val err)).

Definition syscall0 {E} (num : Z) : io E (Z + Z) := syscall num [].
Definition syscall1 {E} (num a0 : Z) : io E (Z + Z) := syscall num [a0].
Definition syscall2 {E} (num a0 a1 : Z) : io E (Z + Z) := syscall num [a0; a1].
Definition syscall3 {E} (num a0 a1 a2 : Z) : io E (Z + Z) := syscall num [a0; a1; a2].
Definition syscall4 {E} (num a0 a1 a2 a3 : Z) : io E (Z + Z) := syscall num [a0; a1; a2; a3].
Definition syscall5 {E} (num a0 a1 a2 a3 a4 : Z) : io E (Z + Z) := syscall num [a0; a1; a2; a3; a4].
Definition syscall6 {E} (num a0 a1 a2 a3 a4 a5 : Z) : io E (Z + Z) :=
  syscall num [a0; a1; a2; a3; a4; a5].
Definition syscall7 {E} (num a0 a1 a2 a3 a4 a5 a6 : Z) : io E (Z + Z) :=
  syscall num [a0; a1; a2; a3; a4; a5; a6].
Definition syscall8 {E} (num a0 a1 a2 a3 a4 a5 a6 a7 : Z) : io E (Z + Z) :=
  syscall num [a0; a1; a2; a3; a4; a5; a6; a7].

Lemma syscall_run {E} num args w k m v err :
  svc (w_kernel w) (w_mem w) num args = (k, m, (v, err)) ->
  @syscall E num args w = (set_kernel w k m, Ok (decode_ret v err)).
Proof. unfold syscall. by intros ->. Qed.

(** ** [mach.rs] *)

Definition KERN_SUCCESS : Z := 0.
Definition TRAP_KERNELRPC_MACH_VM_ALLOCATE : Z := as_u 64 (-10).
Definition TRAP_KERNELRPC_MACH_VM_DEALLOCATE : Z := as_u 64 (-12).
Definition TRAP_KERNELRPC_MACH_VM_PROTECT : Z := as_u 64 (-14).
Definition TRAP_KERNELRPC_MACH_PORT_DEALLOCATE : Z := as_u 64 (-18).
Definition TRAP_TASK_SELF : Z := as_u 64 (-28).
Definition VM_FLAGS_ANYWHERE : Z := 1.

Definition kr (r : Z + Z) : Z := as_i 32 (match r with inl v | inr v => v end).

Definition task_self_internal {E} : io E Z :=
  let! r := syscall0 TRAP_TASK_SELF in
  ret (as_u 32 (match r with inl v | inr v => v end)).

Definition mach_port_deallocate_internal {E} (target name : Z) : io E Z :=
  let! r := syscall3 TRAP_KERNELRPC_MACH_PORT_DEALLOCATE target name 0 in ret (kr r).
Definition vm_allocate_internal {E} (target addr size flags : Z) : io E Z :=
  let! r := syscall4 TRAP_KERNELRPC_MACH_VM_ALLOCATE target addr size (as_u 32 flags) in ret (kr r).
Definition vm_deallocate_internal {E} (target address size : Z) : io E Z :=
  let! r := syscall3 TRAP_KERNELRPC_MACH_VM_DEALLOCATE target address size in ret (kr r).
Definition vm_protect_internal {E} (target address size set_maximum new_protection : Z) : io E Z :=
  let! r := syscall5 TRAP_KERNELRPC_MACH_VM_PROTECT target address size set_maximum (as_u 32 new_protection) in
  ret (kr r).

(** A local [u64], and its value after a call that was given its address *)
Definition local_u64_set {E} (v : Z) : io E unit :=
  with_sp (fun sp => updating (fun m => let* m := store_u64 m sp v in Ok (m, tt))).
Definition local_u64_get {E} : io E Z :=
  with_sp (fun sp => reading (fun m => match load_u64 m sp with Some v => Ok v | None => Fault end)).

Definition vm_alloc_task_self {E} (size : Z) : io E (Z + Z) :=
  let! _ := local_u64_set 0 in
  let! task := task_self_internal in
  let! kr := with_sp (fun sp => vm_allocate_internal task sp size VM_FLAGS_ANYWHERE) in
  if negb (kr =? KERN_SUCCESS) then ret (inr kr)
  else
    let! addr := local_u64_get in
    ret (if addr =? 0 then inr (-1) else inl addr).

Definition vm_dealloc_task_self {E} (address size : Z) : io E (unit + Z) :=
  let! task := task_self_internal in
  let! kr := vm_deallocate_internal task address size in
  ret (if negb (kr =? KERN_SUCCESS) then inr kr else inl tt).

Definition vm_protect {E} (address size set_maximum protection : Z) : io E (unit + Z) :=
  let! task := task_self_internal in
  let! kr := vm_protect_internal task address size set_maximum protection in
  ret (if negb (kr =? KERN_SUCCESS) then inr kr else inl tt).

(** [copy_nonoverlapping]: every source byte must be readable and every
    destination byte writable. *)
Definition copy_nonoverlapping {E} (src dst count : Z) : io E unit := updating (fun m =>
  match load_bytes m src (Z.to_nat count) with
  | Some bs =>
      match store_bytes m dst bs with
      | Some m => Ok (m, tt)
      | None => Fault
      end
  | None => Fault
  end).
Definition vm_copy_into_task_self {E} (src dst count : Z) : io E unit := copy_nonoverlapping src dst count.

(** ** [mmap.rs] *)

Definition PROT_NONE : Z := 0.
Definition PROT_READ : Z := 1.
Definition PROT_WRITE : Z := 2.
Definition PROT_EXEC : Z := 4.
Definition MAP_SHARED : Z := 1.
Definition MAP_PRIVATE : Z := 2.
Definition MAP_FIXED : Z := 0x10.
Definition MAP_ANON : Z := 0x20.
Definition MAP_FAILED : Z := 2 ^ 64 - 1.

(** [v as usize] of an [i32]: sign extension *)
Definition i32_as_usize (v : Z) : Z := as_u 64 v.

Definition mmap_internal {E} (addr len prot flags fd offset : Z) : io E (Z + Z) :=
  let! r := syscall6 SYS_MMAP addr len (i32_as_usize prot) (i32_as_usize flags) (i32_as_usize fd) (as_u 64 offset) in
  ret (match r with
       | inl v => if v =? MAP_FAILED then inr 0 else inl v
       | inr e => inr (as_i 32 e)
       end).

Lemma mmap_internal_run {E} addr len prot flags fd offset w k m v err :
  svc (w_kernel w) (w_mem w) SYS_MMAP
    [addr; len; i32_as_usize prot; i32_as_usize flags; i32_as_usize fd; as_u 64 offset] = (k, m, (v, err)) ->
  @mmap_internal E addr len prot flags fd offset w =
    (set_kernel w k m, Ok (if err : bool then inr (as_i 32 v) else if v =? MAP_FAILED then inr 0 else inl v)).
Proof.
  intros H. unfold mmap_internal, syscall6. erewrite io_bind_run by (by apply syscall_run). by destruct err.
Qed.

Definition munmap_internal {E} (addr len : Z) : io E (unit + Z) :=
  let! r := syscall2 SYS_MUNMAP addr len in
  ret (match r with inl _ => inl tt | inr e => inr (as_i 32 e) end).
Definition mprotect_internal {E} (addr len prot : Z) : io E (unit + Z) :=
  let! r := syscall3 SYS_MPROTECT addr len (i32_as_usize prot) in
  ret (match r with inl _ => inl tt | inr e => inr (as_i 32 e) end).

(** [NonNull::new(p).ok_or(22)] of a successful mapping *)
Definition non_null (r : Z + Z) : Z + Z :=
  match r with inl p => if p =? 0 then inr 22 else inl p | inr e => inr e end.

Definition mmap_anon {E} (len prot : Z) : io E (Z + Z) :=
  if len =? 0 then ret (inr 22)
  else
    let! p := mmap_internal 0 len prot (Z.lor MAP_PRIVATE MAP_ANON) (-1) 0 in
    ret (non_null p).

Definition mmap_file {E} (len prot flags fd offset : Z) : io E (Z + Z) :=
  if len =? 0 then ret (inr 22)
  else
    let sp := Z.land flags (Z.lor MAP_SHARED MAP_PRIVATE) in
    if negb (sp =? MAP_SHARED) && negb (sp =? MAP_PRIVATE) then ret (inr 22)
    else
      let! p := mmap_internal 0 len prot flags fd offset in
      ret (non_null p).

Definition mmap_copy {E} (src dst count : Z) : io E unit := copy_nonoverlapping src dst count.

Definition munmap {E} (addr len : Z) : io E (unit + Z) := munmap_internal addr len.
Definition mprotect {E} (addr len prot : Z) : io E (unit + Z) := mprotect_internal addr len prot.

(** ** [libc.rs] *)

Definition EXIT_FAILURE : Z := 0.
Definition STDOUT_FILENO : Z := 1.
Definition STDERR_FILENO : Z := 2.
Definition O_RDONLY : Z := 0.
Definition O_WRONLY : Z := 1.
Definition O_RDWR : Z := 2.
Definition O_NONBLOCK : Z := 4.
Definition O_APPEND : Z := 8.
Definition O_CREAT : Z := 0x200.
Definition O_TRUNC : Z := 0x400.
Definition O_EXCL : Z := 0x800.
Definition MODE_644 : Z := 420.
Definition MODE_755 : Z := 493.

Definition write {E} (fildes : Z) (buf : slice) : io E (Z + Z) :=
  syscall3 SYS_WRITE fildes (s_ptr buf) (zlen (s_bytes buf)).
Definition exit {E} (status : Z) : io E (Z + Z) := syscall1 SYS_EXIT status.
Definition exit_unreachable : string := "internal error: entered unreachable code: exit should have exited".
Definition exit_error {E A} : io E A :=
  let! _ := syscall1 SYS_EXIT EXIT_FAILURE in lift (Panic exit_unreachable).
Definition open {E} (path flags mode : Z) : io E (Z + Z) := syscall3 SYS_OPEN path flags mode.
Definition read {E} (fildes buf count : Z) : io E (Z + Z) := syscall3 SYS_READ fildes buf count.
Definition close {E} (fildes : Z) : io E (Z + Z) := syscall1 SYS_CLOSE fildes.
Definition bzero {E} (dst n : Z) : io E unit := updating (fun m =>
  match store_bytes m dst (replicate (Z.to_nat n) x00) with
  | Some m => Ok (m, tt)
  | None => Fault
  end).

(** [libc::File], [repr(C)]; its default is all zeros *)
Definition File : list field :=
  [SInt 4; UInt 2; UInt 2; UInt 8; UInt 4; UInt 4; SInt 4; SInt 8; SInt 8; SInt 8; SInt 8; SInt 8;
   SInt 8; SInt 8; SInt 8; SInt 8; SInt 8; SInt 4; UInt 4; UInt 4; SInt 4; SInt 8; SInt 8].
(** [st_size] is field 15. *)
Definition st_size_offset : Z := repr_c_offset File 15.

Definition fstat {E} (fildes out : Z) : io E (Z + Z) := syscall2 SYS_FSTAT fildes out.

(** ** Strings in memory *)

(** A string the program builds or a literal: where the [alloc] crate or the
    linker puts it *)
Definition string_slice {E} (path : bytes) : io E slice := fun w =>
  let '(k, m, p) := alloc_string (w_kernel w) (w_mem w) path in
  (set_kernel w k m, Ok (Mk_slice p path)).

(** ** [jump.rs] and [tlv.rs] *)

Definition entry_and_ret {E} (entrypoint argc argv envp apple : Z) : io E unit := fun w =>
  let '(k, m) := call_code (w_kernel w) (w_mem w) entrypoint [argc; argv; envp; apple] in
  (set_kernel w k m, Ok tt).
Definition entry {E} (entrypoint argc argv envp apple : Z) : io E unit :=
  entry_and_ret entrypoint argc argv envp apple.

Definition tlv_initialize {E} (mh : Z) : io E unit := fun w =>
  let '(k, m) := tlv_initialize_descriptors_export (w_kernel w) (w_mem w) mh in
  (set_kernel w k m, Ok tt).
End Calls.
