(* ===== verification/VM.v ===== *)
(** The kernel's virtual memory: what the allocator and the loader rely on.

    [vm_laws] states what the kernel documents of the traps behind
    [vm_alloc_task_self], [vm_dealloc_task_self] and [vm_protect]; the
    specifications of these calls follow from it, and [machine_vm] is a machine
    that satisfies it. *)
From S2P Require Import Prelude Memory Kernel.

(** [n] bytes in whole pages of [page] bytes *)
Definition round_page (page n : Z) : Z := (n + page - 1) / page * page.

Section Laws.
Context {M : Machine}.

(** What the kernel documents of the traps: allocation maps fresh whole pages
    and stores their address, or fails and changes nothing; deallocation unmaps
    whole pages; protection changes no byte; none touches other memory. *)
Record vm_laws (page : Z) : Prop := {
  page_size : exists j, 12 <= j <= 62 /\ page = 2 ^ j;
  task_self_law : forall k m k' m' r, svc k m TRAP_TASK_SELF [] = (k', m', r) -> m' = m;
  vm_allocate_law : forall k m t p n k' m' v err,
    mapped m p 8 ->
    svc k m TRAP_KERNELRPC_MACH_VM_ALLOCATE [t; p; n; VM_FLAGS_ANYWHERE] = (k', m', (v, err)) ->
    if kr (decode_ret v err) =? KERN_SUCCESS then
      exists base, 0 < base /\ base mod page = 0 /\ base + round_page page n <= 2 ^ 62 /\
        (forall x, base <= x < base + round_page page n -> m !! x = None /\ is_Some (m' !! x)) /\
        mapped m' p 8 /\ load_u64 m' p = Some base /\
        forall x, is_Some (m !! x) -> ~ p <= x < p + 8 -> m' !! x = m !! x
    else m' = m;
  vm_deallocate_law : forall k m t a n k' m' r,
    a mod page = 0 ->
    svc k m TRAP_KERNELRPC_MACH_VM_DEALLOCATE [t; a; n] = (k', m', r) ->
    forall x, ~ a <= x < a + round_page page n -> m' !! x = m !! x;
  vm_protect_law : forall k m args k' m' r,
    svc k m TRAP_KERNELRPC_MACH_VM_PROTECT args = (k', m', r) -> m' = m
}.
End Laws.

Section Calls.
Context {M : Machine} {E : Type} (page : Z) (laws : vm_laws page).

Lemma round_page_ge n : 0 <= n -> n <= round_page page n.
Proof.
  intros Hn. destruct (page_size page laws) as (j & Hj & ->). unfold round_page.
  pose proof (Z.pow_pos_nonneg 2 j ltac:(lia) ltac:(lia)).
  pose proof (Z.div_mod (n + 2 ^ j - 1) (2 ^ j)). pose proof (Z.mod_pos_bound (n + 2 ^ j - 1) (2 ^ j)). nia.
Qed.

Lemma round_page_lt n : round_page page n < n + page.
Proof.
  destruct (page_size page laws) as (j & Hj & ->). unfold round_page.
  pose proof (Z.pow_pos_nonneg 2 j ltac:(lia) ltac:(lia)).
  pose proof (Z.div_mod (n + 2 ^ j - 1) (2 ^ j)). pose proof (Z.mod_pos_bound (n + 2 ^ j - 1) (2 ^ j)). nia.
Qed.

Lemma page_le : 0 < page <= 2 ^ 62.
Proof.
  destruct (page_size page laws) as (j & Hj & ->). split; [by apply Z.pow_pos_nonneg; lia|].
  apply Z.pow_le_mono_r; lia.
Qed.

Lemma vm_alloc_spec n w :
  mapped (w_mem w) (w_sp w) 8 ->
  exists w' r, @vm_alloc_task_self M E n w = (w', Ok r) /\ w_sp w' = w_sp w /\
    mapped (w_mem w') (w_sp w) 8 /\
    (forall x, is_Some (w_mem w !! x) -> ~ w_sp w <= x < w_sp w + 8 -> w_mem w' !! x = w_mem w !! x) /\
    match r with
    | inl base => 0 < base /\ base mod page = 0 /\ base + round_page page n <= 2 ^ 62 /\
        mapped (w_mem w') base (round_page page n) /\
        forall x, base <= x < base + round_page page n -> w_mem w !! x = None
    | inr _ => True
    end.
Proof.
  intros Hst. unfold vm_alloc_task_self, io_bind, local_u64_set, with_sp, updating.
  destruct (@store_u64_mapped E _ _ 0 Hst) as (m1 & -> & Hd1 & Ho1 & _). cbn [bind].
  assert (mapped m1 (w_sp w) 8) as Hst1 by (by eapply mapped_dom).
  assert (forall x, m1 !! x = None <-> w_mem w !! x = None) as Hnone.
  { intros x. rewrite <- !not_elem_of_dom, Hd1. done. }
  unfold task_self_internal, syscall0, syscall, io_bind. io_cbn.
  destruct (svc (w_kernel w) m1 TRAP_TASK_SELF []) as [[k2 m2] [v2 e2]] eqn:Es2.
  apply (task_self_law page laws) in Es2 as ->. io_cbn.
  unfold vm_allocate_internal, syscall4, syscall, io_bind. io_cbn.
  change (as_u 32 VM_FLAGS_ANYWHERE) with VM_FLAGS_ANYWHERE. set (t := as_u 32 _).
  destruct (svc k2 m1 TRAP_KERNELRPC_MACH_VM_ALLOCATE [t; w_sp w; n; VM_FLAGS_ANYWHERE]) as [[k3 m3] [v3 e3]] eqn:Es3.
  pose proof (vm_allocate_law page laws _ _ _ _ _ _ _ _ _ Hst1 Es3) as Hlaw. io_cbn.
  destruct (kr (decode_ret v3 e3) =? KERN_SUCCESS); cbn [negb].
  - destruct Hlaw as (base & Hb0 & Hbp & Htop & Hfresh & Hst3 & Hl & Hsame).
    unfold local_u64_get, with_sp, reading. io_cbn. rewrite Hl.
    rewrite (proj2 (Z.eqb_neq base 0)) by lia. eexists _, (inl base). split; [reflexivity|]. cbn [w_mem w_sp].
    split; [done|]. split; [done|]. split.
    { intros x Hx Hns. rewrite Hsame; [by apply Ho1| |done]. rewrite Ho1; done. }
    split; [done|]. split; [done|]. split; [done|]. split.
    + split; [lia|]. split; [lia|]. intros x Hx. by apply Hfresh.
    + intros x Hx. by apply Hnone, Hfresh.
  - subst m3. eexists _, (inr _). split; [reflexivity|]. cbn [w_mem w_sp]. split_and!; try done.
    intros x _ Hns. by apply Ho1.
Qed.

Lemma vm_dealloc_spec a n w :
  a mod page = 0 ->
  exists w' r, @vm_dealloc_task_self M E a n w = (w', Ok r) /\ w_sp w' = w_sp w /\
    forall x, ~ a <= x < a + round_page page n -> w_mem w' !! x = w_mem w !! x.
Proof.
  intros Ha. unfold vm_dealloc_task_self, task_self_internal, syscall0, syscall, io_bind.
  destruct (svc (w_kernel w) (w_mem w) TRAP_TASK_SELF []) as [[k2 m2] [v2 e2]] eqn:Es2.
  apply (task_self_law page laws) in Es2 as ->. io_cbn.
  unfold vm_deallocate_internal, syscall3, syscall, io_bind. io_cbn. set (t := as_u 32 _).
  destruct (svc k2 (w_mem w) TRAP_KERNELRPC_MACH_VM_DEALLOCATE [t; a; n]) as [[k3 m3] [v3 e3]] eqn:Es3.
  pose proof (vm_deallocate_law page laws _ _ _ _ _ _ _ _ Ha Es3) as Hlaw. io_cbn.
  eexists _, _. split; [reflexivity|]. by split.
Qed.

(** Protecting memory always returns and leaves it, and the stack, as they are. *)
Lemma vm_protect_spec a n b p w :
  exists w' r, @vm_protect M E a n b p w = (w', Ok r) /\ w_sp w' = w_sp w /\ w_mem w' = w_mem w.
Proof.
  unfold vm_protect, task_self_internal, syscall0, syscall, io_bind.
  destruct (svc (w_kernel w) (w_mem w) TRAP_TASK_SELF []) as [[k2 m2] [v2 e2]] eqn:Es2.
  apply (task_self_law page laws) in Es2 as ->. io_cbn.
  unfold vm_protect_internal, syscall5, syscall, io_bind. io_cbn. set (t := as_u 32 _).
  destruct (svc k2 (w_mem w) TRAP_KERNELRPC_MACH_VM_PROTECT _) as [[k3 m3] [v3 e3]] eqn:Es3.
  apply (vm_protect_law page laws) in Es3 as ->. io_cbn. eexists _, _. split; [reflexivity|]. by split.
Qed.
End Calls.

(** ** A concrete machine

    It maps fresh pages of zeros above everything that is mapped, as long as
    there is room below 2^62, and unmaps what it is told to. *)
Definition top (m : memory) : Z := set_fold Z.max 0 (dom m : gset Z).

Lemma top_ge m x : is_Some (m !! x) -> x <= top m.
Proof.
  intros Hx%elem_of_dom. unfold top. revert Hx.
  apply (set_fold_ind_L (fun t (X : gset Z) => x ∈ X -> x <= t)); [set_solver|].
  intros y X t _ IH [->%elem_of_singleton|Hx]%elem_of_union; [lia|]. specialize (IH Hx). lia.
Qed.

Lemma top_nonneg m : 0 <= top m.
Proof. unfold top. apply (set_fold_ind_L (fun t (X : gset Z) => 0 <= t)); [lia|]. intros. lia. Qed.

Definition fresh_base (m : memory) : Z := round_page 4096 (1 + top m).

Definition zeros (n : Z) : bytes := replicate (Z.to_nat n) x00.

Definition vm_allocate (m : memory) (p n : Z) : memory * (Z * bool) :=
  let base := fresh_base m in
  if (0 <=? n) && (base + round_page 4096 n <=? 2 ^ 62) then
    match store_u64 (E := string) (mem_of base (zeros (round_page 4096 n)) ∪ m) p base with
    | Ok m' => (m', (0, false))
    | _ => (m, (1, true))
    end
  else (m, (3, false)).

Definition machine_vm : Machine := {|
  kstate := unit;
  svc k m num args :=
    if num =? TRAP_TASK_SELF then (k, m, (0x103, false))
    else match args with
    | [_; p; n; _] =>
        if num =? TRAP_KERNELRPC_MACH_VM_ALLOCATE then let '(m, r) := vm_allocate m p n in (k, m, r)
        else (k, m, (78, true))
    | [_; a; n] =>
        if num =? TRAP_KERNELRPC_MACH_VM_DEALLOCATE
        then (k, filter (fun '(x, _) => ~ a <= x < a + round_page 4096 n) m, (0, false))
        else (k, m, (78, true))
    | [_; _; _; _; _] =>
        if num =? TRAP_KERNELRPC_MACH_VM_PROTECT then (k, m, (0, false)) else (k, m, (78, true))
    | _ => (k, m, (78, true))
    end;
  alloc_string k m s := (k, m, 0);
  call_code k m _ _ := (k, m);
  tlv_initialize_descriptors_export k m _ := (k, m);
  dyld_shared_cache_base_address_get k m _ := (k, m, 0)
|}.

Lemma fresh_base_spec m : 0 < fresh_base m /\ fresh_base m mod 4096 = 0 /\ top m < fresh_base m.
Proof.
  pose proof (top_nonneg m). unfold fresh_base, round_page. split_and!; [|by apply Z.mod_mul|];
    Z.div_mod_to_equations; lia.
Qed.

Lemma round_page_4096 n : 0 <= n -> n <= round_page 4096 n.
Proof. intros. unfold round_page. Z.div_mod_to_equations; lia. Qed.

(** Fresh memory above the rest *)
Lemma vm_allocate_ok m p n :
  mapped m p 8 -> 0 <= n -> fresh_base m + round_page 4096 n <= 2 ^ 62 ->
  exists m', vm_allocate m p n = (m', (0, false)) /\
    (forall x, fresh_base m <= x < fresh_base m + round_page 4096 n -> m !! x = None /\ is_Some (m' !! x)) /\
    mapped m' p 8 /\ load_u64 m' p = Some (fresh_base m) /\
    forall x, is_Some (m !! x) -> ~ p <= x < p + 8 -> m' !! x = m !! x.
Proof.
  intros Hp Hn Htop. unfold vm_allocate. destruct (fresh_base_spec m) as (Hb0 & _ & Hbt).
  rewrite (proj2 (Z.leb_le 0 n)), (proj2 (Z.leb_le _ (2 ^ 62))) by lia. cbn [andb].
  pose proof (round_page_4096 n Hn). set (base := fresh_base m) in *. set (rp := round_page 4096 n) in *.
  set (f := mem_of base (zeros rp)).
  assert (forall x, is_Some (f !! x) <-> base <= x < base + rp) as Hf.
  { intros x. unfold f. rewrite mem_of_lookup.
    assert (zlen (zeros rp) = rp) as -> by (unfold zeros, zlen; rewrite length_replicate; lia).
    case_bool_decide as Hx; [|by split; [intros []|]]. split; [done|]. intros _.
    unfold zeros. rewrite lookup_replicate_2 by lia. eauto. }
  assert (forall x, base <= x -> m !! x = None) as Hnone.
  { intros x Hx. apply eq_None_not_Some. intros Hm%top_ge. lia. }
  assert (forall x, is_Some (m !! x) -> (f ∪ m) !! x = m !! x) as Hum.
  { intros x Hx. rewrite lookup_union_r; [done|]. apply eq_None_not_Some. rewrite Hf. intros Hr.
    rewrite Hnone in Hx by lia. by destruct Hx. }
  assert (mapped (f ∪ m) p 8) as Hp'.
  { eapply mapped_same; [exact Hp|]. intros x Hx. apply Hum. by apply Hp. }
  destruct (@store_u64_mapped string (f ∪ m) p base Hp') as (m' & -> & Hd & Ho & Hl).
  exists m'. split; [done|]. split; [|split; [by eapply mapped_dom|split]].
  - intros x Hx. split; [apply Hnone; lia|]. apply elem_of_dom. rewrite Hd. apply elem_of_dom.
    apply Hf in Hx as [b Hb]. exists b. by apply lookup_union_Some_l.
  - rewrite Hl, Z.mod_small by lia. done.
  - intros x Hx Hns. by rewrite Ho, Hum.
Qed.

Lemma machine_vm_laws : @vm_laws machine_vm 4096.
Proof.
  split.
  - exists 12. by split.
  - intros k m k' m' r Hs. change (svc k m _ _) with (k, m, (0x103, false)) in Hs. by injection Hs as _ <- _.
  - intros k m t p n k' m' v err Hp Hs. change (svc k m _ _) with
      (let '(m, r) := vm_allocate m p n in (k, m, r)) in Hs.
    destruct (Z.leb_spec 0 n) as [Hn|Hn].
    + destruct (Z.leb_spec (fresh_base m + round_page 4096 n) (2 ^ 62)) as [Hle|Hgt].
      * destruct (vm_allocate_ok m p n Hp Hn Hle) as (m2 & Hv & H2). rewrite Hv in Hs. injection Hs as _ <- <- <-.
        change (kr (decode_ret 0 false) =? KERN_SUCCESS) with true. cbv iota.
        destruct (fresh_base_spec m) as (? & ? & _). exists (fresh_base m). do 3 (split; [done|]). exact H2.
      * unfold vm_allocate in Hs. rewrite (proj2 (Z.leb_le 0 n)), (proj2 (Z.leb_gt _ (2 ^ 62))) in Hs by lia.
        cbn [andb] in Hs. injection Hs as _ <- <- <-. done.
    + unfold vm_allocate in Hs. rewrite (proj2 (Z.leb_gt 0 n)) in Hs by lia.
      cbn [andb] in Hs. injection Hs as _ <- <- <-. done.
  - intros k m t a n k' m' r _ Hs x Hx. change (svc k m _ _) with
      (k, filter (fun '(x, _) => ~ a <= x < a + round_page 4096 n) m, (0, false)) in Hs.
    injection Hs as _ <- _. destruct (m !! x) as [b|] eqn:Eb.
    + by apply map_lookup_filter_Some.
    + apply map_lookup_filter_None. by left.
  - intros k m args k' m' r Hs. cbn [svc machine_vm] in Hs. change (_ =? TRAP_TASK_SELF) with false in Hs.
    cbv iota in Hs.
    destruct args as [|a0 [|a1 [|a2 [|a3 [|a4 [|a5 args]]]]]]; by injection Hs as _ <- _.
Qed.
