(* ===== verification/Printing.v ===== *)
(** Writing to the terminal and failing: [src/print.rs], and the panic handler
    of [src/main.rs].

    What the core library's formatting produces is a list of pieces, each
    handed to [write_str]; the [Write] trait is the class [Write]. [write_all]
    writes everything; a message that a failing run prints reaches the standard
    error, whole or up to where the kernel refused it, before the process
    exits. *)
From S2P Require Import Prelude Container Memory Kernel.

Section Printing.
Context {M : Machine}.

(** [while !buf.is_empty()], at most one iteration per byte *)
Fixpoint write_all_loop {E} (fuel : nat) (fd : Z) (buf : slice) : io E (unit + Z) :=
  match fuel with
  | O => lift Diverge
  | S k =>
      if bool_decide (s_bytes buf = []) then ret (inl tt)
      else
        let! r := write fd buf in
        match r with
        | inl 0 => ret (inr 0)
        | inl n =>
            let! rest := lift (index_from (s_bytes buf) n) in
            write_all_loop k fd (Mk_slice (ptr_add (s_ptr buf) n) rest)
        | inr e => ret (inr e)
        end
  end.
Definition write_all {E} (fd : Z) (buf : slice) : io E (unit + Z) :=
  write_all_loop (S (length (s_bytes buf))) fd buf.

(** [core::fmt::Write]: the writer after a string, and whether it took it *)
Class Write (W : Type) := write_str : forall E, W -> bytes -> io E (W * bool).
#[global] Arguments write_str {W _ E} _ _.

(** [core::fmt::Write::write_fmt]: the pieces in order, up to the first error *)
Fixpoint write_fmt {W E} `{Write W} (self : W) (args : list bytes) : io E (W * bool) :=
  match args with
  | [] => ret (self, true)
  | s :: r =>
      let! (self, ok) := write_str self s in
      if ok : bool then write_fmt self r else ret (self, false)
  end.

Inductive Stdout := Mk_Stdout.
Inductive Stderr := Mk_Stderr.

#[export] Instance write_stdout : Write Stdout := fun E self s =>
  let! buf := string_slice s in
  let! r := write_all STDOUT_FILENO buf in
  ret (self, match r with inl _ => true | inr _ => false end).
#[export] Instance write_stderr : Write Stderr := fun E self s =>
  let! buf := string_slice s in
  let! r := write_all STDERR_FILENO buf in
  ret (self, match r with inl _ => true | inr _ => false end).
(** [alloc::string::String] *)
#[export] Instance write_string : Write bytes := fun E self s => ret (self ++ s, true).

Definition unwrap_error : string := "called `Result::unwrap()` on an `Err` value: Error".

(** [w.write_fmt(args).unwrap()] *)
Definition write_fmt_unwrap {W E} `{Write W} (self : W) (args : list bytes) : io E W :=
  let! (self, ok) := write_fmt self args in
  if ok : bool then ret self else lift (Panic unwrap_error).

Definition _print {E} (args : list bytes) : io E unit := let! _ := write_fmt_unwrap Mk_Stdout args in ret tt.
Definition _print_err {E} (args : list bytes) : io E unit := let! _ := write_fmt_unwrap Mk_Stderr args in ret tt.
Definition _format {E} (args : list bytes) : io E bytes := write_fmt_unwrap (@nil byte) args.

(** The macros *)
Definition print {E} (args : list bytes) : io E unit := _print args.
Definition println {E} (args : list bytes) : io E unit := let! _ := _print args in _print [[x0a]].
Definition print_err {E} (args : list bytes) : io E unit := _print_err args.
Definition println_err {E} (args : list bytes) : io E unit := let! _ := _print_err args in _print_err [[x0a]].
Definition format {E} (args : list bytes) : io E bytes := _format args.

(** ** Failing *)

(** [libc::write] of a literal *)
Definition write_literal {E} (s : bytes) : io E unit :=
  let! buf := string_slice s in
  let! _ := write STDERR_FILENO buf in
  ret tt.

(** [println_err!] and [exit_error()] *)
Definition die {E A} (pieces : list bytes) : io E A :=
  let! _ := println_err pieces in exit_error.

(** The panic handler of [main.rs]; [info] is what a panic's [PanicInfo]
    formats to. *)
Definition panic_handler {E A} (info : list bytes) : io E A := fun w =>
  let run :=
    let! _ := (if w_rebased w then println_err (bstr "panic: " :: info)
               else write_literal (bstr "panic" ++ [x0a])) in
    let! _ := exit EXIT_FAILURE in
    let! _ := reading (fun m => match load_bytes m 0 1 with Some _ => Ok tt | None => Fault end) in
    lift Diverge in
  run w.
End Printing.

(** ** Writing everything *)

Section Console.
Context {M : Machine} {bp : BuildProfile}.

(** What the kernel documents of [write]: it takes some of the bytes, from the
    front, appends them to the file and leaves memory alone; [stream k fd] is
    what has been written to [fd]. *)
Context (stream : kstate -> Z -> bytes).
Definition write_law : Prop :=
  forall k m fd p bs k' m' v err,
    load_bytes m p (length bs) = Some bs -> svc k m SYS_WRITE [fd; p; zlen bs] = (k', m', (v, err)) ->
    m' = m /\ if err : bool then stream k' fd = stream k fd
      else 0 <= v <= zlen bs /\ stream k' fd = stream k fd ++ take (Z.to_nat v) bs.

(** Every iteration takes at least one byte. *)
Lemma write_all_runs {E} fd buf w :
  write_law -> buffer_ok (w_mem w) buf ->
  exists w' r n, @write_all M E fd buf w = (w', Ok r) /\ w_mem w' = w_mem w /\
    stream (w_kernel w') fd = stream (w_kernel w) fd ++ take n (s_bytes buf) /\
    (r = inl tt -> n = length (s_bytes buf)).
Proof.
  intros Hlaw. unfold write_all.
  enough (forall fuel buf w, (length (s_bytes buf) < fuel)%nat -> buffer_ok (w_mem w) buf ->
    exists w' r n, @write_all_loop M E fuel fd buf w = (w', Ok r) /\ w_mem w' = w_mem w /\
      stream (w_kernel w') fd = stream (w_kernel w) fd ++ take n (s_bytes buf) /\
      (r = inl tt -> n = length (s_bytes buf))) as H by (intros; apply H; [lia|done]).
  clear buf w. induction fuel as [|k IH]; intros [p bs] w Hlen Hb; cbn [s_bytes] in *; [lia|].
  cbn [write_all_loop s_bytes]. case_bool_decide as Hemp.
  { subst bs. exists w, (inl tt), 0%nat. cbn. by rewrite app_nil_r. }
  destruct Hb as (Hp & Hn & Hb). cbn [s_ptr s_bytes] in *.
  assert (load_bytes (w_mem w) p (length bs) = Some bs) as Hload by (by apply load_bytes_stored).
  unfold io_bind, write, syscall3, syscall. cbn [s_ptr s_bytes].
  destruct (svc (w_kernel w) (w_mem w) SYS_WRITE [fd; p; zlen bs]) as [[k' m'] [v err]] eqn:Es.
  destruct (Hlaw _ _ _ _ _ _ _ _ _ Hload Es) as [-> Hv]. destruct err; cbn [decode_ret ret lift set_kernel].
  { eexists _, _, 0%nat. cbn. split; [done|]. split; [done|]. rewrite app_nil_r. done. }
  destruct Hv as [Hv Hst]. destruct v as [|v|v]; [|clear Hemp|lia].
  { eexists _, _, 0%nat. cbn. split; [done|]. split; [done|]. rewrite app_nil_r.
    cbn in Hst. by rewrite app_nil_r in Hst. }
  unfold lift, index_from, get_from. rewrite (proj2 (Z.leb_le _ _)) by lia. cbn [or_panic].
  set (w1 := set_kernel w k' (w_mem w)).
  destruct (IH (Mk_slice (ptr_add p (Z.pos v)) (drop (Z.to_nat (Z.pos v)) bs)) w1) as (w' & r & n & Hr & Hm & Hs & Hall).
  - cbn [s_bytes]. len.
  - unfold buffer_ok. cbn [s_ptr s_bytes]. destruct (decide (Z.pos v = zlen bs)) as [Hall|Hlt].
    { rewrite drop_ge by len. split; [apply ptr_add_range|]. split; [pose proof (ptr_add_range p (Z.pos v)); change (zlen (@nil byte)) with 0; lia|].
      intros i b Hi. by rewrite lookup_nil in Hi. }
    rewrite ptr_add_small by len. split; [lia|]. split; [len|].
    intros i b Hi. rewrite lookup_drop in Hi. rewrite <- (Hb _ _ Hi). f_equal. lia.
  - exists w', r, (Z.to_nat (Z.pos v) + n)%nat. cbn [s_bytes] in *.
    split; [exact Hr|]. split; [exact Hm|]. split.
    + rewrite Hs. unfold w1. io_cbn. rewrite Hst, <- app_assoc. f_equal.
      rewrite <- (take_drop (Z.to_nat (Z.pos v)) bs) at 3.
      rewrite take_app. rewrite length_take_le by len. rewrite take_take, Nat.min_r by lia.
      f_equal. f_equal. lia.
    + intros ->. rewrite Hall by done. len.
Qed.

(** C33 [write_all] ends, whatever partial writes the kernel makes: every
    iteration takes at least one byte, so it neither loops nor indexes past
    the buffer. If it reports success the file has received exactly the
    buffer, once and in order; if it reports an error it has received a
    prefix. *)
Theorem write_all_spec {E} fd buf w :
  write_law -> buffer_ok (w_mem w) buf ->
  exists w' r n, @write_all M E fd buf w = (w', Ok r) /\ w_mem w' = w_mem w /\
    stream (w_kernel w') fd = stream (w_kernel w) fd ++ take n (s_bytes buf) /\
    (r = inl tt -> n = length (s_bytes buf)).
Proof. exact (write_all_runs fd buf w). Qed.

(** ** Failing *)

(** [exited k] is the status the process has exited with, if it has. *)
Context (exited : kstate -> option Z).

(** What the kernel documents of [exit], and the [alloc] crate of strings. *)
Record console_laws : Prop := {
  console_write : write_law;
  console_string k m s k' m' p :
    zlen s < 2 ^ 63 -> alloc_string k m s = (k', m', p) ->
    buffer_ok m' (Mk_slice p s) /\ forall fd, stream k' fd = stream k fd;
  console_exit k m status k' m' r :
    svc k m SYS_EXIT [status] = (k', m', r) ->
    exited k' = Some status /\ forall fd, stream k' fd = stream k fd
}.
Context (laws : console_laws).

(** The standard error has received the first [n] bytes of [msg]. *)
Definition received (w w' : world) (msg : bytes) (n : nat) : Prop :=
  stream (w_kernel w') STDERR_FILENO = stream (w_kernel w) STDERR_FILENO ++ take n msg.

(** Strings are no longer than Rust allows. *)
Definition texts (pieces : list bytes) : Prop := Forall (fun s => zlen s < 2 ^ 63) pieces.

Lemma write_str_stderr {E} s w :
  zlen s < 2 ^ 63 ->
  exists w' ok n, write_str (E := E) Mk_Stderr s w = (w', Ok (Mk_Stderr, ok)) /\ received w w' s n /\
    (ok = true -> n = length s).
Proof.
  intros Hlen. unfold write_str, write_stderr, io_bind, string_slice.
  destruct (alloc_string (w_kernel w) (w_mem w) s) as [[k1 m1] p] eqn:E1.
  destruct (console_string laws _ _ _ _ _ _ Hlen E1) as [Hb Hs].
  destruct (@write_all_runs E STDERR_FILENO (Mk_slice p s) (set_kernel w k1 m1) (console_write laws) Hb)
    as (w' & r & n & -> & _ & Hst & Hn).
  eexists w', _, n. split; [reflexivity|]. split.
  - unfold received. rewrite Hst. cbn. by rewrite Hs.
  - destruct r as [[]|e]; [intros _; by apply Hn|done].
Qed.

Lemma received_app w w1 w2 a b n :
  received w w1 a (length a) -> received w1 w2 b n -> received w w2 (a ++ b) (length a + n).
Proof.
  unfold received. intros -> ->. by rewrite firstn_all, <- app_assoc, take_app_add.
Qed.

Lemma received_front w w' a b n : received w w' a n -> exists k, received w w' (a ++ b) k.
Proof.
  unfold received. intros H. exists (min n (length a)). rewrite H, take_app_le by lia. f_equal.
  by rewrite <- take_take, firstn_all.
Qed.

(** A message is written completely, or the process panics over the rest. *)
Definition prints {E} (m : io E unit) (msg : bytes) : Prop :=
  forall w, (exists w', m w = (w', Ok tt) /\ received w w' msg (length msg)) \/
    (exists w' n, m w = (w', Panic unwrap_error) /\ received w w' msg n).

Lemma print_err_prints {E} pieces : texts pieces -> @prints E (print_err pieces) (concat pieces).
Proof.
  intros Ht w. unfold print_err, _print_err, write_fmt_unwrap.
  assert ((exists w', write_fmt (E := E) Mk_Stderr pieces w = (w', Ok (Mk_Stderr, true)) /\
      received w w' (concat pieces) (length (concat pieces))) \/
    (exists w' n, write_fmt (E := E) Mk_Stderr pieces w = (w', Ok (Mk_Stderr, false)) /\
      received w w' (concat pieces) n)) as [(w' & Hw & H)|(w' & n & Hw & H)].
  { revert w; induction Ht as [|s pieces Hlen Ht IH]; intros w; cbn [write_fmt concat].
    - left. exists w. split; [done|]. unfold received. by rewrite app_nil_r.
    - destruct (@write_str_stderr E s w Hlen) as (w1 & ok & n & H1 & Hr1 & Hn).
      rewrite (io_bind_run _ _ w w1 _ H1). destruct ok.
      + rewrite (Hn eq_refl) in Hr1. destruct (IH w1) as [(w' & Hw & H)|(w' & k & Hw & H)]; [left|right].
        * exists w'. split; [exact Hw|]. rewrite length_app. by eapply received_app.
        * exists w', (length s + k)%nat. split; [exact Hw|]. by eapply received_app.
      + right. destruct (received_front w w1 s (concat pieces) n Hr1) as [k Hk]. by exists w1, k. }
  - left. exists w'. split; [|exact H]. unfold io_bind. by rewrite Hw.
  - right. exists w', n. split; [|exact H]. unfold io_bind. by rewrite Hw.
Qed.

Lemma prints_seq {E} (m1 m2 : io E unit) a b :
  prints m1 a -> prints m2 b -> prints (let! _ := m1 in m2) (a ++ b).
Proof.
  intros H1 H2 w. destruct (H1 w) as [(w1 & Hw1 & Hr1)|(w1 & n & Hw1 & Hr1)].
  - rewrite (io_bind_run _ _ w w1 _ Hw1).
    destruct (H2 w1) as [(w2 & Hw2 & Hr2)|(w2 & n & Hw2 & Hr2)]; [left|right].
    + exists w2. split; [exact Hw2|]. rewrite length_app. by eapply received_app.
    + exists w2, (length a + n)%nat. split; [exact Hw2|]. by eapply received_app.
  - right. destruct (received_front _ _ _ b _ Hr1) as [k Hk]. exists w1, k. split; [|exact Hk].
    unfold io_bind. by rewrite Hw1.
Qed.

Lemma println_err_prints {E} pieces : texts pieces -> @prints E (println_err pieces) (concat pieces ++ [x0a]).
Proof.
  intros Ht. apply prints_seq; [by apply print_err_prints|]. apply (print_err_prints [[x0a]]). by repeat constructor.
Qed.

(** The message on the standard error and the exit *)
Definition reports_and_exits (w w' : world) (msg : bytes) (why : string) : Prop :=
  (why = exit_unreachable /\ received w w' msg (length msg) /\ exited (w_kernel w') = Some EXIT_FAILURE) \/
  (why = unwrap_error /\ exists n, received w w' msg n).

Lemma die_reports {E A} pieces w :
  texts pieces ->
  exists w' why, @die M E A pieces w = (w', Panic why) /\
    reports_and_exits w w' (concat pieces ++ [x0a]) why.
Proof.
  intros Ht. unfold die. destruct (@println_err_prints E pieces Ht w) as [(w1 & Hw & Hr)|(w1 & n & Hw & Hr)].
  - rewrite (io_bind_run _ _ w w1 _ Hw). unfold exit_error, syscall1.
    destruct (svc (w_kernel w1) (w_mem w1) SYS_EXIT [EXIT_FAILURE]) as [[k m] [v err]] eqn:Es.
    rewrite (io_bind_run _ _ _ _ _ (syscall_run _ _ _ _ _ _ _ Es)).
    destruct (console_exit laws _ _ _ _ _ _ Es) as [Hx Hst].
    eexists _, _. split; [reflexivity|]. left. split; [done|]. split; [|exact Hx].
    unfold received in *. cbn. by rewrite Hst.
  - exists w1, unwrap_error. split; [unfold io_bind; by rewrite Hw|]. right. split; [done|]. by exists n.
Qed.

Lemma write_literal_run {E} s w :
  zlen s < 2 ^ 63 ->
  exists w' n, @write_literal M E s w = (w', Ok tt) /\ received w w' s n /\ w_rebased w' = w_rebased w.
Proof.
  intros Hlen. unfold write_literal, string_slice, io_bind.
  destruct (alloc_string (w_kernel w) (w_mem w) s) as [[k1 m1] p] eqn:E1.
  destruct (console_string laws _ _ _ _ _ _ Hlen E1) as [(Hp & Hn & Hb) Hs]. cbn [s_ptr s_bytes] in *.
  assert (load_bytes m1 p (length s) = Some s) as Hl by (by apply load_bytes_stored).
  unfold write, syscall3, syscall. io_cbn. cbn [s_ptr s_bytes].
  destruct (svc k1 m1 SYS_WRITE [STDERR_FILENO; p; zlen s]) as [[k2 m2] [v err]] eqn:E2. io_cbn.
  destruct (console_write laws _ _ _ _ _ _ _ _ _ Hl E2) as [-> Hv].
  destruct err; [|destruct Hv as [_ Hv]]; eexists _, _; (split; [reflexivity|]); unfold received; io_cbn.
  - instantiate (1 := 0%nat). split; [|done]. rewrite Hv, Hs. cbn. by rewrite app_nil_r.
  - split; [by rewrite Hv, Hs|done].
Qed.

(** What the handler writes: a message with the panic's, once the program can
    use its data, and a bare one before *)
Definition panic_message (rebased : bool) (info : list bytes) : bytes :=
  if rebased then bstr "panic: " ++ concat info ++ [x0a] else bstr "panic" ++ [x0a].

(** C25 A panic ends the process and says so: the handler never returns to the
    code that panicked. It writes its message to the standard error, the whole
    of it if the program has rebased itself (before that a bare write, of which
    the kernel may take a part), exits with [EXIT_FAILURE] and, should that
    return, stops on a null access or in an endless loop; only a message the
    kernel refuses to take makes it panic again instead. *)
Theorem panic_handler_spec {E A} info w :
  texts info ->
  exists w' r n, @panic_handler M E A info w = (w', r) /\
    received w w' (panic_message (w_rebased w) info) n /\
    match r with
    | Fault | Diverge => exited (w_kernel w') = Some EXIT_FAILURE /\
        (w_rebased w = true -> n = length (panic_message true info))
    | Panic why => w_rebased w = true /\ why = unwrap_error
    | _ => False
    end.
Proof.
  intros Ht. assert (forall w1 n, received w w1 (panic_message (w_rebased w) info) n ->
    (w_rebased w = true -> n = length (panic_message true info)) ->
    exists w' r n, (let! _ := exit EXIT_FAILURE in
      let! _ := reading (fun m => match load_bytes m 0 1 with Some _ => Ok tt | None => Fault end) in
      lift Diverge) w1 = (w', r : outcome E A) /\ received w w' (panic_message (w_rebased w) info) n /\
      match r with
      | Fault | Diverge => exited (w_kernel w') = Some EXIT_FAILURE /\
          (w_rebased w = true -> n = length (panic_message true info))
      | Panic why => w_rebased w = true /\ why = unwrap_error
      | _ => False
      end) as Hexit.
  { intros w1 n Hr Hn. unfold exit, syscall1.
    destruct (svc (w_kernel w1) (w_mem w1) SYS_EXIT [EXIT_FAILURE]) as [[k m] [v err]] eqn:Es.
    rewrite (io_bind_run _ _ _ _ _ (syscall_run _ _ _ _ _ _ _ Es)).
    destruct (console_exit laws _ _ _ _ _ _ Es) as [Hx Hst].
    assert (received w (set_kernel w1 k m) (panic_message (w_rebased w) info) n) as Hr'
      by (unfold received in *; cbn; by rewrite Hst).
    unfold io_bind, reading, lift. io_cbn.
    destruct (load_bytes m 0 1); eexists _, _, n; (split; [reflexivity|]); (split; [exact Hr'|by split]). }
  unfold panic_handler. destruct (w_rebased w) eqn:Eb; cbn [panic_message] in *.
  - assert (texts (bstr "panic: " :: info)) as Ht' by (constructor; [reflexivity|exact Ht]).
    destruct (@println_err_prints E (bstr "panic: " :: info) Ht' w) as [(w1 & Hw & Hr)|(w1 & n & Hw & Hr)];
      cbn [concat] in Hr; rewrite <- app_assoc in Hr.
    + rewrite (io_bind_run _ _ _ _ _ Hw). by eapply Hexit.
    + exists w1, (Panic unwrap_error), n. split; [unfold io_bind; by rewrite Hw|]. by split.
  - destruct (@write_literal_run E (bstr "panic" ++ [x0a]) w eq_refl) as (w1 & n & Hw & Hr & _).
    rewrite (io_bind_run _ _ _ _ _ Hw). by eapply Hexit.
Qed.
End Console.

(** ** A concrete machine

    It writes at most three bytes at a time to one stream, notes the status of an
    exit, refuses every other trap, and places strings at 0x50000000; its
    foreign code does nothing. *)
Definition machine_log : Machine := {|
  kstate := bytes * option Z;
  svc k m num args :=
    match args with
    | [_; p; n] =>
        if num =? SYS_WRITE then
          match load_bytes m p (Z.to_nat (Z.min 3 n)) with
          | Some bs => ((fst k ++ bs, snd k), m, (Z.min 3 n, false))
          | None => (k, m, (14, true))
          end
        else (k, m, (78, true))
    | [status] => if num =? SYS_EXIT then ((fst k, Some status), m, (0, false)) else (k, m, (78, true))
    | _ => (k, m, (78, true))
    end;
  alloc_string k m s := (k, mem_of 0x50000000 s ∪ m, 0x50000000);
  call_code k m _ _ := (k, m);
  tlv_initialize_descriptors_export k m _ := (k, m);
  dyld_shared_cache_base_address_get k m _ := (k, m, 0)
|}.
Definition log_stream (k : @kstate machine_log) (_ : Z) : bytes := fst k.

Lemma machine_log_write_law : @write_law machine_log log_stream.
Proof.
  intros k m fd p bs k' m' v err Hl Hs. cbn in Hs.
  assert (load_bytes m p (Z.to_nat (Z.min 3 (zlen bs))) = Some (take (Z.to_nat (Z.min 3 (zlen bs))) bs)) as Hp.
  { apply load_bytes_take; [done|]. len. }
  rewrite Hp in Hs. injection Hs as <- <- <- <-. split; [done|]. cbn. split; [len|done].
Qed.

Definition hello : slice := Mk_slice 0x1000 (bstr "hello").
Definition hello_world : @world machine_log := Mk_world (M := machine_log) ([], None) (mem_of 0x1000 (bstr "hello")) 0 true.

Lemma write_all_spec_witness :
  write_law (M := machine_log) log_stream /\ buffer_ok (w_mem hello_world) hello /\
  exists w' r n, @write_all machine_log string 1 hello hello_world = (w', Ok r) /\
    w_mem w' = w_mem hello_world /\
    fst (w_kernel w') = fst (w_kernel hello_world) ++ take n (bstr "hello") /\
    (r = inl tt -> n = 5%nat).
Proof.
  assert (buffer_ok (w_mem hello_world) hello) as Hb.
  { split; [vm_compute; discriminate|]. split; [vm_compute; discriminate|].
    intros i b Hi. do 5 (destruct i as [|i]; [injection Hi as <-; vm_compute; reflexivity|]). destruct i; discriminate Hi. }
  split; [apply machine_log_write_law|]. split; [exact Hb|].
  exact (@write_all_spec machine_log log_stream string 1 hello hello_world machine_log_write_law Hb).
Defined.

Example hello_written :
  match @write_all machine_log string 1 hello hello_world with
  | (w, Ok r) => fst (w_kernel w) = bstr "hello" /\ r = inl tt
  | _ => False
  end.
Proof. vm_compute. done. Qed.

Lemma machine_log_console : @console_laws machine_log log_stream snd.
Proof.
  split.
  - exact machine_log_write_law.
  - intros k m s k' m' p Hs H. injection H as <- <- <-. split; [|done].
    split; [done|]. cbn [s_ptr s_bytes]. split; [lia|]. intros i b Hi. apply lookup_union_Some_l.
    pose proof (lookup_lt_Some _ _ _ Hi). rewrite mem_of_lookup, bool_decide_true by len.
    rewrite <- Hi. f_equal. lia.
  - intros k m status k' m' r H. change (svc k m SYS_EXIT [status]) with ((fst k, Some status), m, (0, false)) in H.
    injection H as <- _ _. done.
Qed.

(** A panic before the rebase, whose message the machine cuts after three bytes *)
Definition early_world : @world machine_log := Mk_world (M := machine_log) ([], None) ∅ 0 false.

Lemma panic_handler_spec_witness :
  texts [bstr "oh"] /\
  exists w r n, @panic_handler machine_log string unit [bstr "oh"] hello_world = (w, r) /\
    received log_stream hello_world w (bstr "panic: oh" ++ [x0a]) n /\
    (r = Fault /\ snd (w_kernel w) = Some 0 /\ n = 10%nat).
Proof.
  assert (texts [bstr "oh"]) as Ht by (repeat constructor).
  split; [exact Ht|].
  destruct (@panic_handler_spec machine_log log_stream snd machine_log_console string unit [bstr "oh"] hello_world Ht)
    as (w & r & n & Hw & Hr & H).
  assert (snd (@panic_handler machine_log string unit [bstr "oh"] hello_world) = Fault) as Hf
    by (vm_compute; reflexivity).
  rewrite Hw in Hf. cbn in Hf. subst r. destruct H as [He Hn]. exists w, Fault, n.
  split; [exact Hw|]. split; [exact Hr|]. split; [reflexivity|]. split; [exact He|exact (Hn eq_refl)].
Defined.
