(* ===== verification/Files.v ===== *)
(** User dylibs from disk: [src/user_dylibs.rs]. *)
From S2P Require Import Prelude Scroll Container Memory Kernel VM.

Section Files.
Context {M : Machine}.

(** [path] is a Rust string in memory, NUL included. *)
Definition disk_path_mmap (path : slice) : io string Container :=
  let! fd := open (s_ptr path) O_RDONLY 0 in
  match fd with
  | inr _ => fail "could not open path"
  | inl fd =>
      let fd := as_u 32 fd in
      let! _ := with_sp (fun sp => bzero sp (repr_c_size File)) in
      let! r := with_sp (fun sp => fstat fd sp) in
      match r with
      | inr _ => fail "could not stat cache file"
      | inl _ =>
          let! size := with_sp (fun sp => reading (fun m =>
            match load_u64 m (ptr_add sp st_size_offset) with Some v => Ok v | None => Fault end)) in
          let! ptr := mmap_file size (Z.lor PROT_READ PROT_WRITE) MAP_PRIVATE (as_i 32 fd) 0 in
          match ptr with
          | inr _ => fail "could not mmap cache file"
          | inl ptr =>
              let! bytes := reading (fun m => from_raw_parts m ptr size) in
              ret (with_bytes bytes Little)
          end
      end
  end.
End Files.

(** ** What the kernel documents of files *)

(** A file as the kernel maps it: whole pages, filled up with zeros *)
Definition padded (page : Z) (bs : bytes) : bytes := bs ++ zeros (round_page page (zlen bs) - zlen bs).

Lemma padded_length page bs : zlen bs <= round_page page (zlen bs) -> zlen (padded page bs) = round_page page (zlen bs).
Proof. intros H. unfold padded, zeros. len. Qed.

Lemma padded_lookup page bs i b : bs !! i = Some b -> padded page bs !! i = Some b.
Proof. apply lookup_app_l_Some. Qed.

Lemma padded_nil page bs : padded page bs = [] -> bs = [].
Proof. by intros [-> _]%app_eq_nil. Qed.

Section FileLaws.
Context {M : Machine} (page : Z).

(** [file k path] is what the file at a path holds, [opened k fd] what the one
    behind a descriptor does; [page] is the size of a page. *)
Context (file : kstate -> bytes -> option bytes) (opened : kstate -> Z -> option bytes).

(** [open] may refuse, but a descriptor it gives is that of the file at the
    path; [fstat] fills in the structure it is given, with the size of the file;
    [mmap] of a whole file maps its bytes, and zeros to the end of the last page,
    where nothing was, or fails and maps nothing. *)
Record files_laws : Prop := {
  open_law k m p path k' m' v err :
    load_bytes m p (S (length path)) = Some (path ++ [x00]) -> ~ x00 ∈ path ->
    svc k m SYS_OPEN [p; O_RDONLY; 0] = (k', m', (v, err)) ->
    m' = m /\ (err = false -> 0 <= v < 2 ^ 31 /\
      exists bs, file k path = Some bs /\ opened k' v = Some bs /\ zlen bs < 2 ^ 63);
  fstat_law k m fd bs out k' m' v err :
    opened k fd = Some bs -> mapped m out (repr_c_size File) ->
    svc k m SYS_FSTAT [fd; out] = (k', m', (v, err)) ->
    dom m' = dom m /\ (forall x, ~ out <= x < out + repr_c_size File -> m' !! x = m !! x) /\
    (err = false -> opened k' fd = Some bs /\ load_u64 m' (out + st_size_offset) = Some (zlen bs));
  mmap_law k m fd bs prot flags k' m' v err :
    opened k fd = Some bs -> bs <> [] ->
    svc k m SYS_MMAP [0; zlen bs; prot; flags; fd; 0] = (k', m', (v, err)) ->
    (forall x, is_Some (m !! x) -> m' !! x = m !! x) /\
    (err = false -> v <> MAP_FAILED ->
       load_bytes m' v (length (padded page bs)) = Some (padded page bs) /\
       forall x, v <= x < v + zlen (padded page bs) -> m !! x = None)
}.

(** Memory below the kernel's and the stack slot's reach is as it was. *)
Definition keeps_memory (w w' : world) : Prop :=
  w_sp w' = w_sp w /\
  forall x, is_Some (w_mem w !! x) -> ~ w_sp w <= x < w_sp w + repr_c_size File -> w_mem w' !! x = w_mem w !! x.

Lemma bzero_spec {E} dst n w :
  0 <= n -> mapped (w_mem w) dst n ->
  exists m, bzero dst n w = (set_mem w m, @Ok E _ tt) /\ dom m = dom (w_mem w) /\
    forall x, ~ dst <= x < dst + n -> m !! x = w_mem w !! x.
Proof.
  intros Hn Hm. assert (zlen (replicate (Z.to_nat n) x00) = n) as Hz by (unfold zlen; rewrite length_replicate; lia).
  destruct (store_bytes_mapped (w_mem w) dst (replicate (Z.to_nat n) x00)) as (m & Hs & Hd & Hl); [by rewrite Hz|].
  exists m. unfold bzero, updating. rewrite Hs. split; [done|]. split; [done|].
  intros x Hx. rewrite Hl, bool_decide_false; [done|]. by rewrite Hz.
Qed.

Context (laws : files_laws).

Lemma descriptor_as_i32 fd : 0 <= fd < 2 ^ 31 -> as_u 32 fd = fd /\ as_u 64 (as_i 32 fd) = fd.
Proof.
  intros Hfd. unfold as_u, as_i. rewrite !(Z.mod_small fd) by lia. split; [done|].
  rewrite (proj2 (Z.ltb_lt _ _)) by (cbn; lia). apply Z.mod_small. lia.
Qed.

(** [fstat] of an open file into a zeroed structure on the stack, and the size it
    reports *)
Lemma fstat_size fd bs w :
  opened (w_kernel w) fd = Some bs -> mapped (w_mem w) (w_sp w) (repr_c_size File) ->
  exists w0 w' r, with_sp (fun sp => bzero sp (repr_c_size File)) w = (w0, @Ok string _ tt) /\
    with_sp (fun sp => fstat fd sp) w0 = (w', @Ok string _ r) /\ keeps_memory w w' /\
    dom (w_mem w') = dom (w_mem w) /\
    match r with
    | inl _ => opened (w_kernel w') fd = Some bs /\
        reading (fun m => match load_u64 m (ptr_add (w_sp w') st_size_offset) with Some v => Ok v | None => Fault end) w'
          = (w', @Ok string _ (zlen bs))
    | inr _ => True
    end.
Proof.
  intros Hop Hst.
  destruct (@bzero_spec string (w_sp w) (repr_c_size File) w) as (m2 & Hz & Hd2 & Ho2); [vm_compute; discriminate|exact Hst|].
  assert (mapped m2 (w_sp w) (repr_c_size File)) as Hst2 by (exact (mapped_dom _ _ _ _ Hd2 Hst)).
  destruct (svc (w_kernel w) m2 SYS_FSTAT [fd; w_sp w]) as [[k3 m3] [v3 e3]] eqn:E3.
  destruct (fstat_law laws _ _ _ _ _ _ _ _ _ Hop Hst2 E3) as (Hd3 & Ho3 & Hsz).
  exists (set_mem w m2), (set_kernel w k3 m3), (decode_ret v3 e3). split; [exact Hz|].
  split; [exact (syscall_run SYS_FSTAT [fd; w_sp w] (set_mem w m2) _ _ _ _ E3)|]. split.
  { split; [done|]. intros x _ Hx. change (m3 !! x = w_mem w !! x). rewrite Ho3 by exact Hx. by apply Ho2. }
  split; [by transitivity (dom m2)|]. destruct e3; cbn [decode_ret]; [exact I|]. destruct (Hsz eq_refl) as [Hop3 Hl3].
  split; [exact Hop3|]. unfold reading. destruct Hst as (? & Htop & _). change (repr_c_size File) with 144 in Htop.
  change (w_sp (set_kernel w k3 m3)) with (w_sp w). change (w_mem (set_kernel w k3 m3)) with m3.
  rewrite ptr_add_small by (change st_size_offset with 96; lia). by rewrite Hl3.
Qed.

(** [mmap_file] of a whole open file *)
Lemma mmap_file_whole fd bs w :
  opened (w_kernel w) fd = Some bs -> 0 <= fd < 2 ^ 31 ->
  exists w' r, mmap_file (zlen bs) (Z.lor PROT_READ PROT_WRITE) MAP_PRIVATE (as_i 32 fd) 0 w = (w', @Ok string _ r) /\
    w_sp w' = w_sp w /\ (forall x, is_Some (w_mem w !! x) -> w_mem w' !! x = w_mem w !! x) /\
    match r with
    | inl v => bs <> [] /\ v <> 0 /\ load_bytes (w_mem w') v (length (padded page bs)) = Some (padded page bs) /\
        forall x, v <= x < v + zlen (padded page bs) -> w_mem w !! x = None
    | inr _ => True
    end.
Proof.
  intros Hop Hfd. unfold mmap_file. destruct (Z.eqb_spec (zlen bs) 0) as [H0|H0]; [by exists w, (inr 22)|].
  change (negb _ && negb _) with false. cbv iota.
  destruct (svc (w_kernel w) (w_mem w) SYS_MMAP [0; zlen bs; 3; 2; fd; 0]) as [[k4 m4] [v4 e4]] eqn:E4.
  assert (bs <> []) as Hne by (by intros ->).
  destruct (mmap_law laws _ _ _ bs _ _ _ _ _ _ Hop Hne E4) as [Hsame Hmap].
  assert (@mmap_internal M string 0 (zlen bs) (Z.lor PROT_READ PROT_WRITE) MAP_PRIVATE (as_i 32 fd) 0 w =
    (set_kernel w k4 m4, Ok (if e4 then inr (as_i 32 v4) else if v4 =? MAP_FAILED then inr 0 else inl v4))) as Hm.
  { apply mmap_internal_run. unfold i32_as_usize. rewrite (proj2 (descriptor_as_i32 fd Hfd)). exact E4. }
  erewrite io_bind_run by exact Hm.
  eexists _, _. split; [reflexivity|]. split; [done|]. split; [exact Hsame|].
  destruct e4; [exact I|]. destruct (Z.eqb_spec v4 MAP_FAILED) as [Hf|Hf]; [exact I|]. cbn [non_null].
  destruct (Z.eqb_spec v4 0) as [Hv0|Hv0]; [exact I|].
  destruct (Hmap eq_refl Hf) as [Hload Hfresh]. by split_and!.
Qed.

Lemma disk_path_mmap_run p path w :
  load_bytes (w_mem w) p (S (length path)) = Some (path ++ [x00]) -> ~ x00 ∈ path ->
  mapped (w_mem w) (w_sp w) (repr_c_size File) ->
  exists w' r, disk_path_mmap (Mk_slice p (path ++ [x00])) w = (w', r) /\ keeps_memory w w' /\
    match r with
    | Ok c => exists bs, file (w_kernel w) path = Some bs /\ bs <> [] /\ zlen bs < 2 ^ 63 /\ raw c = bs /\ endian c = Little /\
        s_ptr (data c) <> 0 /\
        load_bytes (w_mem w') (s_ptr (data c)) (length (padded page bs)) = Some (padded page bs) /\
        forall x, s_ptr (data c) <= x < s_ptr (data c) + zlen (padded page bs) -> w_mem w !! x = None
    | Err e => e = "could not open path" \/ e = "could not stat cache file" \/ e = "could not mmap cache file"
    | _ => False
    end%string.
Proof.
  intros Hpath Hnul Hst. unfold disk_path_mmap, open, syscall3. cbn [s_ptr].
  destruct (svc (w_kernel w) (w_mem w) SYS_OPEN [p; O_RDONLY; 0]) as [[k1 m1] [v1 e1]] eqn:E1.
  destruct (open_law laws _ _ _ _ _ _ _ _ Hpath Hnul E1) as [-> Hopen].
  erewrite io_bind_run by (by apply syscall_run). destruct e1; cbn [decode_ret].
  { eexists _, _. split; [reflexivity|]. split; [by split|]. by left. }
  destruct (Hopen eq_refl) as (Hv & bs & Hfile & Hop & Hsize). rewrite (proj1 (descriptor_as_i32 v1 Hv)).
  set (w1 := set_kernel w k1 (w_mem w)).
  destruct (fstat_size v1 bs w1 Hop Hst) as (w2 & w3 & r & Hz & Hf & Hk3 & Hd3 & Hr).
  rewrite (io_bind_run _ _ _ _ _ Hz), (io_bind_run _ _ _ _ _ Hf).
  destruct r as [u|e]; [|eexists _, _; split; [reflexivity|]; split; [exact Hk3|]; by right; left].
  destruct Hr as [Hop3 Hr]. rewrite (io_bind_run (with_sp _) _ _ _ _ Hr).
  destruct (mmap_file_whole v1 bs w3 Hop3 Hv) as (w4 & q & Hm & Hsp4 & Hsame & Hq). rewrite (io_bind_run _ _ _ _ _ Hm).
  assert (keeps_memory w w4) as Hk4.
  { destruct Hk3 as [Hsp3 Hk3]. split; [by rewrite Hsp4, Hsp3|]. intros x Hx Hns. etransitivity; [|exact (Hk3 x Hx Hns)].
    apply Hsame, elem_of_dom. rewrite Hd3. by apply elem_of_dom. }
  destruct q as [v|e]; [|eexists _, _; split; [reflexivity|]; split; [exact Hk4|]; by right; right].
  destruct Hq as (Hne & Hv0 & Hload & Hfresh). unfold io_bind, reading, from_raw_parts.
  assert (load_bytes (w_mem w4) v (Z.to_nat (zlen bs)) = Some bs) as ->.
  { rewrite (load_bytes_take _ _ _ _ Hload) by (unfold padded; len). unfold zlen. rewrite Nat2Z.id. f_equal. apply take_app_length. }
  eexists _, _. split; [reflexivity|]. split; [exact Hk4|]. exists bs.
  split; [exact Hfile|]. split; [exact Hne|]. split; [exact Hsize|]. split; [reflexivity|]. split; [reflexivity|].
  split; [exact Hv0|]. split; [exact Hload|].
  intros x Hx. apply not_elem_of_dom. change (w_mem w) with (w_mem w1). rewrite <- Hd3.
  by apply not_elem_of_dom, Hfresh.
Qed.

(** C26 A user dylib read from disk is the file at its path: if [disk_path_mmap]
    succeeds, the container holds exactly the bytes of that file, mapped with zeros
    to the end of its last page where nothing was before, and the file is not empty (the kernel refuses an empty
    mapping, and so does [mmap_file] before asking); if it fails, it says which
    of the three calls failed. Either way it returns, and no other memory
    changes but the [stat] structure on the stack. *)
Theorem disk_path_mmap_spec p path w :
  load_bytes (w_mem w) p (S (length path)) = Some (path ++ [x00]) -> ~ x00 ∈ path ->
  mapped (w_mem w) (w_sp w) (repr_c_size File) ->
  exists w' r, disk_path_mmap (Mk_slice p (path ++ [x00])) w = (w', r) /\ keeps_memory w w' /\
    match r with
    | Ok c => exists bs, file (w_kernel w) path = Some bs /\ bs <> [] /\ raw c = bs /\ endian c = Little /\
        s_ptr (data c) <> 0 /\
        load_bytes (w_mem w') (s_ptr (data c)) (length (padded page bs)) = Some (padded page bs) /\
        forall x, s_ptr (data c) <= x < s_ptr (data c) + zlen (padded page bs) -> w_mem w !! x = None
    | Err e => e = "could not open path" \/ e = "could not stat cache file" \/ e = "could not mmap cache file"
    | _ => False
    end%string.
Proof.
  intros Hpath Hnul Hst. destruct (disk_path_mmap_run p path w Hpath Hnul Hst) as (w' & r & Hr & Hk & H).
  exists w', r. split; [exact Hr|]. split; [exact Hk|]. destruct r; try exact H.
  destruct H as (bs & Hf & Hne & _ & H). exists bs. split; [exact Hf|]. split; [exact Hne|exact H].
Qed.
End FileLaws.

(** ** A concrete machine

    A machine with a disk: the files of a table. It opens the first entry that has
    the path in memory, as descriptor 3 and up, places strings at 0x50000000, maps
    files above everything that is mapped and a megabyte for strings, and leaves
    the other traps to [M]. *)
Definition file_base (m : memory) : Z := Z.max (fresh_base m) 0x50100000.

Lemma file_base_fresh (m : memory) x : file_base m <= x -> m !! x = None.
Proof.
  intros Hx. destruct (fresh_base_spec m) as (_ & _ & Ht). apply eq_None_not_Some. intros Hs%top_ge.
  unfold file_base in Hx. lia.
Qed.

Section Disk.
Context (M : Machine) (files : list (bytes * bytes)).

Definition table_file (path : bytes) : option bytes := snd <$> (snd <$> list_find (fun e => fst e = path) files).
Definition table_opened (fd : Z) : option bytes := if 3 <=? fd then snd <$> files !! Z.to_nat (fd - 3) else None.

Definition with_disk : Machine := {|
  kstate := @kstate M;
  svc k m num args :=
    match args with
    | [p; _; _] =>
        if num =? SYS_OPEN then
          match list_find (fun e => load_bytes m p (S (length (fst e))) = Some (fst e ++ [x00])) files with
          | Some (i, _) => (k, m, (3 + Z.of_nat i, false))
          | None => (k, m, (2, true))
          end
        else @svc M k m num args
    | [fd; out] =>
        if num =? SYS_FSTAT then
          match table_opened fd with
          | Some bs =>
              match store_u64 (E := string) m (out + st_size_offset) (zlen bs) with
              | Ok m' => (k, m', (0, false))
              | _ => (k, m, (14, true))
              end
          | None => (k, m, (9, true))
          end
        else @svc M k m num args
    | [_; len; _; _; fd; _] =>
        if num =? SYS_MMAP then
          match table_opened fd with
          | Some bs =>
              if file_base m + round_page 4096 (zlen bs) <=? 2 ^ 63
              then (k, m ∪ mem_of (file_base m) (padded 4096 bs), (file_base m, false))
              else (k, m, (12, true))
          | None => (k, m, (9, true))
          end
        else @svc M k m num args
    | _ => @svc M k m num args
    end;
  alloc_string k m s := (k, mem_of 0x50000000 s ∪ m, 0x50000000);
  call_code := @call_code M;
  tlv_initialize_descriptors_export := @tlv_initialize_descriptors_export M;
  dyld_shared_cache_base_address_get := @dyld_shared_cache_base_address_get M
|}.

(** The table is one of files: paths are text without a NUL. *)
Definition disk_ok : Prop :=
  zlen files < 2 ^ 30 /\ Forall (fun e => ~ x00 ∈ fst e /\ zlen (snd e) < 2 ^ 63) files.

(** Text that ends in the first NUL is determined by where it starts. *)
Lemma path_in_memory m p path path' :
  ~ x00 ∈ path -> ~ x00 ∈ path' ->
  load_bytes m p (S (length path)) = Some (path ++ [x00]) -> load_bytes m p (S (length path')) = Some (path' ++ [x00]) ->
  path = path'.
Proof.
  intros Hn Hn' Hl Hl'.
  assert (forall q q', ~ x00 ∈ q -> load_bytes m p (S (length q)) = Some (q ++ [x00]) ->
    load_bytes m p (S (length q')) = Some (q' ++ [x00]) -> (length q' < length q)%nat -> False) as Hlt.
  { clear. intros q q' Hq Hl Hl' Hlen.
    assert (length (q ++ [x00]) = S (length q)) as Hq1 by (rewrite length_app; cbn; lia).
    rewrite (load_bytes_take m p (q ++ [x00]) (S (length q'))) in Hl' by (rewrite Hq1; lia || exact Hl). injection Hl' as Ht.
    rewrite take_app_le in Ht by lia. apply Hq, (subseteq_take (S (length q')) q). rewrite Ht. apply elem_of_app. right. by left. }
  destruct (Nat.lt_trichotomy (length path) (length path')) as [Hlen|[Hlen|Hlen]];
    [by destruct (Hlt path' path)| |by destruct (Hlt path path')].
  rewrite Hlen in Hl. rewrite Hl' in Hl. injection Hl as Hl. by apply app_inv_tail in Hl.
Qed.

Lemma table_open m p path i e :
  disk_ok -> ~ x00 ∈ path -> load_bytes m p (S (length path)) = Some (path ++ [x00]) ->
  list_find (fun e => load_bytes m p (S (length (fst e))) = Some (fst e ++ [x00])) files = Some (i, e) ->
  table_file path = Some (snd e) /\ files !! i = Some e.
Proof.
  intros [_ Ht] Hn Hl (Hi & He & Hfirst)%list_find_Some. split; [|done]. rewrite Forall_forall in Ht.
  assert (fst e = path) as Hp by (apply (path_in_memory m p); try done; by apply Ht, (list_elem_of_lookup_2 _ i)).
  unfold table_file. assert (list_find (fun e => fst e = path) files = Some (i, e)) as ->; [|done].
  apply list_find_Some. split; [done|]. split; [done|]. intros j e' Hj Hlt Hp'. apply (Hfirst j e' Hj Hlt). by rewrite Hp'.
Qed.

Lemma with_disk_fstat k m fd bs out k' m' v err :
  disk_ok -> table_opened fd = Some bs -> mapped m out (repr_c_size File) ->
  @svc with_disk k m SYS_FSTAT [fd; out] = (k', m', (v, err)) ->
  dom m' = dom m /\ (forall x, ~ out <= x < out + repr_c_size File -> m' !! x = m !! x) /\
  (err = false -> load_u64 m' (out + st_size_offset) = Some (zlen bs)).
Proof.
  intros [_ Hall] Ho Hm H. rewrite Forall_forall in Hall. change (@svc with_disk k m SYS_FSTAT [fd; out]) with
    (match table_opened fd with
     | Some bs => match store_u64 (E := string) m (out + st_size_offset) (zlen bs) with
                  | Ok m' => (k, m', (0, false)) | _ => (k, m, (14, true)) end
     | None => (k, m, (9, true)) end) in H. rewrite Ho in H.
  change (repr_c_size File) with 144 in *. change st_size_offset with 96 in *.
  destruct (@store_u64_mapped string m (out + 96) (zlen bs)) as (m1 & Hs & Hd & Hout & Hl);
    [by apply (mapped_sub m out 144); [|lia|lia]|].
  rewrite Hs in H. injection H as <- <- <- <-. split; [exact Hd|]. split; [intros x Hx; apply Hout; lia|].
  intros _. rewrite Hl, Z.mod_small; [done|]. unfold table_opened in Ho.
  destruct (3 <=? fd); [|done]. apply fmap_Some in Ho as (e & He & ->).
  destruct (Hall e (list_elem_of_lookup_2 _ _ _ He)) as [_ Hsz]. unfold zlen in *. lia.
Qed.

Lemma with_disk_mmap k m fd bs len prot flags k' m' v err :
  table_opened fd = Some bs ->
  @svc with_disk k m SYS_MMAP [0; len; prot; flags; fd; 0] = (k', m', (v, err)) ->
  (forall x, is_Some (m !! x) -> m' !! x = m !! x) /\
  (err = false -> load_bytes m' v (length (padded 4096 bs)) = Some (padded 4096 bs) /\
     forall x, v <= x < v + zlen (padded 4096 bs) -> m !! x = None).
Proof.
  intros Ho H. change (@svc with_disk k m SYS_MMAP [0; len; prot; flags; fd; 0]) with
    (match table_opened fd with
     | Some bs => if file_base m + round_page 4096 (zlen bs) <=? 2 ^ 63
         then (k, m ∪ mem_of (file_base m) (padded 4096 bs), (file_base m, false))
         else (k, m, (12, true))
     | None => (k, m, (9, true)) end) in H. rewrite Ho in H.
  destruct (Z.leb_spec (file_base m + round_page 4096 (zlen bs)) (2 ^ 63)) as [Htop|_]; injection H as <- <- <- <-; [|done].
  pose proof (file_base_fresh m) as Hnone. assert (0 < file_base m) by (unfold file_base; lia).
  assert (zlen (padded 4096 bs) = round_page 4096 (zlen bs)) as Hz by (apply padded_length, round_page_4096; len).
  set (t := padded 4096 bs) in *.
  split; [intros x [b Hx]; rewrite Hx; by apply lookup_union_Some_l|].
  intros _. split; [|intros x Hx; apply Hnone; lia].
  apply load_bytes_stored; [lia|lia|].
  intros i b Hi. rewrite lookup_union_r by (apply Hnone; lia).
  pose proof (lookup_lt_Some _ _ _ Hi). rewrite mem_of_lookup, bool_decide_true by len.
  rewrite <- Hi. f_equal. lia.
Qed.

Lemma with_disk_files_laws : disk_ok -> @files_laws with_disk 4096 (fun _ => table_file) (fun _ => table_opened).
Proof.
  intros Hok. pose proof Hok as [Hlen Hall]. rewrite Forall_forall in Hall. split.
  - intros k m p path k' m' v err Hl Hn H. change (svc k m SYS_OPEN [p; O_RDONLY; 0]) with
      (match list_find (fun e => load_bytes m p (S (length (fst e))) = Some (fst e ++ [x00])) files with
       | Some (i, _) => (k, m, (3 + Z.of_nat i, false)) | None => (k, m, (2, true)) end) in H.
    destruct (list_find _ files) as [[i e]|] eqn:Ef; injection H as <- <- <- <-; [|done]. split; [done|]. intros _.
    destruct (table_open m p path i e Hok Hn Hl Ef) as [Hf Hi]. pose proof (lookup_lt_Some _ _ _ Hi).
    split; [unfold zlen in Hlen; lia|]. exists (snd e). split; [done|].
    split; [|by apply Hall, (list_elem_of_lookup_2 _ i)]. unfold table_opened.
    rewrite (proj2 (Z.leb_le _ _)) by lia. replace (Z.to_nat (3 + Z.of_nat i - 3)) with i by lia. by rewrite Hi.
  - intros k m fd bs out k' m' v err Ho Hm H.
    destruct (with_disk_fstat _ _ _ _ _ _ _ _ _ Hok Ho Hm H) as (? & ? & ?). split_and!; auto.
  - intros k m fd bs prot flags k' m' v err Ho _ H.
    destruct (with_disk_mmap _ _ _ _ _ _ _ _ _ _ _ Ho H) as [? ?]. split; auto.
Qed.

(** The traps that manage memory are those of [M]. *)
Lemma with_disk_vm_laws page : @vm_laws M page -> @vm_laws with_disk page.
Proof.
  intros [Hp H1 H2 H3 H4]. split; [exact Hp| | | |].
  - exact H1.
  - exact H2.
  - exact H3.
  - intros k m args k' m' r H. apply (H4 k m args k' m' r).
    destruct args as [|a0 [|a1 [|a2 [|a3 [|a4 [|a5 [|a6 args]]]]]]]; exact H.
Qed.
End Disk.

Definition disk_file : bytes := bstr "dyld".
Definition machine_disk : Machine := with_disk machine_vm [(bstr "/f", disk_file)].

Lemma no_nul_dec (s : bytes) : bool_decide (x00 ∉ s) = true -> ~ x00 ∈ s.
Proof. exact (bool_decide_eq_true_1 _). Qed.

Lemma machine_disk_laws :
  @files_laws machine_disk 4096 (fun _ => table_file [(bstr "/f", disk_file)])
    (fun _ => table_opened [(bstr "/f", disk_file)]).
Proof.
  apply with_disk_files_laws. split; [done|]. constructor; [|constructor].
  split; [apply no_nul_dec; vm_compute; reflexivity|done].
Qed.

(** A path at 0x1000 and a stack slot at 0x2000 *)
Definition disk_world : @world machine_disk :=
  @Mk_world machine_disk tt (mem_of 0x1000 (bstr "/f" ++ [x00]) ∪ mem_of 0x2000 (zeros 144)) 0x2000 true.

Lemma disk_world_stack : mapped (w_mem disk_world) (w_sp disk_world) (repr_c_size File).
Proof.
  destruct (mem_of_mapped 0x2000 (zeros 144)) as (H0 & H1 & Hm); [done|vm_compute; discriminate|].
  split; [exact H0|]. split; [exact H1|]. intros x Hx. apply lookup_union_is_Some. right. apply Hm.
  change (repr_c_size File) with 144 in Hx. change (w_sp disk_world) with 0x2000 in Hx.
  change (zlen (zeros 144)) with 144. exact Hx.
Qed.

Lemma disk_world_maps :
  match snd (@disk_path_mmap machine_disk (Mk_slice 0x1000 (bstr "/f" ++ [x00])) disk_world) with
  | Ok _ => true | _ => false
  end = true.
Proof. vm_compute. reflexivity. Qed.

Lemma disk_path_mmap_spec_witness :
  ~ x00 ∈ bstr "/f" /\
  exists w c, @disk_path_mmap machine_disk (Mk_slice 0x1000 (bstr "/f" ++ [x00])) disk_world = (w, Ok c) /\
    raw c = disk_file /\
    load_bytes (w_mem w) (s_ptr (data c)) 4096 = Some (disk_file ++ zeros 4092).
Proof.
  assert (~ x00 ∈ bstr "/f") as Hn by (refine (bool_decide_unpack (x00 ∉ bstr "/f") _); vm_compute; exact I).
  split; [exact Hn|]. pose proof disk_world_maps as Hok.
  destruct (@disk_path_mmap_spec machine_disk 4096 _ _ machine_disk_laws 0x1000 (bstr "/f") disk_world
    ltac:(vm_compute; reflexivity) Hn disk_world_stack) as (w & r & Hr & _ & H).
  rewrite Hr in Hok. destruct r as [c|e|y| |]; [|discriminate Hok..].
  destruct H as (bs & [= <-] & _ & Hc & _ & _ & Hl & _). exists w, c. split; [exact Hr|]. split; [exact Hc|exact Hl].
Defined.
