(* ===== verification/Image.v ===== *)
(** Images and load commands: [src/image.rs].

    The data an image is loaded into (segments, symbols), and the iterator over
    the load commands. [commands] is the list of commands laid out in an image,
    independent of who walks it; the iterator here and
    [MachOImage.load_commands_find] are both shown to go through that list. *)
From S2P Require Import Prelude Scroll Bindings Container ArrayVec.

Record Segment := Mk_Segment {
  file_offset : Z;
  vm_addr : Z;
  vm_size : Z;
  prot : Z
}.

Inductive ThreadLocalKind := Variable_ | Regular | Zerofill | InitFunctionPointers.

Record Symbol := Mk_Symbol {
  lib_ordinal : Z;
  name : FixedString;
  impl_offset : Z;
  sect_num : Z;
  value : Z;
  is_weak : bool;
  is_thumb : bool;
  is_cold : bool
}.

Definition make_undefined (name : FixedString) (lib_ordinal : Z) (is_weak : bool) : Symbol :=
  {| lib_ordinal := lib_ordinal; name := name; impl_offset := 0; sect_num := 0; value := 0;
     is_weak := is_weak; is_cold := false; is_thumb := false |}.

Definition make_regular_local (name : FixedString) (image_offset sect_num : Z)
    (is_cold is_thumb : bool) : Symbol :=
  {| lib_ordinal := SELF_LIBRARY_ORDINAL; name := name; value := 0;
     impl_offset := image_offset; sect_num := sect_num; is_weak := false;
     is_cold := is_cold; is_thumb := is_thumb |}.

Definition make_regular_export (name : FixedString) (image_offset sect_num : Z)
    (is_cold is_thumb : bool) : Symbol :=
  {| lib_ordinal := SELF_LIBRARY_ORDINAL; name := name; value := 0;
     impl_offset := image_offset; sect_num := sect_num; is_weak := false;
     is_cold := is_cold; is_thumb := is_thumb |}.

Definition make_weak_def_export (name : FixedString) (image_offset sect_num : Z)
    (is_cold is_thumb : bool) : Symbol :=
  {| lib_ordinal := SELF_LIBRARY_ORDINAL; name := name; value := 0;
     impl_offset := image_offset; sect_num := sect_num; is_weak := true;
     is_cold := is_cold; is_thumb := is_thumb |}.

Definition array_string_cmp {E} (s : Symbol) (array_string : FixedString) : outcome E bool :=
  let* a := as_str (name s) in
  let* b := as_str array_string in
  Ok (bool_decide (a = b)).

(** ** The load command iterator *)

Record LCIterator := Mk_LCIterator { lci_container : Container; lci_offset : Z; lci_remaining : Z }.

Section Iterator.
Context {sc : Scroll} {bp : BuildProfile}.

Definition try_with_container (c : Container) : result LCIterator :=
  let* header := map_err "error: could not create load command iterator for container"
    (deserialize_type_at_offset mach_header_64 c 0) in
  Ok (Mk_LCIterator c (size_of mach_header_64) (mh_ncmds header)).

Definition try_next (it : LCIterator) : result (LCIterator * option load_command) :=
  if lci_remaining it =? 0 then Ok (it, None)
  else
    let* lc := map_err "error: could not iterate over load commands"
      (deserialize_type_at_offset load_command (lci_container it) (lci_offset it)) in
    let* offset := add64 (lci_offset it) (lc_cmdsize lc) in
    let* remaining := sub64 (lci_remaining it) 1 in
    Ok (Mk_LCIterator (lci_container it) offset remaining, Some lc).

(** [while let Some(load_command) = iterator.try_next()?], collected *)
Fixpoint lc_collect (fuel : nat) (it : LCIterator) : result (list load_command) :=
  match fuel with
  | O => Diverge
  | S k =>
      let* r := try_next it in
      match r with
      | (it', Some lc) => let* l := lc_collect k it' in Ok (lc :: l)
      | (_, None) => Ok []
      end
  end.
End Iterator.

(** ** Section types *)

Definition SECTION_TYPE_MASK : Z := 0x000000ff.

Definition section_type_names : list string :=
  ["S_REGULAR"; "S_ZEROFILL"; "S_CSTRING_LITERALS"; "S_4BYTE_LITERALS"; "S_8BYTE_LITERALS";
   "S_LITERAL_POINTERS"; "S_NON_LAZY_SYMBOL_POINTERS"; "S_LAZY_SYMBOL_POINTERS";
   "S_SYMBOL_STUBS"; "S_MOD_INIT_FUNC_POINTERS"; "S_MOD_TERM_FUNC_POINTERS"; "S_COALESCED";
   "S_GB_ZEROFILL"; "S_INTERPOSING"; "S_16BYTE_LITERALS"; "S_DTRACE_DOF";
   "S_LAZY_DYLIB_SYMBOL_POINTERS"; "S_THREAD_LOCAL_REGULAR"; "S_THREAD_LOCAL_ZEROFILL";
   "S_THREAD_LOCAL_VARIABLES"; "S_THREAD_LOCAL_VARIABLE_POINTERS";
   "S_THREAD_LOCAL_INIT_FUNCTION_POINTERS"; "S_INIT_FUNC_OFFSETS"]%string.

Definition section_type_name (flags : Z) : string :=
  match section_type_names !! Z.to_nat (Z.land flags SECTION_TYPE_MASK) with
  | Some n => n
  | None => "S_UNKNOWN"
  end.

(** ** The commands of an image *)

(** A slice of the program is at most [isize::MAX] bytes long. *)
Definition rust_slice (bs : bytes) : Prop := zlen bs < 2 ^ 63.

Section Commands.
Context `{SL : ScrollLaws} {bp : BuildProfile}.

(** [n] commands laid out one after the other from [off], with their offsets. *)
Inductive commands (c : Container) : Z -> nat -> list (load_command * Z) -> Prop :=
| commands_nil off : commands c off 0 []
| commands_cons off n lc l :
    deserialize_type_at_offset load_command c off = Ok lc ->
    commands c (off + lc_cmdsize lc) n l ->
    commands c off (S n) ((lc, off) :: l).

(** The list, computed. *)
Fixpoint commands_list (n : nat) (c : Container) (off : Z) : option (list (load_command * Z)) :=
  match n with
  | O => Some []
  | S m =>
      match deserialize_type_at_offset load_command c off with
      | Ok lc => cons (lc, off) <$> commands_list m c (off + lc_cmdsize lc)
      | _ => None
      end
  end.

Lemma commands_list_Some n c off l : commands_list n c off = Some l -> commands c off n l.
Proof.
  revert off l; induction n as [|n IH]; intros off l; cbn; [intros [= <-]; constructor|].
  destruct (deserialize_type_at_offset load_command c off) eqn:Ed; try done.
  destruct (commands_list n c _) eqn:El; [|done]. intros [= <-]. constructor; auto.
Qed.

Lemma commands_length c off n l : commands c off n l -> length l = n.
Proof. induction 1; cbn; congruence. Qed.

(** There is at most one such list. *)
Lemma commands_unique c off n l l' : commands c off n l -> commands c off n l' -> l = l'.
Proof.
  intros H; revert l'; induction H as [|off n lc l Hd _ IH]; intros l' H'; inversion H'; subst.
  - done.
  - rewrite Hd in *. simplify_eq. f_equal. auto.
Qed.

(** The command size is an unsigned 32-bit number, and the read is in bounds. *)
Lemma load_command_read c off lc :
  0 <= off -> deserialize_type_at_offset load_command c off = Ok lc ->
  off + 8 <= zlen (raw c) /\ fits 32 (lc_cmdsize lc).
Proof.
  intros Hoff Hd. apply deserialize_wf in Hd as (Hle & (cmd & size & []) & -> & _ & Hf & _);
    [|done|repeat constructor].
  by change (layout_size (fields_of load_command)) with 8 in Hle.
Qed.

Lemma mach_header_ncmds c off h :
  0 <= off -> deserialize_type_at_offset mach_header_64 c off = Ok h -> fits 32 (mh_ncmds h).
Proof.
  intros Hoff Hd. apply deserialize_wf in Hd as (_ & vs & -> & Hv); [|done|repeat constructor].
  destruct vs as (? & ? & ? & ? & ? & ? & ? & ? & []). cbn. by destruct Hv as (_ & _ & _ & _ & ? & _).
Qed.

(** Stepping to the next command does not overflow. *)
Lemma next_command_offset c off lc :
  rust_slice (raw c) -> 0 <= off -> deserialize_type_at_offset load_command c off = Ok lc ->
  0 <= off + lc_cmdsize lc /\
  forall E, @add_w E _ 64 off (lc_cmdsize lc) = Ok (off + lc_cmdsize lc).
Proof.
  intros Hs Hoff Hd. apply load_command_read in Hd as [Hle Hf]; [|done].
  unfold rust_slice, fits in *. split; [lia|]. intros E. unfold add_w.
  apply in_range_fits. unfold fits. lia.
Qed.

Lemma lc_collect_commands c off n l fuel :
  rust_slice (raw c) -> 0 <= off -> Z.of_nat n < 2 ^ 64 -> (n < fuel)%nat ->
  (lc_collect fuel (Mk_LCIterator c off (Z.of_nat n)) = Ok l <->
   exists cmds, commands c off n cmds /\ l = cmds.*1).
Proof.
  intros Hs. revert off n l; induction fuel as [|k IH]; intros off n l Hoff Hn Hk; [lia|].
  cbn [lc_collect]. unfold try_next. cbn [lci_remaining lci_offset lci_container].
  destruct n as [|n].
  - cbn. split; [intros [= <-]; eexists; split; [constructor|done]|].
    intros (cmds & Hc & ->). by inversion Hc.
  - rewrite (proj2 (Z.eqb_neq _ _)) by lia.
    destruct (deserialize_type_at_offset load_command c off) as [lc|[]|why| |] eqn:Ed; cbn;
      try by (split; [done|]; intros (? & Hc & _); inversion Hc; congruence).
    destruct (next_command_offset c off lc Hs Hoff Ed) as [Hpos Hadd].
    rewrite Hadd. cbn. unfold sub_w. rewrite in_range_fits by (unfold fits; lia). cbn.
    replace (Z.of_nat (S n) - 1) with (Z.of_nat n) by lia.
    rewrite bind_Ok. split.
    + intros (r & Hr & [= <-]). apply IH in Hr as (cmds & Hc & ->); [|lia..].
      exists ((lc, off) :: cmds). split; [by constructor|done].
    + intros (cmds & Hc & ->). inversion Hc; subst. cbn. rewrite Ed in *. simplify_eq.
      eexists. split; [|done]. apply IH; [lia..|]. eauto.
Qed.

(** C23 The load command iterator of an image, run until it is exhausted,
    returns the [ncmds] commands that follow the header, in the order of the
    file and each starting where the previous one ends, and it returns them
    exactly when every one of them can be read: no command is skipped or
    repeated, the offset and the counter do not overflow, and [ncmds] steps
    suffice. *)
Theorem lc_iterator_yields_commands c h l :
  rust_slice (raw c) -> deserialize_type_at_offset mach_header_64 c 0 = Ok h ->
  exists it, try_with_container c = Ok it /\
    (lc_collect (S (Z.to_nat (mh_ncmds h))) it = Ok l <->
     exists cmds, commands c 32 (Z.to_nat (mh_ncmds h)) cmds /\ l = cmds.*1).
Proof.
  intros Hs Hh. pose proof (mach_header_ncmds _ _ _ ltac:(done) Hh) as Hf. unfold fits in Hf.
  unfold try_with_container. rewrite Hh. cbn. eexists. split; [done|].
  change (size_of mach_header_64) with 32.
  pose proof (lc_collect_commands c 32 (Z.to_nat (mh_ncmds h)) l (S (Z.to_nat (mh_ncmds h)))) as H.
  rewrite Z2Nat.id in H by lia. apply H; lia || done.
Qed.
End Commands.

(** ** An example image: a header and two commands *)

#[local] Existing Instance scroll_ref.
#[local] Existing Instance dev_profile.

Definition u32le (z : Z) : bytes := le_bytes 4 z.
Definition u64le (z : Z) : bytes := le_bytes 8 z.

Definition example_header (filetype ncmds : Z) : bytes :=
  u32le 0xfeedfacf ++ u32le CPU_TYPE_ARM64 ++ u32le 0 ++ u32le filetype ++ u32le ncmds ++
  u32le 0 ++ u32le 0 ++ u32le 0.

Definition two_commands : Container :=
  image_le (example_header 2 2 ++ u32le 2 ++ u32le 12 ++ u32le 7 ++ u32le 0x1b ++ u32le 8).

Definition two_header : mach_header_64 :=
  Mk_mach_header_64 MH_MAGIC_64 CPU_TYPE_ARM64 0 MH_EXECUTE 2 0 0 0.

Lemma lc_iterator_yields_commands_witness :
  rust_slice (raw two_commands) /\
  deserialize_type_at_offset mach_header_64 two_commands 0 = Ok two_header /\
  exists it, try_with_container two_commands = Ok it /\
    (lc_collect 3 it = Ok [Mk_load_command LC_SYMTAB 12; Mk_load_command LC_UUID 8] <->
     exists cmds, commands two_commands 32 2 cmds /\
       [Mk_load_command LC_SYMTAB 12; Mk_load_command LC_UUID 8] = cmds.*1).
Proof.
  split; [done|]. split; [vm_compute; reflexivity|].
  apply (@lc_iterator_yields_commands scroll_ref _ dev_profile two_commands two_header
    [Mk_load_command LC_SYMTAB 12; Mk_load_command LC_UUID 8]); [done|vm_compute; reflexivity].
Defined.
