(* ===== verification/MachConstants.v ===== *)
(** The rest of the Mach-O vocabulary of [src/bindings_macho.rs]: the header's
    flags, the types and attributes of sections, the names of segments and
    sections, the bits of a symbol's type and descriptor, and the structures the
    linker declares without reading them.

    The values are shown to fit the fields they are masked out of, the names
    [section_type_name] gives to be those of the constants, and the structures the
    linker steps over to have no padding. *)
From S2P Require Import Prelude Scroll Bindings Container Image.

(** ** The header *)

(** The [flags] field of the header. *)
Inductive macho_flags_variants : Set :=
| MH_NOUNDEFS
| MH_INCRLINK
| MH_DYLDLINK
| MH_BINDATLOAD
| MH_PREBOUND
| MH_SPLIT_SEGS
| MH_LAZY_INIT
| MH_TWOLEVEL
| MH_FORCE_FLAT
| MH_NOMULTIDEFS
| MH_NOFIXPREBINDING
| MH_PREBINDABLE
| MH_ALLMODSBOUND
| MH_SUBSECTIONS_VIA_SYMBOLS
| MH_CANONICAL
| MH_WEAK_DEFINES
| MH_BINDS_TO_WEAK
| MH_ALLOW_STACK_EXECUTION
| MH_ROOT_SAFE
| MH_SETUID_SAFE
| MH_NO_REEXPORTED_DYLIBS
| MH_PIE
| MH_DEAD_STRIPPABLE_DYLIB
| MH_HAS_TLV_DESCRIPTORS
| MH_NO_HEAP_EXECUTION
| MH_APP_EXTENSION_SAFE
| MH_NLIST_OUTOFSYNC_WITH_DYLDINFO
| MH_SIM_SUPPORT
| MH_DYLIB_IN_CACHE.

Definition macho_flags_variants_discr (v : macho_flags_variants) : Z :=
  match v with
  | MH_NOUNDEFS => 0x1
  | MH_INCRLINK => 0x2
  | MH_DYLDLINK => 0x4
  | MH_BINDATLOAD => 0x8
  | MH_PREBOUND => 0x10
  | MH_SPLIT_SEGS => 0x20
  | MH_LAZY_INIT => 0x40
  | MH_TWOLEVEL => 0x80
  | MH_FORCE_FLAT => 0x100
  | MH_NOMULTIDEFS => 0x200
  | MH_NOFIXPREBINDING => 0x400
  | MH_PREBINDABLE => 0x800
  | MH_ALLMODSBOUND => 0x1000
  | MH_SUBSECTIONS_VIA_SYMBOLS => 0x2000
  | MH_CANONICAL => 0x4000
  | MH_WEAK_DEFINES => 0x8000
  | MH_BINDS_TO_WEAK => 0x10000
  | MH_ALLOW_STACK_EXECUTION => 0x20000
  | MH_ROOT_SAFE => 0x40000
  | MH_SETUID_SAFE => 0x80000
  | MH_NO_REEXPORTED_DYLIBS => 0x100000
  | MH_PIE => 0x200000
  | MH_DEAD_STRIPPABLE_DYLIB => 0x400000
  | MH_HAS_TLV_DESCRIPTORS => 0x800000
  | MH_NO_HEAP_EXECUTION => 0x1000000
  | MH_APP_EXTENSION_SAFE => 0x2000000
  | MH_NLIST_OUTOFSYNC_WITH_DYLDINFO => 0x4000000
  | MH_SIM_SUPPORT => 0x8000000
  | MH_DYLIB_IN_CACHE => 0x80000000
  end.

Definition macho_flags_variants_all : list macho_flags_variants :=
  [MH_NOUNDEFS; MH_INCRLINK; MH_DYLDLINK; MH_BINDATLOAD; MH_PREBOUND; MH_SPLIT_SEGS; MH_LAZY_INIT; MH_TWOLEVEL; MH_FORCE_FLAT; MH_NOMULTIDEFS; MH_NOFIXPREBINDING; MH_PREBINDABLE; MH_ALLMODSBOUND; MH_SUBSECTIONS_VIA_SYMBOLS; MH_CANONICAL; MH_WEAK_DEFINES; MH_BINDS_TO_WEAK; MH_ALLOW_STACK_EXECUTION; MH_ROOT_SAFE; MH_SETUID_SAFE; MH_NO_REEXPORTED_DYLIBS; MH_PIE; MH_DEAD_STRIPPABLE_DYLIB; MH_HAS_TLV_DESCRIPTORS; MH_NO_HEAP_EXECUTION; MH_APP_EXTENSION_SAFE; MH_NLIST_OUTOFSYNC_WITH_DYLDINFO; MH_SIM_SUPPORT; MH_DYLIB_IN_CACHE].

Definition macho_flags_variants_of_discr : Z -> option macho_flags_variants :=
  variant_of_discr macho_flags_variants_all macho_flags_variants_discr.

Arguments macho_flags_variants_of_discr : simpl never.

#[export] Instance macho_flags_variants_eq_dec : EqDecision macho_flags_variants.
Proof. solve_decision. Defined.

(** [impl BitAnd<u32> for load_command_variants] *)
Definition load_command_variants_bitand (c : load_command_variants) (rhs : Z) : Z :=
  Z.land (load_command_variants_discr c) rhs.

(** ** Protections *)

Definition VM_PROT_NONE : Z := 0x00.
Definition VM_PROT_READ : Z := 0x01.
Definition VM_PROT_WRITE : Z := 0x02.
Definition VM_PROT_EXECUTE : Z := 0x04.
Definition VM_PROT_DEFAULT : Z := Z.lor VM_PROT_READ VM_PROT_WRITE.
Definition VM_PROT_ALL : Z := Z.lor VM_PROT_READ VM_PROT_EXECUTE.

(** ** Sections *)

Definition SECTION_ATTRIBUTES : Z := 0xffffff00.
Definition S_REGULAR : Z := 0x0.
Definition S_ZEROFILL : Z := 0x1.
Definition S_CSTRING_LITERALS : Z := 0x2.
Definition S_4BYTE_LITERALS : Z := 0x3.
Definition S_8BYTE_LITERALS : Z := 0x4.
Definition S_LITERAL_POINTERS : Z := 0x5.
Definition S_NON_LAZY_SYMBOL_POINTERS : Z := 0x6.
Definition S_LAZY_SYMBOL_POINTERS : Z := 0x7.
Definition S_SYMBOL_STUBS : Z := 0x8.
Definition S_MOD_INIT_FUNC_POINTERS : Z := 0x9.
Definition S_MOD_TERM_FUNC_POINTERS : Z := 0xa.
Definition S_COALESCED : Z := 0xb.
Definition S_GB_ZEROFILL : Z := 0xc.
Definition S_INTERPOSING : Z := 0xd.
Definition S_16BYTE_LITERALS : Z := 0xe.
Definition S_DTRACE_DOF : Z := 0xf.
Definition S_LAZY_DYLIB_SYMBOL_POINTERS : Z := 0x10.
Definition S_THREAD_LOCAL_REGULAR : Z := 0x11.
Definition S_THREAD_LOCAL_ZEROFILL : Z := 0x12.
Definition S_THREAD_LOCAL_VARIABLE_POINTERS : Z := 0x14.
Definition S_THREAD_LOCAL_INIT_FUNCTION_POINTERS : Z := 0x15.
Definition EXPORT_SYMBOL_FLAGS_KIND_MASK : Z := 0x03.
Definition EXPORT_SYMBOL_FLAGS_STUB_AND_RESOLVER : Z := 0x10.
Definition SECTION_ATTRIBUTES_USR : Z := 0xff000000.
Definition S_ATTR_PURE_INSTRUCTIONS : Z := 0x80000000.
Definition S_ATTR_NO_TOC : Z := 0x40000000.
Definition S_ATTR_STRIP_STATIC_SYMS : Z := 0x20000000.
Definition S_ATTR_NO_DEAD_STRIP : Z := 0x10000000.
Definition S_ATTR_LIVE_SUPPORT : Z := 0x08000000.
Definition S_ATTR_SELF_MODIFYING_CODE : Z := 0x04000000.
Definition S_ATTR_DEBUG : Z := 0x02000000.
Definition SECTION_ATTRIBUTES_SYS : Z := 0x00ffff00.
Definition S_ATTR_SOME_INSTRUCTIONS : Z := 0x00000400.
Definition S_ATTR_EXT_RELOC : Z := 0x00000200.
Definition S_ATTR_LOC_RELOC : Z := 0x00000100.

(** Names of segments, and of the sections in them *)

Definition SEG_PAGEZERO : bytes := bstr "__PAGEZERO".
Definition SECT_TEXT : bytes := bstr "__text".
Definition SECT_FVMLIB_INIT0 : bytes := bstr "__fvmlib_init0".
Definition SECT_FVMLIB_INIT1 : bytes := bstr "__fvmlib_init1".
Definition SECT_DATA : bytes := bstr "__data".
Definition SECT_BSS : bytes := bstr "__bss".
Definition SECT_COMMON : bytes := bstr "__common".
Definition SEG_OBJC : bytes := bstr "__OBJC".
Definition SECT_OBJC_SYMBOLS : bytes := bstr "__symbol_table".
Definition SECT_OBJC_MODULES : bytes := bstr "__module_info".
Definition SECT_OBJC_STRINGS : bytes := bstr "__selector_strs".
Definition SECT_OBJC_REFS : bytes := bstr "__selector_refs".
Definition SEG_ICON : bytes := bstr "__ICON".
Definition SECT_ICON_HEADER : bytes := bstr "__header".
Definition SECT_ICON_TIFF : bytes := bstr "__tiff".
Definition SEG_LINKEDIT : bytes := bstr "__LINKEDIT".
Definition SEG_UNIXSTACK : bytes := bstr "__UNIXSTACK".
Definition SEG_IMPORT : bytes := bstr "__IMPORT".

(** ** Symbols *)

Definition MAX_LIBRARY_ORDINAL : Z := 0xfd.
Definition DYNAMIC_LOOKUP_ORDINAL : Z := 0xfe.
Definition EXECUTABLE_ORDINAL : Z := 0xff.
Definition STRIDX_NULL : Z := 0.
Definition N_ABS : Z := 0x2.
Definition N_PBUD : Z := 0xc.
Definition N_INDR : Z := 0xa.
Definition NO_SECT : Z := 0.
Definition MAX_SECT : Z := 255.
Definition N_NO_DEAD_STRIP : Z := 0x0020.
Definition N_DESC_DISCARDED : Z := 0x0020.
Definition N_REF_TO_WEAK : Z := 0x0080.

(** ** Structures that are declared only *)

(** [LC_DYSYMTAB]. *)
Record dysymtab_command := Mk_dysymtab_command {
  dy_cmd : load_command_variants;
  dy_cmdsize : Z;
  dy_ilocalsym : Z;
  dy_nlocalsym : Z;
  dy_iextdefsym : Z;
  dy_nextdefsym : Z;
  dy_iundefsym : Z;
  dy_nundefsym : Z;
  dy_tocoff : Z;
  dy_ntoc : Z;
  dy_modtaboff : Z;
  dy_nmodtab : Z;
  dy_extrefsymoff : Z;
  dy_nextrefsyms : Z;
  dy_indirectsymoff : Z;
  dy_nindirectsyms : Z;
  dy_extreloff : Z;
  dy_nextrel : Z;
  dy_locreloff : Z;
  dy_nlocrel : Z
}.

#[export] Instance dysymtab_command_pread : Pread dysymtab_command := {|
  fields_of := [CEnum 4 _ load_command_variants_of_discr; UInt 4; UInt 4; UInt 4; UInt 4; UInt 4; UInt 4; UInt 4; UInt 4; UInt 4; UInt 4; UInt 4; UInt 4; UInt 4; UInt 4; UInt 4; UInt 4; UInt 4; UInt 4; UInt 4];
  of_fields '(v0, (v1, (v2, (v3, (v4, (v5, (v6, (v7, (v8, (v9, (v10, (v11, (v12, (v13, (v14, (v15, (v16, (v17, (v18, (v19, _)))))))))))))))))))) :=
    Mk_dysymtab_command v0 v1 v2 v3 v4 v5 v6 v7 v8 v9 v10 v11 v12 v13 v14 v15 v16 v17 v18 v19
|}.

(** [LC_UUID]. *)
Record uuid_command := Mk_uuid_command {
  uu_cmd : load_command_variants;
  uu_cmdsize : Z;
  uu_uuid : bytes
}.

#[export] Instance uuid_command_pread : Pread uuid_command := {|
  fields_of := [CEnum 4 _ load_command_variants_of_discr; UInt 4; Arr 16];
  of_fields '(v0, (v1, (v2, _))) :=
    Mk_uuid_command v0 v1 v2
|}.

(** The starts of chains in a firmware image; the array of one element is the
    first of [so_starts_count]. *)
Record dyld_chained_starts_offsets := Mk_dyld_chained_starts_offsets {
  so_pointer_format : Z;
  so_starts_count : Z;
  so_chain_starts : Z
}.

#[export] Instance dyld_chained_starts_offsets_pread : Pread dyld_chained_starts_offsets := {|
  fields_of := [UInt 4; UInt 4; UInt 4];
  of_fields '(v0, (v1, (v2, _))) :=
    Mk_dyld_chained_starts_offsets v0 v1 v2
|}.

(** A thread-local variable: the address of the function that gives its address (0
    for [None]), and that function's data. It is read by [libtlv] only. *)
Record tlv_descriptor := Mk_tlv_descriptor { tlv_thunk : Z; tlv_key : Z; tlv_offset : Z }.

(** What dyld tells of its images, in [src/dsc.rs]; [libdsc] fills it in, and the
    linker declares it only. *)
Record user64_dyld_all_image_infos := Mk_user64_dyld_all_image_infos {
  ai_version : Z;
  ai_infoArrayCount : Z;
  ai_infoArray : Z;
  ai_notification : Z;
  ai_processDetachedFromSharedRegion : Z;
  ai_libSystemInitialized : Z;
  ai_dyldImageLoadAddress : Z;
  ai_jitInfo : Z;
  ai_dyldVersion : Z;
  ai_errorMessage : Z;
  ai_terminationFlags : Z;
  ai_coreSymbolicationShmPage : Z;
  ai_systemOrderFlag : Z;
  ai_uuidArrayCount : Z;
  ai_uuidArray : Z;
  ai_dyldAllImageInfosAddress : Z;
  ai_initialImageCount : Z;
  ai_errorKind : Z;
  ai_errorClientOfDylibPath : Z;
  ai_errorTargetDylibPath : Z;
  ai_errorSymbol : Z;
  ai_sharedCacheSlide : Z;
  ai_sharedCacheUUID : bytes;
  ai_sharedCacheBaseAddress : Z;
  ai_timestamp : Z;
  ai_dyldPath : Z;
  ai_notifyMachPorts : list Z;
  ai_reserved : list Z;
  ai_compact_dyld_image_info_addr : Z;
  ai_compact_dyld_image_info_size : Z;
  ai_platform : Z;
  ai_aotInfoArrayCount : Z;
  ai_aotInfoArray : Z;
  ai_aotTimestamp : Z
}.

(** ** The names of section types *)

Definition section_types : list (Z * string) :=
  [(S_REGULAR, "S_REGULAR"); (S_ZEROFILL, "S_ZEROFILL"); (S_CSTRING_LITERALS, "S_CSTRING_LITERALS");
   (S_4BYTE_LITERALS, "S_4BYTE_LITERALS"); (S_8BYTE_LITERALS, "S_8BYTE_LITERALS");
   (S_LITERAL_POINTERS, "S_LITERAL_POINTERS"); (S_NON_LAZY_SYMBOL_POINTERS, "S_NON_LAZY_SYMBOL_POINTERS");
   (S_LAZY_SYMBOL_POINTERS, "S_LAZY_SYMBOL_POINTERS"); (S_SYMBOL_STUBS, "S_SYMBOL_STUBS");
   (S_MOD_INIT_FUNC_POINTERS, "S_MOD_INIT_FUNC_POINTERS"); (S_MOD_TERM_FUNC_POINTERS, "S_MOD_TERM_FUNC_POINTERS");
   (S_COALESCED, "S_COALESCED"); (S_GB_ZEROFILL, "S_GB_ZEROFILL"); (S_INTERPOSING, "S_INTERPOSING");
   (S_16BYTE_LITERALS, "S_16BYTE_LITERALS"); (S_DTRACE_DOF, "S_DTRACE_DOF");
   (S_LAZY_DYLIB_SYMBOL_POINTERS, "S_LAZY_DYLIB_SYMBOL_POINTERS"); (S_THREAD_LOCAL_REGULAR, "S_THREAD_LOCAL_REGULAR");
   (S_THREAD_LOCAL_ZEROFILL, "S_THREAD_LOCAL_ZEROFILL"); (S_THREAD_LOCAL_VARIABLES, "S_THREAD_LOCAL_VARIABLES");
   (S_THREAD_LOCAL_VARIABLE_POINTERS, "S_THREAD_LOCAL_VARIABLE_POINTERS");
   (S_THREAD_LOCAL_INIT_FUNCTION_POINTERS, "S_THREAD_LOCAL_INIT_FUNCTION_POINTERS");
   (S_INIT_FUNC_OFFSETS, "S_INIT_FUNC_OFFSETS")]%string.

(** [section_type_name] names the type of a section by its constant, whatever its
    attributes. *)
Lemma section_type_name_constant kind name flags :
  (kind, name) ∈ section_types -> Z.land flags SECTION_TYPE = kind -> section_type_name flags = name.
Proof.
  intros Hin Hf. unfold section_type_name. change SECTION_TYPE_MASK with SECTION_TYPE. rewrite Hf.
  assert (Forall (fun x => match section_type_names !! Z.to_nat (fst x) with Some n => n | None => "S_UNKNOWN"%string end
    = snd x) section_types) as H by (repeat constructor).
  rewrite Forall_forall in H. exact (H _ Hin).
Qed.

(** The masks of a section's flags take all 32 bits apart; every attribute is one of
    those the user or the system sets. *)
Lemma section_flags_masks :
  Z.lor SECTION_TYPE SECTION_ATTRIBUTES = 2 ^ 32 - 1 /\ Z.land SECTION_TYPE SECTION_ATTRIBUTES = 0 /\
  Z.lor SECTION_ATTRIBUTES_USR SECTION_ATTRIBUTES_SYS = SECTION_ATTRIBUTES /\
  Forall (fun a => Z.land a SECTION_ATTRIBUTES_USR = a)
    [S_ATTR_PURE_INSTRUCTIONS; S_ATTR_NO_TOC; S_ATTR_STRIP_STATIC_SYMS; S_ATTR_NO_DEAD_STRIP; S_ATTR_LIVE_SUPPORT;
     S_ATTR_SELF_MODIFYING_CODE; S_ATTR_DEBUG] /\
  Forall (fun a => Z.land a SECTION_ATTRIBUTES_SYS = a)
    [S_ATTR_SOME_INSTRUCTIONS; S_ATTR_EXT_RELOC; S_ATTR_LOC_RELOC].
Proof. split_and!; repeat constructor. Qed.

(** The four fields of a symbol's type take its eight bits apart. *)
Lemma nlist_type_masks :
  Z.lor N_STAB (Z.lor N_PEXT (Z.lor N_TYPE N_EXT)) = 2 ^ 8 - 1 /\ N_STAB + N_PEXT + N_TYPE + N_EXT = 2 ^ 8 - 1 /\
  Forall (fun t => Z.land t N_TYPE = t) [N_UNDF; N_ABS; N_SECT; N_PBUD; N_INDR].
Proof. split_and!; repeat constructor. Qed.

(** ** Layouts *)

(** The fields follow each other without padding, in memory as in the file. *)
Definition unpadded (l : list field) : bool :=
  (repr_c_size l =? layout_size l) &&
  forallb (fun i => repr_c_offset l i =? layout_size (take i l)) (List.seq 0 (length l)).

(** The size the linker steps by is what it reads: of the structures it reads, only
    an import with a 64-bit addend has padding, of four bytes. *)
Lemma layouts_unpadded :
  forallb unpadded
    [fields_of fat_header; fields_of fat_arch; fields_of mach_header_64; fields_of load_command; fields_of section_64;
     fields_of segment_command_64; fields_of dylib_command; fields_of symtab_command; fields_of dysymtab_command;
     fields_of uuid_command; fields_of linkedit_data_command; fields_of entry_point_command; fields_of rpath_command;
     fields_of nlist_64; fields_of dyld_chained_fixups_header; fields_of dyld_chained_starts_in_image; fields_of dyld_chained_starts_in_segment;
     fields_of dyld_chained_starts_offsets; fields_of dyld_chained_import; fields_of dyld_chained_import_addend;
     fields_of dyld_cache_mapping_info; fields_of dyld_cache_image_info; fields_of dyld_subcache_entry;
     fields_of dyld_info_command] = true /\
  size_of dyld_chained_import_addend64 = 16 /\ layout_size (fields_of dyld_chained_import_addend64) = 12.
Proof. split_and!; vm_compute; reflexivity. Qed.
