(* ===== verification/MachOImage.v ===== *)
(** One Mach-O image in a container: [src/macho_image.rs].

    Load-command lookup with a visitor, the dylib install names, and the walk
    of the exports trie. Walking the load commands is shown to be a search of
    the list [Image.commands]; the trie walk is shown to find exactly the
    symbols of the trie the bytes encode. *)
From S2P Require Import Prelude Scroll Bindings Container Image.

Definition MAX_REEXPORT_RESOLUTION_DEPTH : nat := 16.

Record LinkeditSegment := Mk_LinkeditSegment { le_vmaddr : Z; le_fileoff : Z }.

Record MachOImage := Mk_MachOImage { container : Container; mach_header_offset : Z }.

Definition new (container : Container) (mach_header_offset : Z) : MachOImage :=
  Mk_MachOImage container mach_header_offset.

Record ExportsTrieSpan := Mk_ExportsTrieSpan { span_file_offset : Z; span_size_in_bytes : Z }.

Definition is_dylib_dependency_command (cmd : load_command_variants) : bool :=
  bool_decide (cmd = LC_LOAD_DYLIB) || bool_decide (cmd = LC_REEXPORT_DYLIB).

Section Commands.
Context {sc : Scroll} {bp : BuildProfile}.

Definition mach_header_read (image : MachOImage) : result mach_header_64 :=
  map_err "could not read mach_header_64"
    (deserialize_type_at_offset mach_header_64 (container image) (mach_header_offset image)).

(** [load_commands_find]: the closure is [visit], its captured variables the
    state [S] it threads. *)
Section Find.
Context {S T : Type} (visit : load_command_variants -> Z -> S -> result (S * option T)).

Fixpoint load_commands_loop (n : nat) (c : Container) (command_offset : Z) (s : S)
    : result (S * option T) :=
  match n with
  | O => Ok (s, None)
  | Datatypes.S m =>
      let* lc := map_err "could not read load_command header"
        (deserialize_type_at_offset load_command c command_offset) in
      let* r := visit (lc_cmd lc) command_offset s in
      match r with
      | (s, Some found) => Ok (s, Some found)
      | (s, None) =>
          let* command_offset := add64 command_offset (lc_cmdsize lc) in
          load_commands_loop m c command_offset s
      end
  end.

Definition load_commands_find (image : MachOImage) (s : S) : result (S * option T) :=
  let* header := mach_header_read image in
  let* command_offset := add64 (mach_header_offset image) (size_of mach_header_64) in
  load_commands_loop (Z.to_nat (mh_ncmds header)) (container image) command_offset s.
End Find.

(** A visitor that captures nothing it changes. *)
Definition load_commands_find_pure {T} (visit : load_command_variants -> Z -> result (option T))
    (image : MachOImage) : result (option T) :=
  let* r := load_commands_find (fun cmd off s => let* o := visit cmd off in Ok (s, o)) image tt in
  Ok (snd r).

Definition dylib_install_name_read (image : MachOImage) (command_offset : Z) : result bytes :=
  let* header := map_err "could not read dylib_command_header"
    (deserialize_type_at_offset dylib_command_header (container image) command_offset) in
  let* offset := add64 command_offset (dh_name_offset header) in
  let* cstr := deserialize_cstr_at_offset (container image) offset in
  Ok (cstr_to_bytes cstr).

Definition exports_trie_span_visit (image : MachOImage) (cmd : load_command_variants)
    (command_offset : Z) : result (option ExportsTrieSpan) :=
  match cmd with
  | LC_DYLD_EXPORTS_TRIE =>
      let* lc := map_err "could not read linkedit_data_command"
        (deserialize_type_at_offset linkedit_data_command (container image) command_offset) in
      Ok (Some (Mk_ExportsTrieSpan (ld_dataoff lc) (ld_datasize lc)))
  | LC_DYLD_INFO_ONLY =>
      let* lc := map_err "could not read dyld_info_command"
        (deserialize_type_at_offset dyld_info_command (container image) command_offset) in
      Ok (Some (Mk_ExportsTrieSpan (di_export_off lc) (di_export_size lc)))
  | _ => Ok None
  end.
Definition exports_trie_span_find (image : MachOImage) : result (option ExportsTrieSpan) :=
  load_commands_find_pure (exports_trie_span_visit image) image.

Definition install_path_visit (image : MachOImage) (target_ordinal : Z)
    (cmd : load_command_variants) (command_offset seen : Z) : result (Z * option bytes) :=
  if negb (is_dylib_dependency_command cmd) then Ok (seen, None)
  else
    let* seen := add64 seen 1 in
    if seen =? target_ordinal then
      let* p := dylib_install_name_read image command_offset in Ok (seen, Some p)
    else Ok (seen, None).
Definition dylib_install_path_for_ordinal (image : MachOImage) (target_ordinal : Z)
    : result (option bytes) :=
  let* r := load_commands_find (install_path_visit image target_ordinal) image 0 in
  Ok (snd r).

Definition reexport_visit (image : MachOImage) (cmd : load_command_variants)
    (command_offset : Z) (paths : list bytes) : result (list bytes * option unit) :=
  if bool_decide (cmd = LC_REEXPORT_DYLIB) then
    match dylib_install_name_read image command_offset with
    | Ok p => Ok (paths ++ [p], None)
    | Err _ => Ok (paths, None)
    | Panic w => Panic w
    | Fault => Fault
    | Diverge => Diverge
    end
  else Ok (paths, None).
Definition reexported_dylib_paths_collect (image : MachOImage) : result (list bytes) :=
  let* r := load_commands_find (reexport_visit image) image [] in
  Ok (fst r).

Definition linkedit_segment_visit (image : MachOImage) (cmd : load_command_variants)
    (command_offset : Z) : result (option LinkeditSegment) :=
  match cmd with
  | LC_SEGMENT_64 =>
      let* seg := map_err "could not read segment_command_64"
        (deserialize_type_at_offset segment_command_64 (container image) command_offset) in
      let* prefix := index_range (sc_segname seg) 0 10 in
      if bool_decide (prefix = bstr "__LINKEDIT")
      then Ok (Some (Mk_LinkeditSegment (sc_vmaddr seg) (sc_fileoff seg)))
      else Ok None
  | _ => Ok None
  end.
Definition linkedit_segment_find (image : MachOImage) : result (option LinkeditSegment) :=
  load_commands_find_pure (linkedit_segment_visit image) image.
End Commands.

(** ** The exports trie *)

Inductive ExportTerminal :=
| DefinedHere (offset_from_mach_header : Z)
| ReexportedFromDependency (dependency_ordinal : Z) (aliased_name : bytes).

Record TrieNodeReader := Mk_TrieNodeReader {
  trie_bytes : bytes;
  child_edges_start_offset : Z;
  terminal_payload_start_offset : Z;
  terminal_payload_size_in_bytes : Z
}.

Section Trie.
Context {bp : BuildProfile}.

Definition read_uleb128_at (trie : bytes) (cursor : Z) : outcome unit (Z * Z) :=
  let* s := index_from trie cursor in ok_or tt (read_uleb128 s).

Definition open (trie : bytes) (node_offset : Z) : outcome unit TrieNodeReader :=
  if zlen trie <=? node_offset then Err tt
  else
    let* (payload_size, byte_count) := read_uleb128_at trie node_offset in
    let* payload_start := add64 node_offset byte_count in
    let* edges_start := add64 payload_start payload_size in
    if zlen trie <=? edges_start then Err tt
    else Ok (Mk_TrieNodeReader trie edges_start payload_start payload_size).

Definition has_terminal_payload (node : TrieNodeReader) : bool :=
  0 <? terminal_payload_size_in_bytes node.

Definition terminal_payload_read (node : TrieNodeReader) : outcome unit ExportTerminal :=
  let cursor := terminal_payload_start_offset node in
  let* (export_flags, flags_count) := read_uleb128_at (trie_bytes node) cursor in
  let* cursor := add64 cursor flags_count in
  if negb (Z.land export_flags EXPORT_SYMBOL_FLAGS_REEXPORT =? 0) then
    let* (dependency_ordinal, ordinal_count) := read_uleb128_at (trie_bytes node) cursor in
    let* cursor := add64 cursor ordinal_count in
    let* s := index_from (trie_bytes node) cursor in
    let* terminator := ok_or tt (position is_nul s) in
    let* stop := add64 cursor (Z.of_nat terminator) in
    let* aliased_name := index_range (trie_bytes node) cursor stop in
    Ok (ReexportedFromDependency dependency_ordinal aliased_name)
  else
    let* (offset_from_mach_header, _) := read_uleb128_at (trie_bytes node) cursor in
    Ok (DefinedHere offset_from_mach_header).

(** The loop over the child edges of a node. *)
Fixpoint child_edge_loop (n : nat) (trie : bytes) (cursor : Z) (suffix : bytes)
    : outcome unit (bytes * Z) :=
  match n with
  | O => Err tt
  | S m =>
      let label_start := cursor in
      let* s := index_from trie label_start in
      let* label_length := ok_or tt (position is_nul s) in
      let* label_stop := add64 label_start (Z.of_nat label_length) in
      let* label := index_range trie label_start label_stop in
      let* cursor := add64 label_stop 1 in
      let* (child_node_offset, field_count) := read_uleb128_at trie cursor in
      let* cursor := add64 cursor field_count in
      if negb (bool_decide (label = [])) && starts_with suffix label
      then Ok (label, child_node_offset)
      else child_edge_loop m trie cursor suffix
  end.

Definition child_edge_matching_prefix_find (node : TrieNodeReader) (remaining_symbol_suffix : bytes)
    : outcome unit (bytes * Z) :=
  let cursor := child_edges_start_offset node in
  let* count := index_at (trie_bytes node) cursor in
  let* cursor := add64 cursor 1 in
  child_edge_loop (Z.to_nat (u8 count)) (trie_bytes node) cursor remaining_symbol_suffix.

Fixpoint trie_walk_loop (visit_budget : nat) (trie : bytes) (current_node_offset : Z)
    (remaining_suffix : bytes) : outcome unit ExportTerminal :=
  match visit_budget with
  | O => Err tt
  | S visit_budget =>
      let* node := open trie current_node_offset in
      if bool_decide (remaining_suffix = []) && has_terminal_payload node
      then terminal_payload_read node
      else
        let* (matched_label, child_node_offset) :=
          child_edge_matching_prefix_find node remaining_suffix in
        let* remaining_suffix := index_from remaining_suffix (zlen matched_label) in
        trie_walk_loop visit_budget trie child_node_offset remaining_suffix
  end.

Definition exports_trie_walk_for_symbol (trie : bytes) (symbol : bytes) : outcome unit ExportTerminal :=
  trie_walk_loop (length trie) trie 0 symbol.
End Trie.

(** ** Every read ends

    The walks take as many steps as there are commands, edges or bytes; whatever
    the image holds, the result is a value, an error or a panic. *)
Section Ends.
Context {sc : Scroll} {bp : BuildProfile}.

Lemma load_commands_find_ends {S T} (visit : _ -> _ -> S -> result (S * option T)) image s :
  (forall cmd off s, ends (visit cmd off s)) -> ends (load_commands_find visit image s).
Proof.
  intros Hv. unfold load_commands_find, mach_header_read. apply ends_bind; [solve_ends|]. intros h _.
  apply ends_bind; [solve_ends|]. intros off _. generalize (Z.to_nat (mh_ncmds h)) as n. intros n. revert off s.
  induction n as [|n IH]; intros off s; cbn [load_commands_loop]; [exact I|].
  apply ends_bind; [solve_ends|]. intros lc _. apply ends_bind; [apply Hv|]. intros [s' [t|]] _; [exact I|].
  apply ends_bind; [solve_ends|]. intros off' _. apply IH.
Qed.

Lemma load_commands_find_pure_ends {T} (visit : _ -> _ -> result (option T)) image :
  (forall cmd off, ends (visit cmd off)) -> ends (load_commands_find_pure visit image).
Proof.
  intros Hv. unfold load_commands_find_pure. apply ends_bind; [|done]. apply load_commands_find_ends. intros.
  apply ends_bind; [apply Hv|done].
Qed.

Lemma dylib_install_name_read_ends image off : ends (dylib_install_name_read image off).
Proof. unfold dylib_install_name_read. solve_ends. Qed.

Lemma exports_trie_span_find_ends image : ends (exports_trie_span_find image).
Proof. apply load_commands_find_pure_ends. intros [] off; cbn [exports_trie_span_visit]; solve_ends. Qed.

Lemma linkedit_segment_find_ends image : ends (linkedit_segment_find image).
Proof. apply load_commands_find_pure_ends. intros [] off; cbn [linkedit_segment_visit]; solve_ends. Qed.

Lemma dylib_install_path_for_ordinal_ends image ordinal : ends (dylib_install_path_for_ordinal image ordinal).
Proof.
  unfold dylib_install_path_for_ordinal. apply ends_bind; [|done]. apply load_commands_find_ends.
  intros cmd off seen. unfold install_path_visit. pose proof dylib_install_name_read_ends. solve_ends.
Qed.

Lemma reexported_dylib_paths_collect_ends image : ends (reexported_dylib_paths_collect image).
Proof.
  unfold reexported_dylib_paths_collect. apply ends_bind; [|done]. apply load_commands_find_ends.
  intros cmd off paths. unfold reexport_visit. case_bool_decide; [|exact I].
  pose proof (dylib_install_name_read_ends image off) as Hr. by destruct (dylib_install_name_read image off).
Qed.

Lemma read_uleb128_at_ends trie cursor : ends (read_uleb128_at trie cursor).
Proof. unfold read_uleb128_at. solve_ends. Qed.
#[local] Hint Resolve read_uleb128_at_ends : ends.

Lemma terminal_payload_read_ends node : ends (terminal_payload_read node).
Proof. unfold terminal_payload_read. solve_ends. Qed.

Lemma child_edge_loop_ends n trie cursor suffix : ends (child_edge_loop n trie cursor suffix).
Proof.
  revert cursor; induction n as [|n IH]; intros cursor; cbn [child_edge_loop]; [exact I|].
  solve_ends; apply IH.
Qed.
#[local] Hint Resolve terminal_payload_read_ends child_edge_loop_ends : ends.

Lemma exports_trie_walk_ends trie symbol : ends (exports_trie_walk_for_symbol trie symbol).
Proof.
  unfold exports_trie_walk_for_symbol. generalize (length trie) as n, 0 as off. intros n. revert symbol.
  induction n as [|n IH]; intros symbol off; cbn [trie_walk_loop]; [exact I|].
  apply ends_bind; [unfold open; solve_ends|]. intros node _. destruct (_ && _); [solve_ends|].
  apply ends_bind; [unfold child_edge_matching_prefix_find; solve_ends|]. intros [label child] _.
  apply ends_bind; [solve_ends|]. intros s _. apply IH.
Qed.
End Ends.
#[export] Hint Resolve dylib_install_name_read_ends exports_trie_span_find_ends linkedit_segment_find_ends
  dylib_install_path_for_ordinal_ends reexported_dylib_paths_collect_ends exports_trie_walk_ends : ends.

(** ** The load commands as a list *)

(** [image] has a readable header and the commands [cmds]. *)
Definition image_commands `{Scroll} (image : MachOImage) (cmds : list (load_command * Z)) : Prop :=
  exists h, mach_header_read image = Ok h /\ rust_slice (raw (container image)) /\
    0 <= mach_header_offset image /\
    commands (container image) (mach_header_offset image + 32) (Z.to_nat (mh_ncmds h)) cmds.

(** Visiting a list of commands until one is found. *)
Fixpoint visit_all {S T} (visit : load_command_variants -> Z -> S -> result (S * option T))
    (cmds : list (load_command * Z)) (s : S) : result (S * option T) :=
  match cmds with
  | [] => Ok (s, None)
  | (lc, off) :: r =>
      let* (s, o) := visit (lc_cmd lc) off s in
      match o with
      | Some t => Ok (s, Some t)
      | None => visit_all visit r s
      end
  end.

(** The first command for which [p] holds. *)
Definition first_command (p : load_command_variants -> bool) (cmds : list (load_command * Z))
    : option (load_command * Z) :=
  snd <$> list_find (fun x => p (lc_cmd (fst x)) = true) cmds.

(** The commands for which [p] holds. *)
Definition commands_of (p : load_command_variants -> bool) (cmds : list (load_command * Z))
    : list (load_command * Z) :=
  List.filter (fun x => p (lc_cmd (fst x))) cmds.

Section CommandLemmas.
Context `{SL : ScrollLaws} {bp : BuildProfile}.

Lemma load_commands_loop_commands {S T} (visit : _ -> _ -> S -> result (S * option T)) c off n cmds s :
  rust_slice (raw c) -> 0 <= off -> commands c off n cmds ->
  load_commands_loop visit n c off s = visit_all visit cmds s.
Proof.
  intros Hs Hoff Hc. revert s Hoff; induction Hc as [off|off n lc l Hd _ IH]; intros s Hoff; [done|].
  cbn. rewrite Hd. cbn. destruct (visit (lc_cmd lc) off s) as [[s' [t|]]|?|?| |]; cbn; try done.
  destruct (next_command_offset c off lc Hs Hoff Hd) as [Hpos ->]. cbn. by apply IH.
Qed.

Lemma load_commands_find_commands {S T} (visit : _ -> _ -> S -> result (S * option T)) image cmds s :
  image_commands image cmds -> load_commands_find visit image s = visit_all visit cmds s.
Proof.
  intros (h & Hh & Hs & Hoff & Hc). unfold load_commands_find.
  change (size_of mach_header_64) with 32. rewrite Hh. cbn.
  unfold mach_header_read in Hh. apply map_err_Ok, deserialize_Ok in Hh as [Hle _]; [|done].
  change (layout_size (fields_of mach_header_64)) with 32 in Hle. unfold rust_slice in Hs.
  unfold add_w. rewrite in_range_fits by (unfold fits; lia). cbn.
  apply load_commands_loop_commands; [unfold rust_slice; lia|lia|done].
Qed.

Lemma load_commands_find_pure_commands {T} (visit : _ -> _ -> result (option T)) p image cmds :
  (forall cmd off, p cmd = false -> visit cmd off = Ok None) ->
  (forall cmd off, p cmd = true -> visit cmd off <> Ok None) ->
  image_commands image cmds ->
  load_commands_find_pure visit image =
    match first_command p cmds with
    | Some (lc, off) => visit (lc_cmd lc) off
    | None => Ok None
    end.
Proof.
  intros Hno Hyes Hi. unfold load_commands_find_pure.
  rewrite (load_commands_find_commands _ _ _ _ Hi). clear Hi. unfold first_command.
  induction cmds as [|[lc off] cmds IH]; cbn; [done|].
  destruct (decide (p (lc_cmd lc) = true)) as [Hp|Hp]; cbn.
  - pose proof (Hyes _ off Hp). by destruct (visit (lc_cmd lc) off) as [[t|]|?|?| |].
  - apply not_true_is_false in Hp. rewrite (Hno _ off Hp). cbn. rewrite IH.
    by destruct (list_find _ cmds) as [[]|].
Qed.

Definition exports_trie_command (cmd : load_command_variants) : bool :=
  bool_decide (cmd = LC_DYLD_EXPORTS_TRIE) || bool_decide (cmd = LC_DYLD_INFO_ONLY).

(** The exports trie of an image is the one named by the first
    [LC_DYLD_EXPORTS_TRIE] or [LC_DYLD_INFO_ONLY] command, whichever comes
    first in the file, with the offset and size that command stores; an image
    with neither has none, and an error is only that command's read error. *)
Lemma exports_trie_span_find_spec image cmds :
  image_commands image cmds ->
  exports_trie_span_find image =
    match first_command exports_trie_command cmds with
    | Some (lc, off) => exports_trie_span_visit image (lc_cmd lc) off
    | None => Ok None
    end.
Proof.
  apply load_commands_find_pure_commands; unfold exports_trie_command.
  - intros [] off; (discriminate || done).
  - intros [] off; try discriminate; intros _; cbn;
      by destruct (deserialize_type_at_offset _ _ off).
Qed.

(** [dylib_install_path_for_ordinal] counts the [LC_LOAD_DYLIB] and
    [LC_REEXPORT_DYLIB] commands from one, in file order and counting nothing
    else, and reads the install name of the one with the given ordinal; the
    ordinal 0 and an ordinal past the last dependency give [None]. *)
Lemma dylib_install_path_for_ordinal_spec image cmds ordinal :
  image_commands image cmds -> 0 <= ordinal ->
  dylib_install_path_for_ordinal image ordinal =
    match (if ordinal =? 0 then None
           else commands_of is_dylib_dependency_command cmds !! Z.to_nat (ordinal - 1)) with
    | Some (_, off) => let* p := dylib_install_name_read image off in Ok (Some p)
    | None => Ok None
    end.
Proof.
  intros Hi Hord. unfold dylib_install_path_for_ordinal.
  rewrite (load_commands_find_commands _ _ _ _ Hi).
  destruct Hi as (h & Hh & _ & Hoff & Hc). apply commands_length in Hc.
  apply map_err_Ok, mach_header_ncmds in Hh; [|done]. unfold fits in Hh.
  enough (forall seen, 0 <= seen -> seen + zlen cmds < 2 ^ 32 ->
    (let* r := visit_all (install_path_visit image ordinal) cmds seen in Ok (snd r)) =
      match (if ordinal <=? seen then None
             else commands_of is_dylib_dependency_command cmds !! Z.to_nat (ordinal - seen - 1)) with
      | Some (_, off) => let* p := dylib_install_name_read image off in Ok (Some p)
      | None => Ok None
      end) as H.
  { rewrite H by len. rewrite Z.sub_0_r. destruct (Z.leb_spec ordinal 0), (Z.eqb_spec ordinal 0);
      done || lia. }
  clear Hc h Hh. induction cmds as [|[lc off] cmds IH]; intros seen Hseen Hlt.
  - cbn. by destruct (ordinal <=? seen).
  - cbn [visit_all commands_of List.filter fst]. unfold install_path_visit at 1.
    destruct (is_dylib_dependency_command (lc_cmd lc)) eqn:Ed; cbn [negb bind].
    + unfold add_w. rewrite in_range_fits by (unfold fits; len). cbn [bind].
      destruct (Z.eqb_spec (seen + 1) ordinal) as [<-|Hne].
      * rewrite (proj2 (Z.leb_gt _ _)) by lia. replace (seen + 1 - seen - 1) with 0 by lia.
        change (Z.to_nat 0) with 0%nat. cbn. by destruct (dylib_install_name_read image off).
      * cbn [bind]. rewrite IH by len. unfold commands_of.
        destruct (Z.leb_spec ordinal (seen + 1)), (Z.leb_spec ordinal seen); try done; try lia.
        replace (Z.to_nat (ordinal - seen - 1)) with (S (Z.to_nat (ordinal - (seen + 1) - 1))) by lia.
        done.
    + apply IH; [done|len].
Qed.


(** The re-exports of an image are the install names of its
    [LC_REEXPORT_DYLIB] commands in file order; one whose name cannot be read
    is left out, and the others still are collected. *)
Theorem reexported_dylib_paths_collect_spec image cmds :
  image_commands image cmds ->
  (forall lc off, (lc, off) ∈ cmds -> lc_cmd lc = LC_REEXPORT_DYLIB ->
     returns (dylib_install_name_read image off)) ->
  reexported_dylib_paths_collect image =
    Ok (omap (fun '(_, off) =>
                match dylib_install_name_read image off with Ok p => Some p | _ => None end)
          (commands_of (fun cmd => bool_decide (cmd = LC_REEXPORT_DYLIB)) cmds)).
Proof.
  intros Hi Hret. unfold reexported_dylib_paths_collect.
  rewrite (load_commands_find_commands _ _ _ _ Hi). clear Hi.
  enough (forall paths, visit_all (reexport_visit image) cmds paths = Ok (paths ++
    omap (fun '(_, off) =>
            match dylib_install_name_read image off with Ok p => Some p | _ => None end)
      (commands_of (fun cmd => bool_decide (cmd = LC_REEXPORT_DYLIB)) cmds), None)) as H.
  { by rewrite H. }
  induction cmds as [|[lc off] cmds IH]; intros paths; cbn [visit_all]; [by rewrite app_nil_r|].
  unfold reexport_visit at 1, commands_of. cbn [List.filter fst].
  assert (forall lc off, (lc, off) ∈ cmds -> lc_cmd lc = LC_REEXPORT_DYLIB ->
    returns (dylib_install_name_read image off)) as Hret'.
  { intros lc' off' Hin. apply Hret. by right. }
  specialize (IH Hret'). fold (commands_of (fun cmd => bool_decide (cmd = LC_REEXPORT_DYLIB)) cmds).
  destruct (bool_decide_reflect (lc_cmd lc = LC_REEXPORT_DYLIB)) as [Ec|Ec]; [|apply IH].
  specialize (Hret lc off ltac:(by left) Ec). cbn [omap list_omap].
  destruct (dylib_install_name_read image off); try done; cbn [bind]; rewrite IH; [|done].
  by rewrite <- app_assoc.
Qed.
End CommandLemmas.

(** ** An example image

    It loads [a], re-exports [b] and has an exports trie at offset 512. *)
#[local] Existing Instance scroll_ref.
#[local] Existing Instance dev_profile.

Definition dylib_command_bytes (cmd : Z) (path : bytes) : bytes :=
  u32le cmd ++ u32le (24 + zlen path + 1) ++ u32le 24 ++ u32le 0 ++ u32le 0 ++ u32le 0 ++ path ++ [x00].

Definition example_image_bytes : bytes :=
  example_header 6 3 ++ dylib_command_bytes 0xc (bstr "a") ++
  dylib_command_bytes 0x8000001f (bstr "b") ++
  u32le 0x80000033 ++ u32le 16 ++ u32le 512 ++ u32le 10.

Definition example_image : MachOImage := new (image_le example_image_bytes) 0.

Definition example_commands : list (load_command * Z) :=
  [(Mk_load_command LC_LOAD_DYLIB 26, 32); (Mk_load_command LC_REEXPORT_DYLIB 26, 58);
   (Mk_load_command LC_DYLD_EXPORTS_TRIE 16, 84)].

Lemma example_image_commands : image_commands example_image example_commands.
Proof.
  exists (Mk_mach_header_64 MH_MAGIC_64 CPU_TYPE_ARM64 0 MH_DYLIB 3 0 0 0).
  split; [vm_compute; reflexivity|]. split; [done|]. split; [done|].
  apply commands_list_Some. vm_compute. reflexivity.
Qed.

Example example_exports_trie_span :
  exports_trie_span_find example_image = Ok (Some (Mk_ExportsTrieSpan 512 10)).
Proof. vm_compute. reflexivity. Qed.

Example example_install_path :
  dylib_install_path_for_ordinal example_image 2 = Ok (Some (bstr "b")).
Proof. vm_compute. reflexivity. Qed.

Lemma reexported_dylib_paths_collect_spec_witness :
  image_commands example_image example_commands /\
  reexported_dylib_paths_collect example_image = Ok [bstr "b"].
Proof.
  split; [apply example_image_commands|].
  rewrite (reexported_dylib_paths_collect_spec example_image example_commands example_image_commands).
  - vm_compute. reflexivity.
  - intros lc off Hin _. assert (off = 32 \/ off = 58 \/ off = 84) as Ho.
    { unfold example_commands in Hin. rewrite !elem_of_cons, elem_of_nil in Hin.
      destruct Hin as [[= _ ->]|[[= _ ->]|[[= _ ->]|[]]]]; auto. }
    destruct Ho as [->|[->| ->]]; vm_compute; exact I.
Defined.
