(* ===== verification/ExportsTrie.v ===== *)
(** What an exports trie means, and that the walk of
    [MachOImage.exports_trie_walk_for_symbol] finds exactly that.

    A [trie] is the tree of nodes with their terminal payloads and labelled
    edges; [encoded] says, in terms of the bytes alone, that it is laid out
    from an offset of a buffer. The walk of a buffer that encodes a trie
    returns the terminal of the symbol if the trie has one and [None]
    otherwise; the visit budget, one visit per byte, never cuts such a walk
    short. On any other bytes the walk still ends and indexes nothing out of
    bounds. *)
From stdpp Require Import list_numbers.
From S2P Require Import Prelude Bindings Container Image MachOImage.

Set Warnings "-register-all".

(** ** The abstract trie *)

Inductive trie := Node (term : option ExportTerminal) (edges : list (bytes * trie)).

(** The symbols a trie exports. *)
Inductive exports : trie -> bytes -> ExportTerminal -> Prop :=
| exports_here p es : exports (Node (Some p) es) [] p
| exports_edge term es label child s p :
    (label, child) ∈ es -> exports child s p -> exports (Node term es) (label ++ s) p.

(** Labels are not empty, hold no NUL, and those of one node differ in their
    first byte, as a linker emits them. *)
Definition labels_ok (labels : list bytes) : Prop :=
  Forall (fun l => l <> [] /\ Forall (fun c => c <> x00) l) labels /\
  NoDup (head <$> labels).

Inductive trie_wf : trie -> Prop :=
| trie_wf_node term es :
    labels_ok es.*1 -> Forall (fun e => trie_wf (snd e)) es -> trie_wf (Node term es).

(** ** Its layout *)

(** [u] is an encoding of [v], canonical or padded. *)
Definition uleb_bytes (u : bytes) (v : Z) : Prop :=
  forall rest, read_uleb128 (u ++ rest) = Some (v, zlen u).

Definition payload_bytes (term : option ExportTerminal) (p : bytes) : Prop :=
  match term with
  | None => p = []
  | Some (DefinedHere offset) =>
      exists flags f o tail, p = f ++ o ++ tail /\ uleb_bytes f flags /\
        Z.land flags EXPORT_SYMBOL_FLAGS_REEXPORT = 0 /\ uleb_bytes o offset
  | Some (ReexportedFromDependency ordinal name) =>
      exists flags f o tail, p = f ++ o ++ name ++ x00 :: tail /\ uleb_bytes f flags /\
        Z.land flags EXPORT_SYMBOL_FLAGS_REEXPORT <> 0 /\ uleb_bytes o ordinal /\
        Forall (fun c => c <> x00) name
  end.

Inductive edge_bytes : list (bytes * Z) -> bytes -> Prop :=
| edge_bytes_nil : edge_bytes [] []
| edge_bytes_cons label child u ls eb :
    Forall (fun c => c <> x00) label -> uleb_bytes u child -> edge_bytes ls eb ->
    edge_bytes ((label, child) :: ls) (label ++ x00 :: u ++ eb).

(** The node at [off] has the terminal [term] and the edges [ls]: the size of
    the payload, the payload, the number of edges in one byte, the edges. *)
Definition node_at (bs : bytes) (off : Z) (term : option ExportTerminal) (ls : list (bytes * Z)) : Prop :=
  exists size payload eb rest,
    0 <= off /\
    drop (Z.to_nat off) bs = size ++ payload ++ byte_of (zlen ls) :: eb ++ rest /\
    uleb_bytes size (zlen payload) /\ payload_bytes term payload /\
    zlen ls < 256 /\ edge_bytes ls eb.

Inductive encoded (bs : bytes) : Z -> trie -> Prop :=
| encoded_node off term ls es :
    node_at bs off term ls ->
    Forall2 (fun l e => fst l = fst e /\ encoded bs (snd l) (snd e)) ls es ->
    encoded bs off (Node term es).

(** ** The lookup *)

(** The child whose label is a prefix of the suffix. *)
Definition matching_edge {A} (suffix : bytes) (es : list (bytes * A)) : option (bytes * A) :=
  List.find (fun e => negb (bool_decide (fst e = [])) && starts_with suffix (fst e)) es.

Fixpoint trie_lookup (t : trie) (s : bytes) {struct t} : option ExportTerminal :=
  match t with
  | Node term es =>
      match s, term with
      | [], Some p => Some p
      | _, _ =>
          (fix go es :=
             match es with
             | [] => None
             | (label, child) :: r =>
                 if negb (bool_decide (label = [])) && starts_with s label
                 then trie_lookup child (drop (length label) s)
                 else go r
             end) es
      end
  end.

(** The nodes on the longest path from the root. *)
Fixpoint height (t : trie) : nat :=
  match t with
  | Node _ es => S ((fix go es := match es with [] => O | (_, c) :: r => Nat.max (height c) (go r) end) es)
  end.

(** ** Induction on tries *)

Lemma trie_ind' (P : trie -> Prop) :
  (forall term es, Forall (fun e => P (snd e)) es -> P (Node term es)) -> forall t, P t.
Proof.
  intros HP. fix IH 1. intros [term es]. apply HP.
  induction es as [|[l c] es IHes]; constructor; [apply IH|apply IHes].
Qed.

Lemma trie_lookup_node term es s :
  trie_lookup (Node term es) s =
    match s, term with
    | [], Some p => Some p
    | _, _ =>
        match matching_edge s es with
        | Some (label, child) => trie_lookup child (drop (length label) s)
        | None => None
        end
    end.
Proof.
  cbn. destruct s as [|b s], term as [p|]; try done; unfold matching_edge;
    (induction es as [|[l c] es IH]; cbn; [done|]);
    destruct (negb (bool_decide (l = [])) && _); auto.
Qed.

Lemma height_child l c term es : (l, c) ∈ es -> (height c < height (Node term es))%nat.
Proof.
  cbn. induction es as [|[l' c'] es IH]; intros Hin; [by apply not_elem_of_nil in Hin|].
  apply elem_of_cons in Hin as [[= -> ->]|Hin]; [lia|]. specialize (IH Hin). lia.
Qed.

(** A node without the tallest child has height one, otherwise one more. *)
Lemma height_node term es :
  height (Node term es) = 1%nat \/
  exists l c, (l, c) ∈ es /\ height (Node term es) = S (height c).
Proof.
  cbn. induction es as [|[l c] es IH]; [by left|]. right.
  destruct IH as [IH|(l' & c' & Hin & IH)].
  - exists l, c. split; [by left|]. injection IH as ->. lia.
  - injection IH as IH. rewrite IH.
    destruct (Nat.max_spec (height c) (height c')) as [[_ ->]|[_ ->]].
    + exists l', c'. split; [by right|done].
    + exists l, c. split; [by left|done].
Qed.

(** ** The lookup finds the exports of a well-formed trie *)

Lemma matching_edge_Some {A} s (es : list (bytes * A)) l c :
  matching_edge s es = Some (l, c) -> (l, c) ∈ es /\ l <> [] /\ exists r, s = l ++ r.
Proof.
  unfold matching_edge. intros [Hin Hp]%List.find_some. cbn in Hp.
  apply andb_true_iff in Hp as [Hne Hs]. apply starts_with_spec in Hs.
  apply negb_true_iff, bool_decide_eq_false in Hne. split; [by apply list_elem_of_In|done].
Qed.

Lemma matching_edge_of {A} s (es : list (bytes * A)) l c :
  labels_ok es.*1 -> (l, c) ∈ es -> matching_edge (l ++ s) es = Some (l, c).
Proof.
  unfold labels_ok. induction es as [|[l' c'] es IH]; intros [Hf Hn] Hin;
    [by apply not_elem_of_nil in Hin|].
  unfold matching_edge. cbn [List.find fst]. cbn in Hf, Hn.
  apply Forall_cons in Hf as [[Hl' _] Hf]. apply NoDup_cons in Hn as [Hnot Hn].
  apply elem_of_cons in Hin as [[= <- <-]|Hin].
  - rewrite bool_decide_false by done. cbn.
    by rewrite (proj2 (starts_with_spec (l ++ s) l)) by eauto.
  - assert (head l <> head l') as Hh.
    { intros Eh. apply Hnot. rewrite <- Eh. apply list_elem_of_fmap. exists l. split; [done|].
      apply list_elem_of_fmap. by exists (l, c). }
    assert (l <> []) as Hl.
    { apply Forall_fmap in Hf. rewrite Forall_forall in Hf. by destruct (Hf _ Hin). }
    replace (starts_with (l ++ s) l') with false.
    + rewrite andb_false_r. by apply IH.
    + symmetry. apply not_true_iff_false. intros [r Er]%starts_with_spec. apply Hh.
      apply (f_equal head) in Er. by destruct l, l'.
Qed.

Lemma trie_lookup_exports t s p : trie_wf t -> trie_lookup t s = Some p <-> exports t s p.
Proof.
  revert s p. induction t as [term es IH] using trie_ind'. intros s p Hwf.
  inversion_clear Hwf as [? ? Hl Hc]. rewrite trie_lookup_node. split.
  - assert (forall o, match matching_edge s es with
        | Some (label, child) => trie_lookup child (drop (length label) s) | None => None end = Some o ->
      exports (Node term es) s o) as Hedge.
    { intros o. destruct (matching_edge s es) as [[l c]|] eqn:Em; [|done].
      apply matching_edge_Some in Em as (Hin & _ & r & ->).
      rewrite drop_app_length. rewrite Forall_forall in IH, Hc.
      intros Ho. econstructor; [done|]. by apply (IH _ Hin r o (Hc _ Hin)). }
    destruct s; [destruct term as [q|]|]; auto. intros [= <-]. constructor.
  - intros Hex. inversion Hex as [|? ? l c r ? Hin Hr]; subst; [done|].
    rewrite (matching_edge_of r es l c Hl Hin), drop_app_length.
    rewrite Forall_forall in IH, Hc.
    apply (IH _ Hin r p (Hc _ Hin)) in Hr. cbn in Hr. rewrite Hr.
    destruct l as [|b l]; [|done].
    destruct Hl as [Hf _]. apply Forall_fmap in Hf. rewrite Forall_forall in Hf.
    by destruct (Hf _ Hin) as [? _].
Qed.

(** ** Reading a laid-out trie *)

(** The bytes from [cur] on are [s]. *)
Definition at_cursor (bs : bytes) (cur : Z) (s : bytes) : Prop :=
  0 <= cur <= zlen bs /\ drop (Z.to_nat cur) bs = s.

Lemma at_cursor_skip bs cur a s : at_cursor bs cur (a ++ s) -> at_cursor bs (cur + zlen a) s.
Proof.
  intros [Hc Hd]. pose proof (f_equal length Hd) as Hl. split; [len|].
  replace (Z.to_nat (cur + zlen a)) with (Z.to_nat cur + length a)%nat by len.
  by rewrite <- drop_drop, Hd, drop_app_length.
Qed.

Lemma at_cursor_index {E} bs cur s : at_cursor bs cur s -> index_from bs cur = @Ok E _ s.
Proof.
  intros [Hc <-]. unfold index_from, get_from. by rewrite (proj2 (Z.leb_le _ _)) by lia.
Qed.

Lemma at_cursor_add {E} `{BuildProfile} bs cur a s :
  rust_slice bs -> at_cursor bs cur (a ++ s) ->
  @add_w E _ 64 cur (zlen a) = Ok (cur + zlen a).
Proof.
  intros Hs Hc%at_cursor_skip. destruct Hc as [Hc _]. unfold rust_slice in Hs.
  apply in_range_fits. unfold fits. len.
Qed.

Lemma at_cursor_uleb bs cur u v s :
  at_cursor bs cur (u ++ s) -> uleb_bytes u v -> read_uleb128_at bs cur = Ok (v, zlen u).
Proof.
  intros Hc Hu. unfold read_uleb128_at. rewrite (at_cursor_index _ _ _ Hc). cbn. by rewrite Hu.
Qed.

Lemma at_cursor_range {E} bs cur a s :
  at_cursor bs cur (a ++ s) -> index_range bs cur (cur + zlen a) = @Ok E _ a.
Proof.
  intros [Hc Hd]. pose proof (f_equal length Hd) as Hl. unfold index_range.
  rewrite (proj2 (Z.leb_le cur _)) by len. rewrite (proj2 (Z.leb_le _ (zlen bs))) by len.
  cbn. rewrite Hd. replace (cur + zlen a - cur) with (zlen a) by lia.
  unfold zlen. by rewrite Nat2Z.id, take_app_length.
Qed.

Lemma position_nul_app l s : Forall (fun c => c <> x00) l -> position is_nul (l ++ x00 :: s) = Some (length l).
Proof.
  intros Hl. apply position_nul. exists s. rewrite take_app_length.
  split; [done|]. split; done.
Qed.

Lemma uleb_bytes_cons u v : uleb_bytes u v -> 1 <= zlen u /\ fits 64 v.
Proof. intros Hu. specialize (Hu []). apply read_uleb128_Some in Hu. tauto. Qed.

Section Layout.
Context {bp : BuildProfile}.

(** What the parser of a node finds in a laid-out node. *)
Lemma open_node bs off term ls :
  rust_slice bs -> node_at bs off term ls ->
  exists node payload eb rest, open bs off = Ok node /\ trie_bytes node = bs /\
    at_cursor bs (terminal_payload_start_offset node) (payload ++ byte_of (zlen ls) :: eb ++ rest) /\
    at_cursor bs (child_edges_start_offset node) (byte_of (zlen ls) :: eb ++ rest) /\
    terminal_payload_size_in_bytes node = zlen payload /\
    payload_bytes term payload /\ zlen ls < 256 /\ edge_bytes ls eb.
Proof.
  intros Hs (size & payload & eb & rest & Hoff & Hd & Hu & Hp & Hn & He).
  assert (at_cursor bs off (size ++ payload ++ byte_of (zlen ls) :: eb ++ rest)) as Hc.
  { split; [|done]. pose proof (f_equal length Hd). split; [done|]. len. }
  pose proof (at_cursor_skip _ _ _ _ Hc) as Hc1. pose proof (at_cursor_skip _ _ _ _ Hc1) as Hc2.
  pose proof (uleb_bytes_cons _ _ Hu) as [Hu1 _].
  unfold open. rewrite (proj2 (Z.leb_gt (zlen bs) off)).
  2: { destruct Hc2 as [Hc2 _]. len. }
  rewrite (at_cursor_uleb _ _ _ _ _ Hc Hu). cbn [bind].
  rewrite (at_cursor_add _ _ _ _ Hs Hc). cbn [bind]. rewrite (at_cursor_add _ _ _ _ Hs Hc1). cbn [bind].
  rewrite (proj2 (Z.leb_gt (zlen bs) _)).
  2: { destruct Hc2 as [Hc2 Hd2]. apply (f_equal length) in Hd2. len. }
  eexists _, payload, eb, rest. cbn. split; [done|]. by split_and!.
Qed.

Lemma terminal_read node term p payload rest :
  rust_slice (trie_bytes node) ->
  at_cursor (trie_bytes node) (terminal_payload_start_offset node) (payload ++ rest) ->
  payload_bytes term payload -> term = Some p ->
  terminal_payload_read node = Ok p.
Proof.
  intros Hs Hc Hp ->. unfold terminal_payload_read. destruct p as [offset|ordinal nm]; cbn in Hp.
  - destruct Hp as (flags & f & o & tail & -> & Hf & Hflags & Ho).
    rewrite <- !app_assoc in Hc.
    rewrite (at_cursor_uleb _ _ _ _ _ Hc Hf). cbn [bind]. rewrite (at_cursor_add _ _ _ _ Hs Hc).
    cbn [bind]. rewrite Hflags. cbn [Z.eqb negb].
    by rewrite (at_cursor_uleb _ _ _ _ _ (at_cursor_skip _ _ _ _ Hc) Ho).
  - destruct Hp as (flags & f & o & tail & -> & Hf & Hflags & Ho & Hnm).
    rewrite <- !app_assoc in Hc. cbn in Hc.
    pose proof (at_cursor_skip _ _ _ _ Hc) as Hc1.
    pose proof (at_cursor_skip _ _ _ _ Hc1) as Hc2.
    rewrite (at_cursor_uleb _ _ _ _ _ Hc Hf). cbn [bind]. rewrite (at_cursor_add _ _ _ _ Hs Hc).
    cbn [bind]. rewrite (proj2 (Z.eqb_neq _ _) Hflags). cbn [negb].
    rewrite (at_cursor_uleb _ _ _ _ _ Hc1 Ho). cbn [bind]. rewrite (at_cursor_add _ _ _ _ Hs Hc1).
    cbn [bind]. rewrite (at_cursor_index _ _ _ Hc2). cbn [bind].
    rewrite (position_nul_app nm _ Hnm). cbn [bind ok_or].
    change (Z.of_nat (length nm)) with (zlen nm). rewrite (at_cursor_add _ _ _ _ Hs Hc2). cbn [bind].
    by rewrite (at_cursor_range _ _ _ _ Hc2).
Qed.

Lemma child_edge_loop_layout bs cur ls eb rest suffix :
  rust_slice bs -> edge_bytes ls eb -> at_cursor bs cur (eb ++ rest) ->
  child_edge_loop (length ls) bs cur suffix =
    match matching_edge suffix ls with Some e => Ok e | None => Err tt end.
Proof.
  intros Hs He. revert cur; induction He as [|l child u ls eb Hl Hu He IH]; intros cur Hc; [done|].
  cbn [length child_edge_loop].
  replace ((l ++ x00 :: u ++ eb) ++ rest) with (l ++ [x00] ++ u ++ eb ++ rest) in Hc
    by (rewrite <- app_assoc; cbn; by rewrite <- !app_assoc).
  pose proof (at_cursor_skip _ _ _ _ Hc) as Hc1. pose proof (at_cursor_skip _ _ _ _ Hc1) as Hc2.
  rewrite (at_cursor_index _ _ _ Hc). cbn [bind app].
  rewrite (position_nul_app l (u ++ eb ++ rest) Hl). cbn [bind ok_or].
  change (Z.of_nat (length l)) with (zlen l). rewrite (at_cursor_add _ _ _ _ Hs Hc). cbn [bind].
  rewrite (at_cursor_range _ _ _ _ Hc). cbn [bind].
  change 1 with (zlen [x00]) at 1. rewrite (at_cursor_add _ _ _ _ Hs Hc1). cbn [bind].
  rewrite (at_cursor_uleb _ _ _ _ _ Hc2 Hu). cbn [bind]. rewrite (at_cursor_add _ _ _ _ Hs Hc2).
  cbn [bind]. unfold matching_edge. cbn [List.find fst].
  destruct (negb (bool_decide (l = [])) && starts_with suffix l); [done|].
  apply IH. by apply at_cursor_skip.
Qed.
End Layout.

(** ** The visit budget *)

Lemma edge_bytes_unique ls ls' eb eb' r r' :
  edge_bytes ls eb -> edge_bytes ls' eb' -> eb ++ r = eb' ++ r' -> length ls = length ls' -> ls = ls'.
Proof.
  intros H; revert ls' eb'; induction H as [|l child u ls eb Hl Hu He IH]; intros ls' eb' H' Heq Hn;
    destruct H' as [|l' child' u' ls' eb' Hl' Hu' He']; try done.
  rewrite <- !app_assoc in Heq. cbn in Heq. rewrite <- !app_assoc in Heq.
  pose proof (position_nul_app l (u ++ eb ++ r) Hl) as Hp.
  rewrite Heq, position_nul_app in Hp by done. injection Hp as Hlen.
  apply app_inj_1 in Heq as [<- [= Heq]]; [|done].
  pose proof (Hu (eb ++ r)) as Hr. rewrite Heq, Hu' in Hr. injection Hr as <- Hlu.
  apply app_inj_1 in Heq as [<- Heq]; [|unfold zlen in Hlu; lia].
  f_equal. eapply IH; [done|done|]. by injection Hn.
Qed.

(** The bytes determine the edges of the node at an offset. *)
Lemma node_at_unique bs off term ls term' ls' :
  rust_slice bs -> node_at bs off term ls -> node_at bs off term' ls' -> ls = ls'.
Proof.
  intros Hs H H'.
  destruct (open_node (bp := dev_profile) _ _ _ _ Hs H) as (node & p & eb & r & Ho & _ & _ & [_ Hc] & _ & _ & Hn & He).
  destruct (open_node (bp := dev_profile) _ _ _ _ Hs H') as (node' & p' & eb' & r' & Ho' & _ & _ & [_ Hc'] & _ & _ & Hn' & He').
  rewrite Ho in Ho'. injection Ho' as <-. rewrite Hc in Hc'. injection Hc' as Hb Heq.
  apply (f_equal u8) in Hb. rewrite !u8_byte_of, !Z.mod_small in Hb by len.
  eapply edge_bytes_unique; [done|done|done|len].
Qed.

Lemma height_Forall2 term term' es es' :
  Forall2 (fun e e' : bytes * trie => height (snd e) = height (snd e')) es es' ->
  height (Node term es) = height (Node term' es').
Proof.
  intros H. cbn. induction H as [|[l c] [l' c'] es es' He _ IH]; cbn in *; [done|].
  injection IH as ->. by rewrite He.
Qed.

Lemma encoded_height bs off t t' :
  rust_slice bs -> encoded bs off t -> encoded bs off t' -> height t = height t'.
Proof.
  intros Hs. revert off t'. induction t as [term es IH] using trie_ind'. intros off [term' es'] H H'.
  inversion H as [? ? ls ? Hn Hf]; inversion H' as [? ? ls' ? Hn' Hf']; subst.
  assert (ls = ls') as <- by (eapply node_at_unique; eauto). clear Hn Hn' H H'.
  apply (height_Forall2 term term'). revert es' Hf'.
  induction Hf as [|[l o] [l2 c] ls es [_ Hc] _ IHf]; intros es' Hf'; inversion Hf' as [|? [l3 c'] ? ? [_ Hc']];
    subst; constructor; cbn in *.
  - apply Forall_cons in IH as [IH _]. eapply IH; eauto.
  - apply Forall_cons in IH as [_ IH]. auto.
Qed.

(** Along a path the heights shrink, so the offsets differ, and there are no
    more of them than bytes. *)
Lemma encoded_path bs off t :
  rust_slice bs -> encoded bs off t ->
  exists offs, length offs = height t /\ NoDup offs /\
    Forall (fun o => 0 <= o < zlen bs /\ exists t', encoded bs o t' /\ (height t' <= height t)%nat) offs.
Proof.
  intros Hs. revert off. induction t as [term es IH] using trie_ind'. intros off H.
  inversion H as [? ? ls ? Hn Hf]; subst.
  assert (0 <= off < zlen bs) as Hoff.
  { destruct Hn as (size & p & eb & r & Hoff & Hd & _). apply (f_equal length) in Hd. len. }
  destruct (height_node term es) as [Hh|(l & c & Hin & Hh)]; rewrite Hh.
  { exists [off]. split; [done|]. split; [apply NoDup_singleton|].
    constructor; [|constructor]. split; [done|]. exists (Node term es). by rewrite Hh. }
  rewrite Forall_forall in IH.
  assert (exists o, encoded bs o c) as [o Ho].
  { apply list_elem_of_lookup_1 in Hin as [i Hi].
    destruct (Forall2_lookup_r _ _ _ _ _ Hf Hi) as ([l' o] & _ & _ & Hc). eauto. }
  destruct (IH _ Hin o Ho) as (offs & Hl & Hnd & Hall). cbn in Hl, Hall.
  exists (off :: offs). split; [cbn; by rewrite Hl|]. split.
  - constructor; [|done]. intros Hoffs. rewrite Forall_forall in Hall.
    destruct (Hall _ Hoffs) as (_ & t' & Ht' & Hle).
    pose proof (encoded_height _ _ _ _ Hs H Ht'). lia.
  - constructor.
    + split; [done|]. exists (Node term es). by rewrite Hh.
    + eapply Forall_impl; [done|]. intros o' (? & t' & ? & ?). eauto 6 with lia.
Qed.

Lemma encoded_height_le bs off t : rust_slice bs -> encoded bs off t -> (height t <= length bs)%nat.
Proof.
  intros Hs He. destruct (encoded_path _ _ _ Hs He) as (offs & <- & Hnd & Hall).
  assert (offs ⊆+ seqZ 0 (zlen bs)) as Hsub.
  { apply NoDup_submseteq; [done|]. intros o Ho. rewrite Forall_forall in Hall.
    destruct (Hall _ Ho) as [? _]. apply elem_of_seqZ. lia. }
  apply submseteq_length in Hsub. rewrite length_seqZ in Hsub. len.
Qed.

(** ** The walk *)

Section Walk.
Context {bp : BuildProfile}.

Lemma matching_edge_Forall2 {A B} (R : A -> B -> Prop) s (ls : list (bytes * A)) (es : list (bytes * B)) :
  Forall2 (fun l e => fst l = fst e /\ R (snd l) (snd e)) ls es ->
  match matching_edge s ls, matching_edge s es with
  | Some (l, a), Some (l', b) => l = l' /\ R a b
  | None, None => True
  | _, _ => False
  end.
Proof.
  unfold matching_edge.
  induction 1 as [|[l a] [l' b] ls es [Hl Hr] _ IH]; cbn in *; [done|]. subst l'.
  by destruct (negb (bool_decide (l = [])) && starts_with s l).
Qed.

Lemma payload_nonempty term p : payload_bytes term p -> (0 <? zlen p) = bool_decide (is_Some term).
Proof.
  destruct term as [[o|o nm]|]; cbn.
  - intros (? & f & ? & ? & -> & Hf & _). apply uleb_bytes_cons in Hf as [? _].
    apply Z.ltb_lt. len.
  - intros (? & f & ? & ? & -> & Hf & _). apply uleb_bytes_cons in Hf as [? _].
    apply Z.ltb_lt. len.
  - by intros ->.
Qed.

Lemma trie_walk_lookup bs off t budget s :
  rust_slice bs -> encoded bs off t -> (height t <= budget)%nat ->
  trie_walk_loop budget bs off s = ok_or tt (trie_lookup t s).
Proof.
  intros Hs. revert off budget s. induction t as [term es IH] using trie_ind'.
  intros off budget s H Hb. inversion H as [? ? ls ? Hn Hf]; subst.
  destruct budget as [|k]; [cbn in Hb; lia|]. cbn [trie_walk_loop].
  destruct (open_node _ _ _ _ Hs Hn) as (node & p & eb & r & -> & Hbs & Hct & Hce & Hsz & Hp & Hlen & Heb).
  cbn [bind]. unfold has_terminal_payload. rewrite Hsz, (payload_nonempty _ _ Hp), trie_lookup_node.
  assert (s = [] /\ is_Some term \/ ((bool_decide (s = []) && bool_decide (is_Some term)) = false /\
    forall x, match s, term with [], Some p => Some p | _, _ => x end = x)) as [[-> [q ->]]|[-> ->]].
  { destruct s, term; cbn; eauto. }
  { rewrite <- Hbs in Hs, Hct. rewrite bool_decide_true by eauto. cbn.
    by apply (terminal_read node (Some q) q p _ Hs Hct Hp). }
  unfold child_edge_matching_prefix_find, index_at. rewrite Hbs.
  pose proof (at_cursor_skip bs _ [byte_of (zlen ls)] _ Hce) as Hce'.
  pose proof (at_cursor_add (E := unit) bs _ [byte_of (zlen ls)] _ Hs Hce) as Hadd.
  destruct Hce as [Hr Hd]. rewrite (proj2 (Z.leb_le 0 _)) by lia.
  apply (f_equal (lookup 0%nat)) in Hd. rewrite lookup_drop, Nat.add_0_r in Hd.
  rewrite Hd. cbn [or_panic bind lookup list_lookup]. change (zlen [_]) with 1 in Hadd, Hce'.
  rewrite Hadd. cbn [bind]. rewrite u8_byte_of, Z.mod_small by len.
  replace (Z.to_nat (zlen ls)) with (length ls) by len.
  rewrite (child_edge_loop_layout bs _ ls eb r s Hs Heb Hce').
  pose proof (matching_edge_Forall2 _ s _ _ Hf) as Hm.
  destruct (matching_edge s ls) as [[l o]|], (matching_edge s es) as [[l' c]|] eqn:Em; try done.
  destruct Hm as [<- Hc]. apply matching_edge_Some in Em as (Hin & _ & rest & ->). cbn [bind].
  rewrite (at_cursor_index (l ++ rest) (zlen l) rest).
  2: { unfold at_cursor, zlen. rewrite Nat2Z.id, drop_app_length. split; [len|done]. }
  cbn [bind]. rewrite drop_app_length. rewrite Forall_forall in IH.
  apply (IH _ Hin); [done|]. cbn [snd]. pose proof (height_child l c term es Hin). lia.
Qed.

(** C6 On the bytes of a well-formed exports trie, however its nodes are laid
    out and its numbers padded, the walk returns a terminal for a symbol
    exactly when the trie exports the symbol with that terminal, re-exports
    with their ordinal and alias included, and returns [None] otherwise. It
    does not panic and its budget of one visit per byte is never what ends
    it. *)
Theorem exports_trie_walk_spec bs t symbol :
  rust_slice bs -> encoded bs 0 t -> trie_wf t ->
  (forall p, exports_trie_walk_for_symbol bs symbol = Ok p <-> exports t symbol p) /\
  (exports_trie_walk_for_symbol bs symbol = Err tt <-> forall p, ~ exports t symbol p).
Proof.
  intros Hs He Hwf. unfold exports_trie_walk_for_symbol.
  rewrite (trie_walk_lookup bs 0 t (length bs) symbol Hs He (encoded_height_le _ _ _ Hs He)).
  pose proof (fun p => trie_lookup_exports t symbol p Hwf) as Hl.
  destruct (trie_lookup t symbol) as [q|]; cbn; (split; [intros p; rewrite <- Hl; split; congruence|]).
  - split; [done|]. intros Hn. by destruct (Hn q (proj1 (Hl q) eq_refl)).
  - split; [|done]. intros _ p Hp%Hl. done.
Qed.
End Walk.

(** ** The walk on arbitrary bytes *)

Section Arbitrary.
Context {bp : BuildProfile}.

(** The call returned, or overflow checks are on and an addition overflowed. *)
Definition only_overflow {E A} (m : outcome E A) : Prop :=
  returns m \/ (overflow_checks = true /\ m = Panic "attempt to add with overflow").

Lemma only_overflow_bind {E A B} (m : outcome E A) (f : A -> outcome E B) :
  only_overflow m -> (forall a, m = Ok a -> only_overflow (f a)) -> only_overflow (bind m f).
Proof.
  intros [Hm|[? ->]] Hf; [|by right]. destruct m; try done; [by apply Hf|by left].
Qed.

Lemma only_overflow_ok_or {A} (o : option A) : only_overflow (ok_or tt o).
Proof. left. by destruct o. Qed.

Lemma only_overflow_add {E} a b : only_overflow (@add_w E bp 64 a b).
Proof.
  unfold only_overflow, add_w, in_range. destruct (fitsb 64 _); [by left|].
  destruct overflow_checks; [right|left]; done.
Qed.

Lemma index_from_within {E} s cur : 0 <= cur <= zlen s -> index_from s cur = @Ok E _ (drop (Z.to_nat cur) s).
Proof. intros H. by apply at_cursor_index. Qed.

(** Reading a number inside the buffer leaves the cursor inside it, and the
    addition that moves it does not overflow. *)
Lemma read_uleb128_at_within bs cur :
  rust_slice bs -> 0 <= cur <= zlen bs ->
  read_uleb128_at bs cur = Err tt \/
  exists v n, read_uleb128_at bs cur = Ok (v, n) /\ fits 64 v /\ 0 <= cur + n <= zlen bs /\ 1 <= n /\
    forall E, @add_w E bp 64 cur n = Ok (cur + n).
Proof.
  intros Hs Hc. unfold read_uleb128_at. rewrite index_from_within by done. cbn.
  destruct (read_uleb128 _) as [[v n]|] eqn:Eu; cbn; [right|by left].
  apply read_uleb128_Some in Eu as (Hv & Hn & _). exists v, n.
  assert (0 <= cur + n <= zlen bs) by len. split_and!; try done; try lia.
  intros E. apply in_range_fits. unfold rust_slice, fits in *. lia.
Qed.

Lemma open_only_overflow bs off :
  rust_slice bs -> 0 <= off ->
  only_overflow (open bs off) /\
  forall node, open bs off = Ok node -> trie_bytes node = bs /\
    0 <= terminal_payload_start_offset node <= zlen bs /\ 0 <= child_edges_start_offset node < zlen bs.
Proof.
  intros Hs Hoff. unfold open. destruct (Z.leb_spec (zlen bs) off); [split; [by left|done]|].
  destruct (read_uleb128_at_within bs off Hs) as [->|(v & n & -> & Hv & Hc & _ & Hadd)]; [lia|split; [by left|done]|].
  cbn [bind]. rewrite Hadd. cbn [bind]. split.
  - apply only_overflow_bind; [apply only_overflow_add|]. intros e _. left.
    by destruct (zlen bs <=? e).
  - intros node Hn. apply bind_Ok in Hn as (e & He%in_range_Ok & Hn); [|lia].
    destruct (Z.leb_spec (zlen bs) e); [done|]. injection Hn as <-. cbn.
    destruct He as [[? ?] _]. split_and!; (done || lia).
Qed.

Lemma terminal_payload_read_returns node :
  rust_slice (trie_bytes node) ->
  0 <= terminal_payload_start_offset node <= zlen (trie_bytes node) ->
  returns (terminal_payload_read node).
Proof.
  intros Hs Hc. unfold terminal_payload_read.
  destruct (read_uleb128_at_within _ _ Hs Hc) as [->|(f & n & -> & _ & Hc1 & _ & Hadd)]; [done|].
  cbn [bind]. rewrite Hadd. cbn [bind].
  destruct (read_uleb128_at_within _ _ Hs Hc1) as [->|(v & k & -> & _ & Hc2 & _ & Hadd2)];
    destruct (negb _); try done.
  cbn [bind]. rewrite Hadd2. cbn [bind]. rewrite index_from_within by done. cbn [bind].
  destruct (position is_nul _) as [p|] eqn:Ep; [|done]. apply position_lt in Ep. cbn [bind ok_or].
  rewrite length_drop in Ep. unfold add_w, rust_slice, index_range in *.
  rewrite in_range_fits by (unfold fits; len). cbn [bind].
  by rewrite (proj2 (Z.leb_le _ _)), (proj2 (Z.leb_le _ (zlen _))) by len.
Qed.

Lemma child_edge_loop_returns n bs cur suffix :
  rust_slice bs -> 0 <= cur <= zlen bs ->
  returns (child_edge_loop n bs cur suffix) /\
  forall l o, child_edge_loop n bs cur suffix = Ok (l, o) -> fits 64 o /\ exists r, suffix = l ++ r.
Proof.
  intros Hs. revert cur; induction n as [|n IH]; intros cur Hc; [done|].
  cbn [child_edge_loop]. rewrite index_from_within by done. cbn [bind].
  destruct (position is_nul _) as [p|] eqn:Ep; [|done]. apply position_lt in Ep. cbn [bind ok_or].
  rewrite length_drop in Ep.
  assert (forall E, @add_w E bp 64 cur (Z.of_nat p) = Ok (cur + Z.of_nat p)) as ->
    by (intros E; apply in_range_fits; unfold fits, rust_slice in *; len).
  cbn [bind]. unfold index_range.
  rewrite (proj2 (Z.leb_le cur _)), (proj2 (Z.leb_le _ (zlen bs))) by len. cbn [bind andb].
  assert (@add_w unit bp 64 (cur + Z.of_nat p) 1 = Ok (cur + Z.of_nat p + 1)) as ->
    by (apply in_range_fits; unfold fits, rust_slice in *; len).
  cbn [bind].
  destruct (read_uleb128_at_within bs (cur + Z.of_nat p + 1) Hs) as [->|(v & k & -> & Hv & Hc2 & _ & Hadd)];
    [len|done|]. cbn [bind]. rewrite Hadd. cbn [bind].
  destruct (_ && starts_with suffix _) eqn:Em; [|by apply IH].
  split; [done|]. intros l o [= <- <-]. split; [done|].
  apply andb_true_iff in Em as [_ Hst]. by apply starts_with_spec.
Qed.

(** C24 On any bytes whatsoever the walk ends with a terminal or [None]: no
    index leaves the buffer, hostile offsets and cycles included. The one
    exception is the dev profile, whose overflow checks can fire on the
    addition of a node's payload size; the release profile never panics. *)
Theorem exports_trie_walk_total bs symbol :
  rust_slice bs ->
  returns (exports_trie_walk_for_symbol bs symbol) \/
  (overflow_checks = true /\
   exports_trie_walk_for_symbol bs symbol = Panic "attempt to add with overflow").
Proof.
  intros Hs. unfold exports_trie_walk_for_symbol.
  enough (forall budget off s, 0 <= off -> only_overflow (trie_walk_loop budget bs off s)) as H
    by (by apply H).
  induction budget as [|k IH]; intros off s Hoff; cbn [trie_walk_loop]; [by left|].
  destruct (open_only_overflow bs off Hs Hoff) as [Ho Hn].
  apply only_overflow_bind; [done|]. intros node (Hb & Ht & Hc)%Hn.
  destruct (_ && has_terminal_payload node).
  { left. apply terminal_payload_read_returns; by rewrite Hb. }
  unfold child_edge_matching_prefix_find. rewrite Hb. unfold index_at.
  rewrite (proj2 (Z.leb_le 0 _)) by lia.
  destruct (lookup_lt_is_Some_2 bs (Z.to_nat (child_edges_start_offset node))) as [c ->]; [len|].
  cbn [or_panic bind]. unfold add_w. rewrite in_range_fits by (unfold rust_slice, fits in *; lia).
  cbn [bind].
  destruct (child_edge_loop_returns (Z.to_nat (u8 c)) bs (child_edges_start_offset node + 1) s Hs)
    as [Hr Hl]; [lia|].
  apply only_overflow_bind; [by left|]. intros [l o] [Hf [r ->]]%Hl.
  rewrite index_from_within by len. cbn [bind]. apply IH. unfold fits in Hf. lia.
Qed.
End Arbitrary.

(** ** A concrete trie *)

(** A root with the edge [_f] to a node that exports offset 16. *)
Definition example_trie : trie := Node None [(bstr "_f", Node (Some (DefinedHere 16)) [])].
Definition example_trie_bytes : bytes := [x00; x01; x5f; x66; x00; x06; x02; x00; x10; x00].

Lemma example_trie_encoded : encoded example_trie_bytes 0 example_trie.
Proof.
  apply (encoded_node _ _ _ [(bstr "_f", 6)]).
  - exists [x00], [], [x5f; x66; x00; x06], [x02; x00; x10; x00]. split_and!; try done.
    apply (edge_bytes_cons (bstr "_f") 6 [x06] [] []); [by repeat constructor|done|constructor].
  - constructor; [|constructor]. split; [done|].
    apply (encoded_node _ _ _ []); [|constructor].
    exists [x02], [x00; x10], [], []. split_and!; try done; [|constructor].
    exists 0, [x00], [x10], []. done.
Qed.

Lemma example_trie_wf : trie_wf example_trie.
Proof.
  constructor.
  - split; [by repeat constructor|apply NoDup_singleton].
  - repeat constructor; apply NoDup_nil_2 || done.
Qed.

Lemma exports_trie_walk_spec_witness :
  encoded example_trie_bytes 0 example_trie /\ trie_wf example_trie /\
  (forall p, exports_trie_walk_for_symbol (bp := dev_profile) example_trie_bytes (bstr "_f") = Ok p <->
     exports example_trie (bstr "_f") p) /\
  (exports_trie_walk_for_symbol (bp := dev_profile) example_trie_bytes (bstr "_f") = Err tt <->
     forall p, ~ exports example_trie (bstr "_f") p).
Proof.
  split; [apply example_trie_encoded|]. split; [apply example_trie_wf|].
  apply (@exports_trie_walk_spec dev_profile example_trie_bytes example_trie (bstr "_f"));
    [done|apply example_trie_encoded|apply example_trie_wf].
Defined.

Example walk_example :
  exports_trie_walk_for_symbol (bp := dev_profile) example_trie_bytes (bstr "_f") = Ok (DefinedHere 16).
Proof. vm_compute. reflexivity. Qed.

(** A payload size of 2^64 - 1 makes the dev profile panic; in the release
    profile the sum wraps. *)
Definition hostile_size : bytes := repeat xff 9 ++ [x01; x00].

Lemma exports_trie_walk_total_witness :
  rust_slice hostile_size /\
  (returns (exports_trie_walk_for_symbol (bp := dev_profile) hostile_size (bstr "_f")) \/
   (overflow_checks (BuildProfile := dev_profile) = true /\
    exports_trie_walk_for_symbol (bp := dev_profile) hostile_size (bstr "_f") =
      Panic "attempt to add with overflow")).
Proof. split; [done|]. by apply (@exports_trie_walk_total dev_profile hostile_size (bstr "_f")). Defined.

Example hostile_size_dev :
  exports_trie_walk_for_symbol (bp := dev_profile) hostile_size (bstr "_f") =
    Panic "attempt to add with overflow" /\
  exports_trie_walk_for_symbol (bp := release_profile) hostile_size (bstr "_f") = Err tt.
Proof. vm_compute. done. Qed.
