(* ===== verification/Dylib.v ===== *)
(** Symbol lookup in one dylib and across re-exports: [src/dylib.rs].

    [dylib_symbol_resolve] is shown to answer from the abstract trie the dylib
    encodes, and [dylib_symbol_resolve_following_reexports] to follow exactly
    the chains of re-exports of at most sixteen dylibs, cycles included. *)
From S2P Require Import Prelude Scroll Bindings Container Image MachOImage ExportsTrie.

Inductive DylibSymbol :=
| Defined_ (offset_from_mach_header : Z)
| Reexported (target_install_path target_symbol : bytes).

Section Resolve.
Context {sc : Scroll} {bp : BuildProfile}.

Definition dylib_symbol_resolve (c : Container) (symbol : bytes) : result (option DylibSymbol) :=
  let image := new c 0 in
  let* span := exports_trie_span_find image in
  match span with
  | None => Ok None
  | Some span =>
      match container_slice c (span_file_offset span) (span_size_in_bytes span) with
      | None => Ok None
      | Some trie =>
          let* terminal := as_option (exports_trie_walk_for_symbol (s_bytes trie) symbol) in
          match terminal with
          | None => Ok None
          | Some (DefinedHere offset) => Ok (Some (Defined_ offset))
          | Some (ReexportedFromDependency ordinal aliased_name) =>
              let* target_install_path := dylib_install_path_for_ordinal image ordinal in
              match target_install_path with
              | None => Ok None
              | Some target_install_path =>
                  let target_symbol := if bool_decide (aliased_name = []) then symbol else aliased_name in
                  Ok (Some (Reexported target_install_path target_symbol))
              end
          end
      end
  end.

Lemma dylib_symbol_resolve_ends c symbol : ends (dylib_symbol_resolve c symbol).
Proof. unfold dylib_symbol_resolve. solve_ends. Qed.

(** [library_lookup], a closure that only reads what it captures *)
Section Following.
Context (library_lookup : bytes -> option Container).

Fixpoint following_reexports_loop (n : nat) (current_container : Container)
    (current_symbol current_path : bytes) : result (option (bytes * Z)) :=
  match n with
  | O => Ok None
  | S m =>
      let* r := dylib_symbol_resolve current_container current_symbol in
      match r with
      | None => Ok None
      | Some (Defined_ offset) => Ok (Some (current_path, offset))
      | Some (Reexported target_install_path target_symbol) =>
          match library_lookup target_install_path with
          | None => Ok None
          | Some next => following_reexports_loop m next target_symbol target_install_path
          end
      end
  end.

Definition dylib_symbol_resolve_following_reexports (c : Container) (symbol : bytes)
    : result (option (bytes * Z)) :=
  following_reexports_loop MAX_REEXPORT_RESOLUTION_DEPTH c symbol [].

(** ** What re-exports mean *)

(** Looking [symbol] up in [c], known by [path], ends after [n] lookups at the
    definition at [offset] of the library [final]. *)
Inductive resolves : nat -> Container -> bytes -> bytes -> bytes -> Z -> Prop :=
| resolves_here c symbol path offset :
    dylib_symbol_resolve c symbol = Ok (Some (Defined_ offset)) ->
    resolves 1 c symbol path path offset
| resolves_reexport n c symbol path target_path target_symbol next final offset :
    dylib_symbol_resolve c symbol = Ok (Some (Reexported target_path target_symbol)) ->
    library_lookup target_path = Some next ->
    resolves n next target_symbol target_path final offset ->
    resolves (S n) c symbol path final offset.

Lemma following_loop_resolves m c symbol path final offset :
  following_reexports_loop m c symbol path = Ok (Some (final, offset)) <->
  exists n, (n <= m)%nat /\ resolves n c symbol path final offset.
Proof.
  revert c symbol path; induction m as [|m IH]; intros c symbol path; cbn.
  { split; [done|]. intros (n & Hn & H). destruct H; lia. }
  split.
  - intros H. inv_ok. destruct x as [[o|tp ts]|]; try done.
    + injection H as <- <-. exists 1%nat. split; [lia|]. by constructor.
    + destruct (library_lookup tp) as [next|] eqn:El; [|done].
      apply IH in H as (n & Hn & H). exists (S n). split; [lia|]. by econstructor.
  - intros (n & Hn & H). destruct H as [c symbol path o Hd|n c symbol path tp ts next fin o Hd Hl Hr].
    + by rewrite Hd.
    + rewrite Hd. cbn. rewrite Hl. apply IH. exists n. split; [lia|done].
Qed.

(** A lookup that never leaves a set of re-exporting symbols, a cycle for
    instance, has no definition. *)
Lemma resolves_not_in_cycle (P : Container -> bytes -> Prop) :
  (forall c symbol, P c symbol -> exists tp ts next,
     dylib_symbol_resolve c symbol = Ok (Some (Reexported tp ts)) /\
     library_lookup tp = Some next /\ P next ts) ->
  forall n c symbol path final offset, P c symbol -> ~ resolves n c symbol path final offset.
Proof.
  intros Hstep n c symbol path final offset HP H. induction H as [c symbol path o Hd|n c symbol path tp ts next fin o Hd Hl _ IH].
  - destruct (Hstep _ _ HP) as (? & ? & ? & ? & _). congruence.
  - destruct (Hstep _ _ HP) as (tp' & ts' & next' & Hd' & Hl' & HP'). apply IH. congruence.
Qed.

Lemma following_loop_cycle (P : Container -> bytes -> Prop) :
  (forall c symbol, P c symbol -> exists tp ts next,
     dylib_symbol_resolve c symbol = Ok (Some (Reexported tp ts)) /\
     library_lookup tp = Some next /\ P next ts) ->
  forall m c symbol path, P c symbol -> following_reexports_loop m c symbol path = Ok None.
Proof.
  intros Hstep. induction m as [|m IH]; intros c symbol path HP; [done|]. cbn.
  destruct (Hstep _ _ HP) as (tp & ts & next & -> & Hl & HP'). cbn. rewrite Hl. by apply IH.
Qed.

(** C28 Following re-exports finds a definition exactly when a chain of at most
    sixteen lookups leads to one, and reports the install path of the last
    library of the chain (empty when the symbol is defined in the first) with
    the definition's offset. A lookup caught in a cycle of re-exports
    terminates with no result. *)
Theorem following_reexports_spec c symbol :
  (forall final offset,
     dylib_symbol_resolve_following_reexports c symbol = Ok (Some (final, offset)) <->
     exists n, (n <= 16)%nat /\ resolves n c symbol [] final offset) /\
  (forall P : Container -> bytes -> Prop, P c symbol ->
     (forall c symbol, P c symbol -> exists tp ts next,
        dylib_symbol_resolve c symbol = Ok (Some (Reexported tp ts)) /\
        library_lookup tp = Some next /\ P next ts) ->
     dylib_symbol_resolve_following_reexports c symbol = Ok None).
Proof.
  split.
  - intros final offset. apply following_loop_resolves.
  - intros P HP Hstep. by apply (following_loop_cycle P Hstep).
Qed.
End Following.
End Resolve.

(** ** Resolution against the abstract trie *)

Section Spec.
Context `{SL : ScrollLaws} {bp : BuildProfile}.

(** The bytes of [c] are an image with the commands [cmds] whose exports trie
    is [t]. *)
Record dylib_image (c : Container) (cmds : list (load_command * Z)) (t : trie) : Prop := {
  dylib_commands : image_commands (new c 0) cmds;
  dylib_trie : exists lc off span s,
    first_command exports_trie_command cmds = Some (lc, off) /\
    exports_trie_span_visit (new c 0) (lc_cmd lc) off = Ok (Some span) /\
    container_slice c (span_file_offset span) (span_size_in_bytes span) = Some s /\
    rust_slice (s_bytes s) /\ encoded (s_bytes s) 0 t;
  dylib_trie_wf : trie_wf t
}.

(** The commands that number the libraries of an image, from one, as
    [src/bindings_macho.rs] lists them at [get_library_ordinal] *)
Definition is_library_command (cmd : load_command_variants) : bool :=
  match cmd with
  | LC_LOAD_DYLIB | LC_LOAD_WEAK_DYLIB | LC_REEXPORT_DYLIB | LC_LOAD_UPWARD_DYLIB | LC_LAZY_LOAD_DYLIB => true
  | _ => false
  end.

(** The image loads no library weakly, upward or lazily: the code does not
    number those. *)
Definition plain_libraries (cmds : list (load_command * Z)) : Prop :=
  Forall (fun x => is_library_command (lc_cmd (fst x)) = true -> is_dylib_dependency_command (lc_cmd (fst x)) = true) cmds.

Lemma plain_libraries_commands cmds :
  plain_libraries cmds -> commands_of is_library_command cmds = commands_of is_dylib_dependency_command cmds.
Proof.
  unfold commands_of. induction 1 as [|[lc off] cmds Hx _ IH]; [done|]. cbn [List.filter fst] in *. rewrite IH.
  by destruct (lc_cmd lc); cbn in *; try specialize (Hx eq_refl).
Qed.

(** What a terminal of the trie means for the symbol that reaches it, where the
    libraries are numbered by the commands [numbered] accepts *)
Definition terminal_symbol_in (numbered : load_command_variants -> bool) (c : Container) (cmds : list (load_command * Z)) (symbol : bytes)
    (p : ExportTerminal) : result (option DylibSymbol) :=
  match p with
  | DefinedHere offset => Ok (Some (Defined_ offset))
  | ReexportedFromDependency ordinal alias =>
      match (if ordinal =? 0 then None
             else commands_of numbered cmds !! Z.to_nat (ordinal - 1)) with
      | None => Ok None
      | Some (_, off) =>
          let* path := dylib_install_name_read (new c 0) off in
          Ok (Some (Reexported path (if bool_decide (alias = []) then symbol else alias)))
      end
  end.

Definition terminal_symbol : Container -> list (load_command * Z) -> bytes -> ExportTerminal -> result (option DylibSymbol) :=
  terminal_symbol_in is_library_command.

Lemma terminal_symbol_plain c cmds symbol p :
  plain_libraries cmds -> terminal_symbol_in is_dylib_dependency_command c cmds symbol p = terminal_symbol c cmds symbol p.
Proof. intros Hc. destruct p; [done|]. unfold terminal_symbol. cbn. by rewrite (plain_libraries_commands _ Hc). Qed.

Lemma dylib_trie_ordinals bs off t symbol ordinal alias :
  rust_slice bs -> encoded bs off t -> trie_lookup t symbol = Some (ReexportedFromDependency ordinal alias) ->
  0 <= ordinal.
Proof.
  intros Hs. revert off symbol. induction t as [term es IH] using trie_ind'.
  intros off symbol H. rewrite trie_lookup_node. inversion H as [? ? ls ? Hn Hf]; subst.
  assert (match matching_edge symbol es with
     | Some (label, child) => trie_lookup child (drop (length label) symbol) | None => None end =
       Some (ReexportedFromDependency ordinal alias) -> 0 <= ordinal) as Hedge.
  { destruct (matching_edge symbol es) as [[l c]|] eqn:Em; [|done].
    apply matching_edge_Some in Em as (Hin & _). rewrite Forall_forall in IH.
    apply list_elem_of_lookup_1 in Hin as Hin'. destruct Hin' as [i Hi].
    destruct (Forall2_lookup_r _ _ _ _ _ Hf Hi) as ([l' o] & _ & _ & Hc). eapply (IH _ Hin); eauto. }
  destruct symbol, term as [p|]; auto. intros [= ->].
  destruct Hn as (? & ? & ? & ? & _ & _ & _ & (? & ? & ? & ? & _ & _ & _ & Ho & _) & _).
  apply uleb_bytes_cons in Ho as [_ [? _]]. done.
Qed.

Lemma dylib_symbol_lookup c cmds t symbol :
  dylib_image c cmds t ->
  dylib_symbol_resolve c symbol =
    match trie_lookup t symbol with
    | Some p => terminal_symbol_in is_dylib_dependency_command c cmds symbol p
    | None => Ok None
    end.
Proof.
  intros [Hi (lc & off & span & s & Hf & Hv & Hsl & Hs & He) Hwf].
  pose proof (dylib_trie_ordinals (s_bytes s) 0 t symbol) as Hord.
  unfold dylib_symbol_resolve.
  rewrite (exports_trie_span_find_spec _ _ Hi), Hf, Hv. cbn [bind]. rewrite Hsl.
  unfold exports_trie_walk_for_symbol.
  rewrite (trie_walk_lookup _ _ t _ _ Hs He (encoded_height_le _ _ _ Hs He)).
  destruct (trie_lookup t symbol) as [[o|ordinal alias]|]; cbn; try done.
  rewrite (dylib_install_path_for_ordinal_spec _ _ _ Hi (Hord _ _ Hs He eq_refl)).
  destruct (ordinal =? 0); [done|]. destruct (commands_of _ _ !! _) as [[lc' off']|]; [|done].
  by destruct (dylib_install_name_read (new c 0) off').
Qed.

(** C18 Looking a symbol up in a dylib gives what its exports trie says: the
    offset of a symbol it defines; for a re-exported one the install name of
    the library with that ordinal, and the alias or, when there is none,
    the symbol's own name; and [None] for any other symbol and for an ordinal
    no library has. Libraries are numbered by the documented list of commands,
    of which the dylib uses those the code knows ([plain_libraries]). *)
Theorem dylib_symbol_resolve_spec c cmds t symbol :
  dylib_image c cmds t -> plain_libraries cmds ->
  (forall p, exports t symbol p ->
     dylib_symbol_resolve c symbol = terminal_symbol c cmds symbol p) /\
  ((forall p, ~ exports t symbol p) -> dylib_symbol_resolve c symbol = Ok None).
Proof.
  intros Hi Hc. rewrite (dylib_symbol_lookup c cmds t symbol Hi).
  pose proof (fun p => trie_lookup_exports t symbol p (dylib_trie_wf _ _ _ Hi)) as Hl.
  split; [intros p Hp%Hl; rewrite Hp; by apply terminal_symbol_plain|]. intros Hn.
  destruct (trie_lookup t symbol) as [p|]; [|done]. by destruct (Hn p (proj1 (Hl p) eq_refl)).
Qed.
End Spec.

(** ** An example dylib: the image of [MachOImage] with the trie of
    [ExportsTrie] *)
#[local] Existing Instance scroll_ref.
#[local] Existing Instance dev_profile.

Definition example_dylib : Container :=
  image_le (example_image_bytes ++ replicate (512 - length example_image_bytes) x00 ++ example_trie_bytes).

Lemma example_dylib_image : dylib_image example_dylib example_commands example_trie.
Proof.
  constructor.
  - exists (Mk_mach_header_64 MH_MAGIC_64 CPU_TYPE_ARM64 0 MH_DYLIB 3 0 0 0).
    split; [vm_compute; reflexivity|]. split; [done|]. split; [done|].
    apply commands_list_Some. vm_compute. reflexivity.
  - exists (Mk_load_command LC_DYLD_EXPORTS_TRIE 16), 84, (Mk_ExportsTrieSpan 512 10), (Mk_slice 512 example_trie_bytes).
    split; [vm_compute; reflexivity|]. split; [vm_compute; reflexivity|].
    split; [vm_compute; reflexivity|]. split; [done|apply example_trie_encoded].
  - apply example_trie_wf.
Qed.

Lemma dylib_symbol_resolve_spec_witness :
  dylib_image example_dylib example_commands example_trie /\ plain_libraries example_commands /\
  (forall p, exports example_trie (bstr "_f") p ->
     dylib_symbol_resolve example_dylib (bstr "_f") =
       terminal_symbol example_dylib example_commands (bstr "_f") p) /\
  ((forall p, ~ exports example_trie (bstr "_f") p) ->
     dylib_symbol_resolve example_dylib (bstr "_f") = Ok None).
Proof.
  assert (plain_libraries example_commands) as Hc by (repeat constructor; discriminate).
  split; [apply example_dylib_image|]. split; [exact Hc|].
  exact (dylib_symbol_resolve_spec example_dylib example_commands example_trie (bstr "_f") example_dylib_image Hc).
Defined.

(** A library loaded weakly is not counted: here [b], the second library of the
    image, is taken for the first. *)
Example weak_library_is_not_numbered :
  dylib_install_path_for_ordinal
    (new (image_le (example_header 6 2 ++ dylib_command_bytes 0x80000018 (bstr "a") ++
       dylib_command_bytes 0x8000001f (bstr "b"))) 0) 1 = Ok (Some (bstr "b")).
Proof. vm_compute. reflexivity. Qed.

Example example_resolve :
  dylib_symbol_resolve_following_reexports (fun _ => None) example_dylib (bstr "_f") = Ok (Some ([], 16)).
Proof. vm_compute. reflexivity. Qed.

Lemma following_reexports_spec_witness :
  (forall final offset,
     dylib_symbol_resolve_following_reexports (fun _ => Some example_dylib) example_dylib (bstr "_f")
       = Ok (Some (final, offset)) <->
     exists n, (n <= 16)%nat /\
       resolves (fun _ => Some example_dylib) n example_dylib (bstr "_f") [] final offset) /\
  (forall P : Container -> bytes -> Prop, P example_dylib (bstr "_f") ->
     (forall c symbol, P c symbol -> exists tp ts next,
        dylib_symbol_resolve c symbol = Ok (Some (Reexported tp ts)) /\
        Some example_dylib = Some next /\ P next ts) ->
     dylib_symbol_resolve_following_reexports (fun _ => Some example_dylib) example_dylib (bstr "_f")
       = Ok None).
Proof. apply (following_reexports_spec (fun _ => Some example_dylib) example_dylib (bstr "_f")). Defined.
