(* ===== verification/SharedCache.v ===== *)
(** The dyld shared cache: [src/dyld_shared_cache.rs].

    A view of the cache the kernel has mapped: the subcaches with their mapping
    tables, the libraries indexed from the main cache, address translation, and
    symbol resolution through exports tries, re-exports and umbrella
    re-exports. Raw pointers to the cache are addresses of a [memory]. *)
From S2P Require Import Prelude Scroll Bindings Container Memory Image MachOImage.

Record DyldSharedSubCache := Mk_DyldSharedSubCache {
  sub_container : Container;
  unslid_base_vm_address : Z;
  mapping_table_offset : Z;
  mapping_table_entry_count : Z
}.

Record SharedCacheLibrary := Mk_SharedCacheLibrary {
  sub_cache_index : Z;
  mach_header_runtime_offset : Z;
  install_path : bytes;
  unslid_load_address : Z
}.

Record DyldSharedCache := Mk_DyldSharedCache {
  sub_caches : list DyldSharedSubCache;
  libraries : list SharedCacheLibrary;
  cache_slide : Z
}.

Definition cache_new : DyldSharedCache := Mk_DyldSharedCache [] [] 0.

Inductive TrieResolution :=
| Address (runtime_address : Z)
| FollowReexport (target_library_path target_symbol : bytes).

(** [range.contains(&x)] *)
Definition range_contains (start stop x : Z) : bool := (start <=? x) && (x <? stop).

Section Cache.
Context {sc : Scroll} {bp : BuildProfile}.

Definition dsc_header_read (c : Container) : result dyld_cache_header :=
  map_err "could not deserialize dyld_cache_header" (deserialize_type_at_offset dyld_cache_header c 0).

Definition from_runtime_mapping (m : memory) (runtime_pointer length unslid_base : Z)
    : result DyldSharedSubCache :=
  let* bytes := from_raw_parts m runtime_pointer length in
  let container := with_bytes bytes Little in
  let* header := dsc_header_read container in
  Ok (Mk_DyldSharedSubCache container unslid_base (ch_mapping_offset header) (ch_mapping_count header)).

(** The [entry_index]-th item of [mappings_iter] *)
Definition mapping_read {E} (s : DyldSharedSubCache) (entry_index : Z) : outcome E dyld_cache_mapping_info :=
  let* off := mul64 entry_index (size_of dyld_cache_mapping_info) in
  let* off := add64 (mapping_table_offset s) off in
  match deserialize_type_at_offset dyld_cache_mapping_info (sub_container s) off with
  | Ok mapping => Ok mapping
  | _ => Panic "malformed cache mapping table"
  end.

(** [self.mappings_iter().find_map(f)] *)
Fixpoint mappings_find_map_from {E A} (n : nat) (entry_index : Z) (s : DyldSharedSubCache)
    (f : dyld_cache_mapping_info -> outcome E (option A)) : outcome E (option A) :=
  match n with
  | O => Ok None
  | S k =>
      let* mapping := mapping_read s entry_index in
      let* r := f mapping in
      match r with
      | Some a => Ok (Some a)
      | None => mappings_find_map_from k (entry_index + 1) s f
      end
  end.
Definition mappings_find_map {E A} (s : DyldSharedSubCache)
    (f : dyld_cache_mapping_info -> outcome E (option A)) : outcome E (option A) :=
  mappings_find_map_from (Z.to_nat (mapping_table_entry_count s)) 0 s f.

Definition runtime_offset_for_vm_address {E} (s : DyldSharedSubCache) (unslid_vm_address : Z)
    : outcome E (option Z) :=
  mappings_find_map s (fun mapping =>
    let* stop := add64 (mi_address mapping) (mi_size mapping) in
    if range_contains (mi_address mapping) stop unslid_vm_address then
      let* off := sub64 unslid_vm_address (unslid_base_vm_address s) in Ok (Some off)
    else Ok None).

Definition runtime_offset_for_file_offset {E} (s : DyldSharedSubCache) (file_offset : Z)
    : outcome E (option Z) :=
  mappings_find_map s (fun mapping =>
    let* stop := add64 (mi_file_offset mapping) (mi_size mapping) in
    if range_contains (mi_file_offset mapping) stop file_offset then
      let* offset_within_mapping := sub64 file_offset (mi_file_offset mapping) in
      let* base := sub64 (mi_address mapping) (unslid_base_vm_address s) in
      let* off := add64 base offset_within_mapping in Ok (Some off)
    else Ok None).

Definition vm_address_for_file_offset {E} (s : DyldSharedSubCache) (file_offset : Z)
    : outcome E (option Z) :=
  mappings_find_map s (fun mapping =>
    let* stop := add64 (mi_file_offset mapping) (mi_size mapping) in
    if range_contains (mi_file_offset mapping) stop file_offset then
      let* within := sub64 file_offset (mi_file_offset mapping) in
      let* addr := add64 (mi_address mapping) within in Ok (Some addr)
    else Ok None).

Definition read_main_cache_unslid_base_from (m : memory) (header_pointer : Z) : result Z :=
  let provisional_length := size_of dyld_cache_header + 32 * size_of dyld_cache_mapping_info in
  let* provisional_bytes := from_raw_parts m header_pointer provisional_length in
  let provisional_container := with_bytes provisional_bytes Little in
  let* header := dsc_header_read provisional_container in
  let* first_mapping := map_err "could not read first mapping_info"
    (deserialize_type_at_offset dyld_cache_mapping_info provisional_container (ch_mapping_offset header)) in
  Ok (mi_address first_mapping).

Definition read_main_cache_total_mapped_length_from (m : memory) (header_pointer : Z) : result Z :=
  let provisional_length := size_of dyld_cache_header + 64 * size_of dyld_cache_mapping_info in
  let* provisional_bytes := from_raw_parts m header_pointer provisional_length in
  let provisional_container := with_bytes provisional_bytes Little in
  let* header := dsc_header_read provisional_container in
  let* first_mapping := map_err "could not read first mapping_info"
    (deserialize_type_at_offset dyld_cache_mapping_info provisional_container (ch_mapping_offset header)) in
  let base_address := mi_address first_mapping in
  for_range (Z.to_nat (ch_mapping_count header)) 0 (fun entry_index max_runtime_end =>
    let* off := mul64 entry_index (size_of dyld_cache_mapping_info) in
    let* entry_offset := add64 (ch_mapping_offset header) off in
    let* mapping := map_err "could not read mapping_info"
      (deserialize_type_at_offset dyld_cache_mapping_info provisional_container entry_offset) in
    let* start := sub64 (mi_address mapping) base_address in
    let* runtime_end := add64 start (mi_size mapping) in
    Ok (if max_runtime_end <? runtime_end then runtime_end else max_runtime_end)) 0.

(** The [self.sub_caches] vector is the state; it starts empty. *)
Definition dyld_shared_cache_attach_all (m : memory) (main_cache_header_pointer : Z)
    (caches : list DyldSharedSubCache) : result (list DyldSharedSubCache) :=
  let* main_unslid_base := read_main_cache_unslid_base_from m main_cache_header_pointer in
  let* main_total_length := read_main_cache_total_mapped_length_from m main_cache_header_pointer in
  let* main_subcache :=
    from_runtime_mapping m main_cache_header_pointer main_total_length main_unslid_base in
  let caches := caches ++ [main_subcache] in
  let* first := index_at caches 0 in
  let* header := dsc_header_read (sub_container first) in
  for_range (Z.to_nat (ch_sub_cache_array_count header)) 0 (fun subcache_index caches =>
    let* off := mul64 subcache_index (size_of dyld_subcache_entry) in
    let* entry_offset := add64 (ch_sub_cache_array_offset header) off in
    let* first := index_at caches 0 in
    let* subcache_entry := map_err "could not deserialize dyld_subcache_entry"
      (deserialize_type_at_offset dyld_subcache_entry (sub_container first) entry_offset) in
    let* subcache_unslid_base := add64 main_unslid_base (su_cache_vm_offset subcache_entry) in
    let subcache_runtime_pointer :=
      ptr_add main_cache_header_pointer (su_cache_vm_offset subcache_entry) in
    let* subcache_total_length := read_main_cache_total_mapped_length_from m subcache_runtime_pointer in
    let* subcache :=
      from_runtime_mapping m subcache_runtime_pointer subcache_total_length subcache_unslid_base in
    Ok (caches ++ [subcache])) caches.

(** The subcaches from index [i] on *)
Fixpoint locate_from {E} (i : Z) (caches : list DyldSharedSubCache) (unslid_vm_address : Z)
    : outcome E (option (Z * Z)) :=
  match caches with
  | [] => Ok None
  | subcache :: r =>
      let* o := runtime_offset_for_vm_address subcache unslid_vm_address in
      match o with
      | Some runtime_offset => Ok (Some (as_u 8 i, runtime_offset))
      | None => locate_from (i + 1) r unslid_vm_address
      end
  end.
Definition subcache_and_offset_locate_from_addr {E} (caches : list DyldSharedSubCache)
    (unslid_vm_address : Z) : outcome E (option (Z * Z)) :=
  locate_from 0 caches unslid_vm_address.

Definition main_cache_libraries_index_all (self : DyldSharedCache) : result DyldSharedCache :=
  let* main := index_at (sub_caches self) 0 in
  let main_cache := sub_container main in
  let* header := dsc_header_read main_cache in
  let* libs := for_range (Z.to_nat (ch_images_count header)) 0 (fun image_index libs =>
    let* off := mul64 image_index (size_of dyld_cache_image_info) in
    let* image_info_offset := add64 (ch_images_offset header) off in
    let* info := map_err "could not deserialize dyld_cache_image_info"
      (deserialize_type_at_offset dyld_cache_image_info main_cache image_info_offset) in
    let* located := subcache_and_offset_locate_from_addr (sub_caches self) (ii_address info) in
    match located with
    | None => Ok libs
    | Some (sub_cache_index, mach_header_runtime_offset) =>
        let* o := runtime_offset_for_file_offset main (ii_path_file_offset info) in
        let* path_runtime_offset := ok_or "image path offset not covered by any mapping" o in
        let* cstr := deserialize_cstr_at_offset main_cache path_runtime_offset in
        let path := cstr_to_bytes cstr in
        if from_utf8_ok path then
          Ok (libs ++ [Mk_SharedCacheLibrary sub_cache_index mach_header_runtime_offset path (ii_address info)])
        else Panic "called `Result::unwrap()` on an `Err` value"
    end) (libraries self) in
  Ok (Mk_DyldSharedCache (sub_caches self) libs (cache_slide self)).

Definition from_existing (m : memory) (self : DyldSharedCache) (main_cache_header_pointer slide : Z)
    : result DyldSharedCache :=
  let* caches := dyld_shared_cache_attach_all m main_cache_header_pointer (sub_caches self) in
  main_cache_libraries_index_all (Mk_DyldSharedCache caches (libraries self) slide).

Definition unslid_address_to_runtime_pointer_translate (self : DyldSharedCache) (unslid_vm_address : Z)
    : result Z :=
  let* o := subcache_and_offset_locate_from_addr (sub_caches self) unslid_vm_address in
  match o with
  | None => Err "vm address not covered by any cache mapping"
  | Some _ => add64 unslid_vm_address (cache_slide self)
  end.

Definition library_find_by_install_path (self : DyldSharedCache) (path : bytes)
    : option SharedCacheLibrary :=
  List.find (fun lib => bool_decide (install_path lib = path)) (libraries self).

Definition is_library_cached (self : DyldSharedCache) (path : bytes) : bool :=
  match library_find_by_install_path self path with Some _ => true | None => false end.

Definition image_view_for_library (self : DyldSharedCache) (library : SharedCacheLibrary)
    : result MachOImage :=
  let* subcache := index_at (sub_caches self) (sub_cache_index library) in
  Ok (new (sub_container subcache) (mach_header_runtime_offset library)).

Definition try_resolve_via_exports_trie (self : DyldSharedCache) (library : SharedCacheLibrary)
    (symbol : bytes) : result (option TrieResolution) :=
  let* image := image_view_for_library self library in
  let* span := exports_trie_span_find image in
  match span with
  | None => Ok None
  | Some span =>
  let* linkedit := linkedit_segment_find image in
  match linkedit with
  | None => Ok None
  | Some linkedit =>
  let* within := sub64 (span_file_offset span) (le_fileoff linkedit) in
  let* trie_unslid_vm := add64 (le_vmaddr linkedit) within in
  let* located := subcache_and_offset_locate_from_addr (sub_caches self) trie_unslid_vm in
  match located with
  | None => Ok None
  | Some (hosting_subcache_index, trie_runtime_offset) =>
  let* hosting := index_at (sub_caches self) hosting_subcache_index in
  match container_slice (sub_container hosting) trie_runtime_offset (span_size_in_bytes span) with
  | None => Ok None
  | Some trie =>
  let* terminal := as_option (exports_trie_walk_for_symbol (s_bytes trie) symbol) in
  match terminal with
  | None => Ok None
  | Some (DefinedHere offset_from_mach_header) =>
      let* symbol_unslid_address := add64 (unslid_load_address library) offset_from_mach_header in
      let* runtime_address := unslid_address_to_runtime_pointer_translate self symbol_unslid_address in
      Ok (Some (Address runtime_address))
  | Some (ReexportedFromDependency dependency_ordinal aliased_name) =>
      let* target_library_path := dylib_install_path_for_ordinal image dependency_ordinal in
      match target_library_path with
      | None => Ok None
      | Some target_library_path =>
          let target_symbol := if bool_decide (aliased_name = []) then symbol else aliased_name in
          Ok (Some (FollowReexport target_library_path target_symbol))
      end
  end end end end end.

(** [resolve] is [symbol_resolve_with_max_depth] with one less depth. *)
Fixpoint umbrella_loop (resolve : bytes -> result (option Z)) (paths : list bytes) : result (option Z) :=
  match paths with
  | [] => Ok None
  | reexported_path :: r =>
      let* o := resolve reexported_path in
      match o with
      | Some address => Ok (Some address)
      | None => umbrella_loop resolve r
      end
  end.
Definition try_resolve_via_umbrella_reexports (self : DyldSharedCache) (library : SharedCacheLibrary)
    (resolve : bytes -> result (option Z)) : result (option Z) :=
  let* image := image_view_for_library self library in
  let* reexported_paths := reexported_dylib_paths_collect image in
  umbrella_loop resolve reexported_paths.

Fixpoint symbol_resolve_with_max_depth (self : DyldSharedCache) (depth_budget_remaining : nat)
    (library_install_path symbol : bytes) : result (option Z) :=
  match depth_budget_remaining with
  | O => Ok None
  | S depth =>
      match library_find_by_install_path self library_install_path with
      | None => Ok None
      | Some library =>
          let* resolution := try_resolve_via_exports_trie self library symbol in
          match resolution with
          | Some (Address runtime_address) => Ok (Some runtime_address)
          | Some (FollowReexport target_library_path target_symbol) =>
              symbol_resolve_with_max_depth self depth target_library_path target_symbol
          | None =>
              try_resolve_via_umbrella_reexports self library
                (fun path => symbol_resolve_with_max_depth self depth path symbol)
          end
      end
  end.

Definition symbol_resolve (self : DyldSharedCache) (library_install_path symbol : bytes)
    : result (option Z) :=
  symbol_resolve_with_max_depth self MAX_REEXPORT_RESOLUTION_DEPTH library_install_path symbol.
End Cache.

(** ** Address translation *)

Section Translation.
Context {sc : Scroll} {bp : BuildProfile}.

(** The mapping table of [s] can be read, and none of its entries wraps around
    the address space or lies below the base. *)
Definition table_ok (s : DyldSharedSubCache) : Prop :=
  forall E i, 0 <= i < mapping_table_entry_count s -> exists mapping,
    mapping_read s i = @Ok E _ mapping /\
    0 <= unslid_base_vm_address s <= mi_address mapping /\
    0 <= mi_size mapping /\ mi_address mapping + mi_size mapping < 2 ^ 64 /\
    0 <= mi_file_offset mapping /\ mi_file_offset mapping + mi_size mapping < 2 ^ 64.

(** The [i]-th mapping covers the address, or the file offset. *)
Definition covers_vm (s : DyldSharedSubCache) (i a : Z) : Prop :=
  exists mapping, mapping_read s i = @Ok unit _ mapping /\
    mi_address mapping <= a < mi_address mapping + mi_size mapping.

Lemma find_map_none_or_some {E A} (s : DyldSharedSubCache) (f : _ -> outcome E (option A)) (P : Z -> A -> Prop) n i :
  (forall j, i <= j < i + Z.of_nat n -> exists mapping,
     mapping_read s j = @Ok E _ mapping /\
     ((exists a, f mapping = Ok (Some a) /\ P j a) \/ (f mapping = Ok None /\ forall a, ~ P j a))) ->
  (exists j a, i <= j < i + Z.of_nat n /\ mappings_find_map_from n i s f = Ok (Some a) /\ P j a) \/
  (mappings_find_map_from n i s f = Ok None /\ forall j a, i <= j < i + Z.of_nat n -> ~ P j a).
Proof.
  revert i; induction n as [|n IH]; intros i H; cbn [mappings_find_map_from].
  - right. split; [done|]. intros. lia.
  - destruct (H i) as (mapping & Hm & [(a & Hf & Ha)|[Hf Hno]]); [lia| |]; rewrite Hm; cbn; rewrite Hf; cbn.
    + left. exists i, a. split_and!; try done; lia.
    + destruct (IH (i + 1)) as [(j & a & ? & ? & ?)|[Hn Hall]].
      * intros j Hj. apply H. lia.
      * left. exists j, a. split_and!; try done; lia.
      * right. split; [done|]. intros j a Hj Hp. destruct (decide (j = i)) as [->|Hne]; [by apply (Hno a)|].
        apply (Hall j a); [lia|done].
Qed.

Lemma mapping_read_E {E F} s i mapping : mapping_read s i = @Ok E _ mapping -> mapping_read s i = @Ok F _ mapping.
Proof.
  unfold mapping_read, mul_w, add_w, in_range. destruct (fitsb 64 (i * _)), overflow_checks; cbn; try done;
    destruct (fitsb 64 _); cbn; try done; destruct (deserialize_type_at_offset _ _ _); congruence.
Qed.

(** A mapping that covers the address decides the offset, whichever it is. *)
Lemma runtime_offset_for_vm_address_cases {E} s a :
  table_ok s -> 0 <= mapping_table_entry_count s ->
  (runtime_offset_for_vm_address s a = @Ok E _ (Some (a - unslid_base_vm_address s)) /\
     exists i, 0 <= i < mapping_table_entry_count s /\ covers_vm s i a) \/
  (runtime_offset_for_vm_address s a = @Ok E _ None /\
     forall i, 0 <= i < mapping_table_entry_count s -> ~ covers_vm s i a).
Proof.
  intros Ht Hc. unfold runtime_offset_for_vm_address, mappings_find_map.
  match goal with |- context [mappings_find_map_from _ _ _ ?g] => set (f := g) end.
  pose proof (find_map_none_or_some s f (fun j o => covers_vm s j a /\ o = a - unslid_base_vm_address s)
    (Z.to_nat (mapping_table_entry_count s)) 0) as H.
  rewrite Z2Nat.id in H by done.
  destruct H as [(j & o & Hj & -> & Hcov & ->)|[-> Hno]].
  - intros j Hj. destruct (Ht E j) as (mapping & Hm & Hb & Hs & Ha & Hf); [lia|].
    exists mapping. split; [done|]. unfold f, add_w, range_contains.
    rewrite in_range_fits by (unfold fits; lia). cbn [bind].
    destruct (Z.leb_spec (mi_address mapping) a), (Z.ltb_spec a (mi_address mapping + mi_size mapping)); cbn.
    2-4: right; split; [done|]; intros o [(mapping' & Hm' & ?) _];
      apply (mapping_read_E (F := E)) in Hm'; rewrite Hm in Hm'; simplify_eq; lia.
    left. eexists. unfold sub_w. rewrite in_range_fits by (unfold fits; lia). cbn. split; [done|].
    split; [|done]. exists mapping. split; [by apply (mapping_read_E (E := E))|lia].
  - left. split; [done|]. exists j. split; [lia|done].
  - right. split; [done|]. intros i Hi Hcov. by apply (Hno i (a - unslid_base_vm_address s)).
Qed.

Lemma find_map_option_map {E A B} s (f : _ -> outcome E (option A)) (g : _ -> outcome E (option B)) (h : A -> B) n i :
  (forall j mapping, i <= j < i + Z.of_nat n -> mapping_read s j = @Ok E _ mapping ->
     g mapping = let* o := f mapping in Ok (option_map h o)) ->
  mappings_find_map_from n i s g = let* o := mappings_find_map_from n i s f in Ok (option_map h o).
Proof.
  revert i; induction n as [|n IH]; intros i H; cbn [mappings_find_map_from]; [done|].
  destruct (mapping_read s i) as [mapping|e|w| |] eqn:Em; cbn; try done.
  rewrite (H i mapping) by (lia || done).
  destruct (f mapping) as [[a|]|e|w| |]; cbn; try done. apply IH.
  intros j m' Hj. apply H. lia.
Qed.

Lemma find_map_Some {E A} s (f : _ -> outcome E (option A)) n i a :
  mappings_find_map_from n i s f = Ok (Some a) ->
  exists j mapping, i <= j < i + Z.of_nat n /\ mapping_read s j = @Ok E _ mapping /\ f mapping = Ok (Some a).
Proof.
  revert i; induction n as [|n IH]; intros i H; cbn [mappings_find_map_from] in H; [done|].
  apply bind_Ok in H as (mapping & Hm & H). apply bind_Ok in H as (o & Hf & H).
  destruct o as [a'|].
  - injection H as ->. exists i, mapping. split; [lia|done].
  - apply IH in H as (j & m' & ? & ? & ?). exists j, m'. split; [lia|done].
Qed.

(** C29 The three translations of a subcache agree: a file offset is in some
    mapping exactly when it has an unslid address, and translating the offset
    directly or through that address leads to the same byte of the mapped
    cache, at the address less the base of the subcache. *)
Theorem translations_agree {E} s file_offset :
  table_ok s -> 0 <= mapping_table_entry_count s -> 0 <= file_offset ->
  runtime_offset_for_file_offset s file_offset =
    (let* a := vm_address_for_file_offset s file_offset in
     match a with
     | Some a => @runtime_offset_for_vm_address _ _ E s a
     | None => Ok None
     end) /\
  forall a, vm_address_for_file_offset s file_offset = @Ok E _ (Some a) ->
    runtime_offset_for_file_offset s file_offset = @Ok E _ (Some (a - unslid_base_vm_address s)).
Proof.
  intros Ht Hc Hfo.
  assert (runtime_offset_for_file_offset s file_offset =
    let* o := @vm_address_for_file_offset _ _ E s file_offset in
    Ok (option_map (fun a => a - unslid_base_vm_address s) o)) as Heq.
  { apply find_map_option_map. rewrite Z2Nat.id by done. intros j mapping Hj Hm.
    destruct (Ht E j) as (m' & Hm' & Hb & Hs & Ha & Hf); [lia|]. rewrite Hm in Hm'. injection Hm' as <-.
    unfold add_w at 1 3. rewrite in_range_fits by (unfold fits; lia). cbn [bind]. unfold range_contains.
    destruct (Z.leb_spec (mi_file_offset mapping) file_offset),
      (Z.ltb_spec file_offset (mi_file_offset mapping + mi_size mapping)); cbn; try done.
    unfold add_w, sub_w. repeat (rewrite in_range_fits by (unfold fits; lia); cbn [bind]).
    cbn. do 2 f_equal. lia. }
  assert (forall a, vm_address_for_file_offset s file_offset = @Ok E _ (Some a) ->
    exists i, 0 <= i < mapping_table_entry_count s /\ covers_vm s i a) as Hcov.
  { intros a (j & mapping & Hj & Hm & Hf)%find_map_Some. exists j. split; [lia|].
    destruct (Ht E j) as (m' & Hm' & Hb & Hs & Ha & Hfo'); [lia|]. rewrite Hm in Hm'. injection Hm' as <-.
    unfold add_w, sub_w in Hf. rewrite in_range_fits in Hf by (unfold fits; lia). cbn [bind] in Hf.
    unfold range_contains in Hf.
    destruct (Z.leb_spec (mi_file_offset mapping) file_offset),
      (Z.ltb_spec file_offset (mi_file_offset mapping + mi_size mapping)); cbn in Hf; try done.
    repeat (rewrite in_range_fits in Hf by (unfold fits; lia); cbn [bind] in Hf). injection Hf as <-.
    exists mapping. split; [by apply (mapping_read_E (E := E))|lia]. }
  split.
  - rewrite Heq. destruct (vm_address_for_file_offset s file_offset) as [[a|]|e|w| |] eqn:Ev; cbn; try done.
    destruct (runtime_offset_for_vm_address_cases (E := E) s a Ht Hc) as [[-> _]|[_ Hno]]; [done|].
    destruct (Hcov a eq_refl) as (i & Hi & ?). by destruct (Hno i Hi).
  - intros a Ha. by rewrite Heq, Ha.
Qed.
End Translation.

(** ** Where a located address is in memory *)

Section Attach.
Context {sc : Scroll} {bp : BuildProfile}.

(** The base of every subcache is as far from the main cache's as its mapping
    is from the main cache's, so one slide fits all of them. *)
Definition slid_by (slide : Z) (s : DyldSharedSubCache) : Prop :=
  s_ptr (data (sub_container s)) = ptr_add (unslid_base_vm_address s) slide.

Lemma from_runtime_mapping_Ok m p len base s :
  from_runtime_mapping m p len base = Ok s ->
  s_ptr (data (sub_container s)) = p /\ unslid_base_vm_address s = base.
Proof.
  unfold from_runtime_mapping, from_raw_parts. intros H.
  destruct (load_bytes m p (Z.to_nat len)); [|done]. inv_ok. done.
Qed.

Lemma attach_all_slid m p base slide caches :
  read_main_cache_unslid_base_from m p = Ok base -> p = ptr_add base slide ->
  dyld_shared_cache_attach_all m p [] = Ok caches ->
  Forall (slid_by slide) caches /\ caches <> [].
Proof.
  intros Hb Hp H. unfold dyld_shared_cache_attach_all in H. rewrite Hb in H. cbn [bind] in H.
  apply bind_Ok in H as (len & _ & H). apply bind_Ok in H as (main & Hm & H).
  apply bind_Ok in H as (first & _ & H). apply bind_Ok in H as (header & _ & H).
  apply from_runtime_mapping_Ok in Hm as [Hm1 Hm2].
  refine (for_range_inv (fun _ caches => Forall (slid_by slide) caches /\ caches <> []) _ _ _ _ _ _ _ H).
  - split; [|done]. constructor; [|constructor]. unfold slid_by. by rewrite Hm1, Hm2.
  - intros j cs cs' _ [Hcs Hne] Hstep.
    apply bind_Ok in Hstep as (o & _ & Hstep). apply bind_Ok in Hstep as (eo & _ & Hstep).
    apply bind_Ok in Hstep as (f & _ & Hstep). apply bind_Ok in Hstep as (entry & _ & Hstep).
    apply bind_Ok in Hstep as (sb & Hsb & Hstep). apply bind_Ok in Hstep as (sl & _ & Hstep).
    apply bind_Ok in Hstep as (sub & Hsub & Hstep). injection Hstep as <-.
    apply from_runtime_mapping_Ok in Hsub as [Hs1 Hs2]. apply in_range_Ok in Hsb as [_ Hsb]; [|lia].
    split; [|by destruct cs]. apply Forall_app. split; [done|]. constructor; [|constructor].
    unfold slid_by. rewrite Hs1, Hs2, Hsb, Hp. unfold ptr_add.
    rewrite Z.add_mod_idemp_l, (Z.add_mod_idemp_l (base + _)) by lia. f_equal. lia.
Qed.

Lemma libraries_index_all_caches self self' :
  main_cache_libraries_index_all self = Ok self' ->
  sub_caches self' = sub_caches self /\ cache_slide self' = cache_slide self.
Proof.
  unfold main_cache_libraries_index_all. intros H.
  apply bind_Ok in H as (? & _ & H). apply bind_Ok in H as (? & _ & H).
  apply bind_Ok in H as (? & _ & H). by injection H as <-.
Qed.

Lemma runtime_offset_Some {E} s a o :
  runtime_offset_for_vm_address s a = @Ok E _ (Some o) ->
  o = (a - unslid_base_vm_address s) mod 2 ^ 64 /\ fits 64 o.
Proof.
  unfold runtime_offset_for_vm_address, mappings_find_map. generalize 0.
  induction (Z.to_nat _) as [|n IH]; intros i H; cbn [mappings_find_map_from] in H; [done|].
  apply bind_Ok in H as (mapping & _ & H). apply bind_Ok in H as (r & Hr & H).
  apply bind_Ok in Hr as (stop & _ & Hr). destruct (range_contains _ _ _); [|injection Hr as <-; eauto].
  apply bind_Ok in Hr as (off & Hoff & Hr). injection Hr as <-. injection H as ->.
  apply in_range_Ok in Hoff; [|lia]. tauto.
Qed.

Lemma locate_from_Some {E} i caches a j o :
  0 <= i -> locate_from i caches a = @Ok E _ (Some (j, o)) ->
  exists k s, caches !! k = Some s /\ j = as_u 8 (i + Z.of_nat k) /\
    runtime_offset_for_vm_address s a = @Ok E _ (Some o).
Proof.
  revert i; induction caches as [|s caches IH]; intros i Hi H; cbn in H; [done|].
  apply bind_Ok in H as (r & Hr & H). destruct r as [o'|].
  - injection H as <- <-. exists 0%nat, s. rewrite Z.add_0_r. done.
  - apply IH in H as (k & s' & Hk & -> & Ho); [|lia]. exists (S k), s'.
    split; [done|]. split; [f_equal; lia|done].
Qed.

(** In a cache built from the mapping the kernel made, the byte a located
    address stands for (byte [offset] of subcache [index]'s container) is the
    one at the address plus the ASLR slide, whichever subcache it is in: the
    pointers [unslid_address_to_runtime_pointer_translate] computes and the
    bytes the image readers see are the same memory. The subcache index is a
    [u8], so this takes at most 256 subcaches; the index is in range for any
    number of them. *)
Theorem located_address_is_slid {E} m p base slide self a index offset :
  read_main_cache_unslid_base_from m p = Ok base -> p = ptr_add base slide ->
  from_existing m cache_new p slide = Ok self ->
  subcache_and_offset_locate_from_addr (sub_caches self) a = @Ok E _ (Some (index, offset)) ->
  (exists s, sub_caches self !! Z.to_nat index = Some s) /\
  (zlen (sub_caches self) <= 256 -> exists s, sub_caches self !! Z.to_nat index = Some s /\
     ptr_add (s_ptr (data (sub_container s))) offset = ptr_add a slide).
Proof.
  intros Hb Hp H Hl. unfold from_existing in H. apply bind_Ok in H as (caches & Hc & H).
  apply libraries_index_all_caches in H as [Hs _]. cbn in Hs. rewrite Hs in *. clear Hs.
  destruct (attach_all_slid _ _ _ _ _ Hb Hp Hc) as [Hall _].
  apply locate_from_Some in Hl as (k & s & Hk & -> & Ho); [|lia].
  pose proof (lookup_lt_Some _ _ _ Hk) as Hlt. unfold as_u. rewrite Z.add_0_l. split.
  - apply lookup_lt_is_Some_2. pose proof (Z.mod_le (Z.of_nat k) (2 ^ 8)). lia.
  - intros Hn. rewrite Z.mod_small by len. rewrite Nat2Z.id. exists s. split; [done|].
    rewrite Forall_lookup in Hall. rewrite (Hall _ _ Hk).
    apply runtime_offset_Some in Ho as [-> _]. unfold ptr_add.
    rewrite <- Z.add_mod by lia. f_equal. lia.
Qed.
End Attach.

(** ** The library index *)

Section Index.
Context `{SL : ScrollLaws} {bp : BuildProfile}.

(** The library an entry of the image table describes, if its load address is
    in some subcache; [main] is the main cache, [entry] the entry's offset. *)
Definition indexed (caches : list DyldSharedSubCache) (main : DyldSharedSubCache) (entry : Z)
    (libs : list SharedCacheLibrary) : Prop :=
  exists info, deserialize_type_at_offset dyld_cache_image_info (sub_container main) entry = Ok info /\
    exists located, subcache_and_offset_locate_from_addr caches (ii_address info) = @Ok string _ located /\
      match located with
      | None => libs = []
      | Some (index, offset) => exists o path,
          runtime_offset_for_file_offset main (ii_path_file_offset info) = @Ok string _ (Some o) /\
          cstring_at (raw (sub_container main)) o path /\ from_utf8_ok path = true /\
          libs = [Mk_SharedCacheLibrary index offset path (ii_address info)]
      end.

Lemma cache_header_images c h :
  dsc_header_read c = Ok h -> fits 32 (ch_images_offset h) /\ fits 32 (ch_images_count h).
Proof.
  unfold dsc_header_read. intros Hd%map_err_Ok.
  apply deserialize_wf in Hd as (_ & vs & -> & Hv); [|done|repeat constructor].
  do 76 (destruct vs as [? vs]). do 61 (destruct Hv as [_ Hv]). by destruct Hv as (? & ? & _).
Qed.

Lemma cstr_at {E} c off cstr t :
  deserialize_cstr_at_offset c off = @Ok E _ cstr -> cstr_to_bytes cstr = t -> cstring_at (raw c) off t.
Proof. intros H <-. by eapply deserialize_cstr_to_bytes. Qed.

(** C30 The library index of the cache is its image table: indexing keeps the
    subcaches and the slide and appends, entry by entry in order, the library
    of each entry whose load address lies in a subcache, under the
    NUL-terminated UTF-8 path its entry points to; the other entries add
    nothing, and no entry is read twice. *)
Theorem main_cache_libraries_index_all_spec self main self' :
  sub_caches self !! 0%nat = Some main -> main_cache_libraries_index_all self = Ok self' ->
  sub_caches self' = sub_caches self /\ cache_slide self' = cache_slide self /\
  exists header entries, dsc_header_read (sub_container main) = Ok header /\
    zlen entries = ch_images_count header /\
    (forall i libs, entries !! i = Some libs ->
       indexed (sub_caches self) main (ch_images_offset header + 32 * Z.of_nat i) libs) /\
    libraries self' = libraries self ++ concat entries.
Proof.
  intros Hmain. unfold main_cache_libraries_index_all.
  assert (index_at (sub_caches self) 0 = @Ok string _ main) as -> by (unfold index_at; change (Z.to_nat 0) with 0%nat; by rewrite Hmain).
  cbn [bind].
  intros (h & Hh & (libs & Hl & [= <-])%bind_Ok)%bind_Ok. cbn [sub_caches cache_slide libraries].
  split; [done|]. split; [done|]. exists h.
  destruct (cache_header_images _ _ Hh) as [Ho Hc]. unfold fits in *.
  match type of Hl with for_range ?n _ ?f _ = _ => set (body := f) in Hl end.
  set (R := fun j g => indexed (sub_caches self) main (ch_images_offset h + 32 * j) g).
  assert (exists gs, length gs = Z.to_nat (ch_images_count h) /\ (forall k g, gs !! k = Some g -> R (0 + Z.of_nat k) g) /\
    libs = libraries self ++ concat gs) as (gs & Hlen & Hgs & ->).
  { apply (for_range_appends (Z.to_nat (ch_images_count h)) 0 body R); [|exact Hl].
    intros j t t' Hj. unfold body, mul_w, add_w. change (size_of dyld_cache_image_info) with 32.
    rewrite in_range_fits by (unfold fits; lia). cbn [bind]. rewrite in_range_fits by (unfold fits; lia). cbn [bind].
    intros (info & Hi%map_err_Ok & (located & Hloc & H)%bind_Ok)%bind_Ok. unfold R, indexed.
    rewrite (Z.mul_comm 32 j). destruct located as [[index offset]|].
    - apply bind_Ok in H as (o & Hof & (po & ->%ok_or_Ok & (cstr & Hcs & H)%bind_Ok)%bind_Ok).
      destruct (from_utf8_ok (cstr_to_bytes cstr)) eqn:Eu; [|done]. injection H as <-.
      exists [Mk_SharedCacheLibrary index offset (cstr_to_bytes cstr) (ii_address info)]. split; [|done].
      exists info. split; [done|]. exists (Some (index, offset)). split; [done|]. exists po, (cstr_to_bytes cstr).
      split; [done|]. split; [by eapply cstr_at|]. done.
    - injection H as <-. exists []. rewrite app_nil_r. split; [|done]. exists info. split; [done|]. by exists None. }
  exists gs. split; [done|]. split; [len|]. split; [|done]. intros i g Hi. apply (Hgs i g Hi).
Qed.
End Index.

(** ** Symbol resolution *)

Section Resolution.
Context {sc : Scroll} {bp : BuildProfile} (self : DyldSharedCache).

(** The image of a library and the bytes of its exports trie, which lie in the
    subcache that holds its link-edit segment *)
Definition library_trie (lib : SharedCacheLibrary) : result (option (MachOImage * bytes)) :=
  let* image := image_view_for_library self lib in
  let* span := exports_trie_span_find image in
  match span with
  | None => Ok None
  | Some span =>
      let* linkedit := linkedit_segment_find image in
      match linkedit with
      | None => Ok None
      | Some linkedit =>
          let* within := sub64 (span_file_offset span) (le_fileoff linkedit) in
          let* unslid := add64 (le_vmaddr linkedit) within in
          let* located := subcache_and_offset_locate_from_addr (sub_caches self) unslid in
          match located with
          | None => Ok None
          | Some (index, offset) =>
              let* hosting := index_at (sub_caches self) index in
              Ok ((fun trie => (image, s_bytes trie)) <$>
                    container_slice (sub_container hosting) offset (span_size_in_bytes span))
          end
      end
  end.

(** The library's own trie says nothing of the symbol: there is no trie, the
    symbol is not in it, or it is re-exported from an ordinal that names no
    library. *)
Definition not_exported (lib : SharedCacheLibrary) (symbol : bytes) : Prop :=
  library_trie lib = Ok None \/
  exists image trie, library_trie lib = Ok (Some (image, trie)) /\
    (exports_trie_walk_for_symbol trie symbol = Err tt \/
     exists ord nm, exports_trie_walk_for_symbol trie symbol = Ok (ReexportedFromDependency ord nm) /\
       dylib_install_path_for_ordinal image ord = @Ok string _ None).

(** A resolution in at most [n] libraries: the library's own trie defines the
    symbol, at an offset from its load address; or its trie re-exports it, under
    its own or another name, from the library an ordinal names; or its trie
    does not have it and one of the libraries it re-exports as a whole resolves
    it. *)
Inductive cache_resolves : nat -> bytes -> bytes -> Z -> Prop :=
| resolves_address n path lib symbol image trie offset unslid index k a :
    library_find_by_install_path self path = Some lib ->
    library_trie lib = Ok (Some (image, trie)) ->
    exports_trie_walk_for_symbol trie symbol = Ok (DefinedHere offset) ->
    add64 (unslid_load_address lib) offset = @Ok string _ unslid ->
    subcache_and_offset_locate_from_addr (sub_caches self) unslid = @Ok string _ (Some (index, k)) ->
    add64 unslid (cache_slide self) = @Ok string _ a ->
    cache_resolves (S n) path symbol a
| resolves_reexport n path lib symbol image trie ord nm target_path a :
    library_find_by_install_path self path = Some lib ->
    library_trie lib = Ok (Some (image, trie)) ->
    exports_trie_walk_for_symbol trie symbol = Ok (ReexportedFromDependency ord nm) ->
    dylib_install_path_for_ordinal image ord = @Ok string _ (Some target_path) ->
    cache_resolves n target_path (if bool_decide (nm = []) then symbol else nm) a ->
    cache_resolves (S n) path symbol a
| resolves_umbrella n path lib symbol image paths q a :
    library_find_by_install_path self path = Some lib ->
    not_exported lib symbol ->
    image_view_for_library self lib = Ok image ->
    reexported_dylib_paths_collect image = Ok paths ->
    q ∈ paths -> cache_resolves n q symbol a ->
    cache_resolves (S n) path symbol a.

(** Looking a symbol up in a library is looking it up in the library's trie. *)
Lemma try_resolve_trie lib symbol :
  try_resolve_via_exports_trie self lib symbol =
    let* t := library_trie lib in
    match t with
    | None => Ok None
    | Some (image, trie) =>
        let* terminal := as_option (exports_trie_walk_for_symbol trie symbol) in
        match terminal with
        | None => Ok None
        | Some (DefinedHere offset) =>
            let* unslid := add64 (unslid_load_address lib) offset in
            let* a := unslid_address_to_runtime_pointer_translate self unslid in
            Ok (Some (Address a))
        | Some (ReexportedFromDependency ord nm) =>
            let* target_path := dylib_install_path_for_ordinal image ord in
            match target_path with
            | None => Ok None
            | Some target_path => Ok (Some (FollowReexport target_path (if bool_decide (nm = []) then symbol else nm)))
            end
        end
    end.
Proof.
  unfold try_resolve_via_exports_trie, library_trie.
  destruct (image_view_for_library self lib) as [image|e|w| |]; cbn [bind]; try done.
  destruct (exports_trie_span_find image) as [[span|]|e|w| |]; cbn [bind]; try done.
  destruct (linkedit_segment_find image) as [[le|]|e|w| |]; cbn [bind]; try done.
  destruct (sub64 (span_file_offset span) (le_fileoff le)) as [u|e|w| |]; cbn [bind]; try done.
  destruct (add64 (le_vmaddr le) u) as [v|e|w| |]; cbn [bind]; try done.
  destruct (subcache_and_offset_locate_from_addr (sub_caches self) v) as [[[i o]|]|e|w| |]; cbn [bind]; try done.
  destruct (index_at (sub_caches self) i) as [h|e|w| |]; cbn [bind]; try done.
  by destruct (container_slice (sub_container h) o (span_size_in_bytes span)) as [t|].
Qed.

(** Every step of a lookup ends. *)
Lemma mappings_find_map_ends {E A} s (f : _ -> outcome E (option A)) :
  (forall m, ends (f m)) -> ends (mappings_find_map s f).
Proof.
  intros Hf. unfold mappings_find_map. generalize (Z.to_nat (mapping_table_entry_count s)) as n, 0 as i.
  induction n as [|n IH]; intros i; cbn [mappings_find_map_from]; [exact I|].
  apply ends_bind; [unfold mapping_read; solve_ends|]. intros m _. apply ends_bind; [apply Hf|].
  intros [a|] _; [exact I|apply IH].
Qed.

Lemma locate_from_ends {E} caches a : ends (@subcache_and_offset_locate_from_addr _ _ E caches a).
Proof.
  unfold subcache_and_offset_locate_from_addr. generalize 0 as i.
  induction caches as [|s caches IH]; intros i; cbn [locate_from]; [exact I|].
  apply ends_bind; [|intros [o|] _; [exact I|apply IH]].
  apply mappings_find_map_ends. intros m. solve_ends.
Qed.

Lemma library_trie_ends lib : ends (library_trie lib).
Proof. unfold library_trie, image_view_for_library. pose proof (@locate_from_ends string). solve_ends. Qed.

Lemma umbrella_loop_Some resolve paths a :
  umbrella_loop resolve paths = Ok (Some a) -> exists q, q ∈ paths /\ resolve q = Ok (Some a).
Proof.
  induction paths as [|q paths IH]; cbn; [done|]. intros (o & Ho & H)%bind_Ok. destruct o as [a'|].
  - injection H as ->. exists q. split; [by left|done].
  - destruct (IH H) as (q' & ? & ?). exists q'. split; [by right|done].
Qed.

Lemma umbrella_loop_None resolve paths :
  umbrella_loop resolve paths = Ok None -> forall q, q ∈ paths -> resolve q = Ok None.
Proof.
  induction paths as [|q paths IH]; cbn; [intros _ q H; by apply not_elem_of_nil in H|].
  intros (o & Ho & H)%bind_Ok. destruct o as [a'|]; [done|].
  intros q' [->|Hin]%elem_of_cons; [done|by apply IH].
Qed.

(** What each answer of a library means *)
Lemma try_resolve_Some lib symbol r :
  try_resolve_via_exports_trie self lib symbol = Ok r ->
  match r with
  | None => not_exported lib symbol
  | Some (Address a) => exists image trie offset unslid index k,
      library_trie lib = Ok (Some (image, trie)) /\
      exports_trie_walk_for_symbol trie symbol = Ok (DefinedHere offset) /\
      add64 (unslid_load_address lib) offset = @Ok string _ unslid /\
      subcache_and_offset_locate_from_addr (sub_caches self) unslid = @Ok string _ (Some (index, k)) /\
      add64 unslid (cache_slide self) = @Ok string _ a
  | Some (FollowReexport tp ts) => exists image trie ord nm,
      library_trie lib = Ok (Some (image, trie)) /\
      exports_trie_walk_for_symbol trie symbol = Ok (ReexportedFromDependency ord nm) /\
      dylib_install_path_for_ordinal image ord = @Ok string _ (Some tp) /\
      ts = if bool_decide (nm = []) then symbol else nm
  end.
Proof.
  rewrite try_resolve_trie. unfold not_exported. intros ([[image trie]|] & Ht & H)%bind_Ok; [|injection H as <-; by left].
  apply bind_Ok in H as (term & Hw & H).
  destruct (exports_trie_walk_for_symbol trie symbol) as [t|[]|w| |] eqn:Ew; cbn in Hw; try discriminate Hw;
    injection Hw as <-; [|injection H as <-; right; exists image, trie; by eauto].
  destruct t as [offset|ord nm].
  - apply bind_Ok in H as (u & Hu & (ra & Hra & H)%bind_Ok). injection H as <-.
    unfold unslid_address_to_runtime_pointer_translate in Hra. apply bind_Ok in Hra as ([[index k]|] & Hl & Hra); [|done].
    by exists image, trie, offset, u, index, k.
  - apply bind_Ok in H as ([tp|] & Htp & H); injection H as <-; [by exists image, trie, ord, nm|].
    right. exists image, trie. split; [done|]. right. by exists ord, nm.
Qed.

Lemma max_depth_sound n path symbol a :
  symbol_resolve_with_max_depth self n path symbol = Ok (Some a) -> cache_resolves n path symbol a.
Proof.
  revert path symbol; induction n as [|n IH]; intros path symbol H; cbn in H; [done|].
  destruct (library_find_by_install_path self path) as [lib|] eqn:El; [|done].
  apply bind_Ok in H as (r & Hr & H). apply try_resolve_Some in Hr. destruct r as [[a'|tp ts]|].
  - injection H as ->. destruct Hr as (image & trie & offset & u & index & k & ? & ? & ? & ? & ?).
    by eapply resolves_address.
  - destruct Hr as (image & trie & ord & nm & ? & ? & ? & ->). eapply resolves_reexport; eauto.
  - apply bind_Ok in H as (image & Hi & H). apply bind_Ok in H as (paths & Hp & H).
    apply umbrella_loop_Some in H as (q & Hq & H). eapply resolves_umbrella; eauto.
Qed.

Lemma not_exported_None lib symbol :
  not_exported lib symbol -> try_resolve_via_exports_trie self lib symbol = Ok None.
Proof.
  rewrite try_resolve_trie. intros [->|(image & trie & -> & [Hw|(ord & nm & Hw & Hp)])]; cbn [bind]; [done|..];
    rewrite Hw; cbn [as_option bind]; [done|]. by rewrite Hp.
Qed.

Lemma max_depth_complete n path symbol :
  symbol_resolve_with_max_depth self n path symbol = Ok None -> forall a, ~ cache_resolves n path symbol a.
Proof.
  intros H a Ha. revert H.
  induction Ha as [n path lib symbol image trie offset u index k a El Ht Hw Hu Hl Ha
    |n path lib symbol image trie ord nm tp a El Ht Hw Hp _ IH
    |n path lib symbol image paths q a El Hn Hi Hp Hq _ IH]; cbn [symbol_resolve_with_max_depth]; rewrite El.
  - rewrite try_resolve_trie, Ht. cbn [bind]. rewrite Hw. cbn [as_option bind]. rewrite Hu. cbn [bind].
    unfold unslid_address_to_runtime_pointer_translate. rewrite Hl. cbn [bind]. by rewrite Ha.
  - rewrite try_resolve_trie, Ht. cbn [bind]. rewrite Hw. cbn [as_option bind]. by rewrite Hp.
  - rewrite (not_exported_None _ _ Hn). cbn [bind].
    unfold try_resolve_via_umbrella_reexports. rewrite Hi. cbn [bind]. rewrite Hp. cbn [bind]. intros H.
    by apply IH, (umbrella_loop_None _ _ H).
Qed.

(** An address resolved is a definition's, slid. *)
Lemma cache_resolves_defined n path symbol a :
  cache_resolves n path symbol a ->
  exists lib image trie target offset, lib ∈ libraries self /\ library_trie lib = Ok (Some (image, trie)) /\
    exports_trie_walk_for_symbol trie target = Ok (DefinedHere offset) /\
    a = (unslid_load_address lib + offset + cache_slide self) mod 2 ^ 64.
Proof.
  induction 1 as [n path lib symbol image trie offset u index k a El Ht Hw Hu Hl Ha| |]; [|done..].
  exists lib, image, trie, symbol, offset. split; [apply List.find_some in El as [Hin _]; by apply list_elem_of_In|].
  split; [done|]. split; [done|].
  apply in_range_Ok in Hu as [_ ->]; [|lia]. apply in_range_Ok in Ha as [_ ->]; [|lia].
  by rewrite Z.add_mod_idemp_l by lia.
Qed.

(** What a lookup answers, with [n] libraries left to visit: [None] when there
    are none left, for a library the cache does not have, and for a symbol that
    neither the library nor any of those it re-exports as a whole has; otherwise
    the address, that of the first of those libraries, in the order of the load
    commands, to give one. *)
Inductive cache_answers : nat -> bytes -> bytes -> option Z -> Prop :=
| answers_exhausted path symbol : cache_answers 0 path symbol None
| answers_not_cached n path symbol :
    library_find_by_install_path self path = None -> cache_answers (S n) path symbol None
| answers_address n path lib symbol image trie offset unslid index k a :
    library_find_by_install_path self path = Some lib ->
    library_trie lib = Ok (Some (image, trie)) ->
    exports_trie_walk_for_symbol trie symbol = Ok (DefinedHere offset) ->
    add64 (unslid_load_address lib) offset = @Ok string _ unslid ->
    subcache_and_offset_locate_from_addr (sub_caches self) unslid = @Ok string _ (Some (index, k)) ->
    add64 unslid (cache_slide self) = @Ok string _ a ->
    cache_answers (S n) path symbol (Some a)
| answers_reexport n path lib symbol image trie ord nm target_path r :
    library_find_by_install_path self path = Some lib ->
    library_trie lib = Ok (Some (image, trie)) ->
    exports_trie_walk_for_symbol trie symbol = Ok (ReexportedFromDependency ord nm) ->
    dylib_install_path_for_ordinal image ord = @Ok string _ (Some target_path) ->
    cache_answers n target_path (if bool_decide (nm = []) then symbol else nm) r ->
    cache_answers (S n) path symbol r
| answers_umbrella n path lib symbol image before q after a :
    library_find_by_install_path self path = Some lib ->
    not_exported lib symbol ->
    image_view_for_library self lib = Ok image ->
    reexported_dylib_paths_collect image = Ok (before ++ q :: after) ->
    (forall q', q' ∈ before -> cache_answers n q' symbol None) ->
    cache_answers n q symbol (Some a) ->
    cache_answers (S n) path symbol (Some a)
| answers_nowhere n path lib symbol image paths :
    library_find_by_install_path self path = Some lib ->
    not_exported lib symbol ->
    image_view_for_library self lib = Ok image ->
    reexported_dylib_paths_collect image = Ok paths ->
    (forall q, q ∈ paths -> cache_answers n q symbol None) ->
    cache_answers (S n) path symbol None.

(** The loop over the re-exported libraries stops at the first answer. *)
Lemma umbrella_loop_spec resolve paths r :
  umbrella_loop resolve paths = Ok r <->
  match r with
  | Some a => exists before q after, paths = before ++ q :: after /\
      Forall (fun q => resolve q = Ok None) before /\ resolve q = Ok (Some a)
  | None => Forall (fun q => resolve q = Ok None) paths
  end.
Proof.
  induction paths as [|q paths IH]; cbn [umbrella_loop].
  { destruct r as [a|]; split; try done. by intros ([|] & ? & ? & ? & _). }
  assert (resolve q <> Ok None -> (match r with
    | Some a => exists before q' after, q :: paths = before ++ q' :: after /\
        Forall (fun q => resolve q = Ok None) before /\ resolve q' = Ok (Some a)
    | None => Forall (fun q => resolve q = Ok None) (q :: paths)
    end <-> exists a, r = Some a /\ resolve q = Ok (Some a))) as Hfirst.
  { intros Hq. destruct r as [a|]; split.
    - intros ([|x before] & q' & after & [= -> ->] & Hb & Hr); [by exists a|by apply Forall_cons in Hb as [? _]].
    - intros (a' & [= <-] & Hr). by exists [], q, paths.
    - by intros [? _]%Forall_cons.
    - by intros (a & ? & _). }
  destruct (resolve q) as [[a'|]|e|w| |] eqn:Eq; cbn [bind].
  2: { rewrite IH. clear Hfirst. destruct r as [a|]; split.
    - intros (before & q' & after & -> & Hb & Hr). exists (q :: before), q', after. by split; [|split; [constructor|]].
    - intros ([|x before] & q' & after & [= -> ->] & Hb & Hr); [congruence|]. apply Forall_cons in Hb as [_ Hb]. eauto 6.
    - by constructor.
    - by intros [_ H]%Forall_cons. }
  all: rewrite Hfirst by done; split; [by intros [= <-]; eauto|by intros (a & -> & [= ->])].
Qed.

Lemma max_depth_answers n path symbol r :
  symbol_resolve_with_max_depth self n path symbol = Ok r <-> cache_answers n path symbol r.
Proof.
  revert path symbol r; induction n as [|n IH]; intros path symbol r; cbn [symbol_resolve_with_max_depth].
  { split; [intros [= <-]; constructor|by inversion 1]. }
  assert (forall paths, Forall (fun q => symbol_resolve_with_max_depth self n q symbol = Ok None) paths <->
    forall q, q ∈ paths -> cache_answers n q symbol None) as Hnone
    by (intros; rewrite Forall_forall; by setoid_rewrite IH).
  split.
  - destruct (library_find_by_install_path self path) as [lib|] eqn:El; [|intros [= <-]; by constructor].
    intros (o & Ho%try_resolve_Some & H)%bind_Ok. destruct o as [[a|tp ts]|].
    + injection H as <-. destruct Ho as (image & trie & offset & u & index & k & ? & ? & ? & ? & ?). by eapply answers_address.
    + destruct Ho as (image & trie & ord & nm & ? & ? & ? & ->). apply IH in H. by eapply answers_reexport.
    + apply bind_Ok in H as (image & Hi & (paths & Hp & H)%bind_Ok). apply umbrella_loop_spec in H. destruct r as [a|].
      * destruct H as (before & q & after & -> & Hb & Hq%IH). pose proof (proj1 (Hnone _) Hb). by eapply answers_umbrella.
      * pose proof (proj1 (Hnone _) H). by eapply answers_nowhere.
  - inversion 1 as [|? ? ? El|n' p lib sy image trie offset u index k a El Ht Hw Hu Hl Ha
      |n' p lib sy image trie ord nm tp r' El Ht Hw Hp Hr|n' p lib sy image before q after a El Hn Hi Hp Hb Hq
      |n' p lib sy image paths El Hn Hi Hp Hb]; subst; rewrite El; [done|..].
    + rewrite try_resolve_trie, Ht. cbn [bind]. rewrite Hw. cbn [as_option bind]. rewrite Hu. cbn [bind].
      unfold unslid_address_to_runtime_pointer_translate. rewrite Hl. cbn [bind]. by rewrite Ha.
    + rewrite try_resolve_trie, Ht. cbn [bind]. rewrite Hw. cbn [as_option bind]. rewrite Hp. cbn [bind]. by apply IH.
    + rewrite (not_exported_None _ _ Hn). cbn [bind]. unfold try_resolve_via_umbrella_reexports. rewrite Hi. cbn [bind].
      rewrite Hp. cbn [bind]. apply umbrella_loop_spec. exists before, q, after. split; [done|]. split; [exact (proj2 (Hnone _) Hb)|by apply IH].
    + rewrite (not_exported_None _ _ Hn). cbn [bind]. unfold try_resolve_via_umbrella_reexports. rewrite Hi. cbn [bind].
      rewrite Hp. cbn [bind]. apply umbrella_loop_spec. exact (proj2 (Hnone _) Hb).
Qed.

Lemma symbol_resolve_ends path symbol : ends (symbol_resolve self path symbol).
Proof.
  unfold symbol_resolve. generalize MAX_REEXPORT_RESOLUTION_DEPTH as n. intros n. revert path symbol.
  induction n as [|n IH]; intros path symbol; cbn [symbol_resolve_with_max_depth]; [exact I|].
  destruct (library_find_by_install_path self path) as [lib|]; [|exact I].
  apply ends_bind.
  - rewrite try_resolve_trie. apply ends_bind; [apply library_trie_ends|]. intros [[image trie]|] _; [|exact I].
    apply ends_bind; [solve_ends|]. intros [[offset|ord nm]|] _; [|solve_ends|exact I].
    apply ends_bind; [solve_ends|]. intros u _. apply ends_bind; [|done].
    unfold unslid_address_to_runtime_pointer_translate. apply ends_bind; [apply locate_from_ends|intros o _; solve_ends].
  - intros [[a|tp ts]|] _; [exact I|apply IH|]. unfold try_resolve_via_umbrella_reexports.
    apply ends_bind; [unfold image_view_for_library; solve_ends|]. intros image _.
    apply ends_bind; [solve_ends|]. intros paths _. induction paths as [|q paths IHp]; cbn [umbrella_loop]; [exact I|].
    apply ends_bind; [apply IH|]. intros [a|] _; [exact I|exact IHp].
Qed.

(** C10 Resolving a symbol in the cache gives exactly the answer [cache_answers]
    describes, with sixteen libraries to visit: an address when the
    chain of re-exports, by name or as a whole, leads to a definition, the first
    in the order the libraries are re-exported, and [None] when it ends without
    one, in a cycle for instance. It fails only where the relation has no answer,
    as it needs something of the cache that cannot be read or is not mapped, and
    then with an error or a panic. The address is the defining library's load
    address plus the offset in its trie plus the slide, modulo 2^64, and there is
    no other chain to a definition when the answer is [None]. *)
Theorem symbol_resolve_spec path symbol :
  (forall r, symbol_resolve self path symbol = Ok r <-> cache_answers 16 path symbol r) /\
  ends (symbol_resolve self path symbol) /\
  (forall a, cache_answers 16 path symbol (Some a) ->
     exists lib image trie target offset, lib ∈ libraries self /\ library_trie lib = Ok (Some (image, trie)) /\
       exports_trie_walk_for_symbol trie target = Ok (DefinedHere offset) /\
       a = (unslid_load_address lib + offset + cache_slide self) mod 2 ^ 64) /\
  (cache_answers 16 path symbol None -> forall a, ~ cache_resolves 16 path symbol a).
Proof.
  split; [intros r; apply max_depth_answers|]. split; [apply symbol_resolve_ends|]. split.
  - intros a Ha%max_depth_answers. by apply (cache_resolves_defined 16 path symbol), max_depth_sound.
  - intros H%max_depth_answers. by apply max_depth_complete.
Qed.
End Resolution.

(** ** An example cache

    One subcache with one mapping (unslid 0x1000, 4096 bytes) that holds one
    library, [l], whose exports trie is [ExportsTrie.example_trie]'s bytes. *)
#[local] Existing Instance scroll_ref.
#[local] Existing Instance dev_profile.

Definition mapping_bytes (address size file_offset : Z) : bytes :=
  u64le address ++ u64le size ++ u64le file_offset ++ u32le 5 ++ u32le 5.

Definition segment_command_bytes (segname : bytes) (vmaddr vmsize fileoff : Z) : bytes :=
  u32le 0x19 ++ u32le 72 ++ segname ++ replicate (16 - length segname) x00 ++
  u64le vmaddr ++ u64le vmsize ++ u64le fileoff ++ u64le vmsize ++
  u32le 1 ++ u32le 1 ++ u32le 0 ++ u32le 0.

Definition pad_to (n : nat) (bs : bytes) : bytes := bs ++ replicate (n - length bs) x00.

Definition example_subcache_bytes : bytes :=
  pad_to 512 (mapping_bytes 0x1000 0x1000 0 ++ example_header 6 2 ++
    segment_command_bytes (bstr "__LINKEDIT") 0x1200 0x100 512 ++
    u32le 0x80000033 ++ u32le 16 ++ u32le 512 ++ u32le 10) ++
  [x00; x01; x5f; x66; x00; x06; x02; x00; x10; x00].

Definition example_subcache : DyldSharedSubCache :=
  Mk_DyldSharedSubCache (image_le example_subcache_bytes) 0x1000 0 1.

Definition example_cache : DyldSharedCache :=
  Mk_DyldSharedCache [example_subcache] [Mk_SharedCacheLibrary 0 32 (bstr "l") 0x1020] 0x7000.

Example example_cache_resolve : symbol_resolve example_cache (bstr "l") (bstr "_f") = Ok (Some 0x8030).
Proof. vm_compute. reflexivity. Qed.

(** [_f] is at the address the cache gives, and [_g] is not in it. *)
Lemma symbol_resolve_spec_witness :
  cache_answers example_cache 16 (bstr "l") (bstr "_f") (Some 0x8030) /\
  cache_answers example_cache 16 (bstr "l") (bstr "_g") None /\
  forall a, ~ cache_resolves example_cache 16 (bstr "l") (bstr "_g") a.
Proof.
  destruct (symbol_resolve_spec example_cache (bstr "l") (bstr "_f")) as (Hf & _).
  destruct (symbol_resolve_spec example_cache (bstr "l") (bstr "_g")) as (Hg & _ & _ & Hnone).
  assert (cache_answers example_cache 16 (bstr "l") (bstr "_g") None) as H0 by (apply Hg; vm_compute; reflexivity).
  split; [apply Hf; exact example_cache_resolve|]. split; [exact H0|exact (Hnone H0)].
Defined.

Lemma example_table_ok : table_ok example_subcache.
Proof.
  intros E i Hi. change (mapping_table_entry_count example_subcache) with 1 in Hi.
  replace i with 0 by lia. exists (Mk_dyld_cache_mapping_info 0x1000 0x1000 0 5 5).
  split; [vm_compute; reflexivity|]. cbn. lia.
Qed.

Lemma translations_agree_witness :
  table_ok example_subcache /\
  runtime_offset_for_file_offset example_subcache 512 =
    (let* a := vm_address_for_file_offset example_subcache 512 in
     match a with
     | Some a => @runtime_offset_for_vm_address _ _ string example_subcache a
     | None => Ok None
     end) /\
  forall a, vm_address_for_file_offset example_subcache 512 = @Ok string _ (Some a) ->
    runtime_offset_for_file_offset example_subcache 512 =
      @Ok string _ (Some (a - unslid_base_vm_address example_subcache)).
Proof.
  split; [apply example_table_ok|].
  apply (@translations_agree scroll_ref dev_profile string example_subcache 512 example_table_ok); cbn; lia.
Defined.

(** A main cache mapped at 0x200000000 whose header names one mapping. *)
Definition example_cache_memory : memory :=
  mem_of 0x200000000 (pad_to 4096 (pad_to (Z.to_nat (size_of dyld_cache_header))
    (bstr "dyld_v1  arm64e" ++ [x00] ++ u32le (size_of dyld_cache_header) ++ u32le 1) ++
    mapping_bytes 0x180000000 0x1000 0)).

Lemma example_attached_locates :
  match from_existing example_cache_memory cache_new 0x200000000 0x80000000 with
  | Ok self =>
      match @subcache_and_offset_locate_from_addr _ _ string (sub_caches self) 0x180000010 with
      | Ok (Some (index, offset)) => (index =? 0) && (offset =? 16)
      | _ => false
      end
  | _ => false
  end = true.
Proof. vm_compute. reflexivity. Qed.

Lemma example_base : read_main_cache_unslid_base_from example_cache_memory 0x200000000 = Ok 0x180000000.
Proof. vm_compute. reflexivity. Qed.

Lemma located_address_is_slid_witness :
  exists self, from_existing example_cache_memory cache_new 0x200000000 0x80000000 = Ok self /\
  read_main_cache_unslid_base_from example_cache_memory 0x200000000 = Ok 0x180000000 /\
  0x200000000 = ptr_add 0x180000000 0x80000000 /\
  subcache_and_offset_locate_from_addr (sub_caches self) 0x180000010 = @Ok string _ (Some (0, 16)) /\
  (exists s, sub_caches self !! Z.to_nat 0 = Some s) /\
  (zlen (sub_caches self) <= 256 -> exists s, sub_caches self !! Z.to_nat 0 = Some s /\
     ptr_add (s_ptr (data (sub_container s))) 16 = ptr_add 0x180000010 0x80000000).
Proof.
  pose proof example_attached_locates as Ha.
  destruct (from_existing example_cache_memory cache_new 0x200000000 0x80000000) as [self|e|w| |] eqn:Hs; [|discriminate Ha..].
  destruct (subcache_and_offset_locate_from_addr (sub_caches self) 0x180000010)
    as [[[i o]|]|?|?| |] eqn:Hl; [|discriminate Ha..].
  apply andb_true_iff in Ha as [Hi Ho]. apply Z.eqb_eq in Hi, Ho. subst i o.
  exists self. split; [exact eq_refl|]. split; [exact example_base|]. split; [vm_compute; reflexivity|].
  split; [exact Hl|].
  exact (@located_address_is_slid scroll_ref dev_profile string example_cache_memory 0x200000000
    0x180000000 0x80000000 self 0x180000010 0 16 example_base eq_refl Hs Hl).
Defined.

(** A main cache with one mapping, at 552, and one image, at 584, whose path
    follows. *)
Definition indexed_bytes : bytes :=
  pad_to 552 (pad_to 448 (bstr "dyld_v1  arm64e" ++ [x00] ++ u32le 552 ++ u32le 1) ++ u32le 584 ++ u32le 1) ++
  mapping_bytes 0x1000 0x1000 0 ++ u64le 0x1020 ++ u64le 0 ++ u64le 0 ++ u32le 616 ++ u32le 0 ++ bstr "/l" ++ [x00].
Definition indexed_main : DyldSharedSubCache := Mk_DyldSharedSubCache (image_le indexed_bytes) 0x1000 552 1.
Definition indexed_cache : DyldSharedCache := Mk_DyldSharedCache [indexed_main] [] 0x7000.

Lemma indexed_cache_libraries :
  main_cache_libraries_index_all indexed_cache =
    Ok (Mk_DyldSharedCache [indexed_main] [Mk_SharedCacheLibrary 0 0x20 (bstr "/l") 0x1020] 0x7000).
Proof. vm_compute. reflexivity. Qed.

Lemma main_cache_libraries_index_all_spec_witness :
  exists header entries, dsc_header_read (image_le indexed_bytes) = Ok header /\
    zlen entries = ch_images_count header /\
    (forall i libs, entries !! i = Some libs ->
       indexed [indexed_main] indexed_main (ch_images_offset header + 32 * Z.of_nat i) libs) /\
    [Mk_SharedCacheLibrary 0 0x20 (bstr "/l") 0x1020] = [] ++ concat entries.
Proof.
  destruct (@main_cache_libraries_index_all_spec scroll_ref _ dev_profile indexed_cache indexed_main _
    eq_refl indexed_cache_libraries) as (_ & _ & H). exact H.
Defined.
