(* ===== verification/Fixups.v ===== *)
(** Chained fixups: [src/fixups.rs].

    Parsing the chains of [LC_DYLD_CHAINED_FIXUPS] into a list of fixups, and
    applying the list to the mapped image, where each fixup stores a pointer.
    Parsing is shown to terminate on any input with fixups inside the image;
    applying is shown to write each fixup's own value and nothing else. *)
From S2P Require Import Prelude Scroll Bindings Container ArrayVec Memory Image MachOImage Dylib SharedCache.

Definition PAGE_STARTS_OFFSET : Z := 22.

Inductive FixupKind :=
| Rebase (target : Z)
| Bind (symbol_name : FixedString) (ordinal : Z) (is_auth : bool) (addend : Z).

Record Fixup := Mk_Fixup { fx_offset : Z; fx_kind : FixupKind }.

Definition fixup_rebase (offset target : Z) : Fixup := Mk_Fixup offset (Rebase target).
Definition fixup_bind (offset : Z) (symbol_name : FixedString) (ordinal addend : Z) (is_auth : bool) : Fixup :=
  Mk_Fixup offset (Bind symbol_name ordinal is_auth addend).

(** [loader::Library]: a library of the shared cache by its install name, or
    one loaded from disk. *)
Inductive Library :=
| System (name : bytes)
| User (c : Container).

(** ** Parsing *)

Section Parse.
Context {sc : Scroll} {bp : BuildProfile} (c : Container).

Definition read_u16 (off : Z) := @deserialize_type_at_offset sc Z pread_u16 c off.
Definition read_u32 (off : Z) := @deserialize_type_at_offset sc Z pread_u32 c off.
Definition read_u64 (off : Z) := @deserialize_type_at_offset sc Z pread_u64 c off.

(** [while let Some(load_command { cmd, cmdsize }) = iterator.try_next()?]: the
    offset of the chained fixups command, if there is one. *)
Fixpoint chained_fixups_command_find (fuel : nat) (it : LCIterator) (next_load_command_offset : Z)
    : result (option Z) :=
  match fuel with
  | O => Diverge
  | S k =>
      let* r := try_next it in
      match r with
      | (it, Some lc) =>
          if bool_decide (lc_cmd lc = LC_DYLD_CHAINED_FIXUPS) then Ok (Some next_load_command_offset)
          else
            let* off := add64 next_load_command_offset (lc_cmdsize lc) in
            chained_fixups_command_find k it off
      | (_, None) => Ok None
      end
  end.

Definition chained_fixups_header_and_offset_find : result (option (Z * dyld_chained_fixups_header)) :=
  let* it := try_with_container c in
  let* found := chained_fixups_command_find (S (Z.to_nat (lci_remaining it))) it (size_of mach_header_64) in
  match found with
  | None => Ok None
  | Some off =>
      let* lc := map_err "error: could not find `linkedit_data_command`"
        (deserialize_type_at_offset linkedit_data_command c off) in
      let* header := map_err "error: could not find `dyld_chained_fixups_header`"
        (deserialize_type_at_offset dyld_chained_fixups_header c (ld_dataoff lc)) in
      Ok (Some (ld_dataoff lc, header))
  end.

(** Where the imports and their names are *)
Context (imports_format : dyld_chained_import_format_variants) (imports_offset symbols_offset : Z).

Definition import_symbol_parse (ordinal : Z) : result (Z * FixedString) :=
  let* (lib_ordinal, name_offset) :=
    match imports_format with
    | DYLD_CHAINED_IMPORT =>
        let* i := mul_w 32 ordinal 4 in
        let* off := add64 imports_offset i in
        let* import := map_err "error: could parse a dyld_chained_import_format_variants::DYLD_CHAINED_IMPORT from imports_offset"
          (deserialize_type_at_offset dyld_chained_import c off) in
        Ok (dyld_chained_import_lib_ordinal (im_0 import), dyld_chained_import_name_offset (im_0 import))
    | DYLD_CHAINED_IMPORT_ADDEND =>
        let* i := mul_w 32 ordinal 8 in
        let* off := add64 imports_offset i in
        let* import := map_err "error: could parse a dyld_chained_import_format_variants::DYLD_CHAINED_IMPORT_ADDEND from imports_offset"
          (deserialize_type_at_offset dyld_chained_import_addend c off) in
        Ok (dyld_chained_import_lib_ordinal (im_0 (ia_header import)), as_u 32 (ia_addend import))
    | DYLD_CHAINED_IMPORT_ADDEND64 =>
        let* i := mul_w 32 ordinal 16 in
        let* off := add64 imports_offset i in
        let* import := map_err "error: could parse a dyld_chained_import_format_variants::DYLD_CHAINED_IMPORT_ADDEND64 from imports_offset"
          (deserialize_type_at_offset dyld_chained_import_addend64 c off) in
        Ok (dyld_chained_import_lib_ordinal (im_0 (ib_header import)), as_u 32 (ib_addend import))
    end in
  let* off := add64 symbols_offset name_offset in
  let* text := deserialize_string_at_offset c off in
  let* name := try_from_str (Z.to_nat SYMBOL_NAME_LEN) text in
  let* name := or_panic "called `Option::unwrap()` on a `None` value" name in
  Ok (lib_ordinal, name).

(** [(value >> i) & 1 == 1] *)
Definition bit_is_set (value i : Z) : bool := Z.land (Z.shiftr value i) 1 =? 1.

Definition fixup_64_parse_one (value offset : Z) : result (Z * Fixup) :=
  if bit_is_set value 63 then
    let* (lib_ordinal, symbol_name) := import_symbol_parse (dyld_chained_ptr_64_bind_ordinal value) in
    let* next := mul64 (dyld_chained_ptr_64_bind_next value) 4 in
    Ok (next, Mk_Fixup offset (Bind symbol_name lib_ordinal false (dyld_chained_ptr_64_bind_addend value)))
  else
    let target := dyld_chained_ptr_64_rebase_target value in
    let high8 := as_u 64 (Z.shiftl (dyld_chained_ptr_64_rebase_high8 value) 56) in
    let* next := mul64 (dyld_chained_ptr_64_rebase_next value) 4 in
    Ok (next, Mk_Fixup offset (Rebase (Z.lor target high8))).

Definition fixup_arm64e_parse_one (value offset : Z) : result (Z * Fixup) :=
  let bind := bit_is_set value 62 in
  let auth := bit_is_set value 63 in
  if bind then
    if auth then
      let* (lib_ordinal, symbol_name) := import_symbol_parse (dyld_chained_ptr_arm64e_auth_bind_ordinal value) in
      let* next := mul64 (dyld_chained_ptr_arm64e_auth_bind_next value) 8 in
      Ok (next, fixup_bind offset symbol_name lib_ordinal 0 true)
    else
      let* (lib_ordinal, symbol_name) := import_symbol_parse (dyld_chained_ptr_arm64e_bind_ordinal value) in
      let* next := mul64 (dyld_chained_ptr_arm64e_bind_next value) 8 in
      Ok (next, fixup_bind offset symbol_name lib_ordinal (dyld_chained_ptr_arm64e_bind_addend value) false)
  else if auth then
    let* next := mul64 (dyld_chained_ptr_arm64e_auth_rebase_next value) 8 in
    Ok (next, fixup_rebase offset (dyld_chained_ptr_arm64e_auth_rebase_target value))
  else
    let high8 := as_u 64 (Z.shiftl (dyld_chained_ptr_arm64e_rebase_high8 value) 56) in
    let* next := mul64 (dyld_chained_ptr_arm64e_rebase_next value) 8 in
    Ok (next, fixup_rebase offset (Z.lor (dyld_chained_ptr_arm64e_rebase_target value) high8)).

Definition fixup_arm64e_userland24_parse_one (value offset : Z) : result (Z * Fixup) :=
  let bind := bit_is_set value 62 in
  let auth := bit_is_set value 63 in
  if bind then
    if auth then
      let* (lib_ordinal, symbol_name) := import_symbol_parse (dyld_chained_ptr_arm64e_auth_bind_24_ordinal value) in
      let* next := mul64 (dyld_chained_ptr_arm64e_auth_bind_24_next value) 8 in
      Ok (next, fixup_bind offset symbol_name lib_ordinal 0 true)
    else
      let* (lib_ordinal, symbol_name) := import_symbol_parse (dyld_chained_ptr_arm64e_bind_24_ordinal value) in
      let* next := mul64 (dyld_chained_ptr_arm64e_bind_24_next value) 8 in
      Ok (next, fixup_bind offset symbol_name lib_ordinal (dyld_chained_ptr_arm64e_bind_24_addend value) false)
  else fixup_arm64e_parse_one value offset.

(** The [match] on the pointer format *)
Definition fixup_parse_one (pointer_format : dyld_chained_ptr_format_variants) (value offset : Z)
    : result (Z * Fixup) :=
  match pointer_format with
  | DYLD_CHAINED_PTR_64 | DYLD_CHAINED_PTR_64_OFFSET => fixup_64_parse_one value offset
  | DYLD_CHAINED_PTR_ARM64E | DYLD_CHAINED_PTR_ARM64E_USERLAND => fixup_arm64e_parse_one value offset
  | DYLD_CHAINED_PTR_ARM64E_USERLAND24 => fixup_arm64e_userland24_parse_one value offset
  | _ => Panic "not implemented: pointer format"
  end.

(** The [loop] along one chain *)
Fixpoint chain_loop (fuel : nat) (pointer_format : dyld_chained_ptr_format_variants)
    (chain_offset : Z) (fixups : list Fixup) : result (list Fixup) :=
  match fuel with
  | O => Diverge
  | S k =>
      let* fixup_value := map_err "error: could read the fixup value from a chain_offset"
        (read_u64 chain_offset) in
      let* (next_offset, fixup) := fixup_parse_one pointer_format fixup_value chain_offset in
      let fixups := fixups ++ [fixup] in
      if next_offset =? 0 then Ok fixups
      else
        let* chain_offset := add64 chain_offset next_offset in
        chain_loop k pointer_format chain_offset fixups
  end.

(** Each link of a chain is at least four bytes further, and inside the image. *)
Definition chain_fuel : nat := S (length (raw c)).

Definition page_parse (seg_starts_offset : Z) (seg : dyld_chained_starts_in_segment)
    (page_index : Z) (fixups : list Fixup) : result (list Fixup) :=
  let* table := add32 seg_starts_offset PAGE_STARTS_OFFSET in
  let* i := mul64 page_index 2 in
  let* off := add64 table i in
  let* page_start := map_err "error: could not read the page starts array" (read_u16 off) in
  let* page := mul64 page_index (ss_page_size seg) in
  let* off := add64 (ss_segment_offset seg) page in
  let* chain_offset := add64 off page_start in
  chain_loop chain_fuel (ss_pointer_format seg) chain_offset fixups.

Definition segment_parse (starts_offset seg_offset_index : Z) (fixups : list Fixup) : result (list Fixup) :=
  let* off := add64 starts_offset (size_of dyld_chained_starts_in_image) in
  let* i := mul64 seg_offset_index 4 in
  let* seg_offset_address := add64 off i in
  let* seg_offset := map_err "error: could not find `dyld_chained_starts_in_image`"
    (read_u32 seg_offset_address) in
  if seg_offset =? 0 then Ok fixups
  else
    let* seg_starts_offset := add32 starts_offset seg_offset in
    let* seg := map_err "error: could not read `dyld_chained_starts_in_segment` from a segment offset"
      (deserialize_type_at_offset dyld_chained_starts_in_segment c seg_starts_offset) in
    for_range (Z.to_nat (ss_page_count seg)) 0 (page_parse seg_starts_offset seg) fixups.
End Parse.

Definition chained_fixups_parse_all `{Scroll} {bp : BuildProfile} (c : Container) : result (list Fixup) :=
  let* found := chained_fixups_header_and_offset_find c in
  match found with
  | None => Ok []
  | Some (fixup_data_offset, header) =>
      let* starts_offset := add32 fixup_data_offset (cf_starts_offset header) in
      let* starts := map_err "error: could not find `dyld_chained_starts_in_image`"
        (deserialize_type_at_offset dyld_chained_starts_in_image c starts_offset) in
      let* imports_offset := add32 fixup_data_offset (cf_imports_offset header) in
      let* symbols_offset := add32 fixup_data_offset (cf_symbols_offset header) in
      for_range (Z.to_nat (si_seg_count starts)) 0
        (segment_parse c (cf_imports_format header) imports_offset symbols_offset starts_offset) []
  end.

(** ** Applying *)

Section Apply.
Context {sc : Scroll} {bp : BuildProfile}.

(** [symbols.iter().find(|sym| sym.array_string_cmp(symbol_name))] *)
Fixpoint symbol_find {E} (symbols : list Symbol) (symbol_name : FixedString) : outcome E (option Symbol) :=
  match symbols with
  | [] => Ok None
  | sym :: r =>
      let* eq := array_string_cmp sym symbol_name in
      if eq : bool then Ok (Some sym) else symbol_find r symbol_name
  end.

Definition fixup_dylib_weak_symbol (m : memory) (vm_start_ptr fixup_offset page_zero_size : Z)
    (symbols : list Symbol) (symbol_name : FixedString) : result memory :=
  let dst_addr := ptr_add (ptr_add vm_start_ptr fixup_offset) page_zero_size in
  let* found := symbol_find symbols symbol_name in
  let* symbol := ok_or
    "could not find a matching symbol while fixing up a BIND_SPECIAL_DYLIB_WEAK_LOOKUP" found in
  store_u64 m dst_addr (ptr_add vm_start_ptr (impl_offset symbol)).

Definition fixup_regular_symbol (m : memory) (vm_start_ptr fixup_offset page_zero_size : Z)
    (symbol_name : FixedString) (library : Library) (dyld_shared_cache : option DyldSharedCache)
    : result memory :=
  let dst_addr := ptr_add (ptr_add vm_start_ptr page_zero_size) fixup_offset in
  match library, dyld_shared_cache with
  | System library_name, Some shared_cache =>
      let* symbol := as_str symbol_name in
      let* resolved := symbol_resolve shared_cache library_name symbol in
      let* resolved_symbol := ok_or "could not find a symbol in the dyld shared cache" resolved in
      store_u64 m dst_addr resolved_symbol
  | User lib_container, _ =>
      let* symbol := as_str symbol_name in
      let* sym := dylib_symbol_resolve lib_container symbol in
      let* sym := ok_or "failed to find symbol in user dylib" sym in
      match sym with
      | Defined_ offset_from_mach_header =>
          store_u64 m dst_addr (ptr_add (s_ptr (as_bytes lib_container)) offset_from_mach_header)
      | Reexported _ _ => Panic "not implemented: DylibSymbol::Reexported"
      end
  | _, _ => Err "failed to link library"
  end.

Section All.
Context (dst_ptr page_zero_size : Z) (symbols : list Symbol) (dylibs : list Library)
  (dyld_shared_cache : option DyldSharedCache) (ignore_binds : bool).

(** One iteration of [fixup_all_chained_fixups] *)
Definition fixup_apply (f : Fixup) (m : memory) : result memory :=
  match fx_kind f with
  | Rebase target =>
      store_u64 m (ptr_add (ptr_add dst_ptr (fx_offset f)) page_zero_size)
        (ptr_add (ptr_add dst_ptr target) page_zero_size)
  | Bind symbol_name ordinal _ _ =>
      if ignore_binds then Ok m
      else if ordinal =? BIND_SPECIAL_DYLIB_SELF then
        Err "BIND_SPECIAL_DYLIB_SELF is not yet supported"
      else if ordinal =? BIND_SPECIAL_DYLIB_MAIN_EXECUTABLE then
        Err "BIND_SPECIAL_DYLIB_MAIN_EXECUTABLE is not yet supported"
      else if ordinal =? BIND_SPECIAL_DYLIB_FLAT_LOOKUP then
        Err "BIND_SPECIAL_DYLIB_FLAT_LOOKUP is not yet supported"
      else if ordinal =? BIND_SPECIAL_DYLIB_WEAK_LOOKUP then
        fixup_dylib_weak_symbol m dst_ptr (fx_offset f) page_zero_size symbols symbol_name
      else
        let* i := sub64 ordinal 1 in
        let* library := index_at dylibs i in
        fixup_regular_symbol m dst_ptr (fx_offset f) page_zero_size symbol_name library dyld_shared_cache
  end.

Definition fixup_all_chained_fixups (fixups : list Fixup) (m : memory) : result memory :=
  for_each fixups fixup_apply m.

(** ** What a fixup stores *)

(** The address a fixup writes to. *)
Definition fixup_address (f : Fixup) : Z := ptr_add (ptr_add dst_ptr (fx_offset f)) page_zero_size.

(** The pointer of a bind against one library. *)
Definition library_pointer (symbol_name : FixedString) (library : Library) : result Z :=
  match library, dyld_shared_cache with
  | System library_name, Some shared_cache =>
      let* symbol := as_str symbol_name in
      let* resolved := symbol_resolve shared_cache library_name symbol in
      ok_or "could not find a symbol in the dyld shared cache" resolved
  | User lib_container, _ =>
      let* symbol := as_str symbol_name in
      let* sym := dylib_symbol_resolve lib_container symbol in
      let* sym := ok_or "failed to find symbol in user dylib" sym in
      match sym with
      | Defined_ offset => Ok (ptr_add (s_ptr (data lib_container)) offset)
      | Reexported _ _ => Panic "not implemented: DylibSymbol::Reexported"
      end
  | _, _ => Err "failed to link library"
  end.

(** The pointer a fixup stores; [None] for a bind that is skipped. It does not
    depend on the memory. *)
Definition fixup_pointer (f : Fixup) : result (option Z) :=
  match fx_kind f with
  | Rebase target => Ok (Some (ptr_add (ptr_add dst_ptr target) page_zero_size))
  | Bind symbol_name ordinal _ _ =>
      if ignore_binds then Ok None
      else if ordinal =? 0 then Err "BIND_SPECIAL_DYLIB_SELF is not yet supported"
      else if ordinal =? 255 then Err "BIND_SPECIAL_DYLIB_MAIN_EXECUTABLE is not yet supported"
      else if ordinal =? 254 then Err "BIND_SPECIAL_DYLIB_FLAT_LOOKUP is not yet supported"
      else if ordinal =? 253 then
        let* found := symbol_find symbols symbol_name in
        let* symbol := ok_or
          "could not find a matching symbol while fixing up a BIND_SPECIAL_DYLIB_WEAK_LOOKUP" found in
        Ok (Some (ptr_add dst_ptr (impl_offset symbol)))
      else
        let* i := sub64 ordinal 1 in
        let* library := index_at dylibs i in
        let* p := library_pointer symbol_name library in
        Ok (Some p)
  end.

Definition store_pointer (m : memory) (f : Fixup) (p : option Z) : result memory :=
  match p with Some v => store_u64 m (fixup_address f) v | None => Ok m end.

Lemma ptr_add_comm3 p a b : ptr_add (ptr_add p a) b = ptr_add (ptr_add p b) a.
Proof. rewrite !ptr_add_assoc. f_equal. lia. Qed.

#[local] Opaque symbol_resolve dylib_symbol_resolve.

(** A fixup computes its pointer, then stores it. *)
Lemma fixup_apply_pointer f m :
  fixup_apply f m = let* p := fixup_pointer f in store_pointer m f p.
Proof.
  unfold fixup_apply, fixup_pointer, store_pointer, fixup_address. destruct (fx_kind f) as [t|nm ord a ad]; [done|].
  destruct ignore_binds; [done|].
  unfold BIND_SPECIAL_DYLIB_SELF, BIND_SPECIAL_DYLIB_MAIN_EXECUTABLE,
    BIND_SPECIAL_DYLIB_FLAT_LOOKUP, BIND_SPECIAL_DYLIB_WEAK_LOOKUP.
  destruct (ord =? 0); [done|]. destruct (ord =? 255); [done|]. destruct (ord =? 254); [done|].
  destruct (ord =? 253).
  - unfold fixup_dylib_weak_symbol. rewrite !bind_assoc.
    destruct (symbol_find symbols nm) as [[sym|]|e|w| |]; done.
  - rewrite !bind_assoc. destruct (sub64 ord 1) as [i|e|w| |]; cbn; try done.
    rewrite !bind_assoc. destruct (index_at dylibs i) as [lib|e|w| |]; cbn; try done.
    unfold fixup_regular_symbol, library_pointer. rewrite (ptr_add_comm3 dst_ptr).
    destruct lib as [lname|lc], dyld_shared_cache as [cache|]; try done;
      rewrite ?bind_assoc; destruct (as_str nm) as [s|e|w| |]; cbn; try done; rewrite ?bind_assoc.
    + destruct (symbol_resolve cache lname s) as [[v|]|e|w| |]; done.
    + destruct (dylib_symbol_resolve lc s) as [[[o|tp ts]|]|e|w| |]; done.
    + destruct (dylib_symbol_resolve lc s) as [[[o|tp ts]|]|e|w| |]; done.
Qed.

(** The pointers of all fixups, up to the first that has none. *)
Fixpoint fixup_pointers (fixups : list Fixup) : result (list (option Z)) :=
  match fixups with
  | [] => Ok []
  | f :: r =>
      let* p := fixup_pointer f in
      let* ps := fixup_pointers r in
      Ok (p :: ps)
  end.

(** No two fixups overlap, and each is in mapped memory. *)
Definition fixups_ok (m : memory) (fixups : list Fixup) : Prop :=
  Forall (fun f => mapped m (fixup_address f) 8) fixups /\
  List.ForallOrdPairs (fun f g => disjoint8 (fixup_address f) (fixup_address g)) fixups.

Lemma store_pointer_mapped m f p :
  mapped m (fixup_address f) 8 ->
  exists m', store_pointer m f p = Ok m' /\ dom m' = dom m /\
    (forall a, (p <> None -> ~ fixup_address f <= a < fixup_address f + 8) -> m' !! a = m !! a) /\
    forall v, p = Some v -> load_u64 m' (fixup_address f) = Some (v mod 2 ^ 64).
Proof.
  intros Hm. destruct p as [v|]; cbn.
  - destruct (@store_u64_mapped string m (fixup_address f) v Hm) as (m' & -> & Hd & Ho & Hl).
    exists m'. split_and!; try done; [|by intros ? [= <-]]. intros a Ha. by apply Ho, Ha.
  - exists m. by split_and!.
Qed.

(** Fixups that lie in mapped memory and do not overlap are stored one by one. *)
Lemma fixup_all_stores fixups m :
  fixups_ok m fixups ->
  match fixup_pointers fixups with
  | Ok ps =>
      exists m', fixup_all_chained_fixups fixups m = Ok m' /\ dom m' = dom m /\
        (forall i f v, fixups !! i = Some f -> ps !! i = Some (Some v) ->
           load_u64 m' (fixup_address f) = Some (v mod 2 ^ 64)) /\
        (forall a, (forall i f v, fixups !! i = Some f -> ps !! i = Some (Some v) ->
             ~ fixup_address f <= a < fixup_address f + 8) -> m' !! a = m !! a)
  | Err e => fixup_all_chained_fixups fixups m = Err e
  | Panic w => fixup_all_chained_fixups fixups m = Panic w
  | Fault => fixup_all_chained_fixups fixups m = Fault
  | Diverge => fixup_all_chained_fixups fixups m = Diverge
  end.
Proof.
  unfold fixup_all_chained_fixups. revert m.
  induction fixups as [|f fixups IH]; intros m [Hm Hd]; cbn [for_each fixup_pointers].
  { by exists m. }
  apply Forall_cons in Hm as [Hf Hm]. inversion Hd as [|? ? Hfd Hd']; subst.
  rewrite fixup_apply_pointer. destruct (fixup_pointer f) as [p|e|w| |]; cbn [bind]; try done.
  destruct (store_pointer_mapped m f p Hf) as (m1 & -> & Hdom & Hout & Hin). cbn [bind].
  assert (fixups_ok m1 fixups) as Hok.
  { split; [|done]. eapply Forall_impl; [exact Hm|]. intros g Hg. by eapply mapped_dom. }
  specialize (IH m1 Hok). destruct (fixup_pointers fixups) as [ps|e|w| |]; cbn [bind]; try exact IH.
  destruct IH as (m' & H' & Hdom' & Hl & Ho).
  exists m'. split; [done|]. split; [congruence|]. split.
  - intros [|i] g v; [intros [= <-] [= ->]|exact (Hl i g v)].
    rewrite <- (Hin v eq_refl). unfold load_u64. f_equal.
    destruct Hf as (? & ? & _). apply load_bytes_ext; [lia|lia|]. intros a Ha. apply Ho.
    intros j g' v' Hg' _. rewrite Forall_forall in Hfd. specialize (Hfd g' (list_elem_of_lookup_2 _ _ _ Hg')).
    unfold disjoint8 in Hfd. lia.
  - intros a Ha. rewrite Ho.
    + apply Hout. destruct p as [v|]; [|done]. intros _. by apply (Ha 0%nat f v).
    + intros j g' v' Hg' Hv'. by apply (Ha (S j) g' v').
Qed.

(** C7 Applying fixups that lie in mapped memory and do not overlap stores, at
    each fixup's address, the pointer that fixup stands for (the rebased
    target, the definition of the bound symbol; a skipped bind stores nothing)
    and changes no other byte. When some symbol cannot be bound, applying ends
    in the same error or panic as that bind; no fixup's pointer depends on
    those stored before it. *)
Theorem fixup_all_chained_fixups_spec fixups m :
  fixups_ok m fixups ->
  match fixup_pointers fixups with
  | Ok ps =>
      exists m', fixup_all_chained_fixups fixups m = Ok m' /\ dom m' = dom m /\
        (forall i f v, fixups !! i = Some f -> ps !! i = Some (Some v) ->
           load_u64 m' (fixup_address f) = Some (v mod 2 ^ 64)) /\
        (forall a, (forall i f v, fixups !! i = Some f -> ps !! i = Some (Some v) ->
             ~ fixup_address f <= a < fixup_address f + 8) -> m' !! a = m !! a)
  | Err e => fixup_all_chained_fixups fixups m = Err e
  | Panic w => fixup_all_chained_fixups fixups m = Panic w
  | Fault => fixup_all_chained_fixups fixups m = Fault
  | Diverge => fixup_all_chained_fixups fixups m = Diverge
  end.
Proof. exact (fixup_all_stores fixups m). Qed.
End All.
End Apply.

(** ** Parsing ends *)

Section ParseLemmas.
Context `{SL : ScrollLaws} {bp : BuildProfile}.

Section One.
Context (c : Container) (imports_format : dyld_chained_import_format_variants)
  (imports_offset symbols_offset : Z).
Hypothesis Hsyms : 0 <= symbols_offset.

Lemma import_symbol_parse_ends ordinal :
  ends (import_symbol_parse c imports_format imports_offset symbols_offset ordinal).
Proof.
  unfold import_symbol_parse. apply ends_bind.
  - destruct imports_format;
      repeat (apply ends_bind; [apply ends_in_range|intros ? _]);
      (apply ends_bind; [apply ends_map_err, ends_deserialize|done]).
  - intros [lib nm] _. apply ends_bind; [apply ends_in_range|]. intros off Hoff.
    apply ends_bind; [apply deserialize_string_ends|]. intros text Ht.
    apply in_range_Ok in Hoff as [[Hoff _] _]; [|lia].
    apply (deserialize_string_spec_utf8 c off text Hoff) in Ht.
    pose proof (@try_from_str_spec string bp (Z.to_nat SYMBOL_NAME_LEN) text ltac:(done) Ht) as Hn.
    destruct (zlen text <=? _); [destruct Hn as (this & -> & _)|rewrite Hn]; done.
Qed.

(** What the caller of a fixup parser relies on. *)
Definition parses_one (offset : Z) (m : result (Z * Fixup)) : Prop :=
  ends m /\ forall next f, m = Ok (next, f) -> fx_offset f = offset /\ (next = 0 \/ 4 <= next < 2 ^ 20).

Lemma parses_one_next {A} offset (m : result A) v k (g : A -> Z -> Fixup) :
  ends m -> 0 <= v < 2 ^ 16 -> k = 4 \/ k = 8 -> (forall a n, fx_offset (g a n) = offset) ->
  parses_one offset (let* a := m in let* next := mul64 v k in Ok (next, g a next)).
Proof.
  intros Hm Hv Hk Hg. unfold parses_one, mul_w.
  rewrite in_range_fits by (unfold fits; destruct Hk as [-> | ->]; lia).
  destruct m as [a|e|w| |]; cbn; try done. split; [done|].
  intros next f [= <- <-]. split; [apply Hg|]. destruct Hk as [-> | ->]; lia.
Qed.

Lemma parses_one_plain offset v k (g : Z -> Fixup) :
  0 <= v < 2 ^ 16 -> k = 4 \/ k = 8 -> (forall n, fx_offset (g n) = offset) ->
  parses_one offset (let* next := mul64 v k in Ok (next, g next)).
Proof. intros Hv Hk Hg. by apply (parses_one_next offset (Ok tt) v k (fun _ => g)). Qed.

Lemma as_u16_range z : 0 <= as_u 16 z < 2 ^ 16.
Proof. apply Z.mod_pos_bound. lia. Qed.

Lemma fixup_parse_one_parses pointer_format value offset :
  parses_one offset (fixup_parse_one c imports_format imports_offset symbols_offset pointer_format value offset).
Proof.
  assert (forall o, ends (import_symbol_parse c imports_format imports_offset symbols_offset o)) as Hi
    by apply import_symbol_parse_ends.
  assert (forall (m : result (Z * FixedString)) v k (g : Z -> FixedString -> Fixup), ends m ->
    0 <= v < 2 ^ 16 -> k = 4 \/ k = 8 -> (forall a b, fx_offset (g a b) = offset) ->
    parses_one offset (let* (a, b) := m in let* next := mul64 v k in Ok (next, g a b))) as Hb.
  { intros m v k g Hm Hv Hk Hg. destruct m as [[a b]|e|w| |]; try done.
    by apply (parses_one_plain offset v k (fun _ => g a b)). }
  assert (parses_one offset (fixup_arm64e_parse_one c imports_format imports_offset symbols_offset value offset)) as He.
  { unfold fixup_arm64e_parse_one. destruct (bit_is_set value 62), (bit_is_set value 63).
    1,2: apply Hb; (apply as_u16_range || auto).
    - apply (parses_one_plain _ _ _ (fun _ => fixup_rebase _ _)); (apply as_u16_range || auto).
    - apply (parses_one_plain _ _ _ (fun _ => fixup_rebase _ _)); (apply as_u16_range || auto). }
  assert (parses_one offset (fixup_64_parse_one c imports_format imports_offset symbols_offset value offset)) as H64.
  { unfold fixup_64_parse_one. destruct (bit_is_set value 63).
    - apply Hb; (apply as_u16_range || auto).
    - apply (parses_one_plain _ _ _ (fun _ => Mk_Fixup _ _)); (apply as_u16_range || auto). }
  destruct pointer_format; cbn [fixup_parse_one];
    lazymatch goal with
    | |- parses_one _ (Panic _) => split; [exact I|discriminate]
    | |- parses_one _ (fixup_64_parse_one _ _ _ _ _ _) => exact H64
    | |- parses_one _ (fixup_arm64e_parse_one _ _ _ _ _ _) => exact He
    | _ => idtac
    end.
  unfold fixup_arm64e_userland24_parse_one.
  destruct (bit_is_set value 62), (bit_is_set value 63); try exact He; apply Hb; (apply as_u16_range || auto).
Qed.

(** The symbol a bind names is text. *)
Definition fixup_named (f : Fixup) : Prop :=
  match fx_kind f with Bind nm _ _ _ => exists t, text_rep nm t | Rebase _ => True end.

Lemma import_symbol_parse_named ordinal lib nm :
  import_symbol_parse c imports_format imports_offset symbols_offset ordinal = Ok (lib, nm) -> exists t, text_rep nm t.
Proof.
  unfold import_symbol_parse.
  intros ([l no] & _ & (off & Hoff & (text & Ht & (n & Hn & H)%bind_Ok)%bind_Ok)%bind_Ok)%bind_Ok.
  destruct n as [n|]; [|done]. injection H as <- <-. apply in_range_Ok in Hoff as [[Hoff _] _]; [|lia].
  apply (deserialize_string_spec_utf8 c off text Hoff) in Ht.
  pose proof (@try_from_str_spec string bp (Z.to_nat SYMBOL_NAME_LEN) text ltac:(done) Ht) as Hs.
  destruct (zlen text <=? _); [destruct Hs as (this & Hs & Hr)|]; rewrite Hn in Hs; [injection Hs as ->; eauto|done].
Qed.

Lemma fixup_parse_one_named pointer_format value offset next f :
  fixup_parse_one c imports_format imports_offset symbols_offset pointer_format value offset = Ok (next, f) -> fixup_named f.
Proof.
  assert (forall (m : result (Z * FixedString)) v k (g : Z -> FixedString -> Fixup),
    (forall lib nm, m = Ok (lib, nm) -> exists t, text_rep nm t) ->
    (forall lib nm, (exists t, text_rep nm t) -> fixup_named (g lib nm)) ->
    (let* (a, b) := m in let* next := mul64 v k in Ok (next, g a b)) = Ok (next, f) -> fixup_named f) as Hb.
  { intros m v k g Hm Hg ([lib nm] & Hi & (n & _ & [= _ <-])%bind_Ok)%bind_Ok. by apply Hg, (Hm lib). }
  assert (forall v k g, fixup_named g -> (let* next := mul64 v k in Ok (next, g)) = @Ok string _ (next, f) -> fixup_named f) as Hr.
  { intros v k g Hg (n & _ & [= _ <-])%bind_Ok. exact Hg. }
  destruct pointer_format; cbn [fixup_parse_one]; try discriminate;
    unfold fixup_64_parse_one, fixup_arm64e_userland24_parse_one, fixup_arm64e_parse_one;
    repeat match goal with |- context [bit_is_set ?v ?i] => destruct (bit_is_set v i) end;
    first [by apply Hr|apply Hb; [intros ? ?; apply import_symbol_parse_named|done]].
Qed.

Lemma chain_loop_named pointer_format fuel off fixups l :
  chain_loop c imports_format imports_offset symbols_offset fuel pointer_format off fixups = Ok l ->
  Forall fixup_named fixups -> Forall fixup_named l.
Proof.
  revert off fixups; induction fuel as [|k IH]; intros off fixups; cbn [chain_loop]; [done|].
  intros (v & _ & ([next f] & Hf%fixup_parse_one_named & H)%bind_Ok)%bind_Ok Hall.
  assert (Forall fixup_named (fixups ++ [f])) by (apply Forall_app; split; [done|by constructor]).
  destruct (next =? 0); [by injection H as <-|]. apply bind_Ok in H as (o & _ & H). by eapply IH.
Qed.

(** The fixup lies inside the image. *)
Definition fixup_inside (f : Fixup) : Prop := 0 <= fx_offset f /\ fx_offset f + 8 <= zlen (raw c).

Lemma chain_loop_ends pointer_format fuel off fixups :
  rust_slice (raw c) -> 0 <= off -> (Z.to_nat (zlen (raw c) - off) < fuel)%nat ->
  Forall fixup_inside fixups ->
  let m := chain_loop c imports_format imports_offset symbols_offset fuel pointer_format off fixups in
  ends m /\ forall l, m = Ok l -> Forall fixup_inside l.
Proof.
  intros Hs. revert off fixups; induction fuel as [|k IH]; intros off fixups Hoff Hk Hf; [lia|].
  cbn [chain_loop]. unfold read_u64.
  destruct (@deserialize_type_at_offset _ Z pread_u64 c off) as [v|[]|w| |] eqn:Ed; cbn;
    try (split; [done|by intros ? [=]]); try by (unfold deserialize_type_at_offset in Ed; destruct (pread_with _ _ _ _)).
  apply deserialize_Ok in Ed as [Hle _]; [|done]. change (layout_size (@fields_of Z pread_u64)) with 8 in Hle.
  destruct (fixup_parse_one_parses pointer_format v off) as [He Hp].
  destruct (fixup_parse_one _ _ _ _ pointer_format v off) as [[next f]|e|w| |]; cbn; try done.
  destruct (Hp next f eq_refl) as [Ho Hn].
  assert (Forall fixup_inside (fixups ++ [f])) as Hf'.
  { apply Forall_app. split; [done|]. constructor; [|constructor]. unfold fixup_inside. rewrite Ho. lia. }
  destruct (Z.eqb_spec next 0) as [->|Hne]; [split; [done|by intros l [= <-]]|].
  unfold rust_slice in Hs. unfold add_w. rewrite in_range_fits by (unfold fits; lia). cbn.
  apply IH; [lia|lia|done].
Qed.
End One.

Section All.
Context (c : Container).
Hypothesis Hs : rust_slice (raw c).

Definition parse_ok (m : result (list Fixup)) : Prop :=
  ends m /\ forall l, m = Ok l -> Forall (fixup_inside c) l.

Lemma parse_ok_bind {A} (m : result A) f :
  ends m -> (forall a, m = Ok a -> parse_ok (f a)) -> parse_ok (bind m f).
Proof.
  intros Hm Hf. destruct m as [a|e|w| |]; [by apply Hf|by split|by split|destruct Hm|destruct Hm].
Qed.

Lemma page_parse_ok fmt imports symbols seg_starts seg page_index fixups :
  0 <= symbols -> Forall (fixup_inside c) fixups ->
  parse_ok (page_parse c fmt imports symbols seg_starts seg page_index fixups).
Proof.
  intros Hsym Hf. unfold page_parse.
  do 3 (apply parse_ok_bind; [apply ends_in_range|intros ? _]).
  apply parse_ok_bind; [apply ends_map_err, ends_deserialize|intros page_start _].
  do 2 (apply parse_ok_bind; [apply ends_in_range|intros ? _]).
  apply parse_ok_bind; [apply ends_in_range|]. intros off Hoff.
  apply in_range_Ok in Hoff as [[Hoff _] _]; [|lia].
  apply chain_loop_ends; try done. unfold chain_fuel. len.
Qed.

Lemma segment_parse_ok fmt imports symbols starts i fixups :
  0 <= symbols -> Forall (fixup_inside c) fixups ->
  parse_ok (segment_parse c fmt imports symbols starts i fixups).
Proof.
  intros Hsym Hf. unfold segment_parse.
  do 3 (apply parse_ok_bind; [apply ends_in_range|intros ? _]).
  apply parse_ok_bind; [apply ends_map_err, ends_deserialize|]. intros seg_offset _.
  destruct (seg_offset =? 0); [split; [exact I|by intros l [= <-]]|].
  apply parse_ok_bind; [apply ends_in_range|intros ? _].
  apply parse_ok_bind; [apply ends_map_err, ends_deserialize|]. intros seg _.
  apply for_range_ends; [done|]. intros j l _ Hl. by apply page_parse_ok.
Qed.

Lemma command_find_ends fuel it off :
  0 <= lci_remaining it -> (Z.to_nat (lci_remaining it) < fuel)%nat ->
  ends (chained_fixups_command_find fuel it off).
Proof.
  revert it off; induction fuel as [|k IH]; intros it off Hr Hk; [lia|].
  cbn [chained_fixups_command_find]. unfold try_next.
  destruct (Z.eqb_spec (lci_remaining it) 0) as [_|Hne]; [exact I|].
  rewrite bind_assoc. apply ends_bind; [apply ends_map_err, ends_deserialize|]. intros lc _.
  rewrite bind_assoc. apply ends_bind; [apply ends_in_range|]. intros o _.
  rewrite bind_assoc. apply ends_bind; [apply ends_in_range|]. intros r Hrem.
  unfold sub_w in Hrem. apply in_range_Ok in Hrem as [[? _] ->]; [|lia]. cbn [bind].
  destruct (bool_decide _); [exact I|]. apply ends_bind; [apply ends_in_range|]. intros o' _.
  assert ((lci_remaining it - 1) mod 2 ^ 64 <= lci_remaining it - 1) by (apply Z.mod_le; lia).
  apply IH; cbn [lci_remaining]; lia.
Qed.

Lemma header_find_ends : ends (chained_fixups_header_and_offset_find c).
Proof.
  unfold chained_fixups_header_and_offset_find, try_with_container. rewrite bind_assoc.
  destruct (deserialize_type_at_offset mach_header_64 c 0) as [h|[]|w| |] eqn:Eh; cbn [map_err bind];
    try exact I; try by (unfold deserialize_type_at_offset in Eh; destruct (pread_with _ _ _ _)).
  apply mach_header_ncmds in Eh as [Hn _]; [|done].
  apply ends_bind; [apply command_find_ends; cbn [lci_remaining]; lia|]. intros [o|] _; [|exact I].
  do 2 (apply ends_bind; [apply ends_map_err, ends_deserialize|intros ? _]). exact I.
Qed.

Lemma chained_fixups_parse_ok : parse_ok (chained_fixups_parse_all c).
Proof.
  unfold chained_fixups_parse_all.
  apply parse_ok_bind; [apply header_find_ends|].
  intros [[off header]|] _; [|split; [exact I|by intros l [= <-]]].
  apply parse_ok_bind; [apply ends_in_range|intros starts_offset _].
  apply parse_ok_bind; [apply ends_map_err, ends_deserialize|intros starts _].
  apply parse_ok_bind; [apply ends_in_range|intros imports _].
  apply parse_ok_bind; [apply ends_in_range|]. intros symbols Hsym.
  apply in_range_Ok in Hsym as [[Hsym _] _]; [|lia].
  apply for_range_ends; [done|]. intros j l _ Hl. by apply segment_parse_ok.
Qed.

Lemma chained_fixups_parse_named l : chained_fixups_parse_all c = Ok l -> Forall fixup_named l.
Proof.
  unfold chained_fixups_parse_all. intros ([[off h]|] & _ & H)%bind_Ok; [|by injection H as <-].
  apply bind_Ok in H as (st & _ & (starts & _ & (im & _ & (sy & Hsy & H)%bind_Ok)%bind_Ok)%bind_Ok).
  apply in_range_Ok in Hsy as [[Hsy _] _]; [|lia].
  refine (for_range_inv (fun _ => Forall fixup_named) _ _ _ _ _ (Forall_nil_2 _) _ H).
  intros j l1 l2 _ Hl1. unfold segment_parse. intros (? & _ & (? & _ & (? & _ & (so & _ & Hg)%bind_Ok)%bind_Ok)%bind_Ok)%bind_Ok.
  destruct (so =? 0); [by injection Hg as <-|]. apply bind_Ok in Hg as (? & _ & (seg & _ & Hg)%bind_Ok).
  refine (for_range_inv (fun _ => Forall fixup_named) _ _ _ _ _ Hl1 _ Hg).
  intros i l3 l4 _ Hl3. unfold page_parse.
  intros (? & _ & (? & _ & (? & _ & (? & _ & (? & _ & (? & _ & (? & _ & Hc)%bind_Ok)%bind_Ok)%bind_Ok)%bind_Ok)%bind_Ok)%bind_Ok)%bind_Ok.
  by eapply chain_loop_named in Hc.
Qed.

(** C9 Parsing the chained fixups of any image ends: whatever the chains, page
    tables and imports hold, the result is a list of fixups, an error or a
    panic; no chain is followed for ever, since each link moves at least four
    bytes on inside the image. Every fixup of the list lies inside the image:
    the eight bytes at its offset exist. *)
Theorem chained_fixups_parse_all_ends :
  ends (chained_fixups_parse_all c) /\
  forall l, chained_fixups_parse_all c = Ok l ->
    Forall (fun f => 0 <= fx_offset f /\ fx_offset f + 8 <= zlen (raw c)) l.
Proof. exact chained_fixups_parse_ok. Qed.
End All.

(** ** What parsing finds *)

Section Chains.
Context (c : Container).

(** What the word [v] at offset [off] says: the fixup there and the distance to
    the next, given the pointer format and the tables of imports *)
Definition word_relation : Type :=
  dyld_chained_import_format_variants -> Z -> Z -> dyld_chained_ptr_format_variants -> Z -> Z -> Z -> Fixup -> Prop.

Definition no_fixups_command (x : load_command * Z) : Prop := lc_cmd (fst x) <> LC_DYLD_CHAINED_FIXUPS.

(** Where the header of the fixups is: what the first chained fixups command among
    the image's load commands points to; nowhere if there is none. *)
Definition fixups_header_at (r : option (Z * dyld_chained_fixups_header)) : Prop :=
  exists h, deserialize_type_at_offset mach_header_64 c 0 = Ok h /\
    match r with
    | None => exists cmds, commands c 32 (Z.to_nat (mh_ncmds h)) cmds /\ Forall no_fixups_command cmds
    | Some (off, header) => exists n cmds lc at_ cmd,
        (n < Z.to_nat (mh_ncmds h))%nat /\ commands c 32 (S n) (cmds ++ [(lc, at_)]) /\
        Forall no_fixups_command cmds /\ lc_cmd lc = LC_DYLD_CHAINED_FIXUPS /\
        deserialize_type_at_offset linkedit_data_command c at_ = Ok cmd /\ off = ld_dataoff cmd /\
        deserialize_type_at_offset dyld_chained_fixups_header c off = Ok header
    end.

(** The tables, for a reading of the words and of the starts of pages that say
    the page has no fixups *)
Section Tables.
Context (word : word_relation) (no_fixups : Z -> bool).

(** The fixups of the chain that starts at an offset, to the word whose distance
    to the next is zero *)
Inductive chain_at (imports_format : dyld_chained_import_format_variants) (imports symbols : Z)
    (fmt : dyld_chained_ptr_format_variants) : Z -> list Fixup -> Prop :=
| chain_last off v f :
    read_u64 c off = Ok v -> word imports_format imports symbols fmt off v 0 f ->
    chain_at imports_format imports symbols fmt off [f]
| chain_link off v next f l :
    read_u64 c off = Ok v -> word imports_format imports symbols fmt off v next f ->
    next <> 0 -> chain_at imports_format imports symbols fmt (off + next) l ->
    chain_at imports_format imports symbols fmt off (f :: l).

(** The fixups of page [j] of a segment: the chain at the page's first fixup, if
    it has any *)
Definition page_fixups imports_format imports symbols (seg_starts : Z)
    (seg : dyld_chained_starts_in_segment) (j : Z) (l : list Fixup) : Prop :=
  exists page_start,
    read_u16 c (seg_starts + 22 + 2 * j) = Ok page_start /\
    if no_fixups page_start then l = []
    else chain_at imports_format imports symbols (ss_pointer_format seg)
      (ss_segment_offset seg + j * ss_page_size seg + page_start) l.

(** The fixups of segment [i]: none if its entry in the table is zero, otherwise
    those of its pages in order *)
Definition segment_fixups imports_format imports symbols (starts i : Z) (l : list Fixup) : Prop :=
  exists seg_offset, read_u32 c (starts + 4 + 4 * i) = Ok seg_offset /\
    if seg_offset =? 0 then l = []
    else exists seg pages,
      deserialize_type_at_offset dyld_chained_starts_in_segment c (starts + seg_offset) = Ok seg /\
      zlen pages = ss_page_count seg /\
      (forall j p, pages !! j = Some p ->
         page_fixups imports_format imports symbols (starts + seg_offset) seg (Z.of_nat j) p) /\
      l = concat pages.

(** The fixups of an image: none without a chained fixups command, otherwise
    those of its segments in order; the tables are where the header says,
    relative to it. *)
Definition tables_fixups (l : list Fixup) : Prop :=
  fixups_header_at None /\ l = [] \/
  exists off header starts segs,
    fixups_header_at (Some (off, header)) /\
    deserialize_type_at_offset dyld_chained_starts_in_image c (off + cf_starts_offset header) = Ok starts /\
    off + cf_imports_offset header < 2 ^ 32 /\ off + cf_symbols_offset header < 2 ^ 32 /\
    zlen segs = si_seg_count starts /\
    (forall i g, segs !! i = Some g ->
       segment_fixups (cf_imports_format header) (off + cf_imports_offset header) (off + cf_symbols_offset header)
         (off + cf_starts_offset header) (Z.of_nat i) g) /\
    l = concat segs.

End Tables.

(** The reading the parser has *)
Definition parsed_word : word_relation := fun imports_format imports symbols fmt off v next f =>
  fixup_parse_one c imports_format imports symbols fmt v off = Ok (next, f).
Definition never (page_start : Z) : bool := false.

Context (Hs : zlen (raw c) < 2 ^ 32).

Lemma chain_loop_spec imports_format imports symbols fmt fuel off fixups l :
  0 <= off -> (Z.to_nat (zlen (raw c) - off) < fuel)%nat ->
  chain_loop c imports_format imports symbols fuel fmt off fixups = Ok l <->
  exists g, chain_at parsed_word imports_format imports symbols fmt off g /\ l = fixups ++ g.
Proof.
  revert off fixups; induction fuel as [|k IH]; intros off fixups Hoff Hk; [lia|].
  cbn [chain_loop]. rewrite bind_Ok. setoid_rewrite map_err_Ok.
  assert (forall v, read_u64 c off = Ok v -> off + 8 <= zlen (raw c)) as Hin.
  { intros v Hv. by apply (deserialize_Ok Z (H := pread_u64)) in Hv as [? _]. }
  split.
  - intros (v & Hv & ([next f] & Hp & H)%bind_Ok). specialize (Hin v Hv).
    destruct (fixup_parse_one_parses c imports_format imports symbols fmt v off) as [_ Hone].
    destruct (Hone next f Hp) as [_ Hnext]. destruct (Z.eqb_spec next 0) as [->|Hne].
    + injection H as <-. exists [f]. split; [|done]. by eapply chain_last.
    + unfold add_w in H. rewrite in_range_fits in H by (unfold fits; lia). cbn [bind] in H.
      apply IH in H as (g & Hg & ->); [|lia|lia]. exists (f :: g). rewrite <- app_assoc. split; [|done].
      by eapply chain_link.
  - intros (g & Hg & ->). destruct Hg as [off v f Hv Hp|off v next f g Hv Hp Hne Hg]; exists v; (split; [done|]);
      rewrite Hp; cbn [bind]; [done|]. rewrite (proj2 (Z.eqb_neq next 0)) by done. specialize (Hin v Hv).
    destruct (fixup_parse_one_parses c imports_format imports symbols fmt v off) as [_ Hone].
    destruct (Hone next f Hp) as [_ Hnext].
    unfold add_w. rewrite in_range_fits by (unfold fits; lia). cbn [bind].
    apply IH; [lia|lia|]. exists g. by rewrite <- app_assoc.
Qed.

Context (Hdev : overflow_checks = true).

Lemma read_u16_range off v : read_u16 c off = Ok v -> 0 <= off -> 0 <= v < 2 ^ 16 /\ off + 2 <= zlen (raw c).
Proof.
  intros Hr Hoff. split; [|by apply (deserialize_Ok Z (H := pread_u16)) in Hr as [? _]].
  apply (deserialize_wf Z (H := pread_u16)) in Hr as (_ & [v0 []] & -> & Hv); [|done|repeat constructor]. by destruct Hv.
Qed.

Lemma read_u32_range off v : read_u32 c off = Ok v -> 0 <= off -> 0 <= v < 2 ^ 32 /\ off + 4 <= zlen (raw c).
Proof.
  intros Hr Hoff. split; [|by apply (deserialize_Ok Z (H := pread_u32)) in Hr as [? _]].
  apply (deserialize_wf Z (H := pread_u32)) in Hr as (_ & [v0 []] & -> & Hv); [|done|repeat constructor]. by destruct Hv.
Qed.

Lemma chain_at_inside imports_format imports symbols fmt off l :
  chain_at parsed_word imports_format imports symbols fmt off l -> 0 <= off -> off + 8 <= zlen (raw c).
Proof.
  intros Hc Hoff. assert (exists v, read_u64 c off = Ok v) as [v Hv] by (destruct Hc; eauto).
  by apply (deserialize_Ok Z (H := pread_u64)) in Hv as [? _].
Qed.

(** A segment's table entry: its fields are in range. *)
Definition segment_ok (seg : dyld_chained_starts_in_segment) : Prop :=
  fits 64 (ss_segment_offset seg) /\ fits 16 (ss_page_size seg) /\ fits 16 (ss_page_count seg).

Lemma segment_read_ok off seg :
  deserialize_type_at_offset dyld_chained_starts_in_segment c off = Ok seg -> 0 <= off -> segment_ok seg.
Proof.
  intros Hd Hoff. apply deserialize_wf in Hd as (_ & vs & -> & Hv); [|done|repeat constructor].
  destruct vs as (? & ? & ? & ? & ? & ? & ? & []). cbn in *. by destruct Hv as (_ & ? & _ & ? & _ & ? & _).
Qed.

Lemma page_parse_spec imports_format imports symbols seg_starts seg j fixups l :
  0 <= seg_starts -> 0 <= j < 2 ^ 16 -> segment_ok seg ->
  page_parse c imports_format imports symbols seg_starts seg j fixups = Ok l <->
  exists g, page_fixups parsed_word never imports_format imports symbols seg_starts seg j g /\ l = fixups ++ g.
Proof.
  intros Hst Hj (Ho & Hp & _). unfold page_parse, page_fixups, never, fits in *. change PAGE_STARTS_OFFSET with 22.
  assert (0 <= j * ss_page_size seg < 2 ^ 32) by nia.
  split.
  - intros (t & [_ ->]%in_range_checked & (i & [_ ->]%in_range_checked & (o1 & [_ ->]%in_range_checked &
      (ps & Hps%map_err_Ok & (pg & [_ ->]%in_range_checked & (o2 & [_ ->]%in_range_checked &
      (o3 & [_ ->]%in_range_checked & Hc)%bind_Ok)%bind_Ok)%bind_Ok)%bind_Ok)%bind_Ok)%bind_Ok)%bind_Ok; try exact Hdev.
    rewrite Z.mul_comm in Hps. destruct (read_u16_range _ _ Hps ltac:(lia)) as [Hps' _].
    apply chain_loop_spec in Hc as (g & Hg & ->); [|lia|unfold chain_fuel; len]. eauto 6.
  - intros (g & (ps & Hps & Hc) & ->). destruct (read_u16_range _ _ Hps ltac:(lia)) as [Hps' Hin].
    pose proof (chain_at_inside _ _ _ _ _ _ Hc ltac:(lia)).
    unfold add_w, mul_w. rewrite (in_range_fits 32) by (unfold fits; lia). cbn [bind].
    rewrite in_range_fits by (unfold fits; lia). cbn [bind]. rewrite in_range_fits by (unfold fits; lia). cbn [bind].
    rewrite (Z.mul_comm j 2), Hps. cbn [map_err bind]. rewrite in_range_fits by (unfold fits; lia). cbn [bind].
    rewrite in_range_fits by (unfold fits; lia). cbn [bind]. rewrite in_range_fits by (unfold fits; lia). cbn [bind].
    apply chain_loop_spec; [lia|unfold chain_fuel; len|]. eauto.
Qed.

Lemma segment_parse_spec imports_format imports symbols starts i fixups l :
  0 <= starts -> 0 <= i < 2 ^ 32 ->
  segment_parse c imports_format imports symbols starts i fixups = Ok l <->
  exists g, segment_fixups parsed_word never imports_format imports symbols starts i g /\ l = fixups ++ g.
Proof.
  intros Hst Hi. unfold segment_parse, segment_fixups. change (size_of dyld_chained_starts_in_image) with 4.
  assert (forall seg_offset seg pages, 0 <= starts + seg_offset -> segment_ok seg ->
    for_range (Z.to_nat (ss_page_count seg)) 0 (page_parse c imports_format imports symbols (starts + seg_offset) seg) fixups = Ok pages <->
    exists gs, length gs = Z.to_nat (ss_page_count seg) /\ (forall k g, gs !! k = Some g ->
      page_fixups parsed_word never imports_format imports symbols (starts + seg_offset) seg (0 + Z.of_nat k) g) /\
      pages = fixups ++ concat gs) as Hpages.
  { intros so seg pages Hso Hseg. apply for_range_concat. intros j t t' Hj.
    destruct Hseg as (? & ? & Hct) eqn:E. clear E. unfold fits in Hct. apply page_parse_spec; [lia|lia|done]. }
  split.
  - intros (o & [_ ->]%in_range_checked & (k & [_ ->]%in_range_checked & (a & [_ ->]%in_range_checked &
      (so & Hso%map_err_Ok & H)%bind_Ok)%bind_Ok)%bind_Ok)%bind_Ok; try exact Hdev.
    rewrite (Z.mul_comm i 4) in Hso. destruct (read_u32_range _ _ Hso ltac:(lia)) as [Hsr _].
    destruct (Z.eqb_spec so 0) as [->|Hne].
    { injection H as <-. exists []. rewrite app_nil_r. split; [|done]. by exists 0. }
    apply bind_Ok in H as (st & [_ ->]%in_range_checked & (seg & Hseg%map_err_Ok & H)%bind_Ok); [|exact Hdev].
    pose proof (segment_read_ok _ _ Hseg ltac:(lia)) as Hok.
    apply Hpages in H as (gs & Hlen & Hgs & ->); [|lia|done]. exists (concat gs). split; [|done].
    exists so. split; [done|]. rewrite (proj2 (Z.eqb_neq so 0)) by done. exists seg, gs.
    destruct Hok as (_ & _ & Hct). unfold fits in Hct. split_and!; try done. len.
  - intros (g & (so & Hso & Hg) & ->). destruct (read_u32_range _ _ Hso ltac:(lia)) as [Hsr Hin].
    unfold add_w, mul_w. rewrite in_range_fits by (unfold fits; lia). cbn [bind].
    rewrite in_range_fits by (unfold fits; lia). cbn [bind]. rewrite in_range_fits by (unfold fits; lia). cbn [bind].
    rewrite (Z.mul_comm i 4), Hso. cbn [map_err bind]. destruct (Z.eqb_spec so 0) as [->|Hne]; [by rewrite Hg, app_nil_r|].
    destruct Hg as (seg & pages & Hseg & Hlen & Hgs & ->). pose proof (segment_read_ok _ _ Hseg ltac:(lia)) as Hok.
    pose proof (proj1 (deserialize_Ok dyld_chained_starts_in_segment c (starts + so) seg ltac:(lia) Hseg)) as Hin2.
    change (layout_size (fields_of dyld_chained_starts_in_segment)) with 24 in Hin2.
    rewrite in_range_fits by (unfold fits; lia). cbn [bind]. rewrite Hseg. cbn [map_err bind].
    apply Hpages; [lia|done|]. exists pages. split; [len|]. done.
Qed.

(** *** The tables of the image *)

Lemma command_find_nonneg fuel it off o :
  0 <= off -> chained_fixups_command_find fuel it off = Ok (Some o) -> 0 <= o.
Proof.
  revert it off; induction fuel as [|k IH]; intros it off Hoff; cbn [chained_fixups_command_find]; [done|].
  intros ([it' [lc|]] & _ & H)%bind_Ok; [|done]. destruct (bool_decide _); [by injection H as <-|].
  apply bind_Ok in H as (off' & Ho & H). apply in_range_Ok in Ho as [[? _] _]; [|lia]. by apply IH in H.
Qed.

Definition header_ok (off : Z) (h : dyld_chained_fixups_header) : Prop :=
  fits 32 off /\ fits 32 (cf_starts_offset h) /\ fits 32 (cf_imports_offset h) /\ fits 32 (cf_symbols_offset h).

Lemma header_find_ok off h : chained_fixups_header_and_offset_find c = Ok (Some (off, h)) -> header_ok off h.
Proof.
  unfold chained_fixups_header_and_offset_find.
  intros (it & _ & ([o|] & Hf & H)%bind_Ok)%bind_Ok; [|done]. apply command_find_nonneg in Hf; [|done].
  apply bind_Ok in H as (lc & Hlc%map_err_Ok & (h' & Hh%map_err_Ok & [= <- <-])%bind_Ok).
  apply deserialize_wf in Hlc as (_ & vs & -> & Hv); [|done|repeat constructor].
  destruct vs as (? & ? & ? & ? & []). cbn in *. destruct Hv as (_ & _ & Hd & _).
  apply deserialize_wf in Hh as (_ & vs & -> & Hv); [|by destruct Hd|repeat constructor].
  destruct vs as (? & ? & ? & ? & ? & ? & ? & []). cbn in *. destruct Hv as (_ & ? & ? & ? & _). by split_and!.
Qed.

Lemma command_find_spec fuel off n r :
  0 <= off -> Z.of_nat n < 2 ^ 64 -> (n < fuel)%nat ->
  chained_fixups_command_find fuel (Mk_LCIterator c off (Z.of_nat n)) off = Ok r <->
  match r with
  | None => exists cmds, commands c off n cmds /\ Forall no_fixups_command cmds
  | Some o => exists m cmds lc, (m < n)%nat /\ commands c off (S m) (cmds ++ [(lc, o)]) /\
      Forall no_fixups_command cmds /\ lc_cmd lc = LC_DYLD_CHAINED_FIXUPS
  end.
Proof.
  assert (rust_slice (raw c)) as Hrs by (unfold rust_slice; lia).
  revert off n; induction fuel as [|k IH]; intros off n Hoff Hn Hk; [lia|].
  cbn [chained_fixups_command_find]. unfold try_next. cbn [lci_remaining lci_offset lci_container].
  destruct n as [|n].
  { cbn. destruct r as [o|]; split; try done.
    - intros (m & _ & _ & ? & _). lia.
    - intros _. exists []. split; constructor. }
  rewrite (proj2 (Z.eqb_neq _ _)) by lia.
  destruct (deserialize_type_at_offset load_command c off) as [lc|[]|why| |] eqn:Ed; cbn [map_err bind];
    try by (split; [done|]; destruct r as [o|];
      [intros (m & [|[]] & lc & _ & Hc & _); inversion Hc; congruence|intros (? & Hc & _); inversion Hc; congruence]).
  destruct (next_command_offset c off lc Hrs Hoff Ed) as [Hpos Hadd].
  rewrite Hadd. cbn [bind]. unfold sub_w. rewrite in_range_fits by (unfold fits; lia). cbn [bind].
  replace (Z.of_nat (S n) - 1) with (Z.of_nat n) by lia. case_bool_decide as Ec.
  - split.
    + intros [= <-]. exists 0%nat, [], lc. split; [lia|]. split; [by repeat constructor|]. by split.
    + destruct r as [o|].
      * intros (m & [|x cmds] & lc' & _ & Hc & Hf & _); inversion Hc; subst; [done|].
        apply Forall_cons in Hf as [Hx _]. unfold no_fixups_command in Hx. cbn in Hx. congruence.
      * intros (cmds & Hc & Hf). inversion Hc; subst. apply Forall_cons in Hf as [Hx _].
        unfold no_fixups_command in Hx. cbn in Hx. congruence.
  - rewrite Hadd. cbn [bind]. rewrite IH by lia. destruct r as [o|]; split.
    + intros (m & cmds & lc' & Hm & Hc & Hf & Hl). exists (S m), ((lc, off) :: cmds), lc'.
      split; [lia|]. split; [by constructor|]. split; [by constructor|done].
    + intros (m & [|x cmds] & lc' & Hm & Hc & Hf & Hl); inversion Hc; subst; [congruence|].
      apply Forall_cons in Hf as [_ Hf]. rewrite Ed in *. simplify_eq.
      destruct m as [|m].
      { match goal with H : commands _ _ O _ |- _ => apply commands_length in H; rewrite length_app in H; cbn in H; lia end. }
      exists m, cmds, lc'. split; [lia|done].
    + intros (cmds & Hc & Hf). exists ((lc, off) :: cmds). by split; constructor.
    + intros (cmds & Hc & Hf). inversion Hc; subst. apply Forall_cons in Hf as [_ Hf].
      rewrite Ed in *. simplify_eq. eauto.
Qed.

(** The search stops at the first chained fixups command. *)
Lemma header_find_spec r : chained_fixups_header_and_offset_find c = Ok r <-> fixups_header_at r.
Proof.
  unfold chained_fixups_header_and_offset_find, fixups_header_at, try_with_container. rewrite bind_assoc, bind_Ok.
  setoid_rewrite map_err_Ok. cbn [bind]. change (size_of mach_header_64) with 32.
  assert (forall h o, deserialize_type_at_offset mach_header_64 c 0 = Ok h ->
    chained_fixups_command_find (S (Z.to_nat (mh_ncmds h))) (Mk_LCIterator c 32 (mh_ncmds h)) 32 = Ok o <->
    match o with
    | None => exists cmds, commands c 32 (Z.to_nat (mh_ncmds h)) cmds /\ Forall no_fixups_command cmds
    | Some o => exists m cmds lc, (m < Z.to_nat (mh_ncmds h))%nat /\ commands c 32 (S m) (cmds ++ [(lc, o)]) /\
        Forall no_fixups_command cmds /\ lc_cmd lc = LC_DYLD_CHAINED_FIXUPS
    end) as Hfind.
  { intros h o Hh. pose proof (mach_header_ncmds _ _ _ ltac:(done) Hh) as Hf. unfold fits in Hf.
    pose proof (command_find_spec (S (Z.to_nat (mh_ncmds h))) 32 (Z.to_nat (mh_ncmds h)) o) as H.
    rewrite Z2Nat.id in H by lia. apply H; lia. }
  split.
  - intros (h & Hh & H). exists h. split; [done|]. cbn [lci_remaining] in H.
    apply bind_Ok in H as (o & Ho & H). apply (Hfind h o Hh) in Ho. destruct o as [o|]; [|by injection H as <-].
    apply bind_Ok in H as (cmd & Hcmd%map_err_Ok & (hd & Hhd%map_err_Ok & [= <-])%bind_Ok).
    destruct Ho as (m & cmds & lc & ? & ? & ? & ?). by exists m, cmds, lc, o, cmd.
  - intros (h & Hh & H). exists h. split; [done|]. cbn [lci_remaining]. destruct r as [[off header]|].
    + destruct H as (m & cmds & lc & o & cmd & Hm & Hc & Hf & Hl & Hcmd & -> & Hhd).
      rewrite (proj2 (Hfind h (Some o) Hh)) by eauto 8. cbn [bind]. rewrite Hcmd. cbn [map_err bind].
      rewrite Hhd. done.
    + by rewrite (proj2 (Hfind h None Hh)).
Qed.

(** The parser finds what the tables describe as it reads them: a page whose
    start is marked as none is a chain to it. *)
Lemma chained_fixups_parse_all_reads l :
  chained_fixups_parse_all c = Ok l <-> tables_fixups parsed_word never l.
Proof.
  unfold chained_fixups_parse_all, tables_fixups. setoid_rewrite <- header_find_spec. rewrite bind_Ok.
  assert (forall header off starts ls, header_ok off header -> fits 32 (si_seg_count starts) ->
    for_range (Z.to_nat (si_seg_count starts)) 0
      (segment_parse c (cf_imports_format header) (off + cf_imports_offset header) (off + cf_symbols_offset header)
         (off + cf_starts_offset header)) [] = Ok ls <->
    exists gs, length gs = Z.to_nat (si_seg_count starts) /\ (forall k g, gs !! k = Some g ->
      segment_fixups parsed_word never (cf_imports_format header) (off + cf_imports_offset header) (off + cf_symbols_offset header)
        (off + cf_starts_offset header) (0 + Z.of_nat k) g) /\ ls = [] ++ concat gs) as Hsegs.
  { intros header off starts ls (Ho & Hst & _ & _) Hct. apply for_range_concat. intros j t t' Hj.
    unfold fits in *. apply segment_parse_spec; lia. }
  assert (forall o st, deserialize_type_at_offset dyld_chained_starts_in_image c o = Ok st -> 0 <= o ->
    fits 32 (si_seg_count st)) as Hcount.
  { intros o st Hd Ho. apply deserialize_wf in Hd as (_ & [v []] & -> & Hv); [|done|repeat constructor]. by destruct Hv. }
  split.
  - intros ([[off h]|] & Hf & H); [right|left; by injection H as <-]. pose proof (header_find_ok off h Hf) as Hh.
    apply bind_Ok in H as (st & [_ ->]%in_range_checked & (starts & Hstarts%map_err_Ok & H)%bind_Ok); [|exact Hdev].
    apply bind_Ok in H as (im & [Him ->]%in_range_checked & (sy & [Hsy ->]%in_range_checked & H)%bind_Ok);
      [|exact Hdev..].
    pose proof Hh as (Ho & Hst & _ & _). unfold fits in Ho, Hst, Him, Hsy.
    pose proof (Hcount _ _ Hstarts ltac:(lia)) as Hct.
    apply Hsegs in H as (gs & Hlen & Hgs & ->); [|done|done]. unfold fits in Hct.
    exists off, h, starts, gs. split_and!; try done; lia || len.
  - intros [[Hf ->]|(off & h & starts & segs & Hf & Hst & Him & Hsy & Hlen & Hgs & ->)]; [by exists None|].
    exists (Some (off, h)). split; [done|]. pose proof (header_find_ok off h Hf) as Hh.
    pose proof Hh as (Ho & Hso & Hi & Hy). unfold fits in Ho, Hso, Hi, Hy.
    pose proof (proj1 (deserialize_Ok dyld_chained_starts_in_image c (off + cf_starts_offset h) starts ltac:(lia) Hst)) as Hin.
    change (layout_size (fields_of dyld_chained_starts_in_image)) with 4 in Hin.
    unfold add_w. rewrite in_range_fits by (unfold fits; lia). cbn [bind]. rewrite Hst. cbn [map_err bind].
    rewrite in_range_fits by (unfold fits; lia). cbn [bind]. rewrite in_range_fits by (unfold fits; lia). cbn [bind].
    apply Hsegs; [done|apply (Hcount _ _ Hst); lia|]. exists segs. split; [len|]. done.
Qed.
End Chains.

End ParseLemmas.

(** ** What the words of a chain decode to *)

(** A 64-bit rebase: the target in 36 bits, the top byte of the pointer in 8,
    the distance to the next fixup, in units of four bytes, in 12. *)
Definition rebase_64_word (target high8 next : Z) : Z := target + high8 * 2 ^ 36 + next * 2 ^ 51.
(** An arm64e rebase: 43 bits, 8 bits, and 11 bits in units of eight bytes. *)
Definition rebase_arm64e_word (target high8 next : Z) : Z := target + high8 * 2 ^ 43 + next * 2 ^ 51.
(** An authenticated one: 32 bits, a discriminator in 16, whether it is blended
    with the address, the key in two, and the same distance. *)
Definition auth_rebase_arm64e_word (target diversity : Z) (addr_div : bool) (key next : Z) : Z :=
  target + diversity * 2 ^ 32 + Z.b2z addr_div * 2 ^ 48 + key * 2 ^ 49 + next * 2 ^ 51 + 2 ^ 63.

Lemma land_shiftr_mod v s k m : 0 <= s -> 0 <= k -> m = 2 ^ k - 1 -> Z.land (Z.shiftr v s) m = v / 2 ^ s mod 2 ^ k.
Proof.
  intros Hs Hk ->. rewrite Z.sub_1_r, <- Z.ones_equiv. by rewrite Z.land_ones, Z.shiftr_div_pow2.
Qed.

Lemma word_field v s k m r :
  0 <= s -> 0 <= k -> m = 2 ^ k - 1 -> v / 2 ^ s mod 2 ^ k = r -> Z.land (Z.shiftr v s) m = r.
Proof. intros Hs Hk Hm <-. by apply land_shiftr_mod. Qed.

Lemma word_low v k m r : 0 <= k -> m = 2 ^ k - 1 -> v mod 2 ^ k = r -> Z.land v m = r.
Proof.
  intros Hk Hm <-. rewrite <- (Z.shiftr_0_r v) at 1. rewrite (land_shiftr_mod v 0 k m) by done.
  by rewrite Z.pow_0_r, Z.div_1_r.
Qed.

Lemma as_u_small w z : 0 <= z < 2 ^ w -> as_u w z = z.
Proof. intros Hz. by apply Z.mod_small. Qed.

Section Decode.
Context {sc : Scroll} {bp : BuildProfile} (c : Container)
  (imports_format : dyld_chained_import_format_variants) (imports_offset symbols_offset : Z).

Lemma high_byte_or t h k : 0 <= k <= 56 -> 0 <= t < 2 ^ k -> 0 <= h < 2 ^ 8 ->
  Z.lor t (as_u 64 (Z.shiftl h 56)) = t + h * 2 ^ 56.
Proof.
  intros Hk Ht Hh. unfold as_u. rewrite Z.shiftl_mul_pow2, Z.mod_small by lia.
  apply lor_high_add; [lia|]. pose proof (Z.pow_le_mono_r 2 k 56). lia.
Qed.

(** The fields of an authenticated rebase, as quotients *)
Lemma auth_rebase_bits target diversity addr_div key next :
  0 <= target < 2 ^ 32 -> 0 <= diversity < 2 ^ 16 -> 0 <= key < 2 ^ 2 -> 0 <= next < 2 ^ 11 ->
  let word := auth_rebase_arm64e_word target diversity addr_div key next in
  (word / 2 ^ 32 mod 2 ^ 16 = diversity /\ word / 2 ^ 48 mod 2 ^ 1 = Z.b2z addr_div /\
   word / 2 ^ 49 mod 2 ^ 2 = key) /\
  (word mod 2 ^ 32 = target /\ word / 2 ^ 51 mod 2 ^ 11 = next /\ word / 2 ^ 63 mod 2 ^ 1 = 1) /\
  bit_is_set word 62 = false.
Proof.
  intros Ht Hd Hk Hn word.
  assert (0 <= Z.b2z addr_div <= 1) as Hb by (destruct addr_div; cbn; lia).
  subst word. unfold auth_rebase_arm64e_word. split_and!; try (Z.div_mod_to_equations; lia).
  unfold bit_is_set. rewrite (word_field _ 62 1 1 0); [done|done..|]. Z.div_mod_to_equations; lia.
Qed.

Lemma auth_rebase_fields target diversity addr_div key next :
  0 <= target < 2 ^ 32 -> 0 <= diversity < 2 ^ 16 -> 0 <= key < 2 ^ 2 -> 0 <= next < 2 ^ 11 ->
  let word := auth_rebase_arm64e_word target diversity addr_div key next in
  dyld_chained_ptr_arm64e_auth_rebase_diversity word = diversity /\
  dyld_chained_ptr_arm64e_auth_rebase_addr_div word = addr_div /\
  dyld_chained_ptr_arm64e_auth_rebase_key word = key.
Proof.
  intros Ht Hd Hk Hn word.
  destruct (auth_rebase_bits _ _ addr_div _ _ Ht Hd Hk Hn) as [(E1 & E2 & E3) _]. fold word in E1, E2, E3.
  unfold dyld_chained_ptr_arm64e_auth_rebase_diversity, dyld_chained_ptr_arm64e_auth_rebase_addr_div,
    dyld_chained_ptr_arm64e_auth_rebase_key.
  rewrite (word_field _ 32 16 _ diversity), (word_field _ 49 2 _ key), !as_u_small, flag_testbit by (done || lia).
  split_and!; try done.
  apply Z.b2z_inj. by rewrite Z.testbit_spec' by lia.
Qed.

Lemma auth_rebase_decode target diversity addr_div key next offset :
  0 <= target < 2 ^ 32 -> 0 <= diversity < 2 ^ 16 -> 0 <= key < 2 ^ 2 -> 0 <= next < 2 ^ 11 ->
  fixup_arm64e_parse_one c imports_format imports_offset symbols_offset
    (auth_rebase_arm64e_word target diversity addr_div key next) offset =
  Ok (8 * next, fixup_rebase offset target).
Proof.
  intros Ht Hd Hk Hn. destruct (auth_rebase_bits _ _ addr_div _ _ Ht Hd Hk Hn) as (_ & (E1 & E2 & E3) & Eb).
  unfold fixup_arm64e_parse_one, dyld_chained_ptr_arm64e_auth_rebase_target,
    dyld_chained_ptr_arm64e_auth_rebase_next. rewrite Eb. unfold bit_is_set.
  rewrite (word_field _ 63 1 1 1), (word_field _ 51 11 _ next), (word_low _ 32 _ target) by done.
  cbn [Z.eqb Pos.eqb]. rewrite (as_u_small 32), (as_u_small 16) by lia.
  unfold mul_w. rewrite in_range_fits by (unfold fits; lia). cbn [bind]. by rewrite Z.mul_comm.
Qed.

(** C36 Decoding a rebase word gives back what was packed into it: in each of
    the three layouts the target with its top byte restored to the top of the
    pointer, and the distance to the next fixup in bytes. The userland24 layout
    decodes its rebases as arm64e does. Of an authenticated rebase the target
    and the distance come back whatever its discriminator, address bit and key
    are, all of which their accessors return. *)
Theorem rebase_words_decode target high8 next diversity addr_div key offset :
  0 <= high8 < 2 ^ 8 ->
  (0 <= target < 2 ^ 36 -> 0 <= next < 2 ^ 12 ->
   fixup_64_parse_one c imports_format imports_offset symbols_offset (rebase_64_word target high8 next) offset =
     Ok (4 * next, fixup_rebase offset (target + high8 * 2 ^ 56))) /\
  (0 <= target < 2 ^ 43 -> 0 <= next < 2 ^ 11 ->
   fixup_arm64e_userland24_parse_one c imports_format imports_offset symbols_offset
       (rebase_arm64e_word target high8 next) offset =
     Ok (8 * next, fixup_rebase offset (target + high8 * 2 ^ 56)) /\
   fixup_arm64e_parse_one c imports_format imports_offset symbols_offset
       (rebase_arm64e_word target high8 next) offset =
     Ok (8 * next, fixup_rebase offset (target + high8 * 2 ^ 56))) /\
  (0 <= target < 2 ^ 32 -> 0 <= diversity < 2 ^ 16 -> 0 <= key < 2 ^ 2 -> 0 <= next < 2 ^ 11 ->
   let word := auth_rebase_arm64e_word target diversity addr_div key next in
   fixup_arm64e_userland24_parse_one c imports_format imports_offset symbols_offset word offset =
     Ok (8 * next, fixup_rebase offset target) /\
   fixup_arm64e_parse_one c imports_format imports_offset symbols_offset word offset =
     Ok (8 * next, fixup_rebase offset target) /\
   dyld_chained_ptr_arm64e_auth_rebase_diversity word = diversity /\
   dyld_chained_ptr_arm64e_auth_rebase_addr_div word = addr_div /\
   dyld_chained_ptr_arm64e_auth_rebase_key word = key).
Proof.
  intros Hh. split; [|split].
  - intros Ht Hn. unfold fixup_64_parse_one, dyld_chained_ptr_64_rebase_target,
      dyld_chained_ptr_64_rebase_high8, dyld_chained_ptr_64_rebase_next, bit_is_set.
    rewrite (word_field _ 63 1 1 0), (word_field _ 36 8 _ high8), (word_field _ 51 12 _ next),
      (word_low _ 36 _ target) by (done || (unfold rebase_64_word; Z.div_mod_to_equations; lia)).
    cbn [Z.eqb]. rewrite (as_u_small 8), (as_u_small 16), (high_byte_or target high8 36) by lia.
    unfold mul_w. rewrite in_range_fits by (unfold fits; lia). cbn [bind]. by rewrite Z.mul_comm.
  - intros Ht Hn.
    assert (bit_is_set (rebase_arm64e_word target high8 next) 62 = false) as Eb.
    { unfold bit_is_set. by rewrite (word_field _ 62 1 1 0)
        by (done || (unfold rebase_arm64e_word; Z.div_mod_to_equations; lia)). }
    unfold fixup_arm64e_userland24_parse_one. rewrite Eb.
    enough (fixup_arm64e_parse_one c imports_format imports_offset symbols_offset
       (rebase_arm64e_word target high8 next) offset =
     Ok (8 * next, fixup_rebase offset (target + high8 * 2 ^ 56))) by done.
    unfold fixup_arm64e_parse_one. rewrite Eb.
    unfold dyld_chained_ptr_arm64e_rebase_target,
      dyld_chained_ptr_arm64e_rebase_high8, dyld_chained_ptr_arm64e_rebase_next, bit_is_set.
    rewrite (word_field _ 63 1 1 0), (word_field _ 43 8 _ high8), (word_field _ 51 11 _ next),
      (word_low _ 43 _ target) by (done || (unfold rebase_arm64e_word; Z.div_mod_to_equations; lia)).
    cbn [Z.eqb]. rewrite (as_u_small 8), (as_u_small 16), (high_byte_or target high8 43) by lia.
    unfold mul_w. rewrite in_range_fits by (unfold fits; lia). cbn [bind]. by rewrite Z.mul_comm.
  - intros Ht Hd Hk Hn word.
    pose proof (auth_rebase_decode target diversity addr_div key next offset Ht Hd Hk Hn) as Hone.
    destruct (auth_rebase_bits target diversity addr_div key next Ht Hd Hk Hn) as (_ & _ & Eb).
    split; [|split; [exact Hone|by apply auth_rebase_fields]].
    unfold fixup_arm64e_userland24_parse_one, word. rewrite Eb. exact Hone.
Qed.
End Decode.

(** ** Examples *)

#[local] Existing Instance scroll_ref.
#[local] Existing Instance dev_profile.

Lemma rebase_words_decode_witness :
  0 <= 0xb4 < 2 ^ 8 /\
  fixup_64_parse_one (image_le []) DYLD_CHAINED_IMPORT 0 0 (rebase_64_word 0x4010 0xb4 3) 0x20 =
    Ok (12, fixup_rebase 0x20 (0x4010 + 0xb4 * 2 ^ 56)) /\
  fixup_arm64e_parse_one (image_le []) DYLD_CHAINED_IMPORT 0 0
      (auth_rebase_arm64e_word 0x4010 0xface true 2 3) 0x20 = Ok (24, fixup_rebase 0x20 0x4010) /\
  dyld_chained_ptr_arm64e_auth_rebase_diversity (auth_rebase_arm64e_word 0x4010 0xface true 2 3) = 0xface.
Proof.
  split; [lia|].
  destruct (rebase_words_decode (image_le []) DYLD_CHAINED_IMPORT 0 0 0x4010 0xb4 3 0xface true 2 0x20 ltac:(lia))
    as (H64 & _ & Hauth).
  destruct (Hauth ltac:(lia) ltac:(lia) ltac:(lia) ltac:(lia)) as (_ & Hone & Hdiv & _).
  split; [exact (H64 ltac:(lia) ltac:(lia))|]. split; [exact Hone|exact Hdiv].
Defined.

(** An image whose fixups are one page with two rebases, eight bytes apart:
    header, the command, the fixups header at 48, the starts at 80, the words
    at 128. *)
Definition example_fixups_image : Container :=
  image_le (pad_to 48 (example_header 2 1 ++ u32le 0x80000034 ++ u32le 16 ++ u32le 48 ++ u32le 80) ++
    u32le 0 ++ u32le 32 ++ u32le 0 ++ u32le 0 ++ u32le 0 ++ u32le 1 ++ u32le 0 ++ u32le 0 ++
    u32le 1 ++ u32le 8 ++
    u32le 24 ++ le_bytes 2 0x1000 ++ le_bytes 2 2 ++ u64le 128 ++ u32le 0 ++ le_bytes 2 1 ++ le_bytes 2 0 ++
    replicate 16 x00 ++
    u64le (rebase_64_word 0x4010 0 2) ++ u64le (rebase_64_word 0x5000 0 0)).

Example example_fixups_parse :
  chained_fixups_parse_all example_fixups_image = Ok [fixup_rebase 128 0x4010; fixup_rebase 136 0x5000].
Proof. vm_compute. reflexivity. Qed.

Lemma chained_fixups_parse_all_ends_witness :
  rust_slice (raw example_fixups_image) /\
  ends (chained_fixups_parse_all example_fixups_image) /\
  forall l, chained_fixups_parse_all example_fixups_image = Ok l ->
    Forall (fun f => 0 <= fx_offset f /\ fx_offset f + 8 <= zlen (raw example_fixups_image)) l.
Proof.
  split; [done|]. by apply (@chained_fixups_parse_all_ends scroll_ref _ dev_profile example_fixups_image).
Defined.

(** Those two fixups, applied to an image at 0x10000. *)
Definition example_fixups : list Fixup := [fixup_rebase 128 0x4010; fixup_rebase 136 0x5000].
Definition example_memory : memory := mem_of 0x10000 (replicate 256 x00).

Lemma example_fixups_ok : fixups_ok 0x10000 0 example_memory example_fixups.
Proof.
  assert (mapped example_memory 0x10000 256) as Hm
    by (apply (mem_of_mapped 0x10000 (replicate 256 x00)); vm_compute; discriminate).
  split.
  - unfold example_fixups. rewrite !Forall_cons, Forall_nil.
    split_and!; [| |exact I]; (apply (mapped_sub _ 0x10000 256); [exact Hm|vm_compute; discriminate..]).
  - unfold example_fixups. pairs_apart.
Qed.

Lemma fixup_all_chained_fixups_spec_witness :
  fixups_ok 0x10000 0 example_memory example_fixups /\
  exists m', fixup_all_chained_fixups 0x10000 0 [] [] None false example_fixups example_memory = Ok m' /\
    dom m' = dom example_memory /\
    (forall i f v, example_fixups !! i = Some f -> [Some 0x14010; Some 0x15000] !! i = Some (Some v) ->
       load_u64 m' (fixup_address 0x10000 0 f) = Some (v mod 2 ^ 64)) /\
    (forall a, (forall i f v, example_fixups !! i = Some f -> [Some 0x14010; Some 0x15000] !! i = Some (Some v) ->
         ~ fixup_address 0x10000 0 f <= a < fixup_address 0x10000 0 f + 8) -> m' !! a = example_memory !! a).
Proof.
  split; [apply example_fixups_ok|].
  apply (@fixup_all_chained_fixups_spec scroll_ref dev_profile 0x10000 0 [] [] None false
    example_fixups example_memory example_fixups_ok).
Defined.
