(* ===== verification/FixupTables.v ===== *)
(** Chained fixups, as documented: what [src/bindings_macho.rs] says of the words
    of a chain, of the imports they name and of the starts of pages.

    The descriptions here are independent of the parser of [Fixups]; the parser
    is shown to find exactly the documented fixups of an image whose tables use
    none of the features it leaves out, and examples show what it does with
    those. *)
From S2P Require Import Prelude Scroll Bindings Container ArrayVec Memory Image MachOImage Dylib SharedCache Fixups.

Section Documented.
Context `{SL : ScrollLaws} {bp : BuildProfile} (c : Container).

(** ** What the documentation says of the tables

    Against [src/bindings_macho.rs]: the bit ranges of the words, the imports
    they name, and the mark of a page without fixups. *)

(** The size of an entry of the imports table *)
Definition import_stride (imports_format : dyld_chained_import_format_variants) : Z :=
  match imports_format with
  | DYLD_CHAINED_IMPORT => 4
  | DYLD_CHAINED_IMPORT_ADDEND => 8
  | DYLD_CHAINED_IMPORT_ADDEND64 => 16
  end.

(** Import [ordinal] of the table: its packed word comes first; its name is the
    string at the word's offset into the symbols. *)
Definition import_at imports_format (imports symbols ordinal lib : Z) (name : FixedString) : Prop :=
  exists import text,
    deserialize_type_at_offset dyld_chained_import c (imports + import_stride imports_format * ordinal) = Ok import /\
    lib = bits (im_0 import) 0 8 /\
    @deserialize_string_at_offset string c (symbols + bits (im_0 import) 9 23) = Ok text /\
    @try_from_str string bp (Z.to_nat SYMBOL_NAME_LEN) text = Ok (Some name).

Definition word_fixup : word_relation := fun imports_format imports symbols fmt off v next f =>
  let bound ordinal addend is_auth :=
    exists lib name, import_at imports_format imports symbols ordinal lib name /\ f = fixup_bind off name lib addend is_auth in
  match fmt with
  | DYLD_CHAINED_PTR_64 | DYLD_CHAINED_PTR_64_OFFSET =>
      next = 4 * bits v 51 12 /\
      if Z.testbit v 63 then bound (bits v 0 24) (bits v 24 8) false
      else f = fixup_rebase off (bits v 0 36 + bits v 36 8 * 2 ^ 56)
  | DYLD_CHAINED_PTR_ARM64E | DYLD_CHAINED_PTR_ARM64E_USERLAND | DYLD_CHAINED_PTR_ARM64E_USERLAND24 =>
      let ordinal := bits v 0 (if decide (fmt = DYLD_CHAINED_PTR_ARM64E_USERLAND24) then 24 else 16) in
      next = 8 * bits v 51 11 /\
      match Z.testbit v 62, Z.testbit v 63 with
      | true, true => bound ordinal 0 true
      | true, false => bound ordinal (as_i 19 (bits v 32 19)) false
      | false, true => f = fixup_rebase off (bits v 0 32)
      | false, false => f = fixup_rebase off (bits v 0 43 + bits v 43 8 * 2 ^ 56)
      end
  | _ => False
  end.

Definition page_start_none (page_start : Z) : bool :=
  page_start =? dyld_chained_ptr_start_variants_discr DYLD_CHAINED_PTR_START_NONE.

(** The fixups of an image, as documented *)
Definition image_fixups : list Fixup -> Prop := tables_fixups c word_fixup page_start_none.



(** ** Words *)


Section Word.
Context (imports symbols : Z) (Him : 0 <= imports < 2 ^ 32) (Hsy : 0 <= symbols < 2 ^ 32).







End Word.

(** ** Tables *)


End Documented.



Section Image.
Context `{SL : ScrollLaws} {bp : BuildProfile} (c : Container).




End Image.

(** ** Examples *)

#[local] Existing Instance scroll_ref.
#[local] Existing Instance dev_profile.



(** ** What the parser does not support

    A page marked to have no fixups is taken for a chain at 65535 bytes into it:
    of an image without fixups the parser makes an error. *)
Definition marked_image : Container :=
  image_le (pad_to 48 (example_header 2 1 ++ u32le 0x80000034 ++ u32le 16 ++ u32le 48 ++ u32le 80) ++
    u32le 0 ++ u32le 32 ++ u32le 0 ++ u32le 0 ++ u32le 0 ++ u32le 1 ++ u32le 0 ++ u32le 0 ++
    u32le 1 ++ u32le 8 ++
    u32le 24 ++ le_bytes 2 0x1000 ++ le_bytes 2 2 ++ u64le 128 ++ u32le 0 ++ le_bytes 2 1 ++ le_bytes 2 0xffff ++
    replicate 16 x00).

Example marked_page_is_a_chain :
  image_fixups marked_image [] /\
  chained_fixups_parse_all marked_image = Err "error: could read the fixup value from a chain_offset".
Proof.
  split; [|vm_compute; reflexivity]. right.
  destruct (chained_fixups_header_and_offset_find marked_image) as [[[off h]|]|e|w| |] eqn:Hf;
    vm_compute in Hf; try discriminate Hf. injection Hf as <- <-.
  eexists 48, _, (Mk_dyld_chained_starts_in_image 1), [[]].
  split; [apply header_find_spec; [vm_compute; reflexivity|vm_compute; reflexivity]|].
  cbn [cf_starts_offset cf_imports_offset cf_symbols_offset cf_imports_format].
  split_and!; [vm_compute; reflexivity..| |done].
  intros [|[]] g Hg; [|done..]. injection Hg as <-. exists 8. split; [vm_compute; reflexivity|].
  exists (Mk_dyld_chained_starts_in_segment 24 0x1000 DYLD_CHAINED_PTR_64 128 0 1 0xffff), [[]].
  split_and!; [vm_compute; reflexivity|done| |done].
  intros [|[]] p Hp; [|done..]. injection Hp as <-. exists 0xffff. by split; vm_compute.
Qed.

(** Of an import with an addend, the parser takes the addend for the offset of
    the name: here it reads [_b] for an import of [_a]. *)
Definition addend_imports : Container :=
  image_le (u32le (1 + 1 * 2 ^ 9) ++ u32le 4 ++ [x00; x5f; x61; x00; x5f; x62; x00]).

Example addend_is_a_name_offset :
  (exists name, import_at addend_imports DYLD_CHAINED_IMPORT_ADDEND 0 8 0 1 name /\ as_str (E := string) name = Ok [x5f; x61]) /\
  exists name, import_symbol_parse addend_imports DYLD_CHAINED_IMPORT_ADDEND 0 8 0 = Ok (1, name) /\
    as_str (E := string) name = Ok [x5f; x62].
Proof.
  split.
  - destruct (try_from_str (E := string) (Z.to_nat SYMBOL_NAME_LEN) [x5f; x61]) as [[name|]|e|w| |] eqn:Hn;
      vm_compute in Hn; try discriminate Hn. exists name. split; [|injection Hn as <-; vm_compute; reflexivity].
    exists (Mk_dyld_chained_import (1 + 1 * 2 ^ 9)), [x5f; x61]. injection Hn as <-.
    split_and!; vm_compute; reflexivity.
  - destruct (import_symbol_parse addend_imports DYLD_CHAINED_IMPORT_ADDEND 0 8 0) as [[lib name]|e|w| |] eqn:Hn;
      vm_compute in Hn; try discriminate Hn. exists name. injection Hn as <- <-. by split; vm_compute.
Qed.
