(* ===== verification/Binding.v ===== *)
(** What a bind is bound to.

    [defined_as] says where the definition of an imported symbol lies: in the
    image's own symbol table for a weak one, in the shared cache along re-exports,
    or in the exports trie of a dylib loaded from disk, whichever the library
    ordinal picks. The pointer a bind stores is shown to be such a definition. *)
From S2P Require Import Prelude Scroll Bindings Container ArrayVec Memory Kernel Image.
From S2P Require Import MachOImage ExportsTrie Dylib SharedCache Fixups.

Section Binding.
Context `{SL : ScrollLaws} {bp : BuildProfile}.
(** The image at [dst], its symbols, and the libraries it is linked against *)
Context (dst pz : Z) (symbols : list Symbol) (libs : list Library) (cache : DyldSharedCache).

(** The library an ordinal picks: they count from 1. *)
Definition library_at (ordinal : Z) : option Library :=
  if 1 <=? ordinal then libs !! Z.to_nat (ordinal - 1) else None.

(** A symbol the image defines, in one of its sections; an import has none. *)
Definition is_definition (s : Symbol) : Prop := sect_num s <> NO_SECT.

(** The ordinals that do not pick a library *)
Definition special (ordinal : Z) : Prop := ordinal ∈ [0; 253; 254; 255].

Inductive defined_as (symbol : bytes) : Z -> Z -> Prop :=
| defined_weak i s :
    symbols !! i = Some s -> text_rep (name s) symbol -> is_definition s ->
    (forall j s', (j < i)%nat -> symbols !! j = Some s' -> is_definition s' -> ~ text_rep (name s') symbol) ->
    defined_as symbol BIND_SPECIAL_DYLIB_WEAK_LOOKUP (ptr_add dst (impl_offset s))
| defined_in_cache ordinal path a :
    ~ special ordinal -> library_at ordinal = Some (System path) ->
    cache_resolves cache 16 path symbol a ->
    defined_as symbol ordinal a
| defined_in_dylib ordinal c cmds t offset :
    ~ special ordinal -> library_at ordinal = Some (User c) ->
    dylib_image c cmds t -> exports t symbol (DefinedHere offset) ->
    defined_as symbol ordinal (ptr_add (s_ptr (data c)) offset).

(** The names of the symbols are text, and the dylibs images with an exports trie. *)
Definition named (s : Symbol) : Prop := exists t, text_rep (name s) t.
Definition image_or_cached (lib : Library) : Prop :=
  match lib with System _ => True | User c => exists cmds t, dylib_image c cmds t end.

Lemma text_rep_str {E} nm t : text_rep nm t -> as_str nm = @Ok E _ t.
Proof. intros [Hr _]. by apply deref_rep. Qed.

Lemma symbol_find_spec syms nm symbol :
  Forall named syms -> text_rep nm symbol ->
  exists r, @symbol_find string syms nm = Ok r /\
    match r with
    | Some s => exists i, syms !! i = Some s /\ text_rep (name s) symbol /\
        forall j s', (j < i)%nat -> syms !! j = Some s' -> ~ text_rep (name s') symbol
    | None => forall j s', syms !! j = Some s' -> ~ text_rep (name s') symbol
    end.
Proof.
  intros Hn Hs. induction Hn as [|s syms [t Ht] _ IH]; cbn [symbol_find]; [by exists None|].
  unfold array_string_cmp. rewrite (text_rep_str _ _ Ht), (text_rep_str _ _ Hs). cbn [bind].
  case_bool_decide as Heq.
  - subst t. exists (Some s). split; [done|]. exists 0%nat. split; [done|]. split; [done|]. lia.
  - assert (~ text_rep (name s) symbol) as Hno.
    { intros H. apply (text_rep_str (E := string)) in H, Ht. congruence. }
    destruct IH as (r & Hr & H). exists r. split; [exact Hr|]. destruct r as [s'|].
    + destruct H as (i & Hi & Ht' & Hmin). exists (S i). split; [done|]. split; [done|].
      intros [|j] s2 Hj; [by intros [= <-]|]. apply Hmin. lia.
    + intros [|j] s2; [by intros [= <-]|]. apply H.
Qed.

Lemma library_at_index {A} ordinal (f : Library -> result A) :
  0 <= ordinal < 2 ^ 8 -> ~ special ordinal ->
  (let* i := sub64 ordinal 1 in let* lib := index_at libs i in f lib) =
    let* lib := or_panic "index out of bounds" (library_at ordinal) in f lib.
Proof.
  intros Ho Hs. assert (1 <= ordinal) as H1.
  { destruct (decide (ordinal = 0)) as [->|]; [|lia]. exfalso. apply Hs. by left. }
  unfold sub_w. rewrite in_range_fits by (unfold fits; lia). cbn [bind]. unfold index_at, library_at.
  by rewrite !(proj2 (Z.leb_le _ _)) by lia.
Qed.

(** No definition: an ordinal that picks nothing, or a library without the symbol *)
Definition undefined (symbol : bytes) (ordinal : Z) : Prop := forall v, ~ defined_as symbol ordinal v.

Lemma not_special_weak : special BIND_SPECIAL_DYLIB_WEAK_LOOKUP.
Proof. by right; left. Qed.

Lemma defined_as_library symbol ordinal v :
  ~ special ordinal -> defined_as symbol ordinal v ->
  match library_at ordinal with
  | Some (System path) => cache_resolves cache 16 path symbol v
  | Some (User c) => exists cmds t offset, dylib_image c cmds t /\ exports t symbol (DefinedHere offset) /\
      v = ptr_add (s_ptr (data c)) offset
  | None => False
  end.
Proof.
  intros Hs H. destruct H as [i s|ordinal path a _ Hl Hr|ordinal c cmds t offset _ Hl Hi He].
  - destruct (Hs not_special_weak).
  - by rewrite Hl.
  - rewrite Hl. eauto 10.
Qed.

Lemma undefined_special symbol ordinal :
  special ordinal -> ordinal <> BIND_SPECIAL_DYLIB_WEAK_LOOKUP -> undefined symbol ordinal.
Proof. intros Hs Hw v H. destruct H as [i s|? ? ? Hn|? ? ? ? ? Hn]; [done|exact (Hn Hs)..]. Qed.

(** The cache cannot be read where the symbol is looked for. *)
Definition cache_fails (path symbol : bytes) : Prop := forall r, symbol_resolve cache path symbol <> Ok r.

(** The symbols of that name are definitions. *)
Definition never_imported (symbol : bytes) : Prop :=
  forall s, s ∈ symbols -> text_rep (name s) symbol -> is_definition s.

(** Finding the pointer of a fixup ends: resolving its symbol does. *)
Lemma fixup_pointer_ends f :
  Forall named symbols -> fixup_named f -> ends (fixup_pointer dst pz symbols libs (Some cache) false f).
Proof.
  intros Hn Hf. unfold fixup_pointer, fixup_named in *. destruct (fx_kind f) as [|nm ordinal is_auth addend]; [exact I|].
  destruct Hf as [t Ht]. repeat (destruct (ordinal =? _); [try exact I|]).
  - destruct (symbol_find_spec symbols nm t Hn Ht) as (r & -> & _). cbn [bind]. solve_ends.
  - apply ends_bind; [solve_ends|]. intros i _. apply ends_bind; [solve_ends|]. intros lib _. apply ends_bind; [|done].
    unfold library_pointer. rewrite (text_rep_str _ _ Ht). cbn [bind].
    pose proof (symbol_resolve_ends cache). pose proof dylib_symbol_resolve_ends. destruct lib; solve_ends.
Qed.

Lemma fixup_pointers_ends l :
  Forall named symbols -> Forall fixup_named l -> ends (fixup_pointers dst pz symbols libs (Some cache) false l).
Proof.
  intros Hn. induction 1 as [|f l Hf _ IH]; cbn [fixup_pointers]; [exact I|].
  apply ends_bind; [by apply fixup_pointer_ends|]. intros p _. apply ends_bind; [exact IH|done].
Qed.

(** What binding against a library gives *)
Lemma library_pointer_spec nm symbol ordinal lib :
  text_rep nm symbol -> ~ special ordinal -> library_at ordinal = Some lib -> image_or_cached lib ->
  match library_pointer (Some cache) nm lib with
  | Ok v => defined_as symbol ordinal v
  | _ => undefined symbol ordinal \/ exists path, lib = System path /\ cache_fails path symbol
  end.
Proof.
  intros Hnm Hs Hl Hi. pose proof (fun v => defined_as_library symbol ordinal v Hs) as Hdef. rewrite Hl in Hdef.
  destruct lib as [path|c]; cbn [library_pointer]; rewrite (text_rep_str _ _ Hnm); cbn [bind].
  - pose proof (fun a => max_depth_sound cache 16 path symbol a) as Hsound.
    pose proof (max_depth_complete cache 16 path symbol) as Hcomplete.
    change (symbol_resolve_with_max_depth cache 16 path symbol) with (symbol_resolve cache path symbol) in *.
    destruct (symbol_resolve cache path symbol) as [[a|]|e|w| |] eqn:Er; cbn [bind ok_or].
    3-6: right; exists path; split; [done|]; intros r; by rewrite Er.
    + eapply defined_in_cache; [exact Hs|exact Hl|by apply Hsound].
    + left. intros v Hv%Hdef. by eapply Hcomplete.
  - destruct Hi as (cmds & t & Ht).
    assert (forall v, defined_as symbol ordinal v -> exists o, dylib_symbol_resolve c symbol = Ok (Some (Defined_ o))) as Hres.
    { intros v (cmds' & t' & o & Ht' & He & _)%Hdef. exists o. rewrite (dylib_symbol_lookup _ _ _ _ Ht').
      by rewrite (proj2 (trie_lookup_exports t' symbol _ (dylib_trie_wf _ _ _ Ht')) He). }
    destruct (dylib_symbol_resolve c symbol) as [[[o|tp ts]|]|e|w| |] eqn:Er; cbn [bind ok_or].
    2-7: left; intros v (o & Ho)%Hres; discriminate Ho.
    rewrite (dylib_symbol_lookup _ _ _ _ Ht) in Er. destruct (trie_lookup t symbol) as [p|] eqn:El; [|done].
    apply (trie_lookup_exports t symbol _ (dylib_trie_wf _ _ _ Ht)) in El. destruct p as [o'|ord al].
    + injection Er as <-. by eapply defined_in_dylib.
    + cbn [terminal_symbol_in] in Er. destruct (if _ =? 0 then _ else _) as [[lc off]|]; [|discriminate Er].
      apply bind_Ok in Er as (path & _ & Er). discriminate Er.
Qed.

Lemma bind_pointer offset nm symbol ordinal is_auth addend :
  0 <= ordinal < 2 ^ 8 -> text_rep nm symbol -> Forall named symbols -> Forall image_or_cached libs ->
  (ordinal = BIND_SPECIAL_DYLIB_WEAK_LOOKUP -> never_imported symbol) ->
  match fixup_pointer dst pz symbols libs (Some cache) false (Mk_Fixup offset (Bind nm ordinal is_auth addend)) with
  | Ok p => exists v, p = Some v /\ defined_as symbol ordinal v
  | _ => undefined symbol ordinal \/
      exists path, library_at ordinal = Some (System path) /\ cache_fails path symbol
  end.
Proof.
  intros Hord Hnm Hsyms Hlibs Hdefs. unfold fixup_pointer. cbn [fx_kind].
  destruct (Z.eqb_spec ordinal 0) as [->|H0]; [left; apply undefined_special; [by left|done]|].
  destruct (Z.eqb_spec ordinal 255) as [->|H1]; [left; apply undefined_special; [by repeat (left || right)|done]|].
  destruct (Z.eqb_spec ordinal 254) as [->|H2]; [left; apply undefined_special; [by right; right; left|done]|].
  destruct (Z.eqb_spec ordinal 253) as [->|H3].
  - destruct (symbol_find_spec symbols nm symbol Hsyms Hnm) as (r & -> & H). cbn [bind]. destruct r as [s|]; cbn [ok_or bind].
    + destruct H as (i & Hi & Ht & Hmin). eexists. split; [reflexivity|].
      eapply defined_weak; [exact Hi|exact Ht| |intros j s' Hj Hs' _; by eapply Hmin].
      apply (Hdefs eq_refl); [by eapply list_elem_of_lookup_2|done].
    + left. intros v Hv. remember 253 as w eqn:Hw. destruct Hv as [i s Hi Ht _ _|? ? ? Hs|? ? ? ? ? Hs]; [by eapply H|..];
        subst; by apply Hs, not_special_weak.
  - assert (~ special ordinal) as Hs by (unfold special; rewrite !elem_of_cons, elem_of_nil; lia).
    rewrite library_at_index by done.
    destruct (library_at ordinal) as [lib|] eqn:El; cbn [or_panic bind].
    + assert (image_or_cached lib) as Hi.
      { unfold library_at in El. destruct (1 <=? ordinal); [|done]. rewrite Forall_forall in Hlibs.
        by apply Hlibs, (list_elem_of_lookup_2 _ (Z.to_nat (ordinal - 1))). }
      pose proof (library_pointer_spec nm symbol ordinal lib Hnm Hs El Hi) as H.
      destruct (library_pointer (Some cache) nm lib) as [v|e|w| |]; cbn [bind]; [by eexists|..];
        (destruct H as [H|(path & -> & H)]; [by left|right; by exists path]).
    + left. intros v Hv. apply (defined_as_library _ _ _ Hs) in Hv. by rewrite El in Hv.
Qed.

(** A bind is applied as one without addend that is not to be signed. *)
Lemma fixup_apply_plain offset nm ordinal is_auth addend m :
  fixup_apply dst pz symbols libs (Some cache) false (Mk_Fixup offset (Bind nm ordinal is_auth addend)) m =
  fixup_apply dst pz symbols libs (Some cache) false (fixup_bind offset nm ordinal 0 false) m.
Proof. done. Qed.

(** C5 A plain bind, one without an addend that is not to be signed, stores the
    address of a definition of its symbol, in the place its
    ordinal picks: the image's own first definition of that name for a weak lookup
    of a name it does not import;
    for a library of the shared cache, the end of a chain of at most sixteen
    re-exports; for a dylib loaded from disk, what its exports trie gives, counted
    from where it is loaded. When nothing is stored, there is no such definition
    (or the cache could not be read): the image itself, the main executable and
    flat lookup are no places a bind can name, and neither is a symbol that a
    dylib on disk only re-exports. *)
Theorem bind_finds_definition offset nm symbol ordinal m :
  let f := fixup_bind offset nm ordinal 0 false in
  0 <= ordinal < 2 ^ 8 -> text_rep nm symbol -> Forall named symbols -> Forall image_or_cached libs ->
  (ordinal = BIND_SPECIAL_DYLIB_WEAK_LOOKUP -> never_imported symbol) ->
  mapped m (fixup_address dst pz f) 8 ->
  match fixup_apply dst pz symbols libs (Some cache) false f m with
  | Ok m' => exists v, defined_as symbol ordinal v /\ load_u64 m' (fixup_address dst pz f) = Some (v mod 2 ^ 64) /\
      forall a, ~ fixup_address dst pz f <= a < fixup_address dst pz f + 8 -> m' !! a = m !! a
  | _ => undefined symbol ordinal \/
      exists path, library_at ordinal = Some (System path) /\ cache_fails path symbol
  end.
Proof.
  cbv zeta. set (f := fixup_bind _ _ _ _ _). intros Hord Hnm Hsyms Hlibs Hdefs Hm. rewrite fixup_apply_pointer.
  pose proof (bind_pointer offset nm symbol ordinal false 0 Hord Hnm Hsyms Hlibs Hdefs) as H.
  change (Mk_Fixup offset _) with f in H.
  destruct (fixup_pointer dst pz symbols libs (Some cache) false f) as [p|e|w| |]; cbn [bind]; try exact H.
  destruct H as (v & -> & Hv). destruct (store_pointer_mapped dst pz m f (Some v) Hm) as (m' & -> & _ & Ho & Hl).
  exists v. split; [exact Hv|]. split; [by apply Hl|]. intros a Ha. by apply Ho.
Qed.
End Binding.

(** ** An example

    [_f] of the dylib of [Dylib], the only library, loaded at 0x10000 *)
#[local] Existing Instance scroll_ref.
#[local] Existing Instance dev_profile.

Definition loaded_dylib : Container := with_bytes (Mk_slice 0x10000 (raw example_dylib)) Little.
Definition bound_name : FixedString :=
  match @try_from_str string dev_profile 128 (bstr "_f") with Ok (Some n) => n | _ => string_new 0 end.

Lemma loaded_dylib_image : dylib_image loaded_dylib example_commands example_trie.
Proof.
  constructor.
  - exists (Mk_mach_header_64 MH_MAGIC_64 CPU_TYPE_ARM64 0 MH_DYLIB 3 0 0 0).
    split; [vm_compute; reflexivity|]. split; [done|]. split; [done|].
    apply commands_list_Some. vm_compute. reflexivity.
  - exists (Mk_load_command LC_DYLD_EXPORTS_TRIE 16), 84, (Mk_ExportsTrieSpan 512 10), (Mk_slice 0x10200 example_trie_bytes).
    split; [vm_compute; reflexivity|]. split; [vm_compute; reflexivity|].
    split; [vm_compute; reflexivity|]. split; [done|apply example_trie_encoded].
  - apply example_trie_wf.
Qed.

Lemma bound_name_text : text_rep bound_name (bstr "_f").
Proof. split; [|vm_compute; reflexivity]. repeat split; vm_compute; try reflexivity; discriminate. Qed.

Definition bound_fixup : Fixup := Mk_Fixup 8 (Bind bound_name 1 false 0).

Lemma bind_finds_definition_witness :
  text_rep bound_name (bstr "_f") /\ Forall image_or_cached [User loaded_dylib] /\
  exists m' v, fixup_apply 0x10000 0 [] [User loaded_dylib] (Some cache_new) false bound_fixup example_memory = Ok m' /\
    defined_as 0x10000 [] [User loaded_dylib] cache_new (bstr "_f") 1 v /\ load_u64 m' 0x10008 = Some 0x10010 /\
    v mod 2 ^ 64 = 0x10010.
Proof.
  assert (Forall image_or_cached [User loaded_dylib]) as Hl.
  { constructor; [|constructor]. exists example_commands, example_trie. exact loaded_dylib_image. }
  assert (mapped example_memory 0x10008 8) as Hm.
  { apply (mapped_sub _ 0x10000 256); [|lia..].
    apply (mem_of_mapped 0x10000 (replicate 256 x00)); vm_compute; discriminate. }
  assert (match fixup_apply 0x10000 0 [] [User loaded_dylib] (Some cache_new) false bound_fixup example_memory with
    | Ok m' => bool_decide (load_u64 m' 0x10008 = Some 0x10010) | _ => false end = true) as Hr by (vm_compute; reflexivity).
  split; [exact bound_name_text|]. split; [exact Hl|].
  pose proof (@bind_finds_definition scroll_ref _ dev_profile 0x10000 0 [] [User loaded_dylib] cache_new 8 bound_name
    (bstr "_f") 1 example_memory ltac:(lia) bound_name_text (Forall_nil_2 _) Hl ltac:(discriminate) Hm) as H.
  change (fixup_bind 8 bound_name 1 0 false) with bound_fixup in H.
  destruct (fixup_apply _ _ _ _ _ _ _ _) as [m'|e|w| |]; [|discriminate Hr..]. apply bool_decide_eq_true_1 in Hr.
  destruct H as (v & Hv & Hload & _). exists m', v. split; [done|]. split; [exact Hv|]. split; [exact Hr|].
  change (fixup_address 0x10000 0 bound_fixup) with 0x10008 in Hload. rewrite Hr in Hload. by injection Hload as <-.
Defined.

(** A weak lookup of a name the image imports finds the import, and the base of
    the image is stored for it. *)
Example weak_lookup_of_import :
  fixup_pointer 0x10000 0 [make_undefined bound_name 1 true] [] (Some cache_new) false
    (fixup_bind 8 bound_name BIND_SPECIAL_DYLIB_WEAK_LOOKUP 0 false) = Ok (Some 0x10000) /\
  forall v, ~ defined_as 0x10000 [make_undefined bound_name 1 true] [] cache_new (bstr "_f")
    BIND_SPECIAL_DYLIB_WEAK_LOOKUP v.
Proof.
  split; [vm_compute; reflexivity|]. intros v Hv. remember BIND_SPECIAL_DYLIB_WEAK_LOOKUP as w eqn:Hw.
  destruct Hv as [i s Hi _ Hd _|? ? ? Hs|? ? ? ? ? Hs]; [|by subst; apply Hs, not_special_weak..].
  destruct i as [|[]]; [|done..]. injection Hi as <-. by apply Hd.
Qed.
