(* ===== verification/Loader.v ===== *)
(** The loader: [src/loader.rs].

    One walk over the load commands gathers what linking needs
    ([macho_parser]); the dependencies are loaded, the segments mapped, the
    fixups applied, and the image finished ([macho_loader]). The parser is a
    function of the image; the loader runs in the world of [Kernel]. *)
From S2P Require Import Prelude Scroll Bindings Container ArrayVec Memory Kernel VM Printing Files Image.
From S2P Require MachOImage.
From S2P Require Import SharedCache Fixups.

Definition macho_endian_from_magic (magic : mach_magic) : Endian :=
  match magic with
  | MH_MAGIC | MH_MAGIC_64 => Little
  | MH_CIGAM | MH_CIGAM_64 | FAT_MAGIC | FAT_MAGIC_64 | FAT_CIGAM | FAT_CIGAM_64 => Big
  end.

Inductive Rpath := LoaderPath | ExecutablePath | RPath.

Record ParsedImage := Mk_ParsedImage {
  segments : FixedVec Segment;
  fixups : list Fixup;
  symbols : list Symbol;
  init_functions : list Z;
  pi_libraries : FixedVec (bytes * Z);
  entry_point : Z;
  has_thread_locals : bool;
  is_dylib : bool;
  rpath : option Rpath
}.

(** ** Parsing *)

Section Parser.
Context {sc : Scroll} {bp : BuildProfile} (image : Container).

Definition parse_dylib_command (offset : Z) (libs : FixedVec (bytes * Z)) : result (FixedVec (bytes * Z)) :=
  let* lc := map_err "could not parse a dylib_command in the inner arm64 image"
    (deserialize_type_at_offset dylib_command image offset) in
  let name_offset := ls_offset (dl_name (dc_dylib lc)) in
  let* off := add64 offset name_offset in
  let* name := deserialize_string_at_offset image off in
  push libs (name, name_offset).

Definition parse_main_command (offset : Z) (is_dylib : bool) : result Z :=
  if is_dylib then Err "a dynamic library should not contain a `LC_MAIN` load command"
  else
    let* lc := map_err "could not parse `entry_point_command` in the inner arm64 image"
      (deserialize_type_at_offset entry_point_command image offset) in
    Ok (ep_entryoff lc).

Definition parse_rpath (offset : Z) : result Rpath :=
  let* lc := map_err "could not parse `rpath_command` in the inner arm64 image"
    (deserialize_type_at_offset rpath_command image offset) in
  let* off := add64 offset (ls_offset (rp_path lc)) in
  let* text := deserialize_string_at_offset image off in
  if bool_decide (text = bstr "@rpath") then Ok RPath
  else if bool_decide (text = bstr "@loader_path") then Ok LoaderPath
  else if bool_decide (text = bstr "@executable_path") then Ok ExecutablePath
  else Err "coulnt not parse rpath: unknown placeholder".

(** The inner result is the function's own [Result]: its callers inspect it. *)
Definition read_symbol_name (stroff n_strx : Z) (err : string) : result (FixedString + string) :=
  let* off := add32 stroff n_strx in
  let* text := deserialize_string_at_offset image off in
  let* name := try_from_str (Z.to_nat SYMBOL_NAME_LEN) text in
  Ok (match name with Some name => inl name | None => inr err end).

(** [value & mask != 0] *)
Definition has_flag (value mask : Z) : bool := negb (Z.land value mask =? 0).

Definition classify_defined_symbol (stroff : Z) (entry : nlist_64) (symbols : list Symbol)
    : result (list Symbol) :=
  let* name := read_symbol_name stroff (nu_n_strx (nl_n_un entry)) "could not read symbol name" in
  match name with
  | inr _ => Ok symbols
  | inl name =>
      let value := nl_n_value entry in
      let sect := nl_n_sect entry in
      let cold := has_flag (nl_n_desc entry) N_COLD_FUNC in
      let thumb := has_flag (nl_n_desc entry) N_ARM_THUMB_DEF in
      let is_external := has_flag (nl_n_type entry) N_EXT in
      let is_private_extern := has_flag (nl_n_type entry) N_PEXT in
      let is_weak_def := has_flag (nl_n_desc entry) N_WEAK_DEF in
      let is_alt_entry := has_flag (nl_n_desc entry) N_ALT_ENTRY in
      let is_resolver := has_flag (nl_n_desc entry) N_SYMBOL_RESOLVER in
      let is_weak_ref := has_flag (nl_n_desc entry) N_WEAK_REF in
      match is_external, is_private_extern, is_weak_def, is_alt_entry, is_resolver, is_weak_ref with
      | false, false, false, false, _, _ => Ok (symbols ++ [make_regular_local name value sect cold thumb])
      | false, true, false, false, _, _ => Ok (symbols ++ [make_regular_export name value sect cold thumb])
      | true, false, true, false, _, false => Ok (symbols ++ [make_weak_def_export name value sect cold thumb])
      | true, false, false, false, false, _ => Ok (symbols ++ [make_regular_export name value sect cold thumb])
      | false, false, _, true, _, _ => Err "makeAltEntry with Scope::translationUnit"
      | false, true, true, _, _, _ => Err "makeWeakDefWasPrivateExtern"
      | false, true, false, true, _, _ => Err "unsupported makeAltEntry with Scope::wasLinkageUnit"
      | true, true, _, true, _, _ => Err "makeAltEntry with Scope::linkageUnit"
      | true, true, true, _, _, _ => Err "makeWeakDefHidden"
      | true, true, _, _, true, _ => Err "makeDynamicResolver with Scope::linkageUnit"
      | true, true, _, _, _, _ => Err "makeRegularHidden"
      | true, false, _, true, _, _ => Err "makeAltEntry with Scope::global"
      | true, false, true, _, _, _ => Err "makeWeakDefAutoHide"
      | true, false, _, _, true, _ => Err "makeDynamicResolver"
      | _, _, _, _, _, _ => Err "unknown symbol kind"
      end
  end.

Definition classify_undefined_symbol (stroff : Z) (entry : nlist_64) (symbols : list Symbol)
    : result (list Symbol) :=
  if negb (nl_n_value entry =? 0) then
    if has_flag (nl_n_type entry) N_PEXT then Panic "not implemented: N_PEXT: n_type"
    else Panic "not implemented: n_type"
  else
    let* name := read_symbol_name stroff (nu_n_strx (nl_n_un entry)) "could not read symbol name" in
    match name with
    | inr _ => Ok symbols
    | inl name =>
        Ok (symbols ++ [make_undefined name (get_library_ordinal (nl_n_desc entry))
                          (has_flag (nl_n_desc entry) N_WEAK_REF)])
    end.

(** One iteration of the loop over the symbol table; the state is
    [nlist_offset] and the symbols. *)
Definition parse_symtab_entry (stroff : Z) (s : Z * list Symbol) : result (Z * list Symbol) :=
  let '(nlist_offset, symbols) := s in
  let* entry := map_err "could not parse `nlist_64` in the inner arm64 image"
    (deserialize_type_at_offset nlist_64 image nlist_offset) in
  let* nlist_offset := add64 nlist_offset (size_of nlist_64) in
  if has_flag (nl_n_type entry) N_STAB then Ok (nlist_offset, symbols)
  else
    let kind := Z.land (nl_n_type entry) N_TYPE in
    if kind =? N_SECT then
      let* symbols := classify_defined_symbol stroff entry symbols in Ok (nlist_offset, symbols)
    else if kind =? N_UNDF then
      let* symbols := classify_undefined_symbol stroff entry symbols in Ok (nlist_offset, symbols)
    else Ok (nlist_offset, symbols).

Definition parse_symtab (offset : Z) (symbols : list Symbol) : result (list Symbol) :=
  let* lc := map_err "could not parse `symtab_command` in the inner arm64 image"
    (deserialize_type_at_offset symtab_command image offset) in
  let* r := for_range (Z.to_nat (sy_nsyms lc)) 0 (fun _ => parse_symtab_entry (sy_stroff lc))
    (sy_symoff lc, symbols) in
  Ok (snd r).

(** [while cursor < end] *)
Fixpoint init_func_loop (fuel : nat) (cursor stop : Z) (init_functions : list Z) : result (list Z) :=
  match fuel with
  | O => Diverge
  | S k =>
      if cursor <? stop then
        let* func := map_err "could not parse S_INIT_FUNC_OFFSETS" (read_u32 image cursor) in
        let* cursor := add32 cursor 4 in
        init_func_loop k cursor stop (init_functions ++ [func])
      else Ok init_functions
  end.
Definition read_init_func_offsets (cursor size : Z) (init_functions : list Z) : result (list Z) :=
  let* stop := add32 cursor size in
  init_func_loop (S (Z.to_nat (stop - cursor))) cursor stop init_functions.

(** The state is [init_functions] and [has_thread_locals]. *)
Definition scan_section (section_off : Z) (s : list Z * bool) : result (list Z * bool) :=
  let '(init_functions, has_thread_locals) := s in
  let* section := map_err "could not parse `section_64` in the inner arm64 image"
    (deserialize_type_at_offset section_64 image section_off) in
  let kind := Z.land (se_flags section) SECTION_TYPE in
  if kind =? S_INIT_FUNC_OFFSETS then
    let* init_functions :=
      read_init_func_offsets (se_offset section) (as_u 32 (se_size section)) init_functions in
    Ok (init_functions, has_thread_locals)
  else if kind =? S_THREAD_LOCAL_VARIABLES then Ok (init_functions, true)
  else Ok (init_functions, has_thread_locals).

Definition parse_segment (offset : Z) (segments : FixedVec Segment) (s : list Z * bool)
    : result (FixedVec Segment * (list Z * bool)) :=
  let* lc := map_err "could not parse `segment_command_64` in the inner arm64 image"
    (deserialize_type_at_offset segment_command_64 image offset) in
  let* sections_off := add64 offset (size_of segment_command_64) in
  let* s :=
    if starts_with (sc_segname lc) SEG_TEXT || starts_with (sc_segname lc) SEG_DATA then
      for_range (Z.to_nat (sc_nsects lc)) 0 (fun i s =>
        let* k := mul64 i (size_of section_64) in
        let* section_off := add64 sections_off k in
        scan_section section_off s) s
    else Ok s in
  let* segments := push segments
    {| prot := sc_initprot lc; vm_addr := sc_vmaddr lc; file_offset := sc_fileoff lc; vm_size := sc_vmsize lc |} in
  Ok (segments, s).

(** The [match] on the command *)
Definition parse_command (cmd : load_command_variants) (offset : Z) (p : ParsedImage) : result ParsedImage :=
  match cmd with
  | LC_LOAD_DYLIB | LC_LOAD_WEAK_DYLIB | LC_LAZY_LOAD_DYLIB =>
      let* libs := parse_dylib_command offset (pi_libraries p) in
      Ok (Mk_ParsedImage (segments p) (fixups p) (symbols p) (init_functions p) libs
            (entry_point p) (has_thread_locals p) (is_dylib p) (rpath p))
  | LC_MAIN =>
      let* e := parse_main_command offset (is_dylib p) in
      Ok (Mk_ParsedImage (segments p) (fixups p) (symbols p) (init_functions p) (pi_libraries p)
            e (has_thread_locals p) (is_dylib p) (rpath p))
  | LC_SYMTAB =>
      let* syms := parse_symtab offset (symbols p) in
      Ok (Mk_ParsedImage (segments p) (fixups p) syms (init_functions p) (pi_libraries p)
            (entry_point p) (has_thread_locals p) (is_dylib p) (rpath p))
  | LC_SEGMENT_64 =>
      let* r := parse_segment offset (segments p) (init_functions p, has_thread_locals p) in
      let '(segs, (inits, tl)) := r in
      Ok (Mk_ParsedImage segs (fixups p) (symbols p) inits (pi_libraries p)
            (entry_point p) tl (is_dylib p) (rpath p))
  | LC_DYLD_CHAINED_FIXUPS =>
      let* fx := chained_fixups_parse_all image in
      Ok (Mk_ParsedImage (segments p) fx (symbols p) (init_functions p) (pi_libraries p)
            (entry_point p) (has_thread_locals p) (is_dylib p) (rpath p))
  | LC_RPATH =>
      let* rp := parse_rpath offset in
      Ok (Mk_ParsedImage (segments p) (fixups p) (symbols p) (init_functions p) (pi_libraries p)
            (entry_point p) (has_thread_locals p) (is_dylib p) (Some rp))
  | _ => Ok p
  end.

Definition macho_parser : result ParsedImage :=
  let* header := map_err "could not read `mach_header_64` from arm64 image"
    (deserialize_type_at_offset mach_header_64 image 0) in
  let* is_dylib :=
    match mh_filetype header with
    | MH_EXECUTE => Ok false
    | MH_DYLIB => Ok true
    | _ => Err "the arm64 image filetype must be MH_EXECUTE"
    end in
  let parsed := Mk_ParsedImage (new_array 64) [] [] [] (new_array 64) 0 false is_dylib None in
  let* r := for_range (Z.to_nat (mh_ncmds header)) 0 (fun _ s =>
    let '(offset, parsed) := s in
    let* lc := map_err "could not parse a load command in the inner arm64 image"
      (deserialize_type_at_offset load_command image offset) in
    let* parsed := parse_command (lc_cmd lc) offset parsed in
    let* offset := add64 offset (lc_cmdsize lc) in
    Ok (offset, parsed)) (size_of mach_header_64, parsed) in
  Ok (snd r).
End Parser.

(** ** Dependencies *)

(** The path with [prefix] removed *)
Definition strip_prefix (s prefix : bytes) : option bytes :=
  if starts_with s prefix then Some (drop (length prefix) s) else None.

Definition user_dylib_disk_path_resolve {E} (install_name : bytes) (rpath : option Rpath) (exec_dir : bytes)
    : outcome E bytes :=
  let in_exec_dir rest := exec_dir ++ bstr "/" ++ rest in
  let* resolved :=
    match strip_prefix install_name (bstr "@rpath/") with
    | Some rest =>
        match rpath with
        | Some LoaderPath => Ok (in_exec_dir rest)
        | Some ExecutablePath => Ok (in_exec_dir rest)
        | Some RPath => Panic "not implemented: @rpath search paths"
        | None => Ok rest
        end
    | None =>
        match strip_prefix install_name (bstr "@loader_path/") with
        | Some rest => Ok (in_exec_dir rest)
        | None =>
            match strip_prefix install_name (bstr "@executable_path/") with
            | Some rest => Ok (in_exec_dir rest)
            | None => Ok install_name
            end
        end
    end in
  Ok (resolved ++ [x00]).

Section Loading.
Context {sc : Scroll} {bp : BuildProfile} {M : Machine}.

Definition dependencies_collect (parsed_image : ParsedImage) (cache : DyldSharedCache)
    : result (FixedVec (bytes * bool)) :=
  let* libs := deref (pi_libraries parsed_image) in
  for_each libs (fun lib dependencies =>
    if fv_length dependencies =? 32 then Err "exceeded maximum amount of dylibs"
    else push dependencies (fst lib, is_library_cached cache (fst lib))) (new_array 32).

(** ** Mapping *)

Definition map_extent (segs : list Segment) : result (Z * Z) :=
  for_each segs (fun s a =>
    let* e := add64 (vm_addr s) (vm_size s) in
    Ok (Z.min (fst a) (vm_addr s), Z.max (snd a) e)) (2 ^ 64 - 1, 0).

(** The loop that copies the segments *)
Fixpoint segments_copy (skip_page_zero : bool) (image : Container) (vm : Z) (segs : list Segment)
    : io string unit :=
  match segs with
  | [] => ret tt
  | seg :: r =>
      if skip_page_zero && (vm_addr seg =? 0) then segments_copy skip_page_zero image vm r
      else
        let! _ := vm_copy_into_task_self (ptr_add (s_ptr (as_bytes image)) (file_offset seg))
          (ptr_add vm (vm_addr seg)) (vm_size seg) in
        segments_copy skip_page_zero image vm r
  end.

Definition macho_segments_map_to_vm (skip_page_zero : bool) (image : Container) (segs : list Segment)
    : io string (Z * Z) :=
  let! (min_addr, max_addr) := lift (map_extent segs) in
  let! size := lift (sub64 max_addr min_addr) in
  let! vm := vm_alloc_task_self size in
  match vm with
  | inr _ => fail "failed to vm_alloc_task_self"
  | inl vm =>
      let! _ := segments_copy skip_page_zero image vm segs in
      ret (vm, size)
  end.

(** [for set_max in [true, false]] *)
Fixpoint segments_protect (vm : Z) (calls : list (Segment * bool)) : io string unit :=
  match calls with
  | [] => ret tt
  | (seg, set_max) :: r =>
      let! e := vm_protect (ptr_add vm (vm_addr seg)) (vm_size seg) (if set_max then 1 else 0)
        (as_i 32 (prot seg)) in
      match e with
      | inr _ => fail "could not apply vm protections to a memory region"
      | inl _ => segments_protect vm r
      end
  end.
Definition macho_segments_vm_protect (vm : Z) (segs : list Segment) : io string unit :=
  segments_protect vm (flat_map (fun seg => [(seg, true); (seg, false)]) segs).

Fixpoint macho_init_functions_exec {E} (vm : Z) (init_functions : list Z) : io E unit :=
  match init_functions with
  | [] => ret tt
  | func :: r =>
      let! _ := local_u64_set 0 in
      let! _ := with_sp (fun sp => entry_and_ret (ptr_add (ptr_add vm func) PAGE_ZERO_SIZE) 0 sp sp sp) in
      macho_init_functions_exec vm r
  end.

Definition macho_tlv_initialize {E} (vm : Z) : io E unit := tlv_initialize (ptr_add vm PAGE_ZERO_SIZE).

(** [fixup_all_chained_fixups] on the program's memory: what is stored before a
    fixup fails stays stored. *)
Fixpoint fixup_all_in_memory (dst_ptr page_zero_size : Z) (symbols : list Symbol) (dylibs : list Library)
    (dyld_shared_cache : option DyldSharedCache) (ignore_binds : bool) (fixups : list Fixup) : io string unit :=
  match fixups with
  | [] => ret tt
  | f :: r =>
      let! _ := updating (fun m =>
        let* m := fixup_apply dst_ptr page_zero_size symbols dylibs dyld_shared_cache ignore_binds f m in
        Ok (m, tt)) in
      fixup_all_in_memory dst_ptr page_zero_size symbols dylibs dyld_shared_cache ignore_binds r
  end.

Definition image_fixups_apply (vm : Z) (parsed_image : ParsedImage) (dependencies : list Library)
    (cache : DyldSharedCache) (is_executable : bool) : io string unit :=
  let fixup_base_offset := if is_executable then PAGE_ZERO_SIZE else 0 in
  fixup_all_in_memory vm fixup_base_offset (symbols parsed_image) dependencies (Some cache) false
    (fixups parsed_image).

Definition image_finalize (vm : Z) (parsed_image : ParsedImage) (is_executable : bool) : io string unit :=
  let! _ := (if is_executable && has_thread_locals parsed_image then macho_tlv_initialize vm else ret tt) in
  let! segs := lift (deref (segments parsed_image)) in
  let! _ := macho_segments_vm_protect vm segs in
  macho_init_functions_exec vm (init_functions parsed_image).

(** ** The loader *)

(** The loop of [user_dylibs_load_recursively]; [load] is [macho_loader]. *)
Fixpoint user_dylibs_load_loop (load : Container -> bytes -> io string (Z * Z))
    (dependencies : list (bytes * bool)) (exec_dir : bytes) (rpath : option Rpath)
    (loaded : list Library) : io string (list Library) :=
  match dependencies with
  | [] => ret loaded
  | (install_name, is_system_dylib) :: r =>
      if is_system_dylib : bool then
        user_dylibs_load_loop load r exec_dir rpath (loaded ++ [System install_name])
      else
        let! dylib_path := lift (user_dylib_disk_path_resolve install_name rpath exec_dir) in
        let! path := string_slice dylib_path in
        let! image := disk_path_mmap path in
        let! (vm, vm_size) := load image dylib_path in
        let! bytes := reading (fun m => from_raw_parts m vm vm_size) in
        user_dylibs_load_loop load r exec_dir rpath (loaded ++ [User (with_bytes bytes Little)])
  end.

(** Each level of user dylibs takes one unit of fuel. *)
Fixpoint macho_loader (fuel : nat) (cache : DyldSharedCache) (image : Container) (exec_dir : bytes)
    (dylib_dir : option bytes) : io string (Z * Z) :=
  match fuel with
  | O => lift Diverge
  | S k =>
      let is_executable := match dylib_dir with None => true | Some _ => false end in
      let! parsed_image := lift (macho_parser image) in
      let! dependencies := lift (dependencies_collect parsed_image cache) in
      let! deps := lift (deref dependencies) in
      let! dylib_images := user_dylibs_load_loop
        (fun image path => macho_loader k cache image exec_dir (Some path)) deps exec_dir
        (rpath parsed_image) [] in
      let! segs := lift (deref (segments parsed_image)) in
      let! (vm, vm_size) := macho_segments_map_to_vm is_executable image segs in
      let! _ := image_fixups_apply vm parsed_image dylib_images cache is_executable in
      let! _ := image_finalize vm parsed_image is_executable in
      match dylib_dir with
      | Some _ => ret (vm, vm_size)
      | None => ret (vm, ptr_add (ptr_add vm (entry_point parsed_image)) PAGE_ZERO_SIZE)
      end
  end.
End Loading.

(** ** Symbols *)

Section SymbolLemmas.
Context {sc : Scroll} {bp : BuildProfile} (image : Container).

(** What the flags of a defined symbol make of it: [None] for the kinds the
    loader refuses. *)
Definition defined_symbol_weak (entry : nlist_64) : option bool :=
  let ext := has_flag (nl_n_type entry) N_EXT in
  let pext := has_flag (nl_n_type entry) N_PEXT in
  let weak := has_flag (nl_n_desc entry) N_WEAK_DEF in
  if has_flag (nl_n_desc entry) N_ALT_ENTRY then None
  else if negb ext then if weak then None else Some false
  else if pext then None
  else if weak then if has_flag (nl_n_desc entry) N_WEAK_REF then None else Some true
  else if has_flag (nl_n_desc entry) N_SYMBOL_RESOLVER then None
  else Some false.

(** C37 A symbol defined in a section is recorded once, under its name, with
    its value as the offset in the image, its section, and this library's
    ordinal, and as weak exactly when it is an external weak definition; the
    kinds that are not supported (alternative entry points, hidden and
    auto-hidden symbols, resolvers, weak definitions that are not external)
    are errors, and a name longer than a symbol name can be is skipped. *)
Theorem classify_defined_symbol_spec stroff entry symbols n :
  read_symbol_name image stroff (nu_n_strx (nl_n_un entry)) "could not read symbol name" = Ok n ->
  match n, defined_symbol_weak entry with
  | inr _, _ => classify_defined_symbol image stroff entry symbols = Ok symbols
  | inl nm, Some weak =>
      exists sym, classify_defined_symbol image stroff entry symbols = Ok (symbols ++ [sym]) /\
        name sym = nm /\ impl_offset sym = nl_n_value entry /\ sect_num sym = nl_n_sect entry /\
        lib_ordinal sym = SELF_LIBRARY_ORDINAL /\ is_weak sym = weak /\
        is_cold sym = has_flag (nl_n_desc entry) N_COLD_FUNC /\
        is_thumb sym = has_flag (nl_n_desc entry) N_ARM_THUMB_DEF
  | inl _, None => exists e, classify_defined_symbol image stroff entry symbols = Err e
  end.
Proof.
  intros Hn. unfold classify_defined_symbol, defined_symbol_weak. rewrite Hn. cbn [bind].
  destruct n as [nm|e]; [|done].
  destruct (has_flag (nl_n_type entry) N_EXT), (has_flag (nl_n_type entry) N_PEXT),
    (has_flag (nl_n_desc entry) N_WEAK_DEF), (has_flag (nl_n_desc entry) N_ALT_ENTRY),
    (has_flag (nl_n_desc entry) N_SYMBOL_RESOLVER), (has_flag (nl_n_desc entry) N_WEAK_REF); cbn;
    (eexists; split_and!; reflexivity) || (eexists; reflexivity).
Qed.
End SymbolLemmas.

(** ** Libraries *)

(** The commands that name a library to load. *)
Definition is_library_command (cmd : load_command_variants) : bool :=
  bool_decide (cmd = LC_LOAD_DYLIB) || bool_decide (cmd = LC_LOAD_WEAK_DYLIB) ||
  bool_decide (cmd = LC_LAZY_LOAD_DYLIB).

Section LibraryLemmas.
Context `{SL : ScrollLaws} {bp : BuildProfile}.

(** The install name a library command holds. *)
Definition library_name (image : Container) (off : Z) : result (bytes * Z) :=
  let* lc := map_err "could not parse a dylib_command in the inner arm64 image"
    (deserialize_type_at_offset dylib_command image off) in
  let* o := add64 off (ls_offset (dl_name (dc_dylib lc))) in
  let* name := deserialize_string_at_offset image o in
  Ok (name, ls_offset (dl_name (dc_dylib lc))).

Lemma parse_dylib_command_name image off libs :
  parse_dylib_command image off libs = let* n := library_name image off in push libs n.
Proof.
  unfold parse_dylib_command, library_name.
  destruct (map_err _ (deserialize_type_at_offset dylib_command image off)) as [lc|e|w| |]; cbn; try done.
  rewrite bind_assoc. destruct (add64 off _) as [o|e|w| |]; cbn; try done.
  rewrite bind_assoc. by destruct (deserialize_string_at_offset image o).
Qed.

End LibraryLemmas.

(** ** The parser ends *)

Section ParserEnds.
Context `{SL : ScrollLaws} {bp : BuildProfile} (image : Container).
Hypothesis small : zlen (raw image) < 2 ^ 32.

Lemma push_ends {T} (v : FixedVec T) x : ends (@push string bp T v x).
Proof.
  unfold push, try_push, is_full, remaining_capacity. repeat rewrite bind_assoc.
  apply ends_bind; [apply ends_in_range|]. intros r _. cbn [bind]. destruct (r =? 0); [exact I|].
  rewrite bind_assoc. apply ends_bind; [apply ends_in_range|]. intros n _. exact I.
Qed.

Lemma read_symbol_name_ends stroff n_strx err : ends (read_symbol_name image stroff n_strx err).
Proof.
  unfold read_symbol_name. apply ends_bind; [apply ends_in_range|]. intros off Hoff.
  apply in_range_Ok in Hoff as [[Hoff _] _]; [|lia].
  apply ends_bind; [apply deserialize_string_ends|]. intros text Ht.
  apply (deserialize_string_spec_utf8 image off text Hoff) in Ht.
  pose proof (@try_from_str_spec string bp (Z.to_nat SYMBOL_NAME_LEN) text ltac:(done) Ht) as Hn.
  destruct (zlen text <=? _); [destruct Hn as (this & -> & _)|rewrite Hn]; exact I.
Qed.

Lemma parse_symtab_entry_ends stroff s : ends (parse_symtab_entry image stroff s).
Proof.
  destruct s as [off syms]. unfold parse_symtab_entry.
  apply ends_bind; [apply ends_map_err, ends_deserialize|]. intros entry _.
  apply ends_bind; [apply ends_in_range|]. intros off' _. destruct (has_flag _ N_STAB); [exact I|].
  destruct (_ =? N_SECT); [|destruct (_ =? N_UNDF); [|exact I]]; (apply ends_bind; [|intros ? _; exact I]).
  - unfold classify_defined_symbol. apply ends_bind; [apply read_symbol_name_ends|]. intros [nm|e] _; [|exact I].
    destruct (has_flag (nl_n_type entry) N_EXT), (has_flag (nl_n_type entry) N_PEXT),
      (has_flag (nl_n_desc entry) N_WEAK_DEF), (has_flag (nl_n_desc entry) N_ALT_ENTRY),
      (has_flag (nl_n_desc entry) N_SYMBOL_RESOLVER), (has_flag (nl_n_desc entry) N_WEAK_REF); exact I.
  - unfold classify_undefined_symbol. destruct (negb _); [by destruct (has_flag _ N_PEXT)|].
    apply ends_bind; [apply read_symbol_name_ends|]. by intros [nm|e] _.
Qed.

Lemma for_range_ends_all {A} n i (f : Z -> A -> result A) s : (forall j a, ends (f j a)) -> ends (for_range n i f s).
Proof. intros Hf. by apply (for_range_ends (fun _ => True)). Qed.

(** The offsets of a table of initialisers: the words from [cursor] on *)
Lemma init_func_loop_spec fuel cursor stop l :
  0 <= cursor -> stop < 2 ^ 32 -> (Z.to_nat (stop - cursor) < fuel)%nat ->
  ends (init_func_loop image fuel cursor stop l) /\
  forall l', init_func_loop image fuel cursor stop l = Ok l' <->
    exists fs, l' = l ++ fs /\ zlen fs = (Z.max 0 (stop - cursor) + 3) / 4 /\
      forall i f, fs !! i = Some f -> read_u32 image (cursor + 4 * Z.of_nat i) = Ok f.
Proof.
  revert cursor l; induction fuel as [|k IH]; intros cursor l Hc Hst Hk; [lia|]. cbn [init_func_loop].
  destruct (Z.ltb_spec cursor stop) as [Hlt|Hge].
  2: { split; [exact I|]. intros l'. split.
       - intros [= <-]. exists []. rewrite app_nil_r. split; [done|]. split; [|by intros i f Hf].
         rewrite Z.max_l by lia. done.
       - intros (fs & -> & Hl & _). rewrite Z.max_l in Hl by lia. destruct fs; [by rewrite app_nil_r|discriminate Hl]. }
  assert (forall n, (n + 3) / 4 = 1 + (n - 4 + 3) / 4) as Hdiv by (intros; Z.div_mod_to_equations; lia).
  destruct (read_u32 image cursor) as [f|[]|w| |] eqn:Er; cbn [map_err bind];
    try by (unfold read_u32, deserialize_type_at_offset in Er; destruct (pread_with _ _ _ _)).
  - destruct (read_u32_range image cursor f Er Hc) as [_ Hin].
    unfold add_w. rewrite in_range_fits by (unfold fits; lia). cbn [bind].
    destruct (IH (cursor + 4) (l ++ [f])) as [He Hl]; [lia|lia|lia|]. split; [exact He|]. intros l'. rewrite Hl. split.
    + intros (fs & -> & Hn & Hfs). exists (f :: fs). rewrite <- app_assoc. split; [done|]. split.
      * rewrite Z.max_r by lia. rewrite Hdiv.
        destruct (Z.le_gt_cases (stop - cursor) 4); [rewrite Z.max_l in Hn by lia|rewrite Z.max_r in Hn by lia].
        -- replace ((stop - cursor - 4 + 3) / 4) with 0 by (Z.div_mod_to_equations; lia). change ((0 + 3) / 4) with 0 in Hn. len.
        -- replace (stop - cursor - 4) with (stop - (cursor + 4)) by lia. len.
      * intros [|i] g Hi; [injection Hi as <-; by rewrite Z.add_0_r|].
        replace (cursor + 4 * Z.of_nat (S i)) with (cursor + 4 + 4 * Z.of_nat i) by lia. by apply Hfs.
    + intros (fs & -> & Hn & Hfs). rewrite Z.max_r, Hdiv in Hn by lia.
      assert (0 <= (stop - cursor - 4 + 3) / 4) by (Z.div_mod_to_equations; lia).
      destruct fs as [|g fs]; [change (zlen (@nil Z)) with 0 in Hn; lia|]. pose proof (Hfs 0%nat g eq_refl) as Hg.
      rewrite Z.add_0_r in Hg. rewrite Er in Hg. injection Hg as <-. exists fs. rewrite <- app_assoc. split; [done|]. split.
      * destruct (Z.le_gt_cases (stop - cursor) 4); [rewrite Z.max_l by lia|rewrite Z.max_r by lia].
        -- replace ((stop - cursor - 4 + 3) / 4) with 0 in Hn by (Z.div_mod_to_equations; lia). change ((0 + 3) / 4) with 0. len.
        -- replace (stop - (cursor + 4)) with (stop - cursor - 4) by lia. len.
      * intros i g Hi. replace (cursor + 4 + 4 * Z.of_nat i) with (cursor + 4 * Z.of_nat (S i)) by lia. by apply Hfs.
  - split; [exact I|]. intros l'. split; [done|]. intros (fs & _ & Hn & Hfs). rewrite Z.max_r, Hdiv in Hn by lia.
    assert (0 <= (stop - cursor - 4 + 3) / 4) by (Z.div_mod_to_equations; lia).
    destruct fs as [|g fs]; [change (zlen (@nil Z)) with 0 in Hn; lia|]. specialize (Hfs 0%nat g eq_refl). rewrite Z.add_0_r in Hfs. congruence.
Qed.

Lemma read_init_func_offsets_ends cursor size l : 0 <= cursor -> ends (read_init_func_offsets image cursor size l).
Proof.
  intros Hc. unfold read_init_func_offsets. apply ends_bind; [apply ends_in_range|]. intros stop Hst.
  apply in_range_Ok in Hst as [[_ Hst] _]; [|lia]. apply init_func_loop_spec; lia.
Qed.

(** The initialisers taken from a section are the words of its table, all of
    them, in order: one per four bytes of the section (the last may reach past
    its end if the size is no multiple of four), appended to those found
    before; the table is read completely or the parse fails. *)
Theorem read_init_func_offsets_spec cursor size l l' :
  0 <= cursor -> 0 <= size -> cursor + size < 2 ^ 32 ->
  read_init_func_offsets image cursor size l = Ok l' <->
  exists fs, l' = l ++ fs /\ zlen fs = (size + 3) / 4 /\
    forall i f, fs !! i = Some f -> read_u32 image (cursor + 4 * Z.of_nat i) = Ok f.
Proof.
  intros Hc Hsz Hst. unfold read_init_func_offsets, add_w. rewrite in_range_fits by (unfold fits; lia). cbn [bind].
  destruct (init_func_loop_spec (S (Z.to_nat (cursor + size - cursor))) cursor (cursor + size) l) as [_ H]; [lia..|].
  rewrite H. replace (cursor + size - cursor) with size by lia. by rewrite Z.max_r by lia.
Qed.

Lemma scan_section_ends off s : 0 <= off -> ends (scan_section image off s).
Proof.
  intros Hoff. destruct s as [inits tl]. unfold scan_section.
  apply ends_bind; [apply ends_map_err, ends_deserialize|]. intros se Hse%map_err_Ok.
  apply deserialize_wf in Hse as (_ & vs & -> & Hv); [|done|repeat constructor].
  assert (0 <= se_offset (of_fields vs)) as Ho.
  { destruct vs as (? & ? & ? & ? & ? & ? & ? & ? & ? & ? & ? & ? & []). cbn.
    destruct Hv as (_ & _ & _ & _ & Hv & _). by destruct Hv. }
  destruct (_ =? S_INIT_FUNC_OFFSETS); [|by destruct (_ =? S_THREAD_LOCAL_VARIABLES)].
  apply ends_bind; [by apply read_init_func_offsets_ends|]. intros ? _. exact I.
Qed.

Lemma parse_dylib_command_ends off libs : ends (parse_dylib_command image off libs).
Proof.
  unfold parse_dylib_command. apply ends_bind; [apply ends_map_err, ends_deserialize|intros ? _].
  apply ends_bind; [apply ends_in_range|intros ? _]. apply ends_bind; [apply deserialize_string_ends|intros ? _].
  apply push_ends.
Qed.

Lemma parse_main_command_ends off dy : ends (parse_main_command image off dy).
Proof.
  unfold parse_main_command. destruct dy; [exact I|].
  apply ends_bind; [apply ends_map_err, ends_deserialize|]. intros ? _. exact I.
Qed.

Lemma parse_rpath_ends off : ends (parse_rpath image off).
Proof.
  unfold parse_rpath. apply ends_bind; [apply ends_map_err, ends_deserialize|intros ? _].
  apply ends_bind; [apply ends_in_range|intros ? _]. apply ends_bind; [apply deserialize_string_ends|intros t _].
  by repeat case_bool_decide.
Qed.

Lemma parse_symtab_ends off syms : ends (parse_symtab image off syms).
Proof.
  unfold parse_symtab. apply ends_bind; [apply ends_map_err, ends_deserialize|intros ? _].
  apply ends_bind; [|intros ? _; exact I]. apply for_range_ends_all. intros. apply parse_symtab_entry_ends.
Qed.

Lemma parse_segment_ends off segs s : ends (parse_segment image off segs s).
Proof.
  unfold parse_segment. apply ends_bind; [apply ends_map_err, ends_deserialize|intros sc0 _].
  apply ends_bind; [apply ends_in_range|intros secs _].
  apply ends_bind; [|intros s' _; apply ends_bind; [apply push_ends|intros ? _; exact I]].
  destruct (_ || _); [|exact I]. apply for_range_ends_all. intros j a.
  apply ends_bind; [apply ends_in_range|intros k _]. apply ends_bind; [apply ends_in_range|]. intros so Hso.
  apply in_range_Ok in Hso as [[Hso _] _]; [|lia]. by apply scan_section_ends.
Qed.

Lemma parse_command_ends cmd off p : ends (parse_command image cmd off p).
Proof.
  destruct cmd; cbn [parse_command]; try exact I; (apply ends_bind; [|]).
  all: lazymatch goal with
    | |- ends (parse_dylib_command _ _ _) => apply parse_dylib_command_ends
    | |- ends (parse_main_command _ _ _) => apply parse_main_command_ends
    | |- ends (parse_symtab _ _ _) => apply parse_symtab_ends
    | |- ends (parse_rpath _ _) => apply parse_rpath_ends
    | |- ends (parse_segment _ _ _ _) => apply parse_segment_ends
    | |- ends (chained_fixups_parse_all _) => apply chained_fixups_parse_ok; unfold rust_slice; lia
    | |- _ => intros r _; try exact I
    end.
  by destruct r as [? [? ?]].
Qed.

(** C27 Parsing any image of less than 4 GiB ends: whatever its load commands,
    tables and counts hold, the result is a parsed image, an error or a panic,
    never an access outside mapped memory or an endless loop. *)
Theorem macho_parser_ends : ends (macho_parser image).
Proof.
  unfold macho_parser. apply ends_bind; [apply ends_map_err, ends_deserialize|]. intros h _.
  apply ends_bind; [by destruct (mh_filetype h)|]. intros dy _.
  apply ends_bind; [|intros ? _; exact I]. apply for_range_ends_all. intros j [off p].
  apply ends_bind; [apply ends_map_err, ends_deserialize|intros lc _].
  apply ends_bind; [apply parse_command_ends|intros ? _]. apply ends_bind; [apply ends_in_range|intros ? _]. exact I.
Qed.
End ParserEnds.

(** ** Dependencies *)

Section DependencyLemmas.
Context {sc : Scroll} {bp : BuildProfile} {M : Machine}.

Lemma dependencies_loop (cache : DyldSharedCache) libs deps l :
  rep deps l -> capacity deps = 32 ->
  if zlen l + zlen libs <=? 32
  then exists deps', for_each libs (fun lib dependencies =>
      if fv_length dependencies =? 32 then Err "exceeded maximum amount of dylibs"
      else push dependencies (fst lib, is_library_cached cache (fst lib))) deps = Ok deps' /\
    rep deps' (l ++ ((fun lib : bytes * Z => (fst lib, is_library_cached cache (fst lib))) <$> libs))
  else for_each libs (fun lib dependencies =>
      if fv_length dependencies =? 32 then Err "exceeded maximum amount of dylibs"
      else push dependencies (fst lib, is_library_cached cache (fst lib))) deps
    = Err "exceeded maximum amount of dylibs"%string.
Proof.
  revert deps l; induction libs as [|lib libs IH]; intros deps l Hr Hc; cbn [for_each].
  - pose proof Hr as (_ & Hle & _). rewrite Hc in Hle.
    rewrite (proj2 (Z.leb_le _ _)) by len. exists deps. by rewrite app_nil_r.
  - pose proof Hr as (Hl & Hle & _). unfold fv_length. rewrite Hl. rewrite Hc in Hle.
    destruct (Z.eqb_spec (zlen l) 32) as [E|Hne].
    + cbn. by rewrite (proj2 (Z.leb_gt _ _)) by len.
    + pose proof (@push_rep string _ _ _ _ (fst lib, is_library_cached cache (fst lib)) Hr) as Hp.
      rewrite (proj2 (Z.ltb_lt _ _)) in Hp by lia. destruct Hp as (v & -> & Hr' & Hc'). cbn [bind].
      specialize (IH v _ Hr' ltac:(congruence)). rewrite <- app_assoc in IH.
      replace (zlen (l ++ [(lib.1, is_library_cached cache lib.1)]) + zlen libs) with (zlen l + zlen (lib :: libs))
        in IH by len. exact IH.
Qed.

(** The dependencies of an image are its libraries in order, each marked
    with whether the shared cache has it; an image with more than 32 is
    refused with an error, and the fixed-capacity list never overflows. *)
Theorem dependencies_collect_spec (p : ParsedImage) (cache : DyldSharedCache) libs :
  deref (pi_libraries p) = @Ok string _ libs ->
  if zlen libs <=? 32
  then exists deps, dependencies_collect p cache = Ok deps /\
    deref deps = @Ok string _ ((fun lib : bytes * Z => (fst lib, is_library_cached cache (fst lib))) <$> libs)
  else dependencies_collect p cache = Err "exceeded maximum amount of dylibs"%string.
Proof.
  intros Hl. unfold dependencies_collect. rewrite Hl. cbn [bind].
  pose proof (dependencies_loop cache libs (new_array 32) [] ltac:(by apply rep_new) ltac:(done)) as H.
  change (zlen [] + zlen libs) with (zlen libs) in H. destruct (zlen libs <=? 32); [|done].
  destruct H as (deps & -> & Hr). exists deps. split; [done|]. by apply deref_rep.
Qed.

(** What a dependency becomes once loaded. *)
Definition loaded_as (dep : bytes * bool) (lib : Library) : Prop :=
  if snd dep then lib = System (fst dep) else exists c, lib = User c.

Lemma load_loop_libraries load deps exec_dir rp loaded w w' libs :
  user_dylibs_load_loop load deps exec_dir rp loaded w = (w', Ok libs) ->
  exists new_libs, libs = loaded ++ new_libs /\ Forall2 loaded_as deps new_libs.
Proof.
  revert loaded w; induction deps as [|[nm sys] deps IH]; intros loaded w H; cbn [user_dylibs_load_loop] in H.
  - injection H as _ <-. exists []. by rewrite app_nil_r.
  - destruct sys.
    + apply IH in H as (l & -> & Hf). exists (System nm :: l). rewrite <- app_assoc.
      split; [done|]. by constructor.
    + do 3 (apply io_bind_Ok in H as (? & ? & _ & H)).
      apply io_bind_Ok in H as (? & [vm vm_size] & _ & H). apply io_bind_Ok in H as (? & ? & _ & H).
      apply IH in H as (new_libs & -> & Hf). eexists (User _ :: new_libs). rewrite <- app_assoc.
      split; [done|]. constructor; [|done]. cbn. eauto.
Qed.

(** Loading the dependencies yields one library for each of them, in the
    same order: the shared cache's for one it has, an image loaded from disk
    for any other. So the library a bind's ordinal [i] indexes is the [i]-th
    dependency. *)
Theorem user_dylibs_in_order load deps exec_dir rp w w' libs :
  user_dylibs_load_loop load deps exec_dir rp [] w = (w', Ok libs) ->
  length libs = length deps /\
  forall i dep lib, deps !! i = Some dep -> libs !! i = Some lib -> loaded_as dep lib.
Proof.
  intros H. apply load_loop_libraries in H as (l & -> & Hf). cbn. split.
  - symmetry. by eapply Forall2_length.
  - intros i dep lib Hd Hl. by eapply Forall2_lookup_lr.
Qed.

(** ** Mapping the segments *)

(** The bytes of a segment in the file and in the mapped image. *)
Definition seg_source (image : Container) (seg : Segment) : Z := ptr_add (s_ptr (data image)) (file_offset seg).
Definition seg_target (vm : Z) (seg : Segment) : Z := ptr_add vm (vm_addr seg).

Definition ranges_disjoint (p n q k : Z) : Prop := p + n <= q \/ q + k <= p.

(** The copied segments: readable, writable, and no source or other target
    overlaps a target. *)
Definition segments_ok (m : memory) (image : Container) (vm : Z) (segs : list Segment) : Prop :=
  Forall (fun s => 0 <= vm_size s /\ mapped m (seg_source image s) (vm_size s) /\
    mapped m (seg_target vm s) (vm_size s)) segs /\
  (forall s s', s ∈ segs -> s' ∈ segs ->
     ranges_disjoint (seg_source image s) (vm_size s) (seg_target vm s') (vm_size s')) /\
  List.ForallOrdPairs (fun s s' =>
    ranges_disjoint (seg_target vm s) (vm_size s) (seg_target vm s') (vm_size s')) segs.

(** The segments that are copied: in an executable, not the one at address 0. *)
Definition copied (skip_page_zero : bool) (segs : list Segment) : list Segment :=
  List.filter (fun s => negb (skip_page_zero && (vm_addr s =? 0))) segs.

Lemma vm_copy_mapped {E} w src dst n :
  0 <= n -> mapped (w_mem w) src n -> mapped (w_mem w) dst n ->
  exists m bs, vm_copy_into_task_self src dst n w = (set_mem w m, @Ok E _ tt) /\
    load_bytes (w_mem w) src (Z.to_nat n) = Some bs /\ dom m = dom (w_mem w) /\
    load_bytes m dst (Z.to_nat n) = Some bs /\
    forall a, ~ dst <= a < dst + n -> m !! a = w_mem w !! a.
Proof.
  intros Hn Hs Hd. unfold vm_copy_into_task_self, copy_nonoverlapping, updating.
  destruct (load_bytes_mapped (w_mem w) src (Z.to_nat n)) as (bs & -> & Hl); [by rewrite Z2Nat.id|].
  assert (zlen bs = n) as Hz by len.
  destruct (store_bytes_mapped (w_mem w) dst bs) as (m & -> & Hdom & Hlook); [by rewrite Hz|].
  exists m, bs. rewrite Hz in Hlook. split_and!; try done.
  - rewrite <- Hl. apply load_bytes_stored; [apply Hd|rewrite Hz; apply Hd|].
    intros i b Hi. pose proof (lookup_lt_Some _ _ _ Hi). rewrite Hlook, bool_decide_true by len.
    rewrite <- Hi. f_equal. lia.
  - intros a Ha. by rewrite Hlook, bool_decide_false.
Qed.

(** The copies one by one *)
Lemma segments_copy_runs skip_page_zero image vm segs w :
  segments_ok (w_mem w) image vm (copied skip_page_zero segs) ->
  exists m, segments_copy skip_page_zero image vm segs w = (set_mem w m, Ok tt) /\
    dom m = dom (w_mem w) /\
    (forall s, s ∈ copied skip_page_zero segs ->
       load_bytes m (seg_target vm s) (Z.to_nat (vm_size s)) =
         load_bytes (w_mem w) (seg_source image s) (Z.to_nat (vm_size s))) /\
    (forall a, Forall (fun s => ~ seg_target vm s <= a < seg_target vm s + vm_size s)
        (copied skip_page_zero segs) -> m !! a = w_mem w !! a).
Proof.
  revert w; induction segs as [|seg segs IH]; intros w Hok; cbn [segments_copy copied List.filter].
  { exists (w_mem w). split; [by destruct w|]. split; [done|].
    split; [intros s Hin; by apply not_elem_of_nil in Hin|done]. }
  unfold copied in Hok. cbn [List.filter] in Hok. fold (copied skip_page_zero segs) in *.
  destruct (skip_page_zero && (vm_addr seg =? 0)); cbn [negb] in *; [by apply IH|].
  destruct Hok as (Hm & Hsd & Hp). apply Forall_cons in Hm as [(Hn & Hms & Hmt) Hm].
  inversion Hp as [|? ? Hpd Hp']; subst.
  destruct (@vm_copy_mapped string w _ _ _ Hn Hms Hmt) as (m1 & bs & Hcp & Hsrc & Hdom & Hdst & Hout).
  unfold io_bind. unfold seg_source, seg_target in Hcp. unfold as_bytes. rewrite Hcp. cbn [bind].
  assert (segments_ok m1 image vm (copied skip_page_zero segs)) as Hok1.
  { split; [|split; [|done]].
    - eapply Forall_impl; [exact Hm|]. intros s (? & ? & ?). split_and!; [done|by eapply mapped_dom..].
    - intros s s' Hs Hs'. apply Hsd; by right. }
  destruct (IH (set_mem w m1) Hok1) as (m & -> & Hdom' & Hload & Hout').
  exists m. split; [done|]. split; [cbn in Hdom'; congruence|]. cbn [w_mem set_mem] in Hload, Hout'. split.
  - intros s [->|Hin]%elem_of_cons.
    + rewrite Hsrc, <- Hdst. destruct Hmt as (? & ? & _). apply load_bytes_ext; [lia|lia|].
      intros a Ha. rewrite Hout'; [done|]. eapply Forall_impl; [exact Hpd|].
      intros s' Hs'. unfold ranges_disjoint in Hs'. cbn in Hs'. lia.
    + rewrite Hload by done. rewrite Forall_forall in Hm. destruct (Hm s Hin) as (? & (? & ? & _) & _).
      apply load_bytes_ext; [lia|lia|]. intros a Ha. apply Hout.
      pose proof (Hsd s seg ltac:(by right) ltac:(by left)) as Hd. unfold ranges_disjoint in Hd. lia.
  - intros a [Ha Hall]%Forall_cons. by rewrite Hout', Hout.
Qed.

(** Mapping copies each segment's bytes of the file to its place in the
    image, with nothing lost when segments are adjacent, skipping the page-zero
    segment of an executable, and writes nowhere else; the copies need the
    file to hold [vm_size] bytes from each segment's file offset on. *)
Theorem segments_copy_spec skip_page_zero image vm segs w :
  segments_ok (w_mem w) image vm (copied skip_page_zero segs) ->
  exists m, segments_copy skip_page_zero image vm segs w = (set_mem w m, Ok tt) /\
    dom m = dom (w_mem w) /\
    (forall s, s ∈ copied skip_page_zero segs ->
       load_bytes m (seg_target vm s) (Z.to_nat (vm_size s)) =
         load_bytes (w_mem w) (seg_source image s) (Z.to_nat (vm_size s))) /\
    (forall a, Forall (fun s => ~ seg_target vm s <= a < seg_target vm s + vm_size s)
        (copied skip_page_zero segs) -> m !! a = w_mem w !! a).
Proof. exact (segments_copy_runs skip_page_zero image vm segs w). Qed.
End DependencyLemmas.

(** ** Fuel *)

Section LoaderLemmas.
Context {sc : Scroll} {bp : BuildProfile} {M : Machine}.

(** More fuel changes nothing. *)

Lemma io_bind_mono {E A B} (m m' : io E A) (f f' : A -> io E B) w :
  (snd (m w) <> Diverge -> m' w = m w) -> (forall a w1, snd (f a w1) <> Diverge -> f' a w1 = f a w1) ->
  snd (io_bind m f w) <> Diverge -> io_bind m' f' w = io_bind m f w.
Proof.
  intros Hm Hf. unfold io_bind. destruct (m w) as [w1 [a|e|y| |]] eqn:E1; cbn [snd]; intros H;
    [rewrite Hm by done; by apply Hf|by rewrite Hm..|done].
Qed.

Lemma load_loop_mono load load' deps exec_dir rp loaded w :
  (forall image path w1, snd (load image path w1) <> Diverge -> load' image path w1 = load image path w1) ->
  snd (user_dylibs_load_loop load deps exec_dir rp loaded w) <> Diverge ->
  user_dylibs_load_loop load' deps exec_dir rp loaded w = user_dylibs_load_loop load deps exec_dir rp loaded w.
Proof.
  intros Hl. revert loaded w; induction deps as [|[nm sys] deps IH]; intros loaded w; cbn [user_dylibs_load_loop]; [done|].
  destruct sys; [apply IH|]. apply io_bind_mono; [done|]. intros path w1. apply io_bind_mono; [done|].
  intros buf w2. apply io_bind_mono; [done|]. intros image w3. apply io_bind_mono; [apply Hl|].
  intros [vm vm_size] w4. apply io_bind_mono; [done|]. intros bytes w5. apply IH.
Qed.

(** The depth allowed for user dylibs does not matter once it is enough: if
    the loader ends within some depth, it ends in the same way within any
    greater one. So what it does is a function of the program and the world,
    and only a dependency chain without end makes it run for ever. *)
Theorem macho_loader_fuel n n' cache image exec_dir dylib_dir w :
  (n <= n')%nat -> snd (macho_loader n cache image exec_dir dylib_dir w) <> Diverge ->
  macho_loader n' cache image exec_dir dylib_dir w = macho_loader n cache image exec_dir dylib_dir w.
Proof.
  revert n' image dylib_dir w; induction n as [|n IH]; intros [|n'] image dylib_dir w Hle; [done..|lia|].
  cbn [macho_loader]. apply io_bind_mono; [done|]. intros parsed w1. apply io_bind_mono; [done|].
  intros dependencies w2. apply io_bind_mono; [done|]. intros deps w3. apply io_bind_mono.
  - apply load_loop_mono. intros image' path w4. apply IH. lia.
  - done.
Qed.

(** Applying the fixups in memory has the outcome of applying them to it, and the
    memory that gives if all of them are applied. *)
Lemma fixup_all_in_memory_run dst pz syms libs cache ig l w :
  exists m, fixup_all_in_memory dst pz syms libs cache ig l w =
      (set_mem w m, let* _ := fixup_all_chained_fixups dst pz syms libs cache ig l (w_mem w) in Ok tt) /\
    forall m', fixup_all_chained_fixups dst pz syms libs cache ig l (w_mem w) = Ok m' -> m = m'.
Proof.
  unfold fixup_all_chained_fixups.
  revert w; induction l as [|f l IH]; intros w; cbn [fixup_all_in_memory for_each].
  { exists (w_mem w). rewrite set_mem_same. split; [done|]. by intros m' [= <-]. }
  unfold io_bind, updating.
  destruct (fixup_apply dst pz syms libs cache ig f (w_mem w)) as [m1|e|y| |]; cbn [bind];
    [|exists (w_mem w); rewrite set_mem_same; by split..].
  destruct (IH (set_mem w m1)) as (m & -> & Hm). by exists m.
Qed.
End LoaderLemmas.

(** ** Examples *)

#[local] Existing Instance scroll_ref.
#[local] Existing Instance dev_profile.
#[local] Existing Instance machine_log.

(** A string table with [_main] at 1, and its external symbol. *)
Definition example_strings : Container := image_le ([x00] ++ bstr "_main" ++ [x00]).
Definition example_nlist : nlist_64 := Mk_nlist_64 (Mk_nlist_64_n_un 1) 0x0f 1 0 0x3f00.
Definition example_name : FixedString :=
  match @try_from_str string dev_profile 128 (bstr "_main") with Ok (Some n) => n | _ => string_new 0 end.

Lemma classify_defined_symbol_spec_witness :
  read_symbol_name example_strings 0 1 "could not read symbol name" = Ok (inl example_name) /\
  exists sym, classify_defined_symbol example_strings 0 example_nlist [] = Ok ([] ++ [sym]) /\
    name sym = example_name /\ impl_offset sym = 0x3f00 /\ sect_num sym = 1 /\
    lib_ordinal sym = SELF_LIBRARY_ORDINAL /\ is_weak sym = false /\
    is_cold sym = false /\ is_thumb sym = false.
Proof.
  assert (read_symbol_name example_strings 0 1 "could not read symbol name" = Ok (inl example_name)) as H
    by (vm_compute; reflexivity).
  split; [exact H|].
  exact (classify_defined_symbol_spec example_strings 0 example_nlist [] (inl example_name) H).
Defined.

(** An executable that loads [a] and [b]. *)
Definition example_executable : Container :=
  image_le (example_header 2 2 ++ MachOImage.dylib_command_bytes 0xc (bstr "a") ++
    MachOImage.dylib_command_bytes 0x80000018 (bstr "b")).
Definition example_executable_header : mach_header_64 :=
  Mk_mach_header_64 MH_MAGIC_64 CPU_TYPE_ARM64 0 MH_EXECUTE 2 0 0 0.
Definition example_parsed : ParsedImage :=
  match macho_parser example_executable with
  | Ok p => p
  | _ => Mk_ParsedImage (new_array 0) [] [] [] (new_array 0) 0 false false None
  end.

Lemma example_parsed_ok : macho_parser example_executable = Ok example_parsed.
Proof. vm_compute. reflexivity. Qed.

Lemma dependencies_collect_spec_witness :
  deref (pi_libraries example_parsed) = @Ok string _ [(bstr "a", 24); (bstr "b", 24)] /\
  exists deps, dependencies_collect example_parsed cache_new = Ok deps /\
    deref deps = @Ok string _ [(bstr "a", false); (bstr "b", false)].
Proof.
  assert (deref (pi_libraries example_parsed) = @Ok string _ [(bstr "a", 24); (bstr "b", 24)]) as H
    by (vm_compute; reflexivity).
  split; [exact H|].
  exact (dependencies_collect_spec example_parsed cache_new _ H).
Defined.

Definition example_world : world := Mk_world (M := machine_log) ([], None) example_memory 0 true.

Lemma user_dylibs_in_order_witness :
  user_dylibs_load_loop (fun _ _ => fail "not reached"%string) [(bstr "a", true); (bstr "b", true)] [] None []
    example_world = (example_world, Ok [System (bstr "a"); System (bstr "b")]) /\
  2%nat = 2%nat /\
  forall i dep lib, [(bstr "a", true); (bstr "b", true)] !! i = Some dep ->
    [System (bstr "a"); System (bstr "b")] !! i = Some lib -> loaded_as dep lib.
Proof.
  assert (user_dylibs_load_loop (fun _ _ => fail "not reached"%string) [(bstr "a", true); (bstr "b", true)]
    [] None [] example_world = (example_world, Ok [System (bstr "a"); System (bstr "b")])) as H by reflexivity.
  split; [exact H|]. exact (user_dylibs_in_order _ _ _ _ _ _ _ H).
Defined.

(** Two segments of eight bytes, from the file at 0x10000 to an image at
    0x10080, behind a page-zero segment. *)
Definition example_segments : list Segment :=
  [{| file_offset := 0; vm_addr := 0; vm_size := 0x100000000; prot := 0 |};
   {| file_offset := 0; vm_addr := 8; vm_size := 8; prot := 5 |};
   {| file_offset := 8; vm_addr := 16; vm_size := 8; prot := 3 |}].
Definition example_file : Container := with_bytes (Mk_slice 0x10000 (replicate 16 x00)) Little.

Lemma example_segments_ok :
  segments_ok (w_mem example_world) example_file 0x10080 (copied true example_segments).
Proof.
  assert (mapped (w_mem example_world) 0x10000 256) as Hm
    by (apply (mem_of_mapped 0x10000 (replicate 256 x00)); vm_compute; discriminate).
  change (copied true example_segments) with (drop 1 example_segments). unfold example_segments. cbn [drop].
  split; [|split].
  - rewrite !Forall_cons, Forall_nil.
    split_and!;
      lazymatch goal with
      | |- mapped _ _ _ => apply (mapped_sub _ 0x10000 256); [exact Hm|vm_compute; discriminate..]
      | |- True => exact I
      | |- _ => vm_compute; discriminate
      end.
  - intros s s' Hs Hs'. rewrite !elem_of_cons, elem_of_nil in Hs, Hs'.
    destruct Hs as [->|[->|[]]], Hs' as [->|[->|[]]]; left; vm_compute; discriminate.
  - pairs_apart.
Qed.

Lemma segments_copy_spec_witness :
  segments_ok (w_mem example_world) example_file 0x10080 (copied true example_segments) /\
  exists m, segments_copy true example_file 0x10080 example_segments example_world
      = (set_mem example_world m, Ok tt) /\
    dom m = dom (w_mem example_world) /\
    (forall s, s ∈ copied true example_segments ->
       load_bytes m (seg_target 0x10080 s) (Z.to_nat (vm_size s)) =
         load_bytes (w_mem example_world) (seg_source example_file s) (Z.to_nat (vm_size s))) /\
    (forall a, Forall (fun s => ~ seg_target 0x10080 s <= a < seg_target 0x10080 s + vm_size s)
        (copied true example_segments) -> m !! a = w_mem example_world !! a).
Proof.
  split; [exact example_segments_ok|].
  exact (segments_copy_spec true example_file 0x10080 example_segments example_world example_segments_ok).
Defined.

(** A table of two initialisers at offset 4 *)
Lemma read_init_func_offsets_spec_witness :
  read_init_func_offsets (image_le (u32le 0 ++ u32le 0x3f00 ++ u32le 0x3f40)) 4 8 [] = Ok [0x3f00; 0x3f40].
Proof.
  apply (@read_init_func_offsets_spec scroll_ref _ dev_profile (image_le (u32le 0 ++ u32le 0x3f00 ++ u32le 0x3f40))
    ltac:(vm_compute; reflexivity) 4 8 [] [0x3f00; 0x3f40]); [lia|lia|lia|].
  exists [0x3f00; 0x3f40]. split; [exact eq_refl|]. split; [exact eq_refl|].
  intros [|[|i]] f Hf; [injection Hf as <-; vm_compute; reflexivity..|destruct i; discriminate Hf].
Defined.

Lemma macho_parser_ends_witness : zlen (raw example_executable) < 2 ^ 32 /\ ends (macho_parser example_executable).
Proof.
  assert (zlen (raw example_executable) < 2 ^ 32) as H by (vm_compute; reflexivity).
  split; [exact H|]. exact (@macho_parser_ends scroll_ref _ dev_profile example_executable H).
Defined.

(** The executable that loads [a] and [b], which the machine has not *)
Lemma macho_loader_fuel_witness :
  macho_loader 5 cache_new example_executable (bstr "/bin") None example_world =
    macho_loader 1 cache_new example_executable (bstr "/bin") None example_world.
Proof.
  apply (@macho_loader_fuel scroll_ref dev_profile machine_log 1 5 cache_new example_executable (bstr "/bin") None
    example_world); [lia|].
  assert (match snd (macho_loader 1 cache_new example_executable (bstr "/bin") None example_world) with
          | Diverge => false | _ => true end = true) as H by (vm_compute; reflexivity).
  destruct (snd (macho_loader 1 cache_new example_executable (bstr "/bin") None example_world));
    [discriminate..|discriminate H].
Defined.
