(* ===== verification/Parsed.v ===== *)
(** What the walk over the load commands gathers.

    [parsed] says what an image's parts are without a walk: each load command
    contributes on its own, whatever was found before it, and the parsed image is
    those contributions put together, in file order. [macho_parser], which threads
    one record through the commands, is shown to compute it. *)
From S2P Require Import Prelude Scroll Bindings Container ArrayVec Image SharedCache Fixups Loader.
From S2P Require MachOImage.

(** ** Collecting the results of a loop *)

Section Collect.
Context {E B : Type}.

Fixpoint collect (n : nat) (i : Z) (f : Z -> outcome E B) : outcome E (list B) :=
  match n with
  | O => Ok []
  | S m => let* x := f i in let* l := collect m (i + 1) f in Ok (x :: l)
  end.

Lemma collect_Ok n i f l :
  collect n i f = Ok l <-> length l = n /\ forall k x, l !! k = Some x -> f (i + Z.of_nat k) = Ok x.
Proof.
  revert i l; induction n as [|n IH]; intros i l; cbn [collect].
  - split; [by intros [= <-]|]. intros [Hl _]. by destruct l.
  - rewrite bind_Ok. setoid_rewrite bind_Ok. setoid_rewrite IH. split.
    + intros (x & Hx & l' & [Hl H] & [= <-]). split; [cbn; lia|]. intros [|k] y Hk.
      * injection Hk as <-. by rewrite Z.add_0_r.
      * replace (i + Z.of_nat (S k)) with (i + 1 + Z.of_nat k) by lia. by apply H.
    + intros [Hl H]. destruct l as [|x l']; [done|]. exists x. pose proof (H 0%nat x eq_refl) as Hx.
      rewrite Z.add_0_r in Hx. split; [done|]. exists l'. split; [|done]. split; [by injection Hl|].
      intros k y Hk. replace (i + 1 + Z.of_nat k) with (i + Z.of_nat (S k)) by lia. by apply (H (S k)).
Qed.

(** A loop that combines, with what it has, something that does not depend on it *)
Lemma for_range_collect {A S} n i (f : Z -> S -> outcome E S) (part : Z -> outcome E B) (state : Z -> A -> S)
    (combine : A -> B -> A) a :
  (forall j a, i <= j < i + Z.of_nat n -> f j (state j a) = let* b := part j in Ok (state (j + 1) (combine a b))) ->
  for_range n i f (state i a) = let* bs := collect n i part in Ok (state (i + Z.of_nat n) (fold_left combine bs a)).
Proof.
  revert i a; induction n as [|n IH]; intros i a Hf; cbn [for_range collect].
  - cbn. by rewrite Z.add_0_r.
  - rewrite Hf by lia. rewrite !bind_assoc. destruct (part i) as [b|e|w| |]; cbn [bind]; try done.
    rewrite bind_assoc, IH by (intros j a' Hj; apply Hf; lia).
    destruct (collect n (i + 1) part) as [bs|e|w| |]; cbn [bind fold_left]; try done.
    do 2 f_equal. lia.
Qed.
End Collect.

Lemma fold_left_concat {A} (ls : list (list A)) l : fold_left app ls l = l ++ concat ls.
Proof.
  revert l; induction ls as [|x ls IH]; intros l; cbn; [by rewrite app_nil_r|]. by rewrite IH, <- app_assoc.
Qed.

(** ** The parts *)

(** What one load command adds *)
Record contribution := Mk_contribution {
  k_segments : list Segment;
  k_fixups : option (list Fixup);
  k_symbols : list Symbol;
  k_init_functions : list Z;
  k_libraries : list (bytes * Z);
  k_entry_point : option Z;
  k_has_thread_locals : bool;
  k_rpath : option Rpath
}.
Definition nothing : contribution := Mk_contribution [] None [] [] [] None false None.

Section Parts.
Context {sc : Scroll} {bp : BuildProfile} (image : Container).

(** The symbols of the [i]-th entry of a symbol table: one, or none *)
Definition entry_symbols (symoff stroff i : Z) : result (list Symbol) :=
  let* entry := map_err "could not parse `nlist_64` in the inner arm64 image"
    (deserialize_type_at_offset nlist_64 image (symoff + i * size_of nlist_64)) in
  if has_flag (nl_n_type entry) N_STAB then Ok []
  else if Z.land (nl_n_type entry) N_TYPE =? N_SECT then classify_defined_symbol image stroff entry []
  else if Z.land (nl_n_type entry) N_TYPE =? N_UNDF then classify_undefined_symbol image stroff entry []
  else Ok [].

Definition table_symbols (offset : Z) : result (list Symbol) :=
  let* lc := map_err "could not parse `symtab_command` in the inner arm64 image"
    (deserialize_type_at_offset symtab_command image offset) in
  let* l := collect (Z.to_nat (sy_nsyms lc)) 0 (entry_symbols (sy_symoff lc) (sy_stroff lc)) in
  Ok (concat l).

(** The initialisers in the [i]-th section, and whether it holds thread-local
    variables *)
Definition section_parts (sections_off i : Z) : result (list Z * bool) :=
  let* section := map_err "could not parse `section_64` in the inner arm64 image"
    (deserialize_type_at_offset section_64 image (sections_off + i * size_of section_64)) in
  let kind := Z.land (se_flags section) SECTION_TYPE in
  if kind =? S_INIT_FUNC_OFFSETS then
    let* fs := read_init_func_offsets image (se_offset section) (as_u 32 (se_size section)) [] in Ok (fs, false)
  else Ok ([], kind =? S_THREAD_LOCAL_VARIABLES).

(** The sections are those of [__TEXT] and [__DATA] segments. *)
Definition segment_parts (offset : Z) : result contribution :=
  let* lc := map_err "could not parse `segment_command_64` in the inner arm64 image"
    (deserialize_type_at_offset segment_command_64 image offset) in
  let* sections :=
    if starts_with (sc_segname lc) SEG_TEXT || starts_with (sc_segname lc) SEG_DATA
    then collect (Z.to_nat (sc_nsects lc)) 0 (section_parts (offset + size_of segment_command_64))
    else Ok [] in
  Ok (Mk_contribution
        [{| prot := sc_initprot lc; vm_addr := sc_vmaddr lc; file_offset := sc_fileoff lc; vm_size := sc_vmsize lc |}]
        None [] (concat (fst <$> sections)) [] None (existsb snd sections) None).

Definition contribution_of (is_dylib : bool) (cmd : load_command_variants) (offset : Z) : result contribution :=
  match cmd with
  | LC_LOAD_DYLIB | LC_LOAD_WEAK_DYLIB | LC_LAZY_LOAD_DYLIB =>
      let* n := library_name image offset in Ok (Mk_contribution [] None [] [] [n] None false None)
  | LC_MAIN =>
      let* e := parse_main_command image offset is_dylib in
      Ok (Mk_contribution [] None [] [] [] (Some e) false None)
  | LC_SYMTAB =>
      let* syms := table_symbols offset in Ok (Mk_contribution [] None syms [] [] None false None)
  | LC_SEGMENT_64 => segment_parts offset
  | LC_DYLD_CHAINED_FIXUPS =>
      let* fx := chained_fixups_parse_all image in
      Ok (Mk_contribution [] (Some fx) [] [] [] None false None)
  | LC_RPATH =>
      let* rp := parse_rpath image offset in Ok (Mk_contribution [] None [] [] [] None false (Some rp))
  | _ => Ok nothing
  end.

(** The contributions of [n] commands from [offset] on *)
Fixpoint contributions (is_dylib : bool) (n : nat) (offset : Z) : result (list contribution) :=
  match n with
  | O => Ok []
  | S m =>
      let* lc := map_err "could not parse a load command in the inner arm64 image"
        (deserialize_type_at_offset load_command image offset) in
      let* k := contribution_of is_dylib (lc_cmd lc) offset in
      let* ks := contributions is_dylib m (offset + lc_cmdsize lc) in
      Ok (k :: ks)
  end.

Definition image_kind (filetype : macho_filetype_variants) : result bool :=
  match filetype with
  | MH_EXECUTE => Ok false
  | MH_DYLIB => Ok true
  | _ => Err "the arm64 image filetype must be MH_EXECUTE"
  end.

(** The kind of the image and the contributions of its commands *)
Definition parts : result (bool * list contribution) :=
  let* header := map_err "could not read `mach_header_64` from arm64 image"
    (deserialize_type_at_offset mach_header_64 image 0) in
  let* is_dylib := image_kind (mh_filetype header) in
  let* ks := contributions is_dylib (Z.to_nat (mh_ncmds header)) (size_of mach_header_64) in
  Ok (is_dylib, ks).
End Parts.

(** The last of the values, if there is one *)
Definition latest {A} (default : A) (l : list A) : A := List.last l default.

(** [p] is what the contributions are, put together: lists in order, the last of
    what there should be one of. *)
Record gathered (is_dylib_ : bool) (ks : list contribution) (p : ParsedImage) : Prop := {
  g_segments : rep (segments p) (flat_map k_segments ks);
  g_fixups : fixups p = latest [] (omap k_fixups ks);
  g_symbols : symbols p = flat_map k_symbols ks;
  g_init_functions : init_functions p = flat_map k_init_functions ks;
  g_libraries : rep (pi_libraries p) (flat_map k_libraries ks);
  g_entry_point : entry_point p = latest 0 (omap k_entry_point ks);
  g_has_thread_locals : has_thread_locals p = existsb k_has_thread_locals ks;
  g_is_dylib : is_dylib p = is_dylib_;
  g_rpath : rpath p = List.last (Some <$> omap k_rpath ks) None
}.

(** ** The walk computes them *)

Section Walk.
Context `{SL : ScrollLaws} {bp : BuildProfile} (image : Container).
Hypothesis slice : rust_slice (raw image).

(** *** Symbol tables *)

Lemma classify_defined_appends stroff entry syms :
  classify_defined_symbol image stroff entry syms =
    let* l := classify_defined_symbol image stroff entry [] in Ok (syms ++ l).
Proof.
  unfold classify_defined_symbol. rewrite bind_assoc.
  destruct (read_symbol_name image stroff _ _) as [[nm|e]|e|w| |]; cbn; try done; [|by rewrite app_nil_r].
  by destruct (has_flag (nl_n_type entry) N_EXT), (has_flag (nl_n_type entry) N_PEXT),
    (has_flag (nl_n_desc entry) N_WEAK_DEF), (has_flag (nl_n_desc entry) N_ALT_ENTRY),
    (has_flag (nl_n_desc entry) N_SYMBOL_RESOLVER), (has_flag (nl_n_desc entry) N_WEAK_REF).
Qed.

Lemma classify_undefined_appends stroff entry syms :
  classify_undefined_symbol image stroff entry syms =
    let* l := classify_undefined_symbol image stroff entry [] in Ok (syms ++ l).
Proof.
  unfold classify_undefined_symbol. destruct (negb _); [by destruct (has_flag _ N_PEXT)|]. rewrite bind_assoc.
  destruct (read_symbol_name image stroff _ _) as [[nm|e]|e|w| |]; cbn; try done. by rewrite app_nil_r.
Qed.

Lemma parse_symtab_entry_parts symoff stroff i syms :
  0 <= symoff + i * 16 < 2 ^ 63 ->
  parse_symtab_entry image stroff (symoff + i * size_of nlist_64, syms) =
    let* l := entry_symbols image symoff stroff i in Ok (symoff + (i + 1) * size_of nlist_64, syms ++ l).
Proof.
  intros Hoff. unfold parse_symtab_entry, entry_symbols. change (size_of nlist_64) with 16. rewrite bind_assoc.
  destruct (map_err _ (deserialize_type_at_offset nlist_64 image _)) as [entry|e|w| |]; cbn [bind]; try done.
  unfold add_w. rewrite in_range_fits by (unfold fits; lia). cbn [bind].
  replace (symoff + i * 16 + 16) with (symoff + (i + 1) * 16) by lia.
  destruct (has_flag _ N_STAB); [cbn; by rewrite app_nil_r|].
  destruct (_ =? N_SECT); [|destruct (_ =? N_UNDF); [|cbn; by rewrite app_nil_r]].
  - rewrite classify_defined_appends. by destruct (classify_defined_symbol image stroff entry []).
  - rewrite classify_undefined_appends. by destruct (classify_undefined_symbol image stroff entry []).
Qed.

(** The fields of a structure read are of their widths. *)
Lemma symtab_widths off lc :
  0 <= off -> deserialize_type_at_offset symtab_command image off = Ok lc ->
  0 <= sy_symoff lc < 2 ^ 32 /\ 0 <= sy_nsyms lc < 2 ^ 32.
Proof.
  intros Hoff H. apply deserialize_wf in H as (_ & vs & -> & Hv); [|done|repeat constructor].
  destruct vs as (? & ? & ? & ? & ? & ? & []). cbn. unfold fits in Hv. by destruct Hv as (_ & _ & ? & ? & _).
Qed.

Lemma parse_symtab_parts off syms :
  0 <= off -> parse_symtab image off syms = let* l := table_symbols image off in Ok (syms ++ l).
Proof.
  intros Hoff. unfold parse_symtab, table_symbols. rewrite bind_assoc.
  destruct (map_err _ (deserialize_type_at_offset symtab_command image off)) as [lc|e|w| |] eqn:Elc; cbn [bind]; try done.
  apply map_err_Ok, (symtab_widths off lc Hoff) in Elc as [Hs Hn].
  pose proof (for_range_collect (Z.to_nat (sy_nsyms lc)) 0 (fun _ => parse_symtab_entry image (sy_stroff lc))
    (entry_symbols image (sy_symoff lc) (sy_stroff lc)) (fun i l => (sy_symoff lc + i * size_of nlist_64, l)) app syms) as H.
  cbn beta in H. rewrite Z.add_0_r in H. rewrite H by (intros j a Hj; apply parse_symtab_entry_parts; lia).
  rewrite !bind_assoc. destruct (collect _ 0 _) as [ls|e|w| |]; cbn [bind snd]; try done.
  by rewrite fold_left_concat.
Qed.

(** *** Segments *)

Lemma init_func_loop_appends fuel cursor stop l :
  init_func_loop image fuel cursor stop l =
    let* fs := init_func_loop image fuel cursor stop [] in Ok (l ++ fs).
Proof.
  revert cursor l; induction fuel as [|fuel IH]; intros cursor l; cbn [init_func_loop]; [done|].
  destruct (cursor <? stop); [|cbn; by rewrite app_nil_r]. rewrite bind_assoc.
  destruct (map_err _ (read_u32 image cursor)) as [f|e|w| |]; cbn [bind]; try done. rewrite bind_assoc.
  destruct (add32 cursor 4) as [c|e|w| |]; cbn [bind]; try done.
  rewrite IH, (IH c ([] ++ [f])), bind_assoc. destruct (init_func_loop image fuel c stop []); cbn; try done.
  by rewrite <- app_assoc.
Qed.

Lemma scan_section_parts off i s :
  scan_section image (off + i * size_of section_64) s =
    let* b := section_parts image off i in Ok (fst s ++ fst b, snd s || snd b).
Proof.
  destruct s as [fs tl]. unfold scan_section, section_parts. rewrite bind_assoc.
  destruct (map_err _ (deserialize_type_at_offset section_64 image _)) as [se|e|w| |]; cbn [bind fst snd]; try done.
  destruct (_ =? S_INIT_FUNC_OFFSETS).
  - unfold read_init_func_offsets. rewrite !bind_assoc.
    destruct (add32 _ _) as [stop|e|w| |]; cbn [bind]; try done.
    rewrite init_func_loop_appends, !bind_assoc. destruct (init_func_loop image _ _ _ []); cbn; try done.
    by rewrite orb_false_r.
  - destruct (_ =? S_THREAD_LOCAL_VARIABLES); cbn; by rewrite app_nil_r, ?orb_true_r, ?orb_false_r.
Qed.

(** Putting sections together *)
Lemma sections_fold bs s :
  fold_left (fun (a b : list Z * bool) => (fst a ++ fst b, snd a || snd b)) bs s =
    (fst s ++ concat (fst <$> bs), snd s || existsb snd bs).
Proof.
  revert s; induction bs as [|b bs IH]; intros [l t]; cbn; [by rewrite app_nil_r, orb_false_r|].
  by rewrite IH; cbn; rewrite app_assoc, orb_assoc.
Qed.

Lemma segment_widths off lc :
  0 <= off -> deserialize_type_at_offset segment_command_64 image off = Ok lc ->
  off + 72 <= zlen (raw image) /\ 0 <= sc_nsects lc < 2 ^ 32.
Proof.
  intros Hoff H. apply deserialize_wf in H as (Hle & vs & -> & Hv); [|done|repeat constructor].
  split; [exact Hle|]. destruct vs as (? & ? & ? & ? & ? & ? & ? & ? & ? & ? & ? & []). cbn. unfold fits in Hv.
  by destruct Hv as (_ & _ & _ & _ & _ & _ & _ & _ & _ & ? & _).
Qed.

Lemma parse_segment_parts off segs s :
  0 <= off ->
  parse_segment image off segs s =
    let* k := segment_parts image off in
    let* segs := for_each (k_segments k) (fun x v => push v x) segs in
    Ok (segs, (fst s ++ k_init_functions k, snd s || k_has_thread_locals k)).
Proof.
  intros Hoff. unfold parse_segment, segment_parts. rewrite bind_assoc.
  destruct (map_err _ (deserialize_type_at_offset segment_command_64 image off)) as [lc|e|w| |] eqn:Elc; cbn [bind]; try done.
  apply map_err_Ok, (segment_widths off lc Hoff) in Elc as [Hle Hn]. unfold rust_slice, fits in slice.
  change (size_of segment_command_64) with 72. unfold add_w at 1. rewrite in_range_fits by (unfold fits; lia). cbn [bind].
  set (seg := {| prot := _ |}).
  assert (forall s' : list Z * bool, (let* segments := push segs seg in Ok (segments, s')) =
    let* segs := for_each [seg] (fun x v => push v x) segs in @Ok string _ (segs, s')) as Hp
    by (intros s'; cbn; rewrite bind_assoc; by destruct (push segs seg)).
  destruct (_ || _); [|cbn [bind]; rewrite Hp; cbn [k_segments k_init_functions k_has_thread_locals fmap list_fmap concat existsb];
    rewrite app_nil_r, orb_false_r; by destruct s].
  pose proof (for_range_collect (Z.to_nat (sc_nsects lc)) 0 (fun i s => let* k := mul64 i (size_of section_64) in
      let* section_off := add64 (off + 72) k in scan_section image section_off s)
    (section_parts image (off + 72)) (fun _ s => s) (fun a b => (fst a ++ fst b, snd a || snd b)) s) as H.
  cbn beta in H. rewrite H.
  - rewrite !bind_assoc. destruct (collect _ 0 _) as [bs|e|w| |]; cbn [bind]; try done.
    rewrite sections_fold. apply Hp.
  - intros j a Hj. change (size_of section_64) with 80. unfold mul_w, add_w.
    rewrite in_range_fits by (unfold fits; lia). cbn [bind]. rewrite in_range_fits by (unfold fits; lia). cbn [bind].
    apply scan_section_parts.
Qed.

(** *** Commands *)

(** What a contribution makes of what was gathered before it *)
Definition absorb (p : ParsedImage) (k : contribution) : result ParsedImage :=
  let* libs := for_each (k_libraries k) (fun x v => push v x) (pi_libraries p) in
  let* segs := for_each (k_segments k) (fun x v => push v x) (segments p) in
  Ok (Mk_ParsedImage segs (default (fixups p) (k_fixups k)) (symbols p ++ k_symbols k)
        (init_functions p ++ k_init_functions k) libs (default (entry_point p) (k_entry_point k))
        (has_thread_locals p || k_has_thread_locals k) (is_dylib p)
        (match k_rpath k with Some rp => Some rp | None => rpath p end)).

Lemma absorb_nothing p : absorb p nothing = Ok p.
Proof. destruct p. cbn. by rewrite !app_nil_r, orb_false_r. Qed.

Lemma parse_command_parts cmd off p :
  0 <= off -> parse_command image cmd off p = let* k := contribution_of image (is_dylib p) cmd off in absorb p k.
Proof.
  intros Hoff. destruct cmd; cbn [parse_command contribution_of]; try (cbn [bind]; by rewrite absorb_nothing).
  1: rewrite (parse_symtab_parts off _ Hoff), !bind_assoc; destruct (table_symbols image off) as [l|e|w| |]; try done;
    destruct p; cbn; by rewrite !app_nil_r, orb_false_r.
  all: try (rewrite parse_dylib_command_name, !bind_assoc; destruct (library_name image off) as [n|e|w| |]; cbn [bind]; try done;
    unfold absorb; cbn; rewrite !bind_assoc; destruct (push _ n); cbn; rewrite ?app_nil_r, ?orb_false_r; by destruct p).
  - rewrite (parse_segment_parts off _ _ Hoff), !bind_assoc. unfold segment_parts. rewrite !bind_assoc.
    destruct (map_err _ (deserialize_type_at_offset segment_command_64 image off)) as [lc|e|w| |]; cbn [bind]; try done.
    rewrite !bind_assoc. destruct (if _ || _ then _ else _) as [bs|e|w| |]; cbn [bind]; try done.
    unfold absorb. cbn [for_each k_libraries k_segments k_fixups k_symbols k_init_functions k_entry_point
      k_has_thread_locals k_rpath bind].
    rewrite !bind_assoc. destruct (push (segments p) _); cbn; try done. by rewrite app_nil_r.
  - rewrite !bind_assoc. destruct (parse_rpath image off); try done. destruct p; cbn. by rewrite !app_nil_r, orb_false_r.
  - rewrite !bind_assoc. destruct (parse_main_command image off (is_dylib p)); try done.
    destruct p; cbn. by rewrite !app_nil_r, orb_false_r.
  - rewrite !bind_assoc. destruct (chained_fixups_parse_all image); try done.
    destruct p; cbn. by rewrite !app_nil_r, orb_false_r.
Qed.

(** *** Vectors of 64 *)

Definition vector_of {T} (l : list T) (v : FixedVec T) : Prop := rep v l /\ capacity v = 64.

Lemma push_all {T} (xs : list T) l v :
  vector_of l v ->
  if zlen (l ++ xs) <=? 64
  then exists v', for_each xs (fun x v => push v x) v = @Ok string _ v' /\ vector_of (l ++ xs) v'
  else for_each xs (fun x v => push v x) v = @Panic string _ "ArrayVec is full".
Proof.
  revert l v; induction xs as [|x xs IH]; intros l v [Hr Hc]; cbn [for_each].
  { rewrite app_nil_r. pose proof Hr as (_ & Hle & _). rewrite Hc in Hle.
    rewrite (proj2 (Z.leb_le _ _)) by done. by exists v. }
  pose proof (@push_rep string _ _ v l x Hr) as Hp. rewrite Hc in Hp.
  destruct (Z.ltb_spec (zlen l) 64) as [Hlt|Hge].
  - destruct Hp as (v1 & -> & Hr1 & Hc1). cbn [bind]. specialize (IH (l ++ [x]) v1 ltac:(split; congruence)).
    by rewrite <- app_assoc in IH.
  - rewrite Hp. cbn [bind]. rewrite (proj2 (Z.leb_gt _ _)) by len. done.
Qed.

(** An image has room for 64 segments and 64 libraries. *)
Definition within (ks : list contribution) : bool :=
  (zlen (flat_map k_segments ks) <=? 64) && (zlen (flat_map k_libraries ks) <=? 64).

(** [gathered], and the vectors are of their capacity. *)
Definition gathering (dy : bool) (ks : list contribution) (p : ParsedImage) : Prop :=
  gathered dy ks p /\ capacity (segments p) = 64 /\ capacity (pi_libraries p) = 64.

Lemma flat_map_snoc {A B} (f : A -> list B) l x : flat_map f (l ++ [x]) = flat_map f l ++ f x.
Proof. rewrite flat_map_app. cbn. by rewrite app_nil_r. Qed.

Lemma latest_snoc {A} (d : A) l x : latest d (l ++ [x]) = x.
Proof. apply last_last. Qed.

Lemma existsb_snoc {A} (f : A -> bool) l x : existsb f (l ++ [x]) = existsb f l || f x.
Proof. rewrite existsb_app. cbn. by rewrite orb_false_r. Qed.

Lemma absorb_gathering dy ks k p :
  gathering dy ks p ->
  if within (ks ++ [k]) then exists p', absorb p k = Ok p' /\ gathering dy (ks ++ [k]) p'
  else absorb p k = Panic "ArrayVec is full".
Proof.
  intros ([Hseg Hfx Hsy Hin Hlib Hen Htl Hdy Hrp] & Hc1 & Hc2). unfold within. rewrite !flat_map_snoc. unfold absorb.
  pose proof (push_all (k_libraries k) _ _ (conj Hlib Hc2)) as H2.
  pose proof (push_all (k_segments k) _ _ (conj Hseg Hc1)) as H1.
  destruct (zlen (flat_map k_libraries ks ++ _) <=? 64); [|rewrite andb_false_r; by rewrite H2].
  destruct H2 as (libs & -> & Hlibs & Hl2). cbn [bind].
  destruct (zlen (flat_map k_segments ks ++ _) <=? 64); cbn [andb]; [|by rewrite H1].
  destruct H1 as (segs & -> & Hsegs & Hs2). cbn [bind]. eexists. split; [reflexivity|].
  split; [|done]. split; cbn [segments fixups symbols init_functions pi_libraries entry_point has_thread_locals is_dylib rpath];
    rewrite ?flat_map_snoc, ?existsb_snoc, ?omap_app; try congruence; cbn [omap list_omap].
  - destruct (k_fixups k); cbn [default]; [by rewrite latest_snoc|by rewrite app_nil_r].
  - destruct (k_entry_point k); cbn [default]; [by rewrite latest_snoc|by rewrite app_nil_r].
  - destruct (k_rpath k); [rewrite fmap_app; symmetry; apply last_last|by rewrite app_nil_r].
Qed.

Lemma within_prefix ks ks' : within (ks ++ ks') = true -> within ks = true.
Proof.
  unfold within. rewrite !flat_map_app, !andb_true_iff, !Z.leb_le. unfold zlen. rewrite !length_app. lia.
Qed.

(** *** The walk *)

Definition vector_full : string := "ArrayVec is full".

(** [m] is what is said of [r]: the value if there is room for it, the failure
    of [r], or the lack of room. *)
Definition yields {A B} (r : result A) (m : result B) (room : A -> bool) (value : A -> B -> Prop) : Prop :=
  match r with
  | Ok a => if room a then exists b, m = Ok b /\ value a b else m = Panic vector_full
  | Err e => m = Err e \/ m = Panic vector_full
  | Panic why => m = Panic why \/ m = Panic vector_full
  | Fault => m = Fault \/ m = Panic vector_full
  | Diverge => m = Diverge \/ m = Panic vector_full
  end.

(** The loop of [macho_parser] *)
Definition walk (n : nat) (i off : Z) (p : ParsedImage) : result (Z * ParsedImage) :=
  for_range n i (fun _ s =>
    let '(offset, parsed) := s in
    let* lc := map_err "could not parse a load command in the inner arm64 image"
      (deserialize_type_at_offset load_command image offset) in
    let* parsed := parse_command image (lc_cmd lc) offset parsed in
    let* offset := add64 offset (lc_cmdsize lc) in
    Ok (offset, parsed)) (off, p).

Lemma walk_yields dy n i off ks p :
  0 <= off -> gathering dy ks p ->
  yields (contributions image dy n off) (walk n i off p) (fun l => within (ks ++ l))
    (fun l r => gathering dy (ks ++ l) (snd r)).
Proof.
  revert i off ks p; induction n as [|n IH]; intros i off ks p Hoff Hg; unfold walk; cbn [for_range contributions].
  { cbn. rewrite app_nil_r. destruct (within ks) eqn:Ew; [by eexists|].
    destruct Hg as ([(_ & Hs & _) _ _ _ (_ & Hl & _) _ _ _ _] & Hc1 & Hc2). rewrite Hc1 in Hs. rewrite Hc2 in Hl.
    unfold within in Ew. by rewrite !(proj2 (Z.leb_le _ _)) in Ew by done. }
  destruct (map_err _ (deserialize_type_at_offset load_command image off)) as [lc|e|w| |] eqn:Elc; cbn [bind]; try by left.
  apply map_err_Ok, (next_command_offset image off lc slice Hoff) in Elc as [Hpos Hadd].
  rewrite (parse_command_parts _ _ _ Hoff), (g_is_dylib _ _ _ (proj1 Hg)).
  destruct (contribution_of image dy (lc_cmd lc) off) as [k|e|w| |]; cbn [bind]; try by left.
  pose proof (absorb_gathering dy ks k p Hg) as Ha. destruct (within (ks ++ [k])) eqn:Ew.
  - destruct Ha as (p1 & -> & Hg1). cbn [bind]. rewrite Hadd. cbn [bind].
    specialize (IH (i + 1) _ _ _ Hpos Hg1). fold (walk n (i + 1) (off + lc_cmdsize lc) p1).
    destruct (contributions image dy n _) as [l|e|w| |]; cbn [yields bind] in *; try exact IH. by rewrite <- app_assoc in IH.
  - rewrite Ha. cbn [bind].
    destruct (contributions image dy n _) as [l|e|w| |]; cbn [yields bind]; try by right.
    destruct (within (ks ++ k :: l)) eqn:Ew'; [|done].
    replace (ks ++ k :: l) with ((ks ++ [k]) ++ l) in Ew' by (by rewrite <- app_assoc).
    apply within_prefix in Ew'. congruence.
Qed.

Lemma macho_parser_yields :
  yields (parts image) (macho_parser image) (fun r => within (snd r)) (fun r p => gathered (fst r) (snd r) p).
Proof.
  unfold parts, macho_parser.
  destruct (map_err _ (deserialize_type_at_offset mach_header_64 image 0)) as [h|e|w| |]; cbn [bind]; try by left.
  fold (image_kind (mh_filetype h)). destruct (image_kind (mh_filetype h)) as [dy|e|w| |]; cbn [bind]; try by left.
  set (p0 := Mk_ParsedImage _ _ _ _ _ _ _ _ _).
  assert (gathering dy [] p0) as Hg by (split; [|done]; split; try done; by apply rep_new).
  assert (0 <= size_of mach_header_64) as Hoff by done.
  pose proof (walk_yields dy (Z.to_nat (mh_ncmds h)) 0 (size_of mach_header_64) [] p0 Hoff Hg) as H.
  fold (walk (Z.to_nat (mh_ncmds h)) 0 (size_of mach_header_64) p0).
  destruct (contributions image dy (Z.to_nat (mh_ncmds h)) _) as [ks|e|w| |]; cbn [bind yields app fst snd] in *.
  2-5: destruct H as [-> | ->]; [by left|by right].
  destruct (within ks); [|by rewrite H]. destruct H as ([off p] & -> & Hp & _). by exists p.
Qed.

Lemma macho_parser_ok p :
  macho_parser image = Ok p ->
  exists dy ks, parts image = Ok (dy, ks) /\ within ks = true /\ gathered dy ks p.
Proof.
  intros Hp. pose proof macho_parser_yields as H. rewrite Hp in H. unfold yields in H.
  destruct (parts image) as [[dy ks]|e|w| |]; [|by destruct H..]. cbn [fst snd] in H.
  destruct (within ks) eqn:Ew; [|done]. destruct H as (p' & [= <-] & Hg). eauto.
Qed.

End Walk.

(** *** Commands and libraries *)

Section Commands.
Context {sc : Scroll} {bp : BuildProfile} (image : Container).

Lemma contributions_commands dy n off ks :
  contributions image dy n off = Ok ks <->
  exists cmds, commands image off n cmds /\
    Forall2 (fun c k => contribution_of image dy (lc_cmd (fst c)) (snd c) = Ok k) cmds ks.
Proof.
  revert off ks; induction n as [|n IH]; intros off ks; cbn [contributions].
  - split; [intros [= <-]; exists []; split; constructor|]. intros (cmds & Hc & Hf). inversion Hc; subst.
    by inversion Hf.
  - rewrite bind_Ok. setoid_rewrite bind_Ok. setoid_rewrite bind_Ok. setoid_rewrite IH. setoid_rewrite map_err_Ok. split.
    + intros (lc & Hlc & k & Hk & l & (cmds & Hc & Hf) & [= <-]). exists ((lc, off) :: cmds). split; by constructor.
    + intros (cmds & Hc & Hf). inversion Hc as [|? ? lc l Hlc Hl]; subst.
      inversion Hf as [|? k ? ks' Hk Hf']; subst. cbn in Hk. eauto 10.
Qed.

Lemma contribution_libraries dy cmd off k :
  contribution_of image dy cmd off = Ok k ->
  if is_library_command cmd then exists n, library_name image off = Ok n /\ k_libraries k = [n]
  else k_libraries k = [].
Proof.
  destruct (is_library_command cmd) eqn:El; destruct cmd; try discriminate El; cbn [contribution_of]; clear El; intros H;
    try (by injection H as <-); apply bind_Ok in H as (x & Hx & H); try (injection H as <-; eauto).
  by apply bind_Ok in H as (? & _ & [= <-]).
Qed.

(** The libraries of a parsed image are the install names of its
    [LC_LOAD_DYLIB], [LC_LOAD_WEAK_DYLIB] and [LC_LAZY_LOAD_DYLIB] commands, in
    file order, none left out and none added; there are at most 64 of them.
    The position in this list is what a bind's library ordinal counts. *)
Theorem macho_parser_libraries `{!ScrollLaws sc} h p :
  rust_slice (raw image) -> deserialize_type_at_offset mach_header_64 image 0 = Ok h ->
  macho_parser image = Ok p ->
  exists cmds libs, commands image 32 (Z.to_nat (mh_ncmds h)) cmds /\
    deref (pi_libraries p) = @Ok string _ libs /\ zlen libs <= 64 /\
    Forall2 (fun c lib => library_name image (snd c) = Ok lib)
      (List.filter (fun c => is_library_command (lc_cmd (fst c))) cmds) libs.
Proof.
  intros Hs Hh Hp. destruct (macho_parser_ok image Hs p Hp) as (dy & ks & Hparts & Hw & Hg).
  unfold parts in Hparts. rewrite Hh in Hparts. cbn [map_err bind] in Hparts.
  apply bind_Ok in Hparts as (dy' & _ & (ks' & Hks & [= -> ->])%bind_Ok).
  apply contributions_commands in Hks as (cmds & Hc & Hf).
  exists cmds, (flat_map k_libraries ks). split; [exact Hc|]. split; [apply deref_rep, (g_libraries _ _ _ Hg)|].
  split; [unfold within in Hw; apply andb_true_iff in Hw as [_ Hw]; lia|]. clear Hc Hw Hg.
  induction Hf as [|c k cmds ks Hk _ IH]; [constructor|]. apply contribution_libraries in Hk.
  cbn [List.filter flat_map]. destruct (is_library_command (lc_cmd (fst c))); [|by rewrite Hk].
  destruct Hk as (n & Hn & ->). by constructor.
Qed.
End Commands.

Lemma parts_commands `{!Scroll} {bp : BuildProfile} image dy ks :
  parts image = Ok (dy, ks) <->
  exists h cmds, deserialize_type_at_offset mach_header_64 image 0 = Ok h /\ image_kind (mh_filetype h) = Ok dy /\
    commands image 32 (Z.to_nat (mh_ncmds h)) cmds /\
    Forall2 (fun c k => contribution_of image dy (lc_cmd (fst c)) (snd c) = Ok k) cmds ks.
Proof.
  unfold parts. rewrite bind_Ok. setoid_rewrite map_err_Ok. setoid_rewrite bind_Ok. setoid_rewrite bind_Ok.
  change (size_of mach_header_64) with 32. setoid_rewrite contributions_commands. split.
  - intros (h & Hh & dy' & Hdy & ks' & (cmds & Hc & Hf) & [= -> ->]). eauto 10.
  - intros (h & cmds & Hh & Hdy & Hc & Hf). eauto 10.
Qed.

(** C17 Parsing an image is putting together what its load commands contribute, one
    by one, each read whatever the others hold: the segments, libraries, symbols
    and initialisers of all of them in file order, the fixups, entry point and
    [@rpath] of the last that gives one. The parse fails as the first command that
    cannot be read does, and otherwise gives exactly that image, unless there are
    more than 64 segments or libraries: then it panics. *)
Theorem macho_parser_gathers `{SL : ScrollLaws} {bp : BuildProfile} image :
  rust_slice (raw image) ->
  yields (parts image) (macho_parser image) (fun r => within (snd r)) (fun r p => gathered (fst r) (snd r) p) /\
  forall dy ks, parts image = Ok (dy, ks) <->
    exists h cmds, deserialize_type_at_offset mach_header_64 image 0 = Ok h /\ image_kind (mh_filetype h) = Ok dy /\
      commands image 32 (Z.to_nat (mh_ncmds h)) cmds /\
      Forall2 (fun c k => contribution_of image dy (lc_cmd (fst c)) (snd c) = Ok k) cmds ks.
Proof. intros Hs. split; [by apply macho_parser_yields|]. intros dy ks. apply parts_commands. Qed.

(** ** An example

    An executable with a [__TEXT] segment whose one section is a table of two
    initialisers, a weakly loaded library, a symbol, an entry point and an
    [@rpath] *)
#[local] Existing Instance scroll_ref.
#[local] Existing Instance dev_profile.

Definition gathered_bytes : bytes :=
  pad_to 344 (example_header 2 5 ++
    u32le 0x19 ++ u32le 152 ++ pad_to 16 (bstr "__TEXT") ++ u64le 0x100000000 ++ u64le 0x4000 ++ u64le 0 ++ u64le 0x4000 ++
      u32le 5 ++ u32le 5 ++ u32le 1 ++ u32le 0 ++
      pad_to 16 (bstr "__init_offsets") ++ pad_to 16 (bstr "__TEXT") ++ u64le 0 ++ u64le 8 ++ u32le 344 ++ u32le 0 ++
      u32le 0 ++ u32le 0 ++ u32le 0x16 ++ u32le 0 ++ u32le 0 ++ u32le 0 ++
    MachOImage.dylib_command_bytes 0x80000018 (bstr "@rpath/liba") ++
    u32le 2 ++ u32le 24 ++ u32le 352 ++ u32le 1 ++ u32le 368 ++ u32le 8 ++
    u32le 0x80000028 ++ u32le 24 ++ u64le 0x3f00 ++ u64le 0 ++
    u32le 0x8000001c ++ u32le 25 ++ u32le 12 ++ bstr "@loader_path" ++ [x00]) ++
  u32le 0x3f40 ++ u32le 0x3f80 ++
  u32le 1 ++ [x0f; x01] ++ le_bytes 2 0 ++ u64le 0x3f00 ++
  [x00] ++ bstr "_main" ++ [x00].
Definition gathered_image : Container := image_le gathered_bytes.

Definition gathered_parts : list contribution :=
  match parts gathered_image with Ok (_, ks) => ks | _ => [] end.

Lemma macho_parser_gathers_witness :
  rust_slice (raw gathered_image) /\ parts gathered_image = Ok (false, gathered_parts) /\
  exists p, macho_parser gathered_image = Ok p /\ gathered false gathered_parts p /\
    init_functions p = [0x3f40; 0x3f80] /\ entry_point p = 0x3f00 /\ rpath p = Some LoaderPath /\
    flat_map k_libraries gathered_parts = [(bstr "@rpath/liba", 24)] /\ impl_offset <$> symbols p = [0x3f00].
Proof.
  assert (parts gathered_image = Ok (false, gathered_parts)) as Hp by (vm_compute; reflexivity).
  split; [done|]. split; [exact Hp|].
  destruct (@macho_parser_gathers scroll_ref _ dev_profile gathered_image eq_refl) as [H _]. unfold yields in H.
  rewrite Hp in H. cbn [fst snd] in H. assert (within gathered_parts = true) as Hw by (vm_compute; reflexivity).
  rewrite Hw in H. destruct H as (p & Hm & Hg). exists p. split; [exact Hm|]. split; [exact Hg|].
  destruct Hg as [_ _ -> -> _ -> _ _ ->]. vm_compute. split_and!; reflexivity.
Defined.
