(* ===== verification/WellFormed.v ===== *)
(** The type of a parsed image.

    Whatever the bytes of an image are, what [macho_parser] makes of them is well
    formed: its vectors are within their capacity, its numbers fit the fields they
    are stored in, its names are text without a NUL and its fixups lie in the
    image. Each parser of a part keeps this. *)
From S2P Require Import Prelude Scroll Bindings Container ArrayVec Memory Kernel Image SharedCache Fixups Loader.

(** Text as the linker stores it *)
Definition text_ok (t : bytes) : Prop := from_utf8_ok t = true /\ Forall (fun b => b <> x00) t.

Definition segment_typed (s : Segment) : Prop :=
  fits 32 (prot s) /\ fits 64 (vm_addr s) /\ fits 64 (file_offset s) /\ fits 64 (vm_size s).

Definition library_typed (lib : bytes * Z) : Prop := text_ok (fst lib) /\ fits 32 (snd lib).

Definition symbol_typed (s : Symbol) : Prop :=
  fits 8 (lib_ordinal s) /\ fits 8 (sect_num s) /\ fits 64 (impl_offset s) /\
  exists t, text_rep (name s) t /\ text_ok t /\ zlen t <= SYMBOL_NAME_LEN.

(** A vector of at most 64 elements, each well formed *)
Definition vector_typed {T} (P : T -> Prop) (v : FixedVec T) : Prop :=
  exists l, rep v l /\ capacity v = 64 /\ Forall P l.

Record image_typed (image : Container) (p : ParsedImage) : Prop := {
  it_segments : vector_typed segment_typed (segments p);
  it_libraries : vector_typed library_typed (pi_libraries p);
  it_fixups : Forall (fixup_inside image) (fixups p);
  it_symbols : Forall symbol_typed (symbols p);
  it_inits : Forall (fits 32) (init_functions p);
  it_entry : fits 64 (entry_point p)
}.

Section Typed.
Context `{SL : ScrollLaws} {bp : BuildProfile} (image : Container).

Lemma push_typed {T} (P : T -> Prop) v x v' :
  vector_typed P v -> P x -> push v x = @Ok string _ v' -> vector_typed P v'.
Proof.
  intros (l & Hr & Hc & Hl) Hx Hp. pose proof (@push_rep string _ _ v l x Hr) as H. rewrite Hp in H.
  destruct (zlen l <? capacity v); [|done]. destruct H as (w & [= <-] & Hr' & Hc').
  exists (l ++ [x]). split; [done|]. split; [congruence|]. apply Forall_app. split; [done|by constructor].
Qed.

Lemma read_string_typed off t : 0 <= off -> deserialize_string_at_offset image off = @Ok string _ t -> text_ok t.
Proof.
  intros Hoff H. split; [by eapply deserialize_string_spec_utf8|].
  by apply deserialize_string_read in H as (_ & _ & _ & ?).
Qed.

Lemma read_symbol_name_typed stroff n_strx err nm :
  read_symbol_name image stroff n_strx err = Ok (inl nm) ->
  exists t, text_rep nm t /\ text_ok t /\ zlen t <= SYMBOL_NAME_LEN.
Proof.
  unfold read_symbol_name. intros (off & Hoff & (t & Ht & (o & Ho & H)%bind_Ok)%bind_Ok)%bind_Ok.
  apply in_range_Ok in Hoff as [[Hoff _] _]; [|lia].
  pose proof (read_string_typed _ _ Hoff Ht) as Hok.
  pose proof (@try_from_str_spec string bp (Z.to_nat SYMBOL_NAME_LEN) t ltac:(done) (proj1 Hok)) as Hn.
  destruct o as [o|]; [|discriminate H]. injection H as ->.
  destruct (Z.leb_spec (zlen t) (Z.of_nat (Z.to_nat SYMBOL_NAME_LEN))) as [Hle|]; [|congruence].
  destruct Hn as (this & Hn & Hr). rewrite Ho in Hn. injection Hn as ->.
  exists t. split; [done|]. split; [done|]. by change (Z.of_nat (Z.to_nat SYMBOL_NAME_LEN)) with SYMBOL_NAME_LEN in Hle.
Qed.

Lemma classify_defined_typed stroff entry syms syms' :
  fits 8 (nl_n_sect entry) -> fits 64 (nl_n_value entry) ->
  classify_defined_symbol image stroff entry syms = Ok syms' -> Forall symbol_typed syms -> Forall symbol_typed syms'.
Proof.
  intros Hs Hv H Hf. unfold classify_defined_symbol in H. apply bind_Ok in H as ([nm|e] & Hnm & H); [|by injection H as <-].
  apply read_symbol_name_typed in Hnm.
  assert (forall w c t, symbol_typed (Mk_Symbol SELF_LIBRARY_ORDINAL nm (nl_n_value entry) (nl_n_sect entry) 0 w t c)) as Hsym
    by (intros; split_and!; done).
  destruct (has_flag (nl_n_type entry) N_EXT), (has_flag (nl_n_type entry) N_PEXT),
    (has_flag (nl_n_desc entry) N_WEAK_DEF), (has_flag (nl_n_desc entry) N_ALT_ENTRY),
    (has_flag (nl_n_desc entry) N_SYMBOL_RESOLVER), (has_flag (nl_n_desc entry) N_WEAK_REF); try discriminate H;
    injection H as <-; (apply Forall_app; split; [done|]; constructor; [apply Hsym|constructor]).
Qed.

Lemma classify_undefined_typed stroff entry syms syms' :
  classify_undefined_symbol image stroff entry syms = Ok syms' -> Forall symbol_typed syms -> Forall symbol_typed syms'.
Proof.
  intros H Hf. unfold classify_undefined_symbol in H. destruct (negb _); [by destruct (has_flag _ N_PEXT)|].
  apply bind_Ok in H as ([nm|e] & Hnm & H); [|by injection H as <-]. apply read_symbol_name_typed in Hnm.
  injection H as <-. apply Forall_app. split; [done|]. constructor; [|constructor].
  split; [apply Z.mod_pos_bound; lia|]. by split_and!.
Qed.

(** The offset a loop goes on with *)
Lemma add64_nonneg a b o : add64 a b = @Ok string _ o -> 0 <= o.
Proof. intros H. apply in_range_Ok in H as [[? _] _]; lia. Qed.

Lemma parse_symtab_entry_typed stroff s s' :
  parse_symtab_entry image stroff s = Ok s' -> 0 <= fst s /\ Forall symbol_typed (snd s) ->
  0 <= fst s' /\ Forall symbol_typed (snd s').
Proof.
  destruct s as [off syms]. cbn [fst snd]. unfold parse_symtab_entry.
  intros (entry & He%map_err_Ok & (off' & Hoff'%add64_nonneg & H)%bind_Ok)%bind_Ok [Hoff Hf].
  apply deserialize_wf in He as (_ & vs & -> & Hv); [|done|repeat constructor].
  destruct vs as (v0 & v1 & v2 & v3 & v4 & []). destruct Hv as (_ & _ & Hsect & _ & Hval & _).
  destruct (has_flag _ N_STAB); [by injection H as <-|].
  destruct (_ =? N_SECT); [|destruct (_ =? N_UNDF); [|by injection H as <-]];
    apply bind_Ok in H as (syms' & H & [= <-]); (split; [done|]).
  - by eapply classify_defined_typed in H.
  - by eapply classify_undefined_typed in H.
Qed.

Lemma parse_symtab_typed off syms syms' :
  0 <= off -> parse_symtab image off syms = Ok syms' -> Forall symbol_typed syms -> Forall symbol_typed syms'.
Proof.
  unfold parse_symtab. intros Hoff (lc & Hlc%map_err_Ok & (r & Hloop & [= <-])%bind_Ok)%bind_Ok Hf.
  apply deserialize_wf in Hlc as (_ & vs & -> & Hv); [|done|repeat constructor].
  destruct vs as (? & ? & v & ? & ? & ? & []). destruct Hv as (_ & _ & [Hsym _] & _).
  refine (proj2 (for_range_inv (fun _ s => 0 <= fst s /\ Forall symbol_typed (snd s)) _ 0 _ _ r _ _ Hloop)); [done|].
  intros j a a' _ Ha H. by eapply parse_symtab_entry_typed.
Qed.

(** *** Segments *)

Lemma read_inits_typed cursor size l l' :
  0 <= cursor -> read_init_func_offsets image cursor size l = Ok l' -> Forall (fits 32) l -> Forall (fits 32) l'.
Proof.
  unfold read_init_func_offsets. intros Hc (stop & _ & H)%bind_Ok. revert H.
  generalize (S (Z.to_nat (stop - cursor))). intros fuel. revert cursor l Hc.
  induction fuel as [|k IH]; intros cursor l Hc; cbn [init_func_loop]; [done|].
  destruct (cursor <? stop); [|by intros [= ->]].
  intros (f & Hf%map_err_Ok & (c' & Hc' & H)%bind_Ok)%bind_Ok Hl.
  apply in_range_Ok in Hc' as [[Hc' _] _]; [|lia]. eapply IH; [exact Hc'|exact H|].
  apply Forall_app. split; [done|]. apply (deserialize_wf Z (H := pread_u32)) in Hf as (_ & [v []] & -> & [Hv _]);
    [|done|repeat constructor]. by constructor.
Qed.

Lemma scan_section_typed off s s' :
  0 <= off -> scan_section image off s = Ok s' -> Forall (fits 32) (fst s) -> Forall (fits 32) (fst s').
Proof.
  destruct s as [inits tl]. intros Hoff. unfold scan_section. intros (se & Hse%map_err_Ok & H)%bind_Ok Hf.
  apply deserialize_wf in Hse as (_ & vs & -> & Hv); [|done|repeat constructor].
  destruct vs as (? & ? & ? & ? & ? & ? & ? & ? & ? & ? & ? & ? & []). destruct Hv as (_ & _ & _ & _ & [Ho _] & _).
  destruct (_ =? S_INIT_FUNC_OFFSETS); [|destruct (_ =? S_THREAD_LOCAL_VARIABLES); by injection H as <-].
  apply bind_Ok in H as (inits' & H & [= <-]). by eapply read_inits_typed in H.
Qed.

Lemma parse_segment_typed off segs s segs' s' :
  0 <= off -> parse_segment image off segs s = Ok (segs', s') ->
  vector_typed segment_typed segs -> Forall (fits 32) (fst s) ->
  vector_typed segment_typed segs' /\ Forall (fits 32) (fst s').
Proof.
  intros Hoff. unfold parse_segment. intros (lc & Hlc%map_err_Ok & (secs & _ & H)%bind_Ok)%bind_Ok Hsegs Hf.
  apply bind_Ok in H as (s1 & Hs1 & (segs1 & Hpush & [= <- <-])%bind_Ok).
  apply deserialize_wf in Hlc as (_ & vs & -> & Hv); [|done|repeat constructor].
  destruct vs as (? & ? & ? & ? & ? & ? & ? & ? & ? & ? & ? & []).
  destruct Hv as (_ & _ & _ & Hva & Hvs & Hfo & _ & _ & Hpr & _). split.
  - eapply push_typed; [exact Hsegs| |exact Hpush]. by split_and!.
  - destruct (_ || _) in Hs1; [|by injection Hs1 as <-].
    refine (for_range_inv (fun _ s => Forall (fits 32) (fst s)) _ 0 _ _ _ Hf _ Hs1).
    intros j a a' _ Ha (k & _ & (so & Hso%add64_nonneg & H)%bind_Ok)%bind_Ok. by eapply scan_section_typed.
Qed.

(** *** The whole image *)

Lemma parse_dylib_typed off libs libs' :
  parse_dylib_command image off libs = Ok libs' -> 0 <= off ->
  vector_typed library_typed libs -> vector_typed library_typed libs'.
Proof.
  unfold parse_dylib_command. intros (lc & Hlc%map_err_Ok & (o & Ho%add64_nonneg & (nm & Hnm & H)%bind_Ok)%bind_Ok)%bind_Ok Hoff Hl.
  eapply push_typed; [exact Hl| |exact H]. split; cbn [fst snd]; [exact (read_string_typed _ _ Ho Hnm)|].
  apply deserialize_wf in Hlc as (_ & vs & -> & Hv); [|done|repeat constructor].
  destruct vs as (? & ? & ? & ? & ? & ? & []). by destruct Hv as (_ & _ & ? & _).
Qed.

Lemma parse_main_typed off dy e : parse_main_command image off dy = Ok e -> 0 <= off -> fits 64 e.
Proof.
  unfold parse_main_command. destruct dy; [done|]. intros (lc & Hlc%map_err_Ok & [= <-])%bind_Ok Hoff.
  apply deserialize_wf in Hlc as (_ & vs & -> & Hv); [|done|repeat constructor].
  destruct vs as (? & ? & ? & ? & []). by destruct Hv as (_ & _ & ? & _).
Qed.

Context (Hs : rust_slice (raw image)).

Lemma parse_command_typed cmd off p p' :
  0 <= off -> parse_command image cmd off p = Ok p' -> image_typed image p -> image_typed image p'.
Proof.
  intros Hoff H [H1 H2 H3 H4 H5 H6].
  destruct cmd; cbn [parse_command] in H; try (by injection H as <-);
    apply bind_Ok in H as (r & Hr & H); try (destruct r as [segs [inits tl]]); injection H as <-; split; cbn; try done.
  all: lazymatch goal with
    | |- vector_typed library_typed _ => by eapply parse_dylib_typed in Hr
    | |- vector_typed segment_typed _ => by eapply parse_segment_typed in Hr as [? _]
    | |- Forall (fits 32) _ => by eapply parse_segment_typed in Hr as [_ ?]
    | |- Forall symbol_typed _ => by eapply parse_symtab_typed in Hr
    | |- Forall (fixup_inside _) _ => by apply (chained_fixups_parse_ok image Hs)
    | |- fits 64 _ => by eapply parse_main_typed in Hr
    end.
Qed.

Lemma parsed_image_typed p : macho_parser image = Ok p -> image_typed image p.
Proof.
  unfold macho_parser. intros (h & _ & (dy & _ & (r & Hloop & [= <-])%bind_Ok)%bind_Ok)%bind_Ok.
  refine (proj2 (for_range_inv (fun _ s => 0 <= fst s /\ image_typed image (snd s)) _ 0 _ _ r _ _ Hloop)).
  - split; [done|].
    assert (forall T (P : T -> Prop), vector_typed P (new_array 64)) as Hv
      by (intros; exists []; split; [by apply rep_new|by split]).
    split; cbn; try done; constructor.
  - intros j [off q] [off' q'] _ [Hoff Hq] (lc & _ & (q1 & Hq1 & (o & Ho%add64_nonneg & [= <- <-])%bind_Ok)%bind_Ok)%bind_Ok.
    split; [done|]. exact (parse_command_typed _ _ _ _ Hoff Hq1 Hq).
Qed.

(** The binds of a parsed image name their symbols in text. *)
Lemma parsed_fixups_named p : macho_parser image = Ok p -> Forall fixup_named (fixups p).
Proof.
  unfold macho_parser. intros (h & _ & (dy & _ & (r & Hloop & [= <-])%bind_Ok)%bind_Ok)%bind_Ok.
  refine (for_range_inv (fun _ s => Forall fixup_named (fixups (snd s))) _ 0 _ _ r _ _ Hloop); [constructor|].
  intros j [off q] [off' q'] _ Hq (lc & _ & (q1 & Hq1 & (o & _ & [= _ <-])%bind_Ok)%bind_Ok)%bind_Ok. cbn [snd] in *.
  destruct (lc_cmd lc); cbn [parse_command] in Hq1; try (by injection Hq1 as <-);
    apply bind_Ok in Hq1 as (x & Hx & Hq1); try (destruct x as [? [? ?]]); injection Hq1 as <-; try exact Hq.
  by apply chained_fixups_parse_named in Hx.
Qed.

(** C15 A parsed image is well formed, whatever the bytes of the image: it has at
    most 64 segments and 64 libraries; the addresses, offsets and sizes of its
    segments, its entry point and the values of its symbols are 64-bit numbers, its
    initialisers 32-bit ones, sections and ordinals bytes; the names of its
    libraries and symbols are UTF-8 text without a NUL, the latter of at most
    [SYMBOL_NAME_LEN] bytes; and all eight bytes of every fixup are in the image. *)
Theorem macho_parser_typed p : macho_parser image = Ok p -> image_typed image p.
Proof. exact (parsed_image_typed p). Qed.
End Typed.

(** ** An example: the executable that loads [a] and [b] *)
#[local] Existing Instance scroll_ref.
#[local] Existing Instance dev_profile.

Lemma macho_parser_typed_witness :
  rust_slice (raw example_executable) /\ macho_parser example_executable = Ok example_parsed /\
  image_typed example_executable example_parsed.
Proof.
  assert (rust_slice (raw example_executable)) as Hs by (vm_compute; reflexivity).
  split; [exact Hs|]. split; [exact example_parsed_ok|].
  exact (@macho_parser_typed scroll_ref _ dev_profile example_executable Hs example_parsed example_parsed_ok).
Defined.
