(* ===== verification/Finalize.v ===== *)
(** Finishing an image: what [image_finalize] asks for, and in which order.

    The machine's history tells the traps, the calls of code and the
    initialisations of thread-local variables apart. [image_finalize] is shown to
    set up the thread-local variables of an executable, then to protect every
    segment, and only when the kernel has granted all of that to run the
    initialisers, in the order of the image. *)
From S2P Require Import Prelude Scroll Bindings Container ArrayVec Memory Kernel VM Image Loader.

(** What the loader asked of the rest of the system *)
Inductive event :=
| Trap (num : Z) (args : list Z) (val : Z) (err : bool)
| Called (address : Z) (registers : list Z)
| ThreadLocals (mh : Z).

(** One request to protect memory *)
Record request := Mk_request { rq_address : Z; rq_size : Z; rq_set_max : Z; rq_protection : Z }.

(** The steps of finishing an image *)
Inductive step :=
| Initialise (mh : Z)
| Protect (r : request) (granted : bool)
| Run (address : Z) (registers : list Z).

(** A trap counts as a step if it protects memory. *)
Definition step_of (e : event) : option step :=
  match e with
  | Trap num [_; address; size; set_max; protection] val err =>
      if num =? TRAP_KERNELRPC_MACH_VM_PROTECT
      then Some (Protect (Mk_request address size set_max protection) (kr (decode_ret val err) =? KERN_SUCCESS))
      else None
  | Trap _ _ _ _ => None
  | Called address registers => Some (Run address registers)
  | ThreadLocals mh => Some (Initialise mh)
  end.

(** What protecting a segment asks for: first the maximum, then the current
    protection, on the segment's place in the mapping *)
Definition segment_request (vm : Z) (seg : Segment) (set_max : bool) : request :=
  Mk_request (ptr_add vm (vm_addr seg)) (vm_size seg) (if set_max then 1 else 0) (as_u 32 (as_i 32 (prot seg))).
Definition requests (vm : Z) (segs : list Segment) : list request :=
  flat_map (fun seg => segment_request vm seg <$> [true; false]) segs.

Definition granted (r : request) : step := Protect r true.

(** Running an initialiser of the image, without arguments *)
Definition initialiser (vm sp func : Z) : step := Run (ptr_add (ptr_add vm func) PAGE_ZERO_SIZE) [0; sp; sp; sp].

Section Finalize.
Context {sc : Scroll} {bp : BuildProfile} {M : Machine} (page : Z) (laws : vm_laws page).

(** The machine's history of these events, oldest first, and what a call keeps:
    the stack of its caller. *)
Context (history : kstate -> list event).
Record history_laws : Prop := {
  trap_law : forall k m num args k' m' v e,
    svc k m num args = (k', m', (v, e)) -> history k' = history k ++ [Trap num args v e];
  call_law : forall k m a regs k' m',
    call_code k m a regs = (k', m') -> history k' = history k ++ [Called a regs];
  tlv_law : forall k m mh k' m',
    tlv_initialize_descriptors_export k m mh = (k', m') -> history k' = history k ++ [ThreadLocals mh];
  call_stack : forall k m a regs k' m' sp, mapped m sp 8 -> call_code k m a regs = (k', m') -> mapped m' sp 8;
  tlv_stack : forall k m mh k' m' sp,
    mapped m sp 8 -> tlv_initialize_descriptors_export k m mh = (k', m') -> mapped m' sp 8
}.
Context (hist : history_laws).

Definition steps (w : world) : list step := omap step_of (history (w_kernel w)).

Lemma vm_protect_step {E} a n b p w :
  exists w' r, @vm_protect M E a n b p w = (w', Ok r) /\ w_sp w' = w_sp w /\ w_mem w' = w_mem w /\
    steps w' = steps w ++ [Protect (Mk_request a n b (as_u 32 p)) (match r with inl _ => true | inr _ => false end)].
Proof.
  unfold vm_protect, task_self_internal, syscall0, syscall, io_bind, steps.
  destruct (svc (w_kernel w) (w_mem w) TRAP_TASK_SELF []) as [[k1 m1] [v1 e1]] eqn:E1.
  pose proof (task_self_law page laws _ _ _ _ _ E1) as ->. io_cbn.
  unfold vm_protect_internal, syscall5, syscall, io_bind. io_cbn. set (t := as_u 32 _).
  destruct (svc k1 (w_mem w) TRAP_KERNELRPC_MACH_VM_PROTECT [t; a; n; b; as_u 32 p]) as [[k2 m2] [v2 e2]] eqn:E2.
  pose proof (vm_protect_law page laws _ _ _ _ _ _ E2) as ->.
  io_cbn. eexists _, _. split; [reflexivity|]. split; [done|]. split; [done|]. io_cbn.
  rewrite (trap_law hist _ _ _ _ _ _ _ _ E2), (trap_law hist _ _ _ _ _ _ _ _ E1), !omap_app. cbn [omap step_of].
  change (_ =? TRAP_KERNELRPC_MACH_VM_PROTECT) with true. rewrite app_nil_r. cbn.
  by destruct (kr (decode_ret v2 e2) =? KERN_SUCCESS).
Qed.

(** A list of requests is granted to the end, or up to one that is refused. *)
Definition protected (rs : list request) (msg : string) (m : io string unit) (before : list step) (w : world) : Prop :=
  exists w', w_sp w' = w_sp w /\ w_mem w' = w_mem w /\
    (m w = (w', Ok tt) /\ steps w' = before ++ (granted <$> rs) \/
     m w = (w', Err msg) /\ exists l r rest, rs = l ++ r :: rest /\
       steps w' = before ++ (granted <$> l) ++ [Protect r false]).

Lemma segments_protect_steps vm calls w :
  protected ((fun c => segment_request vm (fst c) (snd c)) <$> calls)
    "could not apply vm protections to a memory region" (segments_protect vm calls) (steps w) w.
Proof.
  revert w; induction calls as [|[seg b] calls IH]; intros w; cbn [segments_protect].
  { exists w. split; [done|]. split; [done|]. left. split; [done|]. cbn. by rewrite app_nil_r. }
  destruct (@vm_protect_step string (ptr_add vm (vm_addr seg)) (vm_size seg) (if b then 1 else 0)
    (as_i 32 (prot seg)) w) as (w1 & r & Hr & Hsp & Hm & Ht).
  unfold protected. rewrite (io_bind_run _ _ _ _ _ Hr). destruct r as [u|e].
  - destruct (IH w1) as (w2 & Hsp2 & Hm2 & H). exists w2. split; [congruence|]. split; [congruence|].
    destruct H as [[-> H]|(-> & l & r & rest & Hrs & H)]; [left|right]; (split; [done|]).
    + rewrite H, Ht, <- app_assoc. done.
    + exists (segment_request vm seg b :: l), r, rest. rewrite fmap_cons, Hrs. split; [done|].
      rewrite H, Ht, <- app_assoc. done.
  - exists w1. split; [done|]. split; [done|]. right. split; [done|]. eexists [], _, _.
    split; [reflexivity|exact Ht].
Qed.

(** Protecting the segments always returns, and keeps memory; when it succeeds the
    kernel has been asked, for every segment in order, first for the maximum and
    then for the current protection, and when it fails nothing was asked for after
    the request that was refused. *)
Theorem macho_segments_vm_protect_order vm segs w :
  protected (requests vm segs) "could not apply vm protections to a memory region"
    (macho_segments_vm_protect vm segs) (steps w) w.
Proof.
  assert (requests vm segs =
    (fun c => segment_request vm (fst c) (snd c)) <$> flat_map (fun seg => [(seg, true); (seg, false)]) segs) as ->.
  { clear. induction segs as [|seg segs IH]; [done|].
    change (requests vm (seg :: segs)) with
      (segment_request vm seg true :: segment_request vm seg false :: requests vm segs).
    rewrite IH. done. }
  apply segments_protect_steps.
Qed.

Lemma init_functions_steps {E} vm fs w :
  mapped (w_mem w) (w_sp w) 8 ->
  exists w', @macho_init_functions_exec M E vm fs w = (w', Ok tt) /\ w_sp w' = w_sp w /\
    steps w' = steps w ++ (initialiser vm (w_sp w) <$> fs).
Proof.
  revert w; induction fs as [|f fs IH]; intros w Hst; cbn [macho_init_functions_exec].
  { exists w. split; [done|]. split; [done|]. cbn. by rewrite app_nil_r. }
  unfold io_bind, local_u64_set, with_sp, updating.
  destruct (@store_u64_mapped E _ _ 0 Hst) as (m1 & -> & Hd1 & _). cbn [bind].
  unfold entry_and_ret. io_cbn.
  destruct (call_code (w_kernel w) m1 (ptr_add (ptr_add vm f) PAGE_ZERO_SIZE) [0; w_sp w; w_sp w; w_sp w]) as [k m] eqn:Ec.
  pose proof (call_law hist _ _ _ _ _ _ Ec) as Hh.
  assert (mapped m (w_sp w) 8) as Hst' by (eapply (call_stack hist); [|exact Ec]; by eapply mapped_dom).
  destruct (IH (set_kernel w k m) Hst') as (w' & H & Hsp & Hs). exists w'. split; [exact H|]. split; [exact Hsp|].
  rewrite Hs. unfold steps. cbn [w_kernel set_kernel w_sp]. rewrite Hh, omap_app, <- app_assoc. done.
Qed.

(** The thread-local variables that are set up: an executable's *)
Definition thread_local_steps (vm : Z) (p : ParsedImage) (exe : bool) : list step :=
  if exe && has_thread_locals p then [Initialise (ptr_add vm PAGE_ZERO_SIZE)] else [].

(** Finishing an image always returns, and takes its steps in order. *)
Lemma image_finalize_steps vm p exe segs w :
  mapped (w_mem w) (w_sp w) 8 -> deref (segments p) = @Ok string _ segs ->
  let before := steps w ++ thread_local_steps vm p exe in
  exists w', w_sp w' = w_sp w /\
    (image_finalize vm p exe w = (w', Ok tt) /\
       steps w' = before ++ (granted <$> requests vm segs) ++ (initialiser vm (w_sp w) <$> init_functions p) \/
     image_finalize vm p exe w = (w', Err "could not apply vm protections to a memory region"%string) /\
       exists l r rest, requests vm segs = l ++ r :: rest /\
         steps w' = before ++ (granted <$> l) ++ [Protect r false]).
Proof.
  intros Hst Hsegs before.
  assert (exists w0, (if exe && has_thread_locals p then macho_tlv_initialize vm else ret tt) w = (w0, @Ok string _ tt) /\
    w_sp w0 = w_sp w /\ mapped (w_mem w0) (w_sp w) 8 /\ steps w0 = before) as (w0 & H0 & Hsp0 & Hst0 & Hs0).
  { unfold before, thread_local_steps, steps. destruct (exe && has_thread_locals p).
    - unfold macho_tlv_initialize, tlv_initialize.
      destruct (tlv_initialize_descriptors_export (w_kernel w) (w_mem w) (ptr_add vm PAGE_ZERO_SIZE)) as [k m] eqn:Et.
      exists (set_kernel w k m). split; [done|]. split; [done|].
      split; [by eapply (tlv_stack hist)|]. cbn [w_kernel set_kernel]. by rewrite (tlv_law hist _ _ _ _ _ Et), omap_app.
    - exists w. rewrite app_nil_r. done. }
  unfold image_finalize. rewrite (io_bind_run _ _ _ _ _ H0), (io_bind_lift _ _ _ _ Hsegs).
  destruct (macho_segments_vm_protect_order vm segs w0) as (w1 & Hsp1 & Hm1 & [[H1 Hs1]|(H1 & l & r & rest & Hrs & Hs1)]).
  - rewrite (io_bind_run _ _ _ _ _ H1).
    destruct (@init_functions_steps string vm (init_functions p) w1) as (w2 & H2 & Hsp2 & Hs2).
    { by rewrite Hm1, Hsp1, Hsp0. }
    exists w2. split; [congruence|]. left. split; [exact H2|].
    by rewrite Hs2, Hs1, Hs0, Hsp1, Hsp0, <- app_assoc.
  - exists w1. split; [congruence|]. right. unfold io_bind. rewrite H1. split; [done|].
    exists l, r, rest. split; [done|]. by rewrite Hs1, Hs0.
Qed.

(** C13 Finishing an image always returns. It initialises the thread-local variables
    of an executable that has some, then asks the kernel to protect every segment
    in order, first for the maximum and then for the current protection, and runs
    the initialisers of the image, in order, at [PAGE_ZERO_SIZE] above their
    offsets, once every request was granted. If one is refused, that is the error:
    nothing more is asked for, and no initialiser runs. *)
Theorem image_finalize_order vm p exe segs w :
  mapped (w_mem w) (w_sp w) 8 -> deref (segments p) = @Ok string _ segs ->
  let before := steps w ++ thread_local_steps vm p exe in
  exists w', w_sp w' = w_sp w /\
    (image_finalize vm p exe w = (w', Ok tt) /\
       steps w' = before ++ (granted <$> requests vm segs) ++ (initialiser vm (w_sp w) <$> init_functions p) \/
     image_finalize vm p exe w = (w', Err "could not apply vm protections to a memory region"%string) /\
       exists l r rest, requests vm segs = l ++ r :: rest /\
         steps w' = before ++ (granted <$> l) ++ [Protect r false]).
Proof. apply image_finalize_steps. Qed.
End Finalize.

(** ** Recording machines *)

(** A machine with its history: what it does is unchanged. *)
Definition recording (M : Machine) : Machine := {|
  kstate := @kstate M * list event;
  svc '(k, h) m num args :=
    let '(k, m, (v, e)) := svc k m num args in ((k, h ++ [Trap num args v e]), m, (v, e));
  alloc_string '(k, h) m s := let '(k, m, p) := alloc_string k m s in ((k, h), m, p);
  call_code '(k, h) m a regs := let '(k, m) := call_code k m a regs in ((k, h ++ [Called a regs]), m);
  tlv_initialize_descriptors_export '(k, h) m mh :=
    let '(k, m) := tlv_initialize_descriptors_export k m mh in ((k, h ++ [ThreadLocals mh]), m);
  dyld_shared_cache_base_address_get '(k, h) m p :=
    let '(k, m, r) := dyld_shared_cache_base_address_get k m p in ((k, h), m, r)
|}.

Section Recording.
Context (M : Machine).

Lemma recording_svc k h m num args k' m' v e :
  @svc (recording M) (k, h) m num args = (k', m', (v, e)) ->
  exists k1, @svc M k m num args = (k1, m', (v, e)) /\ k' = (k1, h ++ [Trap num args v e]).
Proof.
  cbn. destruct (@svc M k m num args) as [[k1 m1] [v1 e1]]. intros [= <- -> -> ->]. by exists k1.
Qed.

Lemma recording_vm_laws page : @vm_laws M page -> @vm_laws (recording M) page.
Proof.
  intros [Hp H1 H2 H3 H4].
  split; [exact Hp|..]; intros [k h]; intros;
    repeat match goal with r : (Z * bool)%type |- _ => destruct r end;
    match goal with H : svc _ _ _ _ = _ |- _ => apply recording_svc in H as (k1 & H & ->) end;
    [by eapply H1|by eapply H2|by eapply H3|by eapply H4].
Qed.

(** A history is kept if calls keep the stack. *)
Lemma recording_history_laws :
  (forall k m a regs k' m' sp, mapped m sp 8 -> @call_code M k m a regs = (k', m') -> mapped m' sp 8) ->
  (forall k m mh k' m' sp, mapped m sp 8 -> @tlv_initialize_descriptors_export M k m mh = (k', m') -> mapped m' sp 8) ->
  @history_laws (recording M) snd.
Proof.
  intros Hc Ht. split.
  - intros [k h] m num args k' m' v e (k1 & _ & ->)%recording_svc. done.
  - intros [k h] m a regs k' m'. cbn. destruct (@call_code M k m a regs) as [k1 m1]. by intros [= <- _].
  - intros [k h] m mh k' m'. cbn. destruct (@tlv_initialize_descriptors_export M k m mh) as [k1 m1]. by intros [= <- _].
  - intros [k h] m a regs k' m' sp Hm. cbn. destruct (@call_code M k m a regs) as [k1 m1] eqn:E. intros [= _ <-].
    by eapply Hc.
  - intros [k h] m mh k' m' sp Hm. cbn. destruct (@tlv_initialize_descriptors_export M k m mh) as [k1 m1] eqn:E.
    intros [= _ <-]. by eapply Ht.
Qed.
End Recording.

(** ** An example *)

#[local] Existing Instance scroll_ref.
#[local] Existing Instance dev_profile.

Definition machine_recording : Machine := recording machine_vm.

Lemma machine_recording_laws : @vm_laws machine_recording 4096 /\ @history_laws machine_recording snd.
Proof.
  split; [exact (recording_vm_laws machine_vm 4096 machine_vm_laws)|].
  apply (recording_history_laws machine_vm).
  - intros k m a regs k' m' sp Hm [= _ <-]. exact Hm.
  - intros k m mh k' m' sp Hm [= _ <-]. exact Hm.
Qed.

(** An executable with two segments, thread-local variables and two initialisers *)
Definition finalized_segments : list Segment :=
  [{| prot := 5; vm_addr := 0x100004000; file_offset := 0; vm_size := 0x4000 |};
   {| prot := 3; vm_addr := 0x100008000; file_offset := 0x4000; vm_size := 0x1000 |}].
Definition finalized_image : ParsedImage :=
  Mk_ParsedImage (Mk_FixedVec 2 ((Some <$> finalized_segments) ++ replicate 62 None)) [] [] [0x4010; 0x4020]
    (new_array 0) 0 true false None.
Definition finalizing : @world machine_recording :=
  @Mk_world machine_recording (tt, []) (mem_of 0x8000 (zeros 8)) 0x8000 true.

(** Everything is granted: the thread-local variables, four requests, both initialisers. *)
Lemma image_finalize_order_witness :
  @vm_laws machine_recording 4096 /\ @history_laws machine_recording snd /\
  exists w', image_finalize (M := machine_recording) 0x1000000 finalized_image true finalizing = (w', Ok tt) /\
    @steps machine_recording snd w' =
      Initialise 0x101000000 ::
      (granted <$> [Mk_request 0x101004000 0x4000 1 5; Mk_request 0x101004000 0x4000 0 5;
                    Mk_request 0x101008000 0x1000 1 3; Mk_request 0x101008000 0x1000 0 3]) ++
      [Run 0x101004010 [0; 0x8000; 0x8000; 0x8000]; Run 0x101004020 [0; 0x8000; 0x8000; 0x8000]].
Proof.
  destruct machine_recording_laws as [Hvm Hh]. split; [exact Hvm|]. split; [exact Hh|].
  assert (mapped (w_mem finalizing) (w_sp finalizing) 8) as Hst
    by (apply (mem_of_mapped 0x8000 (zeros 8)); vm_compute; discriminate).
  destruct (image_finalize_order (M := machine_recording) 4096 Hvm snd Hh 0x1000000 finalized_image true finalized_segments
    finalizing Hst eq_refl) as (w' & _ & [[Hr Hs]|[Hr _]]).
  - exists w'. split; [exact Hr|exact Hs].
  - exfalso. assert (match image_finalize (M := machine_recording) 0x1000000 finalized_image true finalizing with
      | (_, Ok _) => true | _ => false end = true) as Hok by (vm_compute; reflexivity).
    rewrite Hr in Hok. discriminate Hok.
Defined.
