(* ===== verification/Program.v ===== *)
(** Loading a whole program: the tree of images behind it, and the order in which
    they come to life.

    [loads_as] says which images a program consists of, from the files on disk
    alone: each image with those it depends on, the ones the shared cache has left
    out. [macho_loader] is shown to walk this tree: what it asks of the kernel and
    which initialisers it runs, and in which order, is the tree's post-order
    ([steps_of]). A program whose files depend on each other in a cycle has no such
    tree, and is never loaded. *)
From S2P Require Import Prelude Scroll Bindings Container ArrayVec Memory Kernel VM Files Image.
From S2P Require Import SharedCache Fixups Loader Parsed Finalize.
From S2P Require MachOImage.

(** ** The tree of a program *)

(** An image where it was loaded, with its dependencies in order: those that the
    shared cache has, by name, and those on disk, with their path. *)
Inductive load_tree :=
| Loaded (vm : Z) (parsed : ParsedImage) (segs : list Segment) (deps : load_forest)
with load_forest :=
| NoMore
| FromCache (install_name : bytes) (rest : load_forest)
| FromDisk (install_name path : bytes) (dylib : load_tree) (rest : load_forest).

Scheme load_tree_ind2 := Induction for load_tree Sort Prop
with load_forest_ind2 := Induction for load_forest Sort Prop.

Definition root_vm (t : load_tree) : Z := let '(Loaded vm _ _ _) := t in vm.

(** The steps of loading it, in post-order: an image is finished when all it
    depends on is; [sp] is the stack slot its initialisers are given. *)
Fixpoint steps_of (sp : Z) (exe : bool) (t : load_tree) : list step :=
  match t with
  | Loaded vm p segs deps =>
      forest_steps sp deps ++ thread_local_steps vm p exe ++ (granted <$> requests vm segs) ++
        (initialiser vm sp <$> init_functions p)
  end
with forest_steps (sp : Z) (ds : load_forest) : list step :=
  match ds with
  | NoMore => []
  | FromCache _ rest => forest_steps sp rest
  | FromDisk _ _ t rest => steps_of sp false t ++ forest_steps sp rest
  end.

Section Tree.
Context {sc : Scroll} {bp : BuildProfile}.
(** The files on disk, the cache and the directory of the executable *)
Context (disk : bytes -> option bytes) (cache : DyldSharedCache) (exec_dir : bytes).

(** The disk path of a library that the cache does not have *)
Definition on_disk (rp : option Rpath) (name path : bytes) : Prop :=
  is_library_cached cache name = false /\
  user_dylib_disk_path_resolve name rp exec_dir = @Ok string _ (path ++ [x00]).

Inductive loads_as : Container -> load_tree -> Prop :=
| loads_image image vm p libs segs ds :
    macho_parser image = Ok p ->
    deref (pi_libraries p) = @Ok string _ libs ->
    deref (segments p) = @Ok string _ segs ->
    depends_as (rpath p) (fst <$> libs) ds ->
    loads_as image (Loaded vm p segs ds)
with depends_as : option Rpath -> list bytes -> load_forest -> Prop :=
| depends_none rp : depends_as rp [] NoMore
| depends_cached rp name names ds :
    is_library_cached cache name = true -> depends_as rp names ds ->
    depends_as rp (name :: names) (FromCache name ds)
| depends_disk rp name names path image t ds :
    on_disk rp name path ->
    disk path = Some (raw image) -> endian image = Little -> loads_as image t ->
    depends_as rp names ds ->
    depends_as rp (name :: names) (FromDisk name path t ds).
End Tree.

(** ** What the rest of the system keeps

    No trap but the two that free memory unmaps any; calls keep the stack; a
    string is placed in memory without a trap; and the files stay as they are
    while the program is loaded. *)
Section Emits.
Context {sc : Scroll} {bp : BuildProfile} {M : Machine}.
Context (history : kstate -> list event) (file : kstate -> bytes -> option bytes).

Definition stack_size : Z := repr_c_size File.

Record program_laws : Prop := {
  pl_trap k m num args k' m' r : svc k m num args = (k', m', r) -> forall path, file k' path = file k path;
  pl_trap_memory k m num args k' m' r sp n :
    num <> TRAP_KERNELRPC_MACH_VM_DEALLOCATE -> num <> SYS_MUNMAP ->
    svc k m num args = (k', m', r) -> mapped m sp n -> mapped m' sp n;
  pl_call k m a regs k' m' : call_code k m a regs = (k', m') -> forall path, file k' path = file k path;
  pl_call_stack k m a regs k' m' sp :
    call_code k m a regs = (k', m') -> mapped m sp stack_size -> mapped m' sp stack_size;
  pl_tlv k m mh k' m' :
    tlv_initialize_descriptors_export k m mh = (k', m') -> forall path, file k' path = file k path;
  pl_tlv_stack k m mh k' m' sp :
    tlv_initialize_descriptors_export k m mh = (k', m') -> mapped m sp stack_size -> mapped m' sp stack_size;
  pl_string k m s k' m' p :
    zlen s < 2 ^ 63 -> alloc_string k m s = (k', m', p) ->
    load_bytes m' p (length s) = Some s /\ history k' = history k /\ (forall path, file k' path = file k path) /\
    forall sp n, mapped m sp n -> mapped m' sp n
}.

Context (hist : history_laws history) (laws : program_laws).
Context (disk : bytes -> option bytes) (sp : Z).

(** The stack is in place and the disk holds the program's files. *)
Record ready (w : world) : Prop := {
  rd_sp : w_sp w = sp;
  rd_stack : mapped (w_mem w) sp stack_size;
  rd_disk : forall path, file (w_kernel w) path = disk path
}.

(** A run of [m] that succeeds adds steps to the history that [R] relates to its
    result. *)
Definition emits {E A} (m : io E A) (R : A -> list step -> Prop) : Prop := forall w w' a,
  ready w -> m w = (w', Ok a) ->
  ready w' /\ exists es, steps history w' = steps history w ++ es /\ R a es.

(** No steps *)
Definition silent {A} (R : A -> Prop) : A -> list step -> Prop := fun a es => es = [] /\ R a.

Lemma emits_bind {E A B} (m : io E A) (f : A -> io E B) R Q :
  emits m R -> (forall a e1, R a e1 -> emits (f a) (fun b e2 => Q b (e1 ++ e2))) -> emits (io_bind m f) Q.
Proof.
  intros Hm Hf w w' b Hw (w1 & a & H1 & H2)%io_bind_Ok.
  destruct (Hm _ _ _ Hw H1) as (Hw1 & e1 & He1 & HR). destruct (Hf a e1 HR _ _ _ Hw1 H2) as (Hw' & e2 & He2 & HQ).
  split; [done|]. exists (e1 ++ e2). by rewrite He2, He1, <- app_assoc.
Qed.

Lemma emits_bind_silent {E A B} (m : io E A) (f : A -> io E B) R Q :
  emits m (silent R) -> (forall a, R a -> emits (f a) Q) -> emits (io_bind m f) Q.
Proof. intros Hm Hf. eapply emits_bind; [exact Hm|]. intros a e1 [-> Ha]. by apply Hf. Qed.

Lemma emits_weaken {E A} (m : io E A) (R Q : A -> list step -> Prop) :
  emits m R -> (forall a es, R a es -> Q a es) -> emits m Q.
Proof. intros Hm HQ w w' a Hw H. destruct (Hm _ _ _ Hw H) as (? & es & ? & ?). eauto. Qed.

Lemma emits_lift {E A} (r : outcome E A) : emits (lift r) (silent (fun a => r = Ok a)).
Proof. intros w w' a Hw [= <- H]. split; [done|]. exists []. by rewrite app_nil_r. Qed.

Lemma emits_fail {E A} (e : E) (R : A -> list step -> Prop) : emits (fail e) R.
Proof. intros w w' a _ H. discriminate H. Qed.

Lemma emits_ret {E A} (a : A) (R : A -> list step -> Prop) : R a [] -> emits (E := E) (ret a) R.
Proof. intros HR w w' b Hw [= <- <-]. split; [done|]. exists []. by rewrite app_nil_r. Qed.

Lemma emits_reading {E A} (f : memory -> outcome E A) : emits (reading f) (silent (fun a => exists m, f m = Ok a)).
Proof. intros w w' a Hw [= <- H]. split; [done|]. exists []. rewrite app_nil_r. split; [done|]. split; eauto. Qed.

Lemma emits_updating {E A} (f : memory -> outcome E (memory * A)) :
  (forall m m' a, f m = Ok (m', a) -> dom m' = dom m) -> emits (updating f) (silent (fun _ => True)).
Proof.
  intros Hf w w' a [Hsp Hst Hd] (m & Hm%Hf & ->)%updating_Ok. split.
  - split; [done| |done]. by eapply mapped_dom.
  - exists []. by rewrite app_nil_r.
Qed.

Lemma emits_with_sp {E A} (f : Z -> io E A) R : emits (f sp) R -> emits (with_sp f) R.
Proof. intros Hf w w' a Hw H. unfold with_sp in H. rewrite (rd_sp w Hw) in H. by apply Hf. Qed.

Lemma emits_trap {E} num args :
  num <> TRAP_KERNELRPC_MACH_VM_DEALLOCATE -> num <> SYS_MUNMAP ->
  emits (@syscall M E num args) (fun r es => exists v e, r = decode_ret v e /\ es = option_list (step_of (Trap num args v e))).
Proof.
  intros Hn1 Hn2 w w' a [Hsp Hst Hd] H. unfold syscall in H.
  destruct (svc (w_kernel w) (w_mem w) num args) as [[k m] [v e]] eqn:Es. injection H as <- <-. split.
  - split; [done|by eapply (pl_trap_memory laws)|]. intros path. rewrite <- Hd. by eapply (pl_trap laws).
  - exists (option_list (step_of (Trap num args v e))). split; [|eauto]. unfold steps. cbn [w_kernel set_kernel].
    rewrite (trap_law _ hist _ _ _ _ _ _ _ _ Es), omap_app. cbn [omap list_omap]. by destruct (step_of _).
Qed.

Lemma emits_call {E} a argc argv envp apple :
  emits (E := E) (entry_and_ret a argc argv envp apple) (fun _ es => es = [Run a [argc; argv; envp; apple]]).
Proof.
  intros w w' [] [Hsp Hst Hd] H. unfold entry_and_ret in H.
  destruct (call_code (w_kernel w) (w_mem w) a _) as [k m] eqn:Ec. injection H as <-. split.
  - split; [done|by eapply (pl_call_stack laws)|]. intros path. rewrite <- Hd. by eapply (pl_call laws).
  - eexists. split; [|reflexivity]. unfold steps. cbn [w_kernel set_kernel].
    by rewrite (call_law _ hist _ _ _ _ _ _ Ec), omap_app.
Qed.

Lemma emits_tlv {E} mh : emits (E := E) (tlv_initialize mh) (fun _ es => es = [Initialise mh]).
Proof.
  intros w w' [] [Hsp Hst Hd] H. unfold tlv_initialize in H.
  destruct (tlv_initialize_descriptors_export (w_kernel w) (w_mem w) mh) as [k m] eqn:Et. injection H as <-. split.
  - split; [done|by eapply (pl_tlv_stack laws)|]. intros path. rewrite <- Hd. by eapply (pl_tlv laws).
  - eexists. split; [|reflexivity]. unfold steps. cbn [w_kernel set_kernel].
    by rewrite (tlv_law _ hist _ _ _ _ _ Et), omap_app.
Qed.

(** *** The loader's operations *)

Lemma emits_trap_silent {E} num args :
  num <> TRAP_KERNELRPC_MACH_VM_DEALLOCATE -> num <> SYS_MUNMAP -> num <> TRAP_KERNELRPC_MACH_VM_PROTECT ->
  emits (@syscall M E num args) (silent (fun _ => True)).
Proof.
  intros H1 H2 H3. eapply emits_weaken; [by apply emits_trap|]. intros a es (v & e & _ & ->). split; [|done].
  cbn [step_of]. destruct args as [|? [|? [|? [|? [|? [|? ?]]]]]]; try done. by rewrite (proj2 (Z.eqb_neq _ _)).
Qed.

Lemma emits_task_self {E} : emits (E := E) task_self_internal (silent (fun _ => True)).
Proof.
  unfold task_self_internal, syscall0. eapply emits_bind_silent; [by apply emits_trap_silent|]. intros r _.
  by apply emits_ret.
Qed.

Lemma emits_local_set {E} v : emits (E := E) (local_u64_set v) (silent (fun _ => True)).
Proof.
  apply emits_with_sp, emits_updating. intros m m' a (m1 & Hm & [= <- <-])%bind_Ok. by eapply store_u64_dom.
Qed.

Lemma emits_vm_alloc {E} n : emits (E := E) (vm_alloc_task_self n) (silent (fun _ => True)).
Proof.
  unfold vm_alloc_task_self. eapply emits_bind_silent; [apply emits_local_set|]. intros _ _.
  eapply emits_bind_silent; [apply emits_task_self|]. intros task _. eapply emits_bind_silent.
  { apply emits_with_sp. unfold vm_allocate_internal, syscall4.
    eapply emits_bind_silent; [by apply emits_trap_silent|]. intros r _. by apply (emits_ret _ (silent (fun _ => True))). }
  intros k _. destruct (negb _); [by apply emits_ret|]. eapply emits_bind_silent.
  { apply emits_with_sp, emits_reading. }
  intros addr _. by apply emits_ret.
Qed.

Lemma emits_vm_protect {E} a n b p :
  emits (E := E) (vm_protect a n b p) (fun r es =>
    es = [Protect (Mk_request a n b (as_u 32 p)) (match r with inl _ => true | inr _ => false end)]).
Proof.
  unfold vm_protect. eapply emits_bind_silent; [apply emits_task_self|]. intros task _.
  eapply (emits_bind _ _ (fun k es => es = [Protect (Mk_request a n b (as_u 32 p)) (k =? KERN_SUCCESS)])).
  - unfold vm_protect_internal, syscall5. eapply emits_bind; [by apply emits_trap|].
    intros r e1 (v & e & -> & ->). by apply emits_ret.
  - intros k e1 ->. apply emits_ret. by destruct (k =? KERN_SUCCESS).
Qed.

Lemma emits_segments_protect vm calls :
  emits (segments_protect vm calls) (fun _ es => es = granted <$> ((fun c => segment_request vm (fst c) (snd c)) <$> calls)).
Proof.
  induction calls as [|[seg b] calls IH]; cbn [segments_protect]; [by apply emits_ret|].
  eapply emits_bind; [apply emits_vm_protect|]. intros [u|e] e1 ->; [|apply emits_fail].
  eapply emits_weaken; [exact IH|]. intros _ es ->. done.
Qed.

Lemma protect_calls vm segs :
  ((fun c => segment_request vm (fst c) (snd c)) <$> flat_map (fun seg => [(seg, true); (seg, false)]) segs) =
    requests vm segs.
Proof. induction segs as [|seg segs IH]; [done|]. cbn. unfold requests in IH. by rewrite IH. Qed.

Lemma emits_init_functions {E} vm fs :
  emits (E := E) (macho_init_functions_exec vm fs) (fun _ es => es = initialiser vm sp <$> fs).
Proof.
  induction fs as [|f fs IH]; cbn [macho_init_functions_exec]; [by apply emits_ret|].
  eapply emits_bind_silent; [apply emits_local_set|]. intros _ _.
  eapply emits_bind; [apply emits_with_sp, emits_call|]. intros _ e1 ->.
  eapply emits_weaken; [exact IH|]. by intros _ es ->.
Qed.

Lemma emits_image_finalize vm p exe :
  emits (image_finalize vm p exe) (fun _ es => exists segs, deref (segments p) = @Ok string _ segs /\
    es = thread_local_steps vm p exe ++ (granted <$> requests vm segs) ++ (initialiser vm sp <$> init_functions p)).
Proof.
  unfold image_finalize. eapply (emits_bind _ _ (fun _ es => es = thread_local_steps vm p exe)).
  { unfold thread_local_steps. destruct (exe && has_thread_locals p); [|by apply emits_ret]. apply emits_tlv. }
  intros _ e0 ->. eapply emits_bind_silent; [apply emits_lift|]. intros segs Hs.
  eapply emits_bind; [apply emits_segments_protect|]. intros _ e1 ->. rewrite protect_calls.
  eapply emits_weaken; [apply emits_init_functions|]. intros _ es ->. exists segs. by split.
Qed.

Lemma emits_segments_copy skip image vm segs : emits (segments_copy skip image vm segs) (silent (fun _ => True)).
Proof.
  induction segs as [|seg segs IH]; cbn [segments_copy]; [by apply emits_ret|].
  destruct (skip && _); [exact IH|]. eapply emits_bind_silent; [|intros _ _; exact IH].
  apply emits_updating. intros m m' a H. destruct (load_bytes _ _ _) as [bs|]; [|done].
  destruct (store_bytes _ _ _) eqn:Es; [|done]. injection H as <- _. by eapply store_bytes_dom.
Qed.

Lemma emits_map_to_vm skip image segs : emits (macho_segments_map_to_vm skip image segs) (silent (fun _ => True)).
Proof.
  unfold macho_segments_map_to_vm. eapply emits_bind_silent; [apply emits_lift|]. intros [lo hi] _.
  eapply emits_bind_silent; [apply emits_lift|]. intros size _.
  eapply emits_bind_silent; [apply emits_vm_alloc|]. intros [vm|e] _; [|apply emits_fail].
  eapply emits_bind_silent; [apply emits_segments_copy|]. intros _ _. by apply emits_ret.
Qed.

(** A fixup stores in mapped memory or not at all. *)
Lemma emits_fixups_apply vm p libs cache exe : emits (image_fixups_apply vm p libs cache exe) (silent (fun _ => True)).
Proof.
  unfold image_fixups_apply. induction (fixups p) as [|f l IH]; cbn [fixup_all_in_memory]; [by apply emits_ret|].
  eapply emits_bind_silent; [|intros _ _; exact IH]. apply emits_updating.
  intros m m' a (m1 & H & [= <- <-])%bind_Ok. rewrite fixup_apply_pointer in H.
  apply bind_Ok in H as ([v|] & _ & H); cbn in H; [by rewrite (store_u64_dom _ _ _ _ H)|by injection H as <-].
Qed.
(** *** Images on disk *)

Context (opened : kstate -> Z -> option bytes) (page : Z) (files : files_laws page file opened).

Lemma emits_disk_path_mmap path : emits (disk_path_mmap path) (silent (fun _ => True)).
Proof.
  unfold disk_path_mmap, open, syscall3, fstat, syscall2.
  eapply emits_bind_silent; [by apply emits_trap_silent|]. intros [fd|e] _; [|apply emits_fail].
  eapply emits_bind_silent.
  { apply emits_with_sp, emits_updating. intros m m' a H. destruct (store_bytes _ _ _) eqn:Es; [|done].
    injection H as <- _. by eapply store_bytes_dom. }
  intros _ _. eapply emits_bind_silent; [by apply emits_with_sp, emits_trap_silent|].
  intros [u|e] _; [|apply emits_fail].
  eapply emits_bind_silent; [apply emits_with_sp, emits_reading|]. intros size _. eapply (emits_bind_silent _ _ (fun _ => True)).
  { unfold mmap_file. destruct (size =? 0); [by apply emits_ret|]. destruct (_ && _); [by apply emits_ret|].
    unfold mmap_internal, syscall6. eapply (emits_bind_silent _ _ (fun _ => True)); [|intros r _; by apply emits_ret].
    eapply emits_bind_silent; [by apply emits_trap_silent|]. intros r _. by apply emits_ret. }
  intros [v|e] _; [|apply emits_fail].
  eapply emits_bind_silent; [apply emits_reading|]. intros bytes _. by apply emits_ret.
Qed.

(** An image read from disk is the file at its path. *)
Definition image_of (path : bytes) (image : Container) : Prop :=
  disk path = Some (raw image) /\ endian image = Little.

Lemma emits_disk_image path :
  ~ x00 ∈ path -> zlen path < 2 ^ 62 ->
  emits (let! s := string_slice (path ++ [x00]) in disk_path_mmap s) (silent (image_of path)).
Proof.
  intros Hnul Hlen w w' c Hw H. unfold io_bind, string_slice in H.
  destruct (alloc_string (w_kernel w) (w_mem w) (path ++ [x00])) as [[k m] p] eqn:Ea.
  assert (zlen (path ++ [x00]) < 2 ^ 63) as Hs by len.
  destruct (pl_string laws _ _ _ _ _ _ Hs Ea) as (Hl & Hh & Hf & Hm). set (w1 := set_kernel w k m) in *.
  assert (ready w1) as Hw1.
  { destruct Hw as [Hsp Hst Hd]. split; [done|by apply Hm|]. intros q. rewrite <- Hd. apply Hf. }
  destruct (emits_disk_path_mmap _ _ _ _ Hw1 H) as (Hw' & es & Hes & -> & _).
  split; [done|]. exists []. split; [rewrite Hes; unfold steps; cbn; by rewrite Hh|]. split; [done|].
  rewrite length_app, Nat.add_1_r in Hl.
  destruct (disk_path_mmap_run page file opened files p path w1 Hl Hnul) as (w2 & r & Hr & _ & Hc).
  { destruct Hw1 as [Hsp Hst _]. by rewrite Hsp. }
  rewrite H in Hr. injection Hr as <- <-. destruct Hc as (bs & Hfile & _ & Hsz & Hraw & He & _).
  rewrite (rd_disk w1 Hw1) in Hfile. split; [by rewrite Hraw|done].
Qed.
End Emits.

(** ** The loader walks the tree *)

Section Paths.
Context `{SL : ScrollLaws} {bp : BuildProfile}.

(** Text without a NUL, shorter than a limit; a file is shorter than 2^61 bytes. *)
Definition name_within (limit : Z) (n : bytes) : Prop := ~ x00 ∈ n /\ zlen n < limit.
Context (limit : Z).

Lemma library_name_ok image off n :
  zlen (raw image) < limit -> library_name image off = Ok n -> name_within limit (fst n).
Proof.
  intros Hs. unfold library_name. intros (lc & _ & (o & _ & (name & Hn & [= <-])%bind_Ok)%bind_Ok)%bind_Ok. cbn [fst].
  apply deserialize_string_read in Hn as (_ & rest & Hd & Hf). split.
  - rewrite Forall_forall in Hf. intros Hx. by apply (Hf x00).
  - apply (f_equal length) in Hd. rewrite length_drop, !length_app in Hd. len.
Qed.

Lemma library_names_ok image p libs :
  limit <= 2 ^ 61 -> zlen (raw image) < limit -> macho_parser image = Ok p -> deref (pi_libraries p) = @Ok string _ libs ->
  Forall (name_within limit) (fst <$> libs).
Proof.
  intros Hlim Hs Hp Hl. pose proof Hp as Hp'. unfold macho_parser in Hp'. apply bind_Ok in Hp' as (h & Hh%map_err_Ok & _).
  destruct (macho_parser_libraries image h p ltac:(unfold rust_slice; lia) Hh Hp) as (cmds & libs' & _ & Hl' & _ & Hf).
  rewrite Hl in Hl'. injection Hl' as <-. apply Forall_fmap. eapply Forall2_Forall_r; [exact Hf|].
  apply Forall_true. intros c n Hn. cbn. by eapply library_name_ok.
Qed.

Lemma resolve_ok name rp exec_dir s :
  name_within limit name -> name_within limit exec_dir ->
  user_dylib_disk_path_resolve name rp exec_dir = @Ok string _ s ->
  exists path, s = path ++ [x00] /\ ~ x00 ∈ path /\ zlen path < 2 * limit.
Proof.
  intros [Hn Hnl] [Hd Hdl] H. unfold user_dylib_disk_path_resolve in H. apply bind_Ok in H as (path & H & [= <-]).
  exists path. split; [done|].
  set (long l := fun rest => ~ x00 ∈ rest /\ zlen rest < l).
  assert (forall prefix rest, strip_prefix name prefix = Some rest -> long limit rest) as Hstrip.
  { intros prefix rest. unfold strip_prefix. destruct (starts_with name prefix); [|done]. intros [= <-]. split; [|len].
    intros Hx. by apply Hn, (subseteq_drop (length prefix)). }
  assert (forall rest, long limit rest -> long (2 * limit) (exec_dir ++ bstr "/" ++ rest)) as Hin.
  { intros rest [Hr Hl]. change (bstr "/") with [x2f]. split; [|len].
    intros [Hx|[Hx|Hx]%elem_of_app]%elem_of_app; try done. by apply list_elem_of_singleton in Hx. }
  assert (forall rest, long limit rest -> long (2 * limit) rest) as Hw by (intros rest [? ?]; split; [done|len]).
  repeat case_match; simplify_eq;
    first [by apply Hw|apply Hin; eapply Hstrip; eassumption|apply Hw; eapply Hstrip; eassumption].
Qed.
(** The dependencies are the names of the libraries, with what the cache has. *)
Lemma libraries_of_dependencies cache p dv deps :
  dependencies_collect p cache = Ok dv -> deref dv = @Ok string _ deps ->
  exists libs, deref (pi_libraries p) = @Ok string _ libs /\
    deps = (fun n => (n, is_library_cached cache n)) <$> (fst <$> libs).
Proof.
  intros Hdv Hdeps. pose proof Hdv as H. unfold dependencies_collect in H. apply bind_Ok in H as (libs & Hl & _).
  exists libs. split; [exact Hl|]. pose proof (dependencies_collect_spec p cache libs Hl) as H.
  destruct (_ <=? _); [|congruence]. destruct H as (dv' & Hdv' & Hd). rewrite Hdv in Hdv'. injection Hdv' as <-.
  rewrite Hd in Hdeps. injection Hdeps as <-. by rewrite <- list_fmap_compose.
Qed.

End Paths.

Abbreviation name_ok := (name_within (2 ^ 61)).

Section Walk.
Context `{SL : ScrollLaws} {bp : BuildProfile} {M : Machine}.
Context (history : kstate -> list event) (hist : history_laws history).
Context (file : kstate -> bytes -> option bytes) (laws : program_laws history file).
Context (opened : kstate -> Z -> option bytes) (page : Z) (files : files_laws page file opened).
Context (disk : bytes -> option bytes) (sp : Z) (cache : DyldSharedCache) (exec_dir : bytes).
Hypothesis dir_ok : name_ok exec_dir.
Hypothesis disk_small : forall path bs, disk path = Some bs -> zlen bs < 2 ^ 61.

Lemma emits_load_loop load rp names loaded :
  (forall image path dd, image_of disk path image ->
     emits history file disk sp (load image dd) (fun _ es => exists t, loads_as disk cache exec_dir image t /\ es = steps_of sp false t)) ->
  Forall name_ok names ->
  emits history file disk sp
    (user_dylibs_load_loop load ((fun n => (n, is_library_cached cache n)) <$> names) exec_dir rp loaded)
    (fun _ es => exists ds, depends_as disk cache exec_dir rp names ds /\ es = forest_steps sp ds).
Proof.
  intros Hload Hn. revert loaded; induction Hn as [|name names Hname _ IH]; intros loaded;
    cbn [fmap list_fmap user_dylibs_load_loop].
  { apply emits_ret. exists NoMore. split; [constructor|done]. }
  destruct (is_library_cached cache name) eqn:Ec.
  { eapply emits_weaken; [apply IH|]. intros _ es (ds & Hds & ->). exists (FromCache name ds). split; [by constructor|done]. }
  eapply emits_bind_silent; [apply emits_lift|]. intros s Hs.
  destruct (resolve_ok _ _ _ _ _ Hname dir_ok Hs) as (path & -> & Hnul & Hlen).
  intros w w' libs Hw H. apply io_bind_Ok in H as (w1 & sl & H1 & H). apply io_bind_Ok in H as (w2 & image & H2 & H).
  assert ((let! s := string_slice (path ++ [x00]) in disk_path_mmap s) w = (w2, Ok image)) as H12.
  { apply io_bind_Ok. eauto. }
  destruct (emits_disk_image history file hist laws disk sp opened page files path Hnul Hlen _ _ _ Hw H12) as (Hw2 & e1 & He1 & -> & Hi).
  enough (emits history file disk sp (let! (vm, vm_size) := load image (path ++ [x00]) in
      let! bytes := reading (fun m => from_raw_parts m vm vm_size) in
      user_dylibs_load_loop load ((fun n => (n, is_library_cached cache n)) <$> names) exec_dir rp
        (loaded ++ [User (with_bytes bytes Little)]))
    (fun _ es => exists ds, depends_as disk cache exec_dir rp (name :: names) ds /\ es = forest_steps sp ds)) as Hrest.
  { destruct (Hrest _ _ _ Hw2 H) as (Hw' & es & Hes & HR). split; [done|]. exists es. by rewrite Hes, He1, app_nil_r. }
  eapply emits_bind; [by eapply Hload|]. intros [vm size] e (t & Ht & ->).
  eapply emits_bind_silent; [apply emits_reading|]. intros bytes _.
  eapply emits_weaken; [apply IH|]. intros _ es (ds & Hds & ->). exists (FromDisk name path t ds). split; [|done].
  destruct Hi as [? ?]. eapply depends_disk; try done.
Qed.

Lemma emits_macho_loader fuel image dd :
  zlen (raw image) < 2 ^ 61 ->
  emits history file disk sp (macho_loader fuel cache image exec_dir dd) (fun r es =>
    exists t, loads_as disk cache exec_dir image t /\ es = steps_of sp (is_none dd) t /\ fst r = root_vm t).
Proof.
  revert image dd; induction fuel as [|fuel IH]; intros image dd Hs; cbn [macho_loader].
  { intros w w' r _ H. discriminate H. }
  eapply emits_bind_silent; [apply emits_lift|]. intros p Hp.
  eapply emits_bind_silent; [apply emits_lift|]. intros dv Hdv.
  eapply emits_bind_silent; [apply emits_lift|]. intros deps Hdeps.
  destruct (libraries_of_dependencies cache p dv deps Hdv Hdeps) as (libs & Hlibs & ->).
  eapply emits_bind.
  { apply emits_load_loop; [|exact (library_names_ok _ image p libs (Z.le_refl _) Hs Hp Hlibs)]. intros image' path dd' [Hs'%disk_small _].
    eapply emits_weaken; [by apply IH|]. intros r es (t & ? & ? & _). eauto. }
  intros dylibs e1 (ds & Hds & ->). eapply emits_bind_silent; [apply emits_lift|]. intros segs Hsegs.
  eapply emits_bind_silent; [by eapply emits_map_to_vm|]. intros [vm size] _.
  eapply emits_bind_silent; [by apply emits_fixups_apply|]. intros _ _.
  change (match dd with None => true | Some _ => false end) with (is_none dd).
  eapply emits_bind; [by apply emits_image_finalize|]. intros _ e2 (segs' & Hsegs' & ->).
  rewrite Hsegs in Hsegs'. injection Hsegs' as <-.
  assert (loads_as disk cache exec_dir image (Loaded vm p segs ds)) as Ht by by econstructor.
  destruct dd; apply emits_ret; exists (Loaded vm p segs ds); cbn [steps_of]; by rewrite app_nil_r.
Qed.

(** C4 Loading a program walks the tree of its images. If [macho_loader] succeeds,
    the files on disk make up a finite tree below the image, each dylib once for
    every image that names it, and what the loader has asked for is that tree in
    post-order: every image is given its protections and has its initialisers run
    after all the images it depends on, in the order it names them, and before
    whatever depends on it; nothing else is asked for, and the address returned is
    that of the image itself. *)
Theorem program_load_order fuel image dd w w' r :
  w_sp w = sp -> mapped (w_mem w) sp stack_size -> (forall path, file (w_kernel w) path = disk path) ->
  zlen (raw image) < 2 ^ 61 ->
  macho_loader fuel cache image exec_dir dd w = (w', Ok r) ->
  exists t, loads_as disk cache exec_dir image t /\ fst r = root_vm t /\
    steps history w' = steps history w ++ steps_of sp (is_none dd) t.
Proof.
  intros Hsp Hst Hd Hs H.
  destruct (emits_macho_loader fuel image dd Hs w w' r (Build_ready _ _ _ w Hsp Hst Hd) H) as (_ & es & Hes & t & Ht & -> & Hr).
  by exists t.
Qed.
End Walk.

(** ** Cyclic dependencies *)

Section Cycles.
Context {sc : Scroll} {bp : BuildProfile}.
Context (disk : bytes -> option bytes) (cache : DyldSharedCache) (exec_dir : bytes).

(** The image names a library that is the file at this path. *)
Definition needs (image : Container) (path : bytes) : Prop :=
  exists p libs name, macho_parser image = Ok p /\ deref (pi_libraries p) = @Ok string _ libs /\
    name ∈ fst <$> libs /\ on_disk cache exec_dir (rpath p) name path.

(** So does the image in a file, wherever it is mapped. *)
Definition file_needs (file path : bytes) : Prop :=
  exists bs, disk file = Some bs /\ forall ptr, needs (with_bytes (Mk_slice ptr bs) Little) path.

(** A path that needs one that needs another, and so on: a cycle is such a chain. *)
Definition endless (chain : nat -> bytes) : Prop := forall i, file_needs (chain i) (chain (S i)).

Lemma on_disk_unique rp name path path' :
  on_disk cache exec_dir rp name path -> on_disk cache exec_dir rp name path' -> path = path'.
Proof. intros [_ H] [_ H']. rewrite H in H'. injection H' as H'. by apply app_inv_tail in H'. Qed.

Lemma container_eta (c : Container) : endian c = Little -> c = with_bytes (Mk_slice (s_ptr (data c)) (raw c)) Little.
Proof. destruct c as [[ptr bs] e]. cbn. by intros ->. Qed.

(** A tree is finite: it is no program's whose dependencies have no end. *)
Lemma tree_has_no_endless_chain t :
  forall image chain, loads_as disk cache exec_dir image t -> needs image (chain 0%nat) -> endless chain -> False.
Proof.
  induction t as [vm p segs ds IH| |name ds IH|name path t IHt ds IHds] using load_tree_ind2 with
    (P0 := fun ds => forall rp names name chain, depends_as disk cache exec_dir rp names ds -> name ∈ names ->
       on_disk cache exec_dir rp name (chain 0%nat) -> endless chain -> False).
  - intros image chain H (p' & libs & name & Hp' & Hl & Hn & Hd) Hc. inversion H as [? ? ? libs' ? ? Hp Hl' _ Hds]; subst.
    rewrite Hp in Hp'. injection Hp' as <-. rewrite Hl' in Hl. injection Hl as <-. by eapply IH.
  - intros rp names name chain H Hn. inversion H; subst. by apply not_elem_of_nil in Hn.
  - intros rp names n chain H Hn Hd Hc. inversion H as [|? ? names' ? Hcached Hds|]; subst.
    apply elem_of_cons in Hn as [->|Hn]; [|by eapply IH]. destruct Hd as [Hd _]. congruence.
  - intros rp names n chain H Hn Hd Hc.
    inversion H as [| |? ? names' ? image ? ? Hd' Hfile Hlittle Ht Hds]; subst.
    apply elem_of_cons in Hn as [->|Hn]; [|by eapply IHds]. pose proof (on_disk_unique _ _ _ _ Hd Hd') as Heq.
    destruct (Hc 0%nat) as (bs & Hbs & Hneeds). rewrite Heq, Hfile in Hbs. injection Hbs as <-.
    apply (IHt image (fun i => chain (S i)) Ht).
    + rewrite (container_eta image Hlittle). apply Hneeds.
    + intros i. apply Hc.
Qed.
End Cycles.

(** C19 A program whose libraries depend on each other in a cycle is never loaded:
    if following the dependencies of an image on disk never comes to an end, the
    loader does not succeed, however deep it may go. *)
Theorem cyclic_program_never_loads `{SL : ScrollLaws} {bp : BuildProfile} {M : Machine} page history file opened
    disk sp cache exec_dir fuel image dd chain w r :
  history_laws history -> program_laws history file -> files_laws page file opened ->
  name_ok exec_dir -> (forall path bs, disk path = Some bs -> zlen bs < 2 ^ 61) ->
  w_sp w = sp -> mapped (w_mem w) sp stack_size -> (forall path, file (w_kernel w) path = disk path) ->
  zlen (raw image) < 2 ^ 61 ->
  needs cache exec_dir image (chain 0%nat) -> endless disk cache exec_dir chain ->
  snd (macho_loader fuel cache image exec_dir dd w) <> Ok r.
Proof.
  intros Hh Hl Hf Hdir Hsmall Hsp Hst Hd Hs Hneeds Hc Hr.
  destruct (macho_loader fuel cache image exec_dir dd w) as [w' r'] eqn:E. cbn in Hr. subst r'.
  destruct (emits_macho_loader history Hh file Hl opened page Hf disk sp cache exec_dir Hdir Hsmall fuel image dd Hs w w' r
    (Build_ready _ _ _ w Hsp Hst Hd) E) as (_ & es & _ & t & Ht & _).
  by eapply tree_has_no_endless_chain.
Qed.

(** ** A concrete machine

    The machine of [VM] with the disk of [Files], recorded *)
Lemma machine_vm_keeps k m num args k' m' r sp n :
  num <> TRAP_KERNELRPC_MACH_VM_DEALLOCATE -> @svc machine_vm k m num args = (k', m', r) ->
  mapped m sp n -> mapped m' sp n.
Proof.
  intros Hn H Hm. cbn [svc machine_vm] in H. destruct (num =? TRAP_TASK_SELF); [by injection H as <- <- <-|].
  destruct args as [|a0 [|a1 [|a2 [|a3 [|a4 [|a5 args]]]]]]; try (by injection H as <- <- <-).
  - rewrite (proj2 (Z.eqb_neq _ _) Hn) in H. by injection H as <- <- <-.
  - destruct (num =? _); [|by injection H as <- <- <-]. destruct (vm_allocate m a1 a2) as [m1 r1] eqn:Ev.
    injection H as <- <- <-. unfold vm_allocate in Ev. destruct (_ && _); [|by injection Ev as <- _].
    destruct (store_u64 _ _ _) as [m2|e|w| |] eqn:Es; injection Ev as <- _; try done. apply store_u64_dom in Es.
    eapply mapped_dom; [exact Es|]. destruct Hm as (? & ? & Hm). split_and!; try done. intros a Ha.
    apply lookup_union_is_Some. right. by apply Hm.
  - destruct (num =? _); by injection H as <- <- <-.
Qed.

Lemma with_disk_keeps M files k m num args k' m' r sp n :
  (forall k' m' r, @svc M k m num args = (k', m', r) -> mapped m sp n -> mapped m' sp n) ->
  @svc (with_disk M files) k m num args = (k', m', r) -> mapped m sp n -> mapped m' sp n.
Proof.
  intros HM H Hm. cbn [svc with_disk] in H.
  destruct args as [|a0 [|a1 [|a2 [|a3 [|a4 [|a5 [|a6 args]]]]]]]; try (by eapply HM).
  - destruct (num =? SYS_FSTAT); [|by eapply HM]. destruct (table_opened files a0); [|by injection H as <- <- <-].
    destruct (store_u64 _ _ _) as [m2|e|w| |] eqn:Es; injection H as <- <- <-; try done.
    eapply mapped_dom; [by eapply store_u64_dom|done].
  - destruct (num =? SYS_OPEN); [|by eapply HM]. destruct (list_find _ files) as [[i e]|]; by injection H as <- <- <-.
  - destruct (num =? SYS_MMAP); [|by eapply HM]. destruct (table_opened files a4); [|by injection H as <- <- <-].
    destruct (_ <=? _); injection H as <- <- <-; [|done]. by apply mapped_union_l.
Qed.

Lemma recording_files_laws M page file opened :
  @files_laws M page file opened -> @files_laws (recording M) page (fun k => file (fst k)) (fun k => opened (fst k)).
Proof.
  intros [H1 H2 H3]. split.
  - intros [k h] m p path k' m' v err Hl Hn (k1 & H & ->)%recording_svc. by apply (H1 k m p path k1 m' v err).
  - intros [k h] m fd bs out k' m' v err Ho Hm (k1 & H & ->)%recording_svc. by apply (H2 k m fd bs out k1 m' v err).
  - intros [k h] m fd bs prot flags k' m' v err Ho Hne (k1 & H & ->)%recording_svc.
    by apply (H3 k m fd bs prot flags k1 m' v err).
Qed.

Definition machine_program (files : list (bytes * bytes)) : Machine := recording (with_disk machine_vm files).

Section Machine.
Context (files : list (bytes * bytes)) (ok : disk_ok files).
#[local] Existing Instance machine_program.

Lemma machine_program_history : @history_laws (machine_program files) snd.
Proof.
  apply recording_history_laws.
  - intros k m a regs k' m' sp Hm [= _ <-]. exact Hm.
  - intros k m mh k' m' sp Hm [= _ <-]. exact Hm.
Qed.

Lemma machine_program_files :
  @files_laws (machine_program files) 4096 (fun _ => table_file files) (fun _ => table_opened files).
Proof.
  exact (recording_files_laws (with_disk machine_vm files) 4096 (fun _ => table_file files) (fun _ => table_opened files)
    (with_disk_files_laws machine_vm files ok)).
Qed.

Lemma machine_program_laws : @program_laws (machine_program files) snd (fun _ => table_file files).
Proof.
  split; try done.
  - intros [k h] m num args k' m' [v e] sp n Hn _ (k1 & H & ->)%recording_svc. eapply with_disk_keeps; [|exact H].
    intros k2 m2 r2. by apply machine_vm_keeps.
  - intros [k h] m a regs k' m' sp [= _ <-]. done.
  - intros [k h] m mh k' m' sp [= _ <-]. done.
  - intros [k h] m s k' m' p Hs. cbn. intros [= <- <- <-]. split; [|split; [done|split; [done|]]].
    + apply load_bytes_stored; [lia|lia|]. intros i b Hi. pose proof (lookup_lt_Some _ _ _ Hi).
      apply lookup_union_Some_l. rewrite mem_of_lookup, bool_decide_true by len. rewrite <- Hi. f_equal. lia.
    + intros sp n (? & ? & Hm). split_and!; try done. intros a Ha. apply lookup_union_is_Some. right. by apply Hm.
Qed.
End Machine.

(** ** Examples *)

#[local] Existing Instance scroll_ref.
#[local] Existing Instance dev_profile.

Definition text_segment_bytes (size sections : Z) : bytes :=
  u32le 0x19 ++ u32le (72 + 80 * sections) ++ pad_to 16 (bstr "__TEXT") ++ u64le 0 ++ u64le size ++ u64le 0 ++ u64le size ++
    u32le 5 ++ u32le 5 ++ u32le sections ++ u32le 0.

(** A dylib that loads [/d], and one with an initialiser at 0x40 *)
Definition client_bytes : bytes :=
  example_header 6 2 ++ text_segment_bytes 131 0 ++ MachOImage.dylib_command_bytes 0xc (bstr "/d").
Definition library_bytes : bytes :=
  example_header 6 1 ++ text_segment_bytes 188 1 ++
    pad_to 16 (bstr "__init_offsets") ++ pad_to 16 (bstr "__TEXT") ++ u64le 0 ++ u64le 4 ++ u32le 184 ++ u32le 0 ++
    u32le 0 ++ u32le 0 ++ u32le 0x16 ++ u32le 0 ++ u32le 0 ++ u32le 0 ++
  u32le 0x40.

Definition client : Container := with_bytes (Mk_slice 0x10000 client_bytes) Little.
Definition program_files : list (bytes * bytes) := [(bstr "/d", library_bytes)].
Definition program_memory : memory := mem_of 0x10000 (padded 4096 client_bytes) ∪ mem_of 0x8000 (zeros 144).
Definition program_world (files : list (bytes * bytes)) : @world (machine_program files) :=
  @Mk_world (machine_program files) (tt, []) program_memory 0x8000 true.

Lemma program_files_ok : disk_ok program_files.
Proof. split; [done|]. constructor; [|constructor]. split; [apply no_nul_dec; vm_compute; reflexivity|done]. Qed.

Definition program_run : @world (machine_program program_files) * result (Z * Z) :=
  @macho_loader scroll_ref dev_profile (machine_program program_files) 2 cache_new client (bstr "/bin") (Some (bstr "r"))
    (program_world program_files).

Definition program_steps : list step :=
  (granted <$> [Mk_request 0x50101000 188 1 5; Mk_request 0x50101000 188 0 5]) ++
  [Run 0x150101040 [0; 0x8000; 0x8000; 0x8000]] ++
  (granted <$> [Mk_request 0x50102000 131 1 5; Mk_request 0x50102000 131 0 5]).

Lemma program_runs :
  snd program_run = Ok (0x50102000, 131) /\ @steps (machine_program program_files) snd (fst program_run) = program_steps.
Proof. vm_compute. split; reflexivity. Qed.

Lemma program_stack : mapped program_memory 0x8000 stack_size.
Proof.
  destruct (mem_of_mapped 0x8000 (zeros 144)) as (H0 & H1 & Hm); [lia|vm_compute; discriminate|].
  split; [exact H0|]. split; [exact H1|]. intros x Hx. apply lookup_union_is_Some. right. by apply Hm.
Qed.

Lemma program_files_small path bs : table_file program_files path = Some bs -> zlen bs < 2 ^ 61.
Proof.
  unfold table_file, program_files. cbn [list_find]. destruct (decide _); [|done].
  intros [= <-]. vm_compute. reflexivity.
Qed.

Lemma bin_ok : name_ok (bstr "/bin").
Proof. split; [apply no_nul_dec; vm_compute; reflexivity|reflexivity]. Qed.

(** The client and its library are loaded, the library first. *)
Lemma program_load_order_witness :
  @history_laws (machine_program program_files) snd /\
  @program_laws (machine_program program_files) snd (fun _ => table_file program_files) /\
  @files_laws (machine_program program_files) 4096 (fun _ => table_file program_files) (fun _ => table_opened program_files) /\
  exists w' t, program_run = (w', Ok (0x50102000, 131)) /\
    loads_as (table_file program_files) cache_new (bstr "/bin") client t /\ root_vm t = 0x50102000 /\
    steps_of 0x8000 false t = program_steps.
Proof.
  pose proof (machine_program_history program_files) as Hh.
  pose proof (machine_program_laws program_files) as Hl.
  pose proof (machine_program_files program_files program_files_ok) as Hf.
  split; [exact Hh|]. split; [exact Hl|]. split; [exact Hf|].
  destruct program_runs as [Hr Hs]. destruct program_run as [w' r] eqn:E. cbn [fst snd] in Hr, Hs. subst r.
  destruct (@program_load_order scroll_ref _ dev_profile (machine_program program_files) snd Hh _ Hl _ 4096 Hf
    (table_file program_files) 0x8000 cache_new (bstr "/bin") bin_ok program_files_small 2 client (Some (bstr "r"))
    (program_world program_files) w' (0x50102000, 131) eq_refl program_stack (fun _ => eq_refl) eq_refl E)
    as (t & Ht & Hvm & Hst).
  exists w', t. split; [reflexivity|]. split; [exact Ht|]. split; [by rewrite <- Hvm|].
  rewrite Hs in Hst. symmetry. exact Hst.
Defined.

(** A dylib that loads itself *)
Definition cyclic_files : list (bytes * bytes) := [(bstr "/d", client_bytes)].

Lemma cyclic_files_ok : disk_ok cyclic_files.
Proof. split; [done|]. constructor; [|constructor]. split; [apply no_nul_dec; vm_compute; reflexivity|done]. Qed.

Lemma cyclic_files_small path bs : table_file cyclic_files path = Some bs -> zlen bs < 2 ^ 61.
Proof.
  unfold table_file, cyclic_files. cbn [list_find]. destruct (decide _); [|done].
  intros [= <-]. vm_compute. reflexivity.
Qed.

Lemma client_needs ptr : needs cache_new (bstr "/bin") (with_bytes (Mk_slice ptr client_bytes) Little) (bstr "/d").
Proof.
  eexists _, _, (bstr "/d"). split; [vm_compute; reflexivity|]. split; [vm_compute; reflexivity|].
  split; [by left|]. split; vm_compute; reflexivity.
Qed.

Lemma cyclic_program_never_loads_witness :
  @program_laws (machine_program cyclic_files) snd (fun _ => table_file cyclic_files) /\
  endless (table_file cyclic_files) cache_new (bstr "/bin") (fun _ => bstr "/d") /\
  forall fuel r, snd (@macho_loader scroll_ref dev_profile (machine_program cyclic_files) fuel cache_new client
    (bstr "/bin") (Some (bstr "r")) (program_world cyclic_files)) <> Ok r.
Proof.
  pose proof (machine_program_laws cyclic_files) as Hl.
  assert (endless (table_file cyclic_files) cache_new (bstr "/bin") (fun _ => bstr "/d")) as Hc.
  { intros i. exists client_bytes. split; [vm_compute; reflexivity|]. apply client_needs. }
  split; [exact Hl|]. split; [exact Hc|]. intros fuel r.
  exact (@cyclic_program_never_loads scroll_ref _ dev_profile (machine_program cyclic_files) 4096 snd _ _
    (table_file cyclic_files) 0x8000 cache_new (bstr "/bin") fuel client (Some (bstr "r")) (fun _ => bstr "/d")
    (program_world cyclic_files) r (machine_program_history cyclic_files) Hl
    (machine_program_files cyclic_files cyclic_files_ok) bin_ok cyclic_files_small eq_refl program_stack
    (fun _ => eq_refl) eq_refl (client_needs 0x10000) Hc).
Defined.
