(* ===== verification/Linking.v ===== *)
(** What linking an image makes of memory: the mapping of its segments, the
    fixups and the kernel's fresh memory together.

    [linked] says what the memory holds once an image is mapped and fixed up: in
    a slot that a fixup names, the pointer the fixup stands for; elsewhere in a
    segment, the bytes of the file as it is mapped; everywhere else, what was there
    before.
    [macho_loader] brings it about, and then finishes the image. *)
From S2P Require Import Prelude Scroll Bindings Container ArrayVec Memory Kernel VM Printing Files Image.
From S2P Require Import SharedCache Fixups Loader.

(** ** The extent of an image *)

(** The first address after the segments *)
Definition extent (segs : list Segment) : Z := foldr (fun s hi => Z.max (vm_addr s + vm_size s) hi) 0 segs.

Definition segment_fits (s : Segment) : Prop := 0 <= vm_addr s /\ 0 <= vm_size s /\ vm_addr s + vm_size s < 2 ^ 62.

Lemma extent_cons s segs : extent (s :: segs) = Z.max (vm_addr s + vm_size s) (extent segs).
Proof. done. Qed.

Lemma extent_bound segs : Forall segment_fits segs -> 0 <= extent segs < 2 ^ 62.
Proof. induction 1 as [|s segs (? & ? & ?) _ IH]; [done|]. rewrite extent_cons. lia. Qed.

Lemma extent_ge segs s : s ∈ segs -> vm_addr s + vm_size s <= extent segs.
Proof.
  induction segs as [|t segs IH]; intros Hs; [by apply not_elem_of_nil in Hs|]. rewrite extent_cons.
  apply elem_of_cons in Hs as [<-|Hs]; [lia|]. specialize (IH Hs). lia.
Qed.

Lemma map_extent_spec `{BuildProfile} segs :
  Forall segment_fits segs -> (exists s, s ∈ segs /\ vm_addr s = 0) -> map_extent segs = Ok (0, extent segs).
Proof.
  intros Hf Hlow. unfold map_extent.
  assert (forall lo hi, 0 <= lo -> 0 <= hi -> for_each segs (fun s a =>
      let* e := add64 (vm_addr s) (vm_size s) in Ok (Z.min (fst a) (vm_addr s), Z.max (snd a) e)) (lo, hi) =
    @Ok string _ (foldr (fun s l => Z.min (vm_addr s) l) lo segs, Z.max hi (extent segs))) as Hloop.
  { clear Hlow. induction Hf as [|s segs (? & ? & ?) _ IH]; intros lo hi Hlo Hhi; cbn [for_each foldr].
    - change (extent []) with 0. do 2 f_equal. lia.
    - unfold add_w at 1. rewrite in_range_fits by (unfold fits; lia). cbn [bind fst snd].
      rewrite extent_cons, IH by lia. do 2 f_equal; [|lia].
      clear. induction segs as [|t segs IH]; cbn; [lia|]. rewrite IH. lia. }
  rewrite Hloop by lia. pose proof (extent_bound segs Hf). do 2 f_equal; [|lia].
  destruct Hlow as (s & Hs & Hs0). clear Hloop. induction Hf as [|t segs (? & ? & ?) Hf IH]; [by apply not_elem_of_nil in Hs|].
  cbn. assert (0 <= foldr (fun s l => Z.min (vm_addr s) l) (2 ^ 64 - 1) segs) as Hge.
  { clear -Hf. induction Hf as [|u segs (? & ? & ?) _ IH]; cbn; lia. }
  apply elem_of_cons in Hs as [<-|Hs]; [lia|]. rewrite IH by (done || (pose proof (extent_bound segs Hf); lia)). lia.
Qed.

(** ** Images that can be linked *)

Section Linking.
(** [content] is what is mapped where the image is: its file, and what follows it
    in its last page. *)
Context (content : bytes) (segs : list Segment) (fixes : list Fixup) (skip_page_zero : bool) (base : Z).

(** The image is laid out as the loader relies on: its lowest segment is at 0,
    the segments that are copied lie in what is mapped (with [vm_size] bytes each)
    and do not overlap, the fixups lie inside the image and do not overlap. *)
Record loadable : Prop := {
  ld_fits : Forall segment_fits segs;
  ld_low : exists s, s ∈ segs /\ vm_addr s = 0;
  ld_extent : 0 < extent segs;
  ld_file : Forall (fun s => 0 <= file_offset s /\ file_offset s + vm_size s <= zlen content)
    (copied skip_page_zero segs);
  ld_apart : List.ForallOrdPairs (fun s s' => ranges_disjoint (vm_addr s) (vm_size s) (vm_addr s') (vm_size s'))
    (copied skip_page_zero segs);
  ld_fixups : Forall (fun f => 0 <= base + fx_offset f /\ base + fx_offset f + 8 <= extent segs) fixes;
  ld_fixups_apart : List.ForallOrdPairs (fun f g => disjoint8 (base + fx_offset f) (base + fx_offset g)) fixes
}.

(** The pointers stored, by fixup *)
Context (ps : list (option Z)).

(** The address is part of a pointer that a fixup stores. *)
Definition in_slot (vm a : Z) : Prop :=
  exists i f v, fixes !! i = Some f /\ ps !! i = Some (Some v) /\
    vm + base + fx_offset f <= a < vm + base + fx_offset f + 8.

(** The memory of an image linked at [vm], in the memory [m0] before *)
Record linked (vm sp : Z) (m0 m : memory) : Prop := {
  lk_pointers i f v :
    fixes !! i = Some f -> ps !! i = Some (Some v) -> load_u64 m (vm + base + fx_offset f) = Some (v mod 2 ^ 64);
  lk_bytes s i :
    s ∈ copied skip_page_zero segs -> 0 <= i < vm_size s -> ~ in_slot vm (vm + vm_addr s + i) ->
    m !! (vm + vm_addr s + i) = content !! Z.to_nat (file_offset s + i);
  lk_frame x : is_Some (m0 !! x) -> ~ sp <= x < sp + 8 -> m !! x = m0 !! x
}.

Lemma fixup_address_small vm f :
  loadable -> f ∈ fixes -> 0 < vm -> vm + extent segs < 2 ^ 63 -> fixup_address vm base f = vm + base + fx_offset f.
Proof.
  intros Hl Hf Hvm Htop. pose proof (ld_fixups Hl) as Hfx. rewrite Forall_forall in Hfx. specialize (Hfx f Hf).
  unfold fixup_address. rewrite ptr_add_assoc, ptr_add_small by lia. lia.
Qed.

Lemma seg_target_small vm s :
  loadable -> s ∈ segs -> 0 < vm -> vm + extent segs < 2 ^ 63 -> seg_target vm s = vm + vm_addr s.
Proof.
  intros Hl Hs Hvm Htop. pose proof (ld_fits Hl) as Hf. rewrite Forall_forall in Hf.
  destruct (Hf s Hs) as (? & ? & ?). pose proof (extent_ge segs s Hs). unfold seg_target. apply ptr_add_small. lia.
Qed.

Lemma copied_in s : s ∈ copied skip_page_zero segs -> s ∈ segs.
Proof. intros [Hs _]%list_elem_of_In%filter_In. by apply list_elem_of_In. Qed.
End Linking.

(** ** Mapping and fixing up *)

Section Load.
Context {sc : Scroll} {bp : BuildProfile} {M : Machine} (page : Z) (laws : vm_laws page).

(** The region the kernel has given for an image: mapped now, not before, and
    nothing but the stack slot has changed. *)
Definition fresh_region (m0 m : memory) (sp vm size : Z) : Prop :=
  0 < vm /\ vm + size <= 2 ^ 62 /\ mapped m vm size /\
  (forall x, vm <= x < vm + size -> m0 !! x = None) /\
  (forall x, is_Some (m0 !! x) -> ~ sp <= x < sp + 8 -> m !! x = m0 !! x).

(** The image is in memory, apart from the stack slot. *)
Definition image_ok (m : memory) (sp : Z) (image : Container) (content : bytes) : Prop :=
  buffer_ok m (Mk_slice (s_ptr (data image)) content) /\ s_ptr (data image) + zlen content < 2 ^ 64 /\
  0 < zlen content /\ ranges_disjoint (s_ptr (data image)) (zlen content) sp 8.

Context (image : Container) (content : bytes) (segs : list Segment) (fixes : list Fixup) (skip_page_zero : bool) (base : Z).
Context (Hld : loadable content segs fixes skip_page_zero base).
Context (m0 : memory) (w : world) (vm : Z).
Context (Hfresh : fresh_region m0 (w_mem w) (w_sp w) vm (extent segs)) (Himg : image_ok m0 (w_sp w) image content).

Lemma image_still_there : buffer_ok (w_mem w) (Mk_slice (s_ptr (data image)) content).
Proof.
  destruct Himg as ((Hp & Hn & Hb) & Htop & Hpos & Hsp), Hfresh as (_ & _ & _ & _ & Hf). cbn [s_ptr s_bytes] in *.
  split; [done|]. split; [done|]. cbn [s_ptr s_bytes]. intros i b Hi. pose proof (lookup_lt_Some _ _ _ Hi). rewrite Hf; [by apply Hb| |].
  - rewrite (Hb _ _ Hi). done.
  - unfold ranges_disjoint in *. len.
Qed.

Lemma image_apart : ranges_disjoint (s_ptr (data image)) (zlen content) vm (extent segs).
Proof.
  destruct Himg as ((Hp & Hn & Hb) & Htop & Hpos & Hsp), Hfresh as (_ & _ & _ & Hnone & _). cbn [s_ptr s_bytes] in *.
  apply (unmapped_apart m0); [done|apply Hld| |done].
  intros x Hx. destruct (lookup_lt_is_Some_2 content (Z.to_nat (x - s_ptr (data image)))) as [b Hi];
    [len|].
  exists b. rewrite <- (Hb _ _ Hi). f_equal. lia.
Qed.

Lemma vm_small : 0 < vm /\ vm + extent segs < 2 ^ 63.
Proof. destruct Hfresh as (? & ? & _). lia. Qed.

Lemma copied_segment s :
  s ∈ copied skip_page_zero segs ->
  segment_fits s /\ vm_addr s + vm_size s <= extent segs /\ seg_target vm s = vm + vm_addr s /\
  0 <= file_offset s /\ file_offset s + vm_size s <= zlen content /\
  seg_source image s = s_ptr (data image) + file_offset s.
Proof.
  intros Hs. pose proof (copied_in segs skip_page_zero s Hs) as Hin. destruct vm_small as [Hv Ht].
  pose proof (ld_fits _ _ _ _ _ Hld) as Hf. rewrite Forall_forall in Hf. specialize (Hf s Hin).
  pose proof (ld_file _ _ _ _ _ Hld) as Hfile. rewrite Forall_forall in Hfile. destruct (Hfile s Hs).
  split; [done|]. split; [by apply extent_ge|]. split; [by eapply seg_target_small|]. split; [done|]. split; [done|].
  destruct Himg as ((Hp & _) & Htop & _), Hf as (? & ? & ?). cbn [s_ptr] in Hp. unfold seg_source. apply ptr_add_small. lia.
Qed.

Lemma copies_ok : segments_ok (w_mem w) image vm (copied skip_page_zero segs).
Proof.
  pose proof image_still_there as (Hp & Hn & Hb). cbn [s_ptr s_bytes] in *. pose proof image_apart as Hap.
  destruct Hfresh as (Hv & Ht & Hm & _ & _). split; [|split].
  - apply Forall_forall. intros s Hs. destruct (copied_segment s Hs) as ((? & ? & _) & ? & Htg & ? & ? & Hsrc).
    split; [done|]. rewrite Htg, Hsrc. split; [|by apply (mapped_sub _ vm (extent segs)); [|lia|lia]].
    split; [lia|]. split; [lia|]. intros x Hx.
    destruct (lookup_lt_is_Some_2 content (Z.to_nat (x - s_ptr (data image)))) as [b Hi]; [len|].
    exists b. rewrite <- (Hb _ _ Hi). f_equal. lia.
  - intros s s' Hs Hs'. destruct (copied_segment s Hs) as ((? & ? & _) & ? & _ & ? & ? & ->).
    destruct (copied_segment s' Hs') as ((? & ? & _) & ? & -> & _). unfold ranges_disjoint in *. lia.
  - pose proof (ld_apart _ _ _ _ _ Hld) as Hd. pose proof copied_segment as Hc. revert Hd Hc.
    generalize (copied skip_page_zero segs) as l. intros l Hd Hc. induction Hd as [|s l Hs _ IH]; [constructor|].
    constructor; [|apply IH; intros t Ht'; apply Hc; by right].
    rewrite Forall_forall in *. intros t Hin. specialize (Hs t Hin).
    destruct (Hc s ltac:(by left)) as (_ & _ & -> & _), (Hc t ltac:(by right)) as (_ & _ & -> & _).
    unfold ranges_disjoint in *. lia.
Qed.

Lemma fixes_ok m : dom m = dom (w_mem w) -> fixups_ok vm base m fixes.
Proof.
  intros Hd. destruct vm_small as [Hv Ht], Hfresh as (_ & _ & Hm & _ & _). pose proof (ld_fixups _ _ _ _ _ Hld) as Hf.
  assert (forall f, f ∈ fixes -> fixup_address vm base f = vm + base + fx_offset f) as Ha
    by (intros; by eapply fixup_address_small).
  split.
  - apply Forall_forall. intros f Hin. rewrite Ha by done. rewrite Forall_forall in Hf. specialize (Hf f Hin).
    apply (mapped_dom (w_mem w)); [done|]. apply (mapped_sub _ vm (extent segs)); [done|lia|lia].
  - pose proof (ld_fixups_apart _ _ _ _ _ Hld) as Hap. revert Hap Ha. clear. generalize fixes as l. intros l Hap Ha.
    induction Hap as [|f l Hf _ IH]; [constructor|]. constructor; [|apply IH; intros g Hg; apply Ha; by right].
    rewrite Forall_forall in *. intros g Hg. specialize (Hf g Hg). rewrite !Ha by (by left || by right).
    unfold disjoint8 in *. lia.
Qed.

(** A byte of a segment once it is copied *)
Lemma copied_byte m s i :
  load_bytes m (seg_target vm s) (Z.to_nat (vm_size s)) =
    load_bytes (w_mem w) (seg_source image s) (Z.to_nat (vm_size s)) ->
  s ∈ copied skip_page_zero segs -> 0 <= i < vm_size s ->
  m !! (vm + vm_addr s + i) = content !! Z.to_nat (file_offset s + i).
Proof.
  intros Hl Hs Hi. destruct (copied_segment s Hs) as ((? & ? & _) & ? & Htg & ? & ? & Hsrc).
  destruct vm_small as [Hv Ht]. rewrite Htg, Hsrc in Hl.
  rewrite (buffer_ok_load _ (Mk_slice (s_ptr (data image)) content) _ _ image_still_there) in Hl by (cbn [s_bytes]; lia).
  cbn [s_bytes] in Hl.
  destruct (lookup_lt_is_Some_2 content (Z.to_nat (file_offset s + i))) as [b Hb]; [len|].
  rewrite Hb. replace (vm + vm_addr s + i) with (vm + vm_addr s + Z.of_nat (Z.to_nat i)) by lia.
  eapply load_bytes_lookup; [| |exact Hl|]; [lia|lia|].
  rewrite lookup_take_lt by lia. rewrite lookup_drop, <- Hb. f_equal. lia.
Qed.

Context (syms : list Symbol) (libs : list Library) (cache : DyldSharedCache).

(** Mapping always succeeds; applying the fixups then links the image, or ends as
    the first fixup without a pointer does. *)
Lemma link_memory :
  exists m1, segments_copy skip_page_zero image vm segs w = (set_mem w m1, Ok tt) /\
    match fixup_pointers vm base syms libs (Some cache) false fixes with
    | Ok ps => exists m, fixup_all_chained_fixups vm base syms libs (Some cache) false fixes m1 = Ok m /\
        dom m = dom (w_mem w) /\ linked content segs fixes skip_page_zero base ps vm (w_sp w) m0 m
    | Err e => fixup_all_chained_fixups vm base syms libs (Some cache) false fixes m1 = Err e
    | Panic why => fixup_all_chained_fixups vm base syms libs (Some cache) false fixes m1 = Panic why
    | Fault => fixup_all_chained_fixups vm base syms libs (Some cache) false fixes m1 = Fault
    | Diverge => fixup_all_chained_fixups vm base syms libs (Some cache) false fixes m1 = Diverge
    end.
Proof.
  destruct (segments_copy_runs skip_page_zero image vm segs w copies_ok) as (m1 & Hcp & Hd1 & Hbytes & Hout).
  exists m1. split; [exact Hcp|].
  pose proof (fixup_all_stores vm base syms libs (Some cache) false fixes m1 (fixes_ok m1 Hd1)) as H.
  destruct (fixup_pointers vm base syms libs (Some cache) false fixes) as [ps|e|y| |]; try exact H.
  destruct H as (m & Hall & Hd & Hin & Hkeep). exists m. split; [exact Hall|]. split; [congruence|].
  destruct vm_small as [Hv Ht].
  assert (forall f, f ∈ fixes -> fixup_address vm base f = vm + base + fx_offset f) as Ha
    by (intros; by eapply fixup_address_small).
  assert (forall a, ~ in_slot fixes base ps vm a -> m !! a = m1 !! a) as Hslot.
  { intros a Hno. apply Hkeep. intros i f v Hf Hp Hr. apply Hno. exists i, f, v. split; [done|]. split; [done|].
    by rewrite <- (Ha f (list_elem_of_lookup_2 _ _ _ Hf)). }
  split.
  - intros i f v Hf Hp. rewrite <- (Ha f (list_elem_of_lookup_2 _ _ _ Hf)). by apply (Hin i).
  - intros s i Hs Hi Hno. rewrite Hslot by done. by apply copied_byte; [apply Hbytes| |].
  - intros x Hx Hns. destruct Hfresh as (_ & _ & _ & Hnone & Hsame).
    assert (~ vm <= x < vm + extent segs) as Hxr by (intros Hr; rewrite Hnone in Hx by done; by destruct Hx).
    rewrite Hslot, Hout; [by apply Hsame| |].
    + apply Forall_forall. intros s Hs. destruct (copied_segment s Hs) as ((? & ? & _) & ? & -> & _). lia.
    + intros (i & f & v & Hf & _ & Hr). pose proof (ld_fixups _ _ _ _ _ Hld) as Hfx. rewrite Forall_forall in Hfx.
      specialize (Hfx f (list_elem_of_lookup_2 _ _ _ Hf)). lia.
Qed.
End Load.

(** ** The loader *)

Section Loader.
Context {sc : Scroll} {bp : BuildProfile} {M : Machine} (page : Z) (laws : vm_laws page).

(** The pointers of an executable count from its page-zero segment. *)
Definition image_base (is_executable : bool) : Z := if is_executable then PAGE_ZERO_SIZE else 0.

(** What the loader returns besides the address: the entry point of an
    executable, the size of a dylib *)
Definition loader_result (is_executable : bool) (p : ParsedImage) (segs : list Segment) (vm : Z) : Z :=
  if is_executable then ptr_add (ptr_add vm (entry_point p)) PAGE_ZERO_SIZE else extent segs.

(** The region of the image's extent, and then the copying of its segments *)
Lemma map_to_vm_run exe image segs f w w2 r :
  Forall segment_fits segs -> (exists s, s ∈ segs /\ vm_addr s = 0) ->
  @vm_alloc_task_self M string (extent segs) w = (w2, Ok r) ->
  io_bind (macho_segments_map_to_vm exe image segs) f w =
    match r with
    | inr _ => (w2, Err "failed to vm_alloc_task_self"%string)
    | inl vm => io_bind (segments_copy exe image vm segs) (fun _ => f (vm, extent segs)) w2
    end :> (world * outcome string (Z * Z)).
Proof.
  intros Hfit Hlow Hr. pose proof (extent_bound segs Hfit). unfold macho_segments_map_to_vm, io_bind, lift.
  rewrite (map_extent_spec segs Hfit Hlow). unfold sub_w. rewrite in_range_fits by (unfold fits; lia).
  rewrite Z.sub_0_r, Hr. destruct r as [vm|e]; [|done].
  by destruct (segments_copy exe image vm segs w2) as [w3 [u|e|y| |]].
Qed.

Lemma fixups_apply_run vm p libs cache exe (f : unit -> io string (Z * Z)) w :
  let run := io_bind (image_fixups_apply vm p libs cache exe) f w in
  match fixup_all_chained_fixups vm (image_base exe) (symbols p) libs (Some cache) false (fixups p) (w_mem w) with
  | Ok m => run = f tt (set_mem w m)
  | Err e => snd run = Err e
  | Panic why => snd run = Panic why
  | Fault => snd run = Fault
  | Diverge => snd run = Diverge
  end.
Proof.
  unfold image_fixups_apply, io_bind. fold (image_base exe).
  destruct (fixup_all_in_memory_run vm (image_base exe) (symbols p) libs (Some cache) false (fixups p) w) as (m & -> & Hm).
  by destruct (fixup_all_chained_fixups vm (image_base exe) _ _ _ _ _ _) as [m'|e|y| |]; [rewrite (Hm m' eq_refl)|..].
Qed.

(** The part of the loader that links an image, with what follows it *)
Lemma link_image_run exe image content segs p libs cache w1 (g : Z -> Z -> io string (Z * Z)) :
  let base := image_base exe in
  loadable content segs (fixups p) exe base ->
  mapped (w_mem w1) (w_sp w1) 8 -> image_ok (w_mem w1) (w_sp w1) image content ->
  let load := io_bind (macho_segments_map_to_vm exe image segs) (fun '(vm, vm_size) =>
    io_bind (image_fixups_apply vm p libs cache exe) (fun _ => g vm vm_size)) w1 in
  exists w2 r, @vm_alloc_task_self M string (extent segs) w1 = (w2, Ok r) /\ w_sp w2 = w_sp w1 /\
    match r with
    | inr _ => load = (w2, Err "failed to vm_alloc_task_self"%string)
    | inl vm => 0 < vm /\ vm + extent segs <= 2 ^ 62 /\
        match fixup_pointers vm base (symbols p) libs (Some cache) false (fixups p) with
        | Ok ps => exists m, linked content segs (fixups p) exe base ps vm (w_sp w1) (w_mem w1) m /\
            dom m = dom (w_mem w2) /\ mapped m vm (extent segs) /\ load = g vm (extent segs) (set_mem w2 m)
        | Err e => snd load = Err e
        | Panic why => snd load = Panic why
        | Fault => snd load = Fault
        | Diverge => snd load = Diverge
        end
    end.
Proof.
  intros base Hld Hst Himg. cbv zeta.
  pose proof (extent_bound segs (ld_fits _ _ _ _ _ Hld)) as Hext.
  destruct (vm_alloc_spec (E := string) page laws (extent segs) w1 Hst) as (w2 & r & Hr & Hsp & Hst2 & Hsame & Hvm).
  exists w2, r. split; [exact Hr|]. split; [exact Hsp|].
  rewrite (map_to_vm_run _ _ _ _ _ _ _ (ld_fits _ _ _ _ _ Hld) (ld_low _ _ _ _ _ Hld) Hr).
  destruct r as [vm|e]; [|done]. destruct Hvm as (Hv0 & _ & Htop & Hm & Hnone).
  pose proof (round_page_ge page laws (extent segs) ltac:(lia)) as Hge.
  split; [done|]. split; [lia|].
  assert (fresh_region (w_mem w1) (w_mem w2) (w_sp w2) vm (extent segs)) as Hfr.
  { rewrite Hsp. split; [done|]. split; [lia|]. split; [apply (mapped_sub _ vm (round_page page (extent segs))); [done|lia|lia]|].
    split; [intros x Hx; apply Hnone; lia|done]. }
  assert (image_ok (w_mem w1) (w_sp w2) image content) as Himg2 by (by rewrite Hsp).
  destruct (link_memory image content segs (fixups p) exe base Hld (w_mem w1) w2 vm Hfr Himg2 (symbols p) libs cache)
    as (m1 & Hcp & H).
  rewrite (io_bind_run _ _ _ _ _ Hcp).
  pose proof (fixups_apply_run vm p libs cache exe (fun _ => g vm (extent segs)) (set_mem w2 m1)) as Hrun.
  cbv zeta in Hrun. fold base in Hrun. cbn [set_mem set_kernel w_mem] in Hrun.
  destruct (fixup_pointers vm base (symbols p) libs (Some cache) false (fixups p)) as [ps|e|y| |];
    [|by rewrite H in Hrun..].
  destruct H as (m & Hall & Hd & Hlk). rewrite Hall in Hrun. rewrite Hsp in Hlk. exists m. split; [exact Hlk|]. split; [exact Hd|]. split; [|exact Hrun].
  destruct Hfr as (_ & _ & Hmap & _). by eapply mapped_dom.
Qed.

(** C1 Linking an image, whose load commands parse and whose dylibs are loaded:
    the kernel is asked for exactly the image's extent; if it refuses, that is
    the error. Otherwise memory becomes that of the linked image ([linked]):
    every fixup's slot holds the pointer the fixup stands for, every other byte
    of a segment is that of what is mapped where the image is ([content], the file
    and the rest of its last page), and nothing that was mapped before changes; a
    symbol that cannot be bound ends the loader as resolving it did. The loader
    then finishes the image and returns where it is and its entry point (or, for
    a dylib, its size). *)
Theorem macho_loader_links k cache image content exec_dir dylib_dir w w1 p dv deps libs segs :
  let exe := is_none dylib_dir in
  let base := image_base exe in
  macho_parser image = Ok p -> dependencies_collect p cache = Ok dv -> deref dv = @Ok string _ deps ->
  user_dylibs_load_loop (fun image path => macho_loader k cache image exec_dir (Some path)) deps exec_dir
    (rpath p) [] w = (w1, Ok libs) ->
  deref (segments p) = @Ok string _ segs ->
  loadable content segs (fixups p) exe base ->
  mapped (w_mem w1) (w_sp w1) 8 -> image_ok (w_mem w1) (w_sp w1) image content ->
  let load := macho_loader (S k) cache image exec_dir dylib_dir w in
  exists w2 r, @vm_alloc_task_self M string (extent segs) w1 = (w2, Ok r) /\
    match r with
    | inr _ => load = (w2, Err "failed to vm_alloc_task_self"%string)
    | inl vm =>
        match fixup_pointers vm base (symbols p) libs (Some cache) false (fixups p) with
        | Ok ps => exists m, linked content segs (fixups p) exe base ps vm (w_sp w1) (w_mem w1) m /\
            load = io_bind (image_finalize vm p exe)
              (fun _ => ret (vm, loader_result exe p segs vm)) (set_mem w2 m)
        | Err e => snd load = Err e
        | Panic why => snd load = Panic why
        | Fault => snd load = Fault
        | Diverge => snd load = Diverge
        end
    end.
Proof.
  intros exe base Hp Hdv Hdeps Hloop Hsegs Hld Hst Himg. cbv zeta. cbn [macho_loader].
  change (match dylib_dir with None => true | Some _ => false end) with exe.
  rewrite (io_bind_lift _ _ _ _ Hp), (io_bind_lift _ _ _ _ Hdv), (io_bind_lift _ _ _ _ Hdeps).
  rewrite (io_bind_run _ _ _ _ _ Hloop), (io_bind_lift _ _ _ _ Hsegs).
  destruct (link_image_run exe image content segs p libs cache w1 (fun vm vm_size =>
    io_bind (image_finalize vm p exe) (fun _ => match dylib_dir with
      | Some _ => ret (vm, vm_size)
      | None => ret (vm, ptr_add (ptr_add vm (entry_point p)) PAGE_ZERO_SIZE)
      end)) Hld Hst Himg) as (w2 & r & Hr & _ & H).
  fold base in H. exists w2, r. split; [exact Hr|]. destruct r as [vm|e]; [|exact H]. destruct H as (_ & _ & H).
  destruct (fixup_pointers vm base (symbols p) libs (Some cache) false (fixups p)); try exact H.
  destruct H as (m & Hlk & _ & _ & ->). exists m. split; [exact Hlk|].
  unfold io_bind. destruct (image_finalize vm p exe _) as [w3 [u|e|y| |]]; try done.
  unfold loader_result, exe. by destruct dylib_dir.
Qed.
End Loader.

(** ** An example

    A dylib of two segments, its fixups header at 192 and its starts at 224, and
    two rebases, eight bytes apart, in the second segment at 272, which has 16 bytes more in memory than in the
    file. *)
#[local] Existing Instance scroll_ref.
#[local] Existing Instance dev_profile.
#[local] Existing Instance machine_vm.

Definition example_dylib_bytes : bytes :=
  pad_to 272 (example_header 6 3 ++
    segment_command_bytes (bstr "__TEXT") 0 272 0 ++ segment_command_bytes (bstr "__DATA_CONST") 272 32 272 ++
    u32le 0x80000034 ++ u32le 16 ++ u32le 192 ++ u32le 80 ++
    u32le 0 ++ u32le 32 ++ u32le 0 ++ u32le 0 ++ u32le 0 ++ u32le 1 ++ u32le 0 ++ u32le 0 ++
    u32le 1 ++ u32le 8 ++
    u32le 24 ++ le_bytes 2 0x1000 ++ le_bytes 2 2 ++ u64le 272 ++ u32le 0 ++ le_bytes 2 1 ++ le_bytes 2 0) ++
  u64le (rebase_64_word 0x40 0 2) ++ u64le (rebase_64_word 0x80 0 0).

(** It is mapped at 0x10000, above the stack slot. *)
Definition example_dylib : Container := with_bytes (Mk_slice 0x10000 example_dylib_bytes) Little.
Definition example_dylib_segments : list Segment :=
  [{| prot := 1; vm_addr := 0; file_offset := 0; vm_size := 272 |};
   {| prot := 1; vm_addr := 272; file_offset := 272; vm_size := 32 |}].
Definition example_dylib_parsed : ParsedImage :=
  match macho_parser example_dylib with
  | Ok p => p
  | _ => Mk_ParsedImage (new_array 0) [] [] [] (new_array 0) 0 false true None
  end.
Lemma example_dylib_ok : macho_parser example_dylib = Ok example_dylib_parsed /\
  deref (segments example_dylib_parsed) = @Ok string _ example_dylib_segments /\
  fixups example_dylib_parsed = [fixup_rebase 272 0x40; fixup_rebase 280 0x80].
Proof. vm_compute. split_and!; reflexivity. Qed.

(** What is mapped where it is: the file, and zeros after it *)
Definition example_dylib_content : bytes := example_dylib_bytes ++ zeros 16.

Definition example_loading : world :=
  Mk_world (M := machine_vm) tt (mem_of 0x10000 example_dylib_content ∪ mem_of 0x8000 (zeros 8)) 0x8000 true.

Lemma example_dylib_loadable :
  loadable example_dylib_content example_dylib_segments [fixup_rebase 272 0x40; fixup_rebase 280 0x80] false 0.
Proof.
  assert (zlen example_dylib_content = 304) as Hz by (vm_compute; reflexivity).
  assert (extent example_dylib_segments = 304) as He by (vm_compute; reflexivity).
  split; rewrite ?Hz, ?He; unfold example_dylib_segments;
    try (change (copied false ?l) with l; rewrite !Forall_cons, Forall_nil;
         cbn [vm_addr vm_size file_offset fx_offset fixup_rebase segment_fits]; unfold segment_fits; cbn; lia).
  - eexists. split; [by left|done].
  - lia.
  - change (copied false ?l) with l. pairs_apart.
  - pairs_apart.
Qed.

Lemma example_loading_image :
  mapped (w_mem example_loading) (w_sp example_loading) 8 /\
  image_ok (w_mem example_loading) (w_sp example_loading) example_dylib example_dylib_content.
Proof.
  assert (zlen example_dylib_content = 304) as Hz by (vm_compute; reflexivity).
  split.
  - cbn [w_mem w_sp example_loading]. split; [done|]. split; [done|]. intros a Ha. apply elem_of_dom. rewrite dom_union.
    apply elem_of_union_r, elem_of_dom. by apply (mem_of_mapped 0x8000 (zeros 8)).
  - split; [|cbn [data example_dylib with_bytes s_ptr s_bytes w_sp example_loading]; rewrite Hz;
      unfold ranges_disjoint; lia].
    change (s_ptr (data example_dylib)) with 0x10000. apply mem_of_buffer; [done|]. rewrite Hz. lia.
Qed.

(** Loading it: the kernel maps 304 bytes, and both rebases become pointers into them. *)
Lemma macho_loader_links_witness :
  macho_parser example_dylib = Ok example_dylib_parsed /\
  loadable example_dylib_content example_dylib_segments (fixups example_dylib_parsed) false 0 /\
  exists w2 r, @vm_alloc_task_self machine_vm string 304 example_loading = (w2, Ok r) /\
    match r with
    | inr _ => macho_loader 1 cache_new example_dylib (bstr "/") (Some (bstr "d")) example_loading =
        (w2, Err "failed to vm_alloc_task_self"%string)
    | inl vm =>
        exists m, linked example_dylib_content example_dylib_segments (fixups example_dylib_parsed) false 0
            [Some (ptr_add (ptr_add vm 0x40) 0); Some (ptr_add (ptr_add vm 0x80) 0)] vm 0x8000 (w_mem example_loading) m /\
          macho_loader 1 cache_new example_dylib (bstr "/") (Some (bstr "d")) example_loading =
            io_bind (image_finalize vm example_dylib_parsed false) (fun _ => ret (vm, 304)) (set_mem w2 m)
    end.
Proof.
  destruct example_dylib_ok as (Hp & Hs & Hf), example_loading_image as [Hm Hi].
  split; [exact Hp|]. rewrite Hf. split; [exact example_dylib_loadable|].
  pose proof (macho_loader_links 4096 machine_vm_laws 0 cache_new example_dylib example_dylib_content (bstr "/") (Some (bstr "d"))
    example_loading example_loading example_dylib_parsed (new_array 32) [] [] example_dylib_segments Hp eq_refl eq_refl
    eq_refl Hs) as H.
  cbv zeta in H. rewrite Hf in H. exact (H example_dylib_loadable Hm Hi).
Defined.
