(* ===== verification/Whole.v ===== *)
(** A whole program in memory.

    [in_memory] says that every image of a program's tree is linked where it was
    loaded: its segments hold the file's bytes, its fixups' slots the pointers the
    fixups stand for, and the libraries its binds were resolved in are the images
    below it, as they are in memory. Loading a program brings this about for all
    its images at once: what is loaded later leaves what was loaded before as it
    is, but for what the program's own code writes. *)
From S2P Require Import Prelude Scroll Bindings Container ArrayVec Memory Kernel VM Files Image.
From S2P Require Import SharedCache Fixups Loader Finalize Program Linking.

(** ** Memory that stays *)

Section Memory.
(** The size of a page; the addresses that the code of the program, or the strings
    the linker makes, may write; and the linker's stack *)
Context (page : Z) (others : Z -> Prop) (sp : Z).

Definition quiet (x : Z) : Prop := ~ others x /\ ~ sp <= x < sp + stack_size.

(** What is mapped stays mapped and keeps its contents, at the quiet addresses. *)
Definition keeps (m m' : memory) : Prop := forall x b, quiet x -> m !! x = Some b -> m' !! x = Some b.

#[export] Instance keeps_preorder : PreOrder keeps.
Proof. split; [by intros m x b|]. intros m1 m2 m3 H1 H2 x b Hq Hx. by apply H2, H1. Qed.

Lemma keeps_lookup m m' :
  (forall x, is_Some (m !! x) -> ~ sp <= x < sp + stack_size -> m' !! x = m !! x) -> keeps m m'.
Proof. intros H x b [_ Hx] Hb. rewrite H; [done|by exists b|done]. Qed.

Lemma keeps_load m m' p n bs :
  0 <= p -> p + Z.of_nat n <= 2 ^ 64 -> (forall x, p <= x < p + Z.of_nat n -> quiet x) -> keeps m m' ->
  load_bytes m p n = Some bs -> load_bytes m' p n = Some bs.
Proof.
  intros Hp Hn Hq Hk Hl. pose proof (load_bytes_length _ _ _ _ Hl) as Hlen. rewrite <- Hlen.
  apply load_bytes_stored; [done|len|]. intros i b Hi. pose proof (lookup_lt_Some _ _ _ Hi).
  apply Hk; [apply Hq; lia|]. by eapply load_bytes_lookup.
Qed.

Lemma keeps_load_u64 m m' p v :
  0 <= p -> p + 8 <= 2 ^ 64 -> (forall x, p <= x < p + 8 -> quiet x) -> keeps m m' ->
  load_u64 m p = Some v -> load_u64 m' p = Some v.
Proof.
  intros Hp Hn Hq Hk (bs & Hl & ->)%fmap_Some. unfold load_u64. by rewrite (keeps_load m m' p 8 bs).
Qed.

(** An image that is in memory for good, its last page filled up: apart from the
    stack, and quiet *)
Definition placed (m : memory) (image : Container) : Prop :=
  let content := padded page (raw image) in
  image_ok m sp image content /\
  forall x, s_ptr (data image) <= x < s_ptr (data image) + zlen content -> quiet x.

Lemma placed_keeps m m' image : keeps m m' -> placed m image -> placed m' image.
Proof.
  unfold placed. generalize (padded page (raw image)) as content. intros content.
  intros Hk [((Hp & Htop & Hb) & Hlt & Hpos & Hsp) Hq]. split; [|done]. split; [|done]. split; [done|]. split; [done|].
  cbn [s_ptr s_bytes] in *. intros i b Hi. pose proof (lookup_lt_Some _ _ _ Hi).
  apply Hk; [|by apply Hb]. apply Hq. len.
Qed.
End Memory.

(** ** The images of a program, linked *)

Section InMemory.
Context {sc : Scroll} {bp : BuildProfile}.
Context (page : Z) (others : Z -> Prop) (sp : Z).
Context (disk : bytes -> option bytes) (cache : DyldSharedCache).

Definition root_extent (t : load_tree) : Z := let '(Loaded _ _ segs _) := t in extent segs.

(** [linked], but for what the program may have written since *)
Record still_linked (content : bytes) (exe : bool) (vm : Z) (p : ParsedImage) (segs : list Segment)
    (libs : list Library) (m : memory) : Prop := {
  sl_room : 0 < vm /\ vm + extent segs <= 2 ^ 62;
  sl_fixed : exists ps,
    fixup_pointers vm (image_base exe) (symbols p) libs (Some cache) false (fixups p) = Ok ps /\
    (forall i f v, fixups p !! i = Some f -> ps !! i = Some (Some v) ->
      let slot := vm + image_base exe + fx_offset f in
      0 <= slot /\ slot + 8 <= 2 ^ 64 /\
      ((forall x, slot <= x < slot + 8 -> quiet others sp x) -> load_u64 m slot = Some (v mod 2 ^ 64))) /\
    (forall s i b, s ∈ copied exe segs -> 0 <= i < vm_size s -> content !! Z.to_nat (file_offset s + i) = Some b ->
      let a := vm + vm_addr s + i in
      quiet others sp a -> ~ in_slot (fixups p) (image_base exe) ps vm a -> m !! a = Some b)
}.

(** The image of a file, as the kernel maps it, and those below it. A library on disk is resolved in as
    the bytes of its image. *)
Inductive in_memory (m : memory) : bytes -> bool -> load_tree -> Prop :=
| image_in_memory file exe vm p segs ds libs :
    forest_in_memory m ds libs -> still_linked (padded page file) exe vm p segs libs m ->
    in_memory m file exe (Loaded vm p segs ds)
with forest_in_memory (m : memory) : load_forest -> list Library -> Prop :=
| nothing_in_memory : forest_in_memory m NoMore []
| cached_in_memory name ds libs :
    forest_in_memory m ds libs -> forest_in_memory m (FromCache name ds) (System name :: libs)
| dylib_in_memory name path file t ds c libs :
    disk path = Some file -> in_memory m file false t ->
    endian c = Little -> s_ptr (data c) = root_vm t -> zlen (raw c) = root_extent t ->
    (forall i b, raw c !! i = Some b -> quiet others sp (root_vm t + Z.of_nat i) ->
      m !! (root_vm t + Z.of_nat i) = Some b) ->
    forest_in_memory m ds libs ->
    forest_in_memory m (FromDisk name path t ds) (User c :: libs).

Scheme in_memory_ind2 := Minimality for in_memory Sort Prop
with forest_in_memory_ind2 := Minimality for forest_in_memory Sort Prop.
Combined Scheme in_memory_mutind from in_memory_ind2, forest_in_memory_ind2.

Lemma still_linked_keeps m m' file exe vm p segs libs :
  keeps others sp m m' -> still_linked file exe vm p segs libs m -> still_linked file exe vm p segs libs m'.
Proof.
  intros Hk [Hr (ps & Hps & Hslots & Hbytes)]. split; [done|]. exists ps. split; [done|]. split.
  - intros i f v Hf Hp. destruct (Hslots i f v Hf Hp) as (H0 & H1 & H). split; [done|]. split; [done|].
    intros Hq. eapply keeps_load_u64; [done|done|exact Hq|done|by apply H].
  - intros s i b Hs Hi Hb a Hq Hno. apply Hk; [done|]. by eapply Hbytes.
Qed.

(** What is in memory stays there. *)
Lemma trees_in_memory_keep m m' :
  keeps others sp m m' ->
  (forall file exe t, in_memory m file exe t -> in_memory m' file exe t) /\
  (forall ds libs, forest_in_memory m ds libs -> forest_in_memory m' ds libs).
Proof.
  intros Hk. apply in_memory_mutind.
  - intros file exe vm p segs ds libs _ Hds Hl. econstructor; [done|by eapply still_linked_keeps].
  - constructor.
  - intros name ds libs _ Hds. by constructor.
  - intros name path file t ds c libs Hd _ Ht He Hp Hn Hb _ Hds. econstructor; try done. intros i b Hi Hq. by apply Hk, Hb.
Qed.

Lemma in_memory_keeps m m' file exe t : keeps others sp m m' -> in_memory m file exe t -> in_memory m' file exe t.
Proof. intros Hk. by apply trees_in_memory_keep. Qed.

Lemma forest_in_memory_keeps m m' ds libs :
  keeps others sp m m' -> forest_in_memory m ds libs -> forest_in_memory m' ds libs.
Proof. intros Hk. by apply trees_in_memory_keep. Qed.
End InMemory.

(** ** The images of a program: itself, and those below *)

Section Parts.
Context {sc : Scroll} {bp : BuildProfile}.
Context (disk : bytes -> option bytes) (cache : DyldSharedCache) (exec_dir : bytes).

Inductive part_of (image : Container) : Container -> Prop :=
| part_self : part_of image image
| part_below path image' image'' :
    needs cache exec_dir image path -> image_of disk path image' -> part_of image' image'' -> part_of image image''.
End Parts.

(** ** What the rest of the system leaves alone *)

Section Whole.
Context `{SL : ScrollLaws} {bp : BuildProfile} {M : Machine}.
Context (others : Z -> Prop) (sp limit : Z).
Abbreviation quiet := (quiet others sp).
Abbreviation keeps := (keeps others sp).

(** The program's code, and the placing of a string, write at [others] or where
    nothing was; what the kernel maps of a file is not among [others], and is
    where addresses of a process are. *)
Record whole_laws : Prop := {
  wh_call k m a regs k' m' : call_code k m a regs = (k', m') -> keeps m m';
  wh_tlv k m mh k' m' : tlv_initialize_descriptors_export k m mh = (k', m') -> keeps m m';
  wh_string k m s k' m' p : zlen s <= 2 * limit -> alloc_string k m s = (k', m', p) -> keeps m m';
  wh_file k m num args k' m' r x :
    num <> TRAP_KERNELRPC_MACH_VM_ALLOCATE -> svc k m num args = (k', m', r) ->
    m !! x = None -> is_Some (m' !! x) -> 0 < x < 2 ^ 63 /\ ~ others x
}.

Context (page : Z) (vm : vm_laws page) (whole : whole_laws).
Context (history : kstate -> list event) (hist : history_laws history).
Context (file : kstate -> bytes -> option bytes) (laws : program_laws history file).
Context (opened : kstate -> Z -> option bytes) (files : files_laws page file opened).
Context (disk : bytes -> option bytes) (cache : DyldSharedCache) (exec_dir : bytes).
Abbreviation ready := (ready file disk sp).

(** *** Finishing an image *)

(** What stays of memory, if it stays when the program's code runs and when the
    linker writes to its stack slot *)
Section Calm.
Context (stays : memory -> memory -> Prop) `{!PreOrder stays}.
Context (stays_call : forall k m a regs k' m', call_code k m a regs = (k', m') -> stays m m').
Context (stays_tlv : forall k m mh k' m', tlv_initialize_descriptors_export k m mh = (k', m') -> stays m m').
Context (stays_slot : forall m m' : memory,
  dom m' = dom m -> (forall x, ~ sp <= x < sp + 8 -> m' !! x = m !! x) -> stays m m').

(** A run that succeeds keeps it. *)
Definition calm {E A} (m : io E A) : Prop := forall w w' a,
  ready w -> m w = (w', Ok a) -> ready w' /\ stays (w_mem w) (w_mem w').

Lemma calm_bind {E A B} (m : io E A) (f : A -> io E B) : calm m -> (forall a, calm (f a)) -> calm (io_bind m f).
Proof.
  intros Hm Hf w w' b Hw (w1 & a & H1 & H2)%io_bind_Ok. destruct (Hm _ _ _ Hw H1) as [Hw1 Hk1].
  destruct (Hf a _ _ _ Hw1 H2) as [Hw' Hk]. split; [done|]. by transitivity (w_mem w1).
Qed.

Lemma calm_lift {E A} (r : outcome E A) : calm (lift r).
Proof. by intros w w' a Hw [= <- _]. Qed.

Lemma calm_emits {E A} (m : io E A) R :
  emits history file disk sp m R -> (forall w w' a, ready w -> m w = (w', Ok a) -> stays (w_mem w) (w_mem w')) -> calm m.
Proof. intros Hm Hk w w' a Hw H. destruct (Hm _ _ _ Hw H) as [Hw' _]. split; [done|by eapply Hk]. Qed.

Lemma calm_call {E} a argc argv envp apple : calm (E := E) (entry_and_ret a argc argv envp apple).
Proof.
  eapply calm_emits; [by eapply emits_call|]. intros w w' [] Hw H. unfold entry_and_ret in H.
  destruct (call_code (w_kernel w) (w_mem w) a _) as [k m] eqn:Ec. injection H as <-. by eapply stays_call.
Qed.

Lemma calm_tlv {E} mh : calm (E := E) (tlv_initialize mh).
Proof.
  eapply calm_emits; [by eapply emits_tlv|]. intros w w' [] Hw H. unfold tlv_initialize in H.
  destruct (tlv_initialize_descriptors_export (w_kernel w) (w_mem w) mh) as [k m] eqn:Et. injection H as <-.
  by eapply stays_tlv.
Qed.

Lemma calm_vm_protect {E} a n b p : calm (E := E) (vm_protect a n b p).
Proof.
  eapply calm_emits; [by eapply emits_vm_protect|]. intros w w' r Hw H.
  destruct (vm_protect_spec (E := E) page vm a n b p w) as (w1 & r1 & Hr & _ & Hm). rewrite H in Hr.
  injection Hr as <- _. by rewrite Hm.
Qed.

Lemma calm_local_set {E} v : calm (E := E) (local_u64_set v).
Proof.
  eapply calm_emits; [by eapply emits_local_set|]. intros w w' [] [Hsp Hst _] H.
  unfold local_u64_set, with_sp in H. rewrite Hsp in H. apply updating_Ok in H as (m & Hm & ->).
  apply bind_Ok in Hm as (m1 & Hm & [= <-]).
  destruct (@store_u64_mapped E (w_mem w) sp v) as (m2 & Hs & Hd & Ho & _).
  { apply (mapped_sub _ sp stack_size); [done|lia|]. change stack_size with 144. lia. }
  rewrite Hs in Hm. injection Hm as <-. by apply stays_slot.
Qed.

Lemma calm_image_finalize vmaddr p exe : calm (image_finalize vmaddr p exe).
Proof.
  unfold image_finalize. apply calm_bind; [|intros _; apply calm_bind; [apply calm_lift|intros segs; apply calm_bind]].
  - destruct (exe && has_thread_locals p); [apply calm_tlv|by apply calm_lift].
  - unfold macho_segments_vm_protect. generalize (flat_map (fun seg => [(seg, true); (seg, false)]) segs) as calls.
    intros calls. induction calls as [|[seg b] calls IH]; cbn [segments_protect]; [by apply calm_lift|].
    apply calm_bind; [apply calm_vm_protect|]. intros [u|e]; [exact IH|by intros w w' a _ ?].
  - intros _. generalize (init_functions p) as fs. intros fs.
    induction fs as [|f fs IH]; cbn [macho_init_functions_exec]; [by apply calm_lift|].
    apply calm_bind; [apply calm_local_set|]. intros _. apply calm_bind; [|intros _; exact IH].
    intros w w' a Hw H. by eapply calm_call.
Qed.
End Calm.

Lemma keeps_slot (m m' : memory) :
  dom m' = dom m -> (forall x, ~ sp <= x < sp + 8 -> m' !! x = m !! x) -> keeps m m'.
Proof. intros _ H. apply keeps_lookup. intros x _ Hx. apply H. change stack_size with 144 in Hx. lia. Qed.

Lemma image_finalize_keeps v p exe w w' :
  ready w -> image_finalize v p exe w = (w', Ok tt) -> ready w' /\ keeps (w_mem w) (w_mem w').
Proof. apply (calm_image_finalize keeps (wh_call whole) (wh_tlv whole) keeps_slot). Qed.

(** *** Linking an image *)

Lemma ready_stack8 w : ready w -> mapped (w_mem w) (w_sp w) 8.
Proof.
  intros [-> Hst _]. apply (mapped_sub _ sp stack_size); [done|lia|]. change stack_size with 144. lia.
Qed.

Lemma link_lands exe image segs p libs w wa wb v size :
  ready w -> loadable (padded page (raw image)) segs (fixups p) exe (image_base exe) -> placed page others sp (w_mem w) image ->
  macho_segments_map_to_vm exe image segs w = (wa, Ok (v, size)) ->
  image_fixups_apply v p libs cache exe wa = (wb, Ok tt) ->
  ready wb /\ keeps (w_mem w) (w_mem wb) /\ size = extent segs /\
    still_linked others sp cache (padded page (raw image)) exe v p segs libs (w_mem wb).
Proof.
  intros Hw Hld [Himg Hq] Hmap Hfix. pose proof (rd_sp _ _ _ _ Hw) as Hsp.
  assert (io_bind (macho_segments_map_to_vm exe image segs) (fun '(v, size) =>
    io_bind (image_fixups_apply v p libs cache exe) (fun _ => ret (v, size))) w = (wb, Ok (v, size))) as Hrun.
  { unfold io_bind. by rewrite Hmap, Hfix. }
  assert (ready wb) as Hwb.
  { destruct (emits_map_to_vm history file hist laws disk sp exe image segs w wa _ Hw Hmap) as [Hwa _].
    by destruct (emits_fixups_apply history file disk sp v p libs cache exe wa wb tt Hwa Hfix). }
  destruct (link_image_run page vm exe image (padded page (raw image)) segs p libs cache w (fun v size => ret (v, size)) Hld (ready_stack8 w Hw)
    ltac:(by rewrite Hsp)) as (w2 & r & _ & Hsp2 & H). rewrite Hrun in H.
  destruct r as [v'|e]; [|done]. destruct H as (Hv & Ht & H).
  destruct (fixup_pointers v' (image_base exe) (symbols p) libs (Some cache) false (fixups p)) as [ps|e|y| |] eqn:Eps;
    try done.
  destruct H as (m & Hlk & _ & _ & [= -> -> ->]). cbn [w_mem set_mem set_kernel]. rewrite Hsp in Hlk.
  split; [exact Hwb|]. split; [|split; [done|]].
  { apply keeps_lookup. intros x Hx Hn. apply (lk_frame _ _ _ _ _ _ _ _ _ _ Hlk); [done|]. change stack_size with 144 in Hn. lia. }
  split; [done|]. exists ps. split; [done|]. split.
  - intros i f z Hf Hp. pose proof (ld_fixups _ _ _ _ _ Hld) as Hfx. rewrite Forall_forall in Hfx.
    specialize (Hfx f (list_elem_of_lookup_2 _ _ _ Hf)). cbv zeta. split; [lia|]. split; [lia|]. intros _.
    by eapply (lk_pointers _ _ _ _ _ _ _ _ _ _ Hlk).
  - intros s i b Hs Hi Hb a _ Hno. rewrite <- Hb. by eapply (lk_bytes _ _ _ _ _ _ _ _ _ _ Hlk).
Qed.

(** *** Mapping a file *)

(** What a run that succeeds maps is not among [others]. *)
Definition grows {E A} (m : io E A) : Prop := forall w w' a x,
  m w = (w', Ok a) -> w_mem w !! x = None -> is_Some (w_mem w' !! x) -> 0 < x < 2 ^ 63 /\ ~ others x.

Lemma grows_bind {E A B} (m : io E A) (f : A -> io E B) : grows m -> (forall a, grows (f a)) -> grows (io_bind m f).
Proof.
  intros Hm Hf w w' b x (w1 & a & H1 & H2)%io_bind_Ok Hx Hx'. destruct (w_mem w1 !! x) eqn:E1.
  - by eapply (Hm _ _ _ _ H1).
  - by eapply (Hf a _ _ _ _ H2).
Qed.

Lemma grows_same {E A} (m : io E A) :
  (forall w w' a, m w = (w', Ok a) -> dom (w_mem w') = dom (w_mem w)) -> grows m.
Proof.
  intros Hd w w' a x H Hx%not_elem_of_dom Hx'%elem_of_dom. rewrite (Hd _ _ _ H) in Hx'. done.
Qed.

Lemma grows_lift {E A} (r : outcome E A) : grows (lift r).
Proof. apply grows_same. by intros w w' a [= <- _]. Qed.

Lemma grows_ret {E A} (a : A) : grows (E := E) (ret a).
Proof. exact (grows_lift (Ok a)). Qed.

Lemma grows_fail {E A} (e : E) : grows (A := A) (fail e).
Proof. exact (grows_lift (Err e)). Qed.

Lemma grows_reading {E A} (f : memory -> outcome E A) : grows (reading f).
Proof. apply grows_same. by intros w w' a [= <- _]. Qed.

Lemma grows_updating {E A} (f : memory -> outcome E (memory * A)) :
  (forall m m' a, f m = Ok (m', a) -> dom m' = dom m) -> grows (updating f).
Proof. intros Hf. apply grows_same. by intros w w' a (m & Hm%Hf & ->)%updating_Ok. Qed.

Lemma grows_with_sp {E A} (f : Z -> io E A) : (forall p, grows (f p)) -> grows (with_sp f).
Proof. intros Hf w w' a x H. by eapply (Hf (w_sp w)). Qed.

Lemma grows_trap {E} num args :
  num <> TRAP_KERNELRPC_MACH_VM_ALLOCATE -> grows (@syscall M E num args).
Proof.
  intros Hn w w' a x H. unfold syscall in H.
  destruct (svc (w_kernel w) (w_mem w) num args) as [[k m] [v e]] eqn:Es. injection H as <- <-.
  by eapply (wh_file whole).
Qed.

Lemma grows_disk_path_mmap path : grows (disk_path_mmap path).
Proof.
  unfold disk_path_mmap, open, syscall3, fstat, syscall2.
  apply grows_bind; [by apply grows_trap|]. intros [fd|e]; [|apply grows_fail].
  apply grows_bind.
  { apply grows_with_sp. intros p. apply grows_updating. intros m m' a H.
    destruct (store_bytes _ _ _) eqn:Es; [|done]. injection H as <- _. by eapply store_bytes_dom. }
  intros _. apply grows_bind; [apply grows_with_sp; intros p; apply grows_trap; discriminate|].
  intros [u|e]; [|apply grows_fail]. apply grows_bind; [apply grows_with_sp; intros p; apply grows_reading|].
  intros size. apply grows_bind.
  { unfold mmap_file. destruct (size =? 0); [apply grows_ret|]. destruct (_ && _); [apply grows_ret|].
    unfold mmap_internal, syscall6. apply grows_bind; [|intros r; apply grows_ret].
    apply grows_bind; [by apply grows_trap|]. intros r. apply grows_ret. }
  intros [v|e]; [|apply grows_fail]. apply grows_bind; [apply grows_reading|]. intros bs. apply grows_ret.
Qed.

Hypothesis limit_ok : limit <= 2 ^ 61.
Hypothesis dir_ok : name_within limit exec_dir.
Hypothesis disk_small : forall path bs, disk path = Some bs -> zlen bs < limit.

Lemma padded_short bs : zlen bs < limit -> zlen (padded page bs) < 2 ^ 61 + 2 ^ 62.
Proof.
  intros Hs. pose proof (round_page_lt page vm (zlen bs)). pose proof (page_le page vm).
  rewrite padded_length by (apply (round_page_ge page vm); len). lia.
Qed.

(** A file read from disk is in memory for good. *)
Lemma mapped_file_placed w w' path c :
  ready w -> disk_path_mmap path w = (w', Ok c) -> raw c <> [] -> zlen (padded page (raw c)) < 2 ^ 63 ->
  load_bytes (w_mem w') (s_ptr (data c)) (length (padded page (raw c))) = Some (padded page (raw c)) ->
  (forall x, s_ptr (data c) <= x < s_ptr (data c) + zlen (padded page (raw c)) -> w_mem w !! x = None) ->
  placed page others sp (w_mem w') c.
Proof.
  intros [Hsp Hst _] H Hne Hlen Hload Hfresh. set (p := s_ptr (data c)) in *. assert (padded page (raw c) <> []) as Hne' by (by intros ?%padded_nil).
  unfold placed. set (bs := padded page (raw c)) in *.
  assert (0 < zlen bs) as Hpos by (destruct bs; [done|len]).
  assert (is_Some (w_mem w' !! p)) as Hp.
  { destruct bs as [|b bs]; [done|]. apply mapM_Some in Hload. inversion Hload; eauto. }
  destruct (grows_disk_path_mmap path _ _ _ p H (Hfresh p ltac:(lia)) Hp) as [Hp0 _].
  assert (forall i b, bs !! i = Some b -> w_mem w' !! (p + Z.of_nat i) = Some b) as Hb.
  { intros i b Hi. eapply load_bytes_lookup; [| |exact Hload|exact Hi]; unfold zlen in *; lia. }
  assert (forall x, p <= x < p + zlen bs -> 0 < x < 2 ^ 63 /\ ~ others x) as Hgood.
  { intros x Hx. apply (grows_disk_path_mmap path _ _ _ x H (Hfresh x Hx)).
    destruct (lookup_lt_is_Some_2 bs (Z.to_nat (x - p))) as [b Hi]; [unfold zlen in *; lia|].
    exists b. rewrite <- (Hb _ _ Hi). f_equal. lia. }
  assert (ranges_disjoint p (zlen bs) sp stack_size) as Hap.
  { destruct (unmapped_apart (w_mem w) sp stack_size p (zlen bs)) as [Ha|Ha]; [done|done|apply Hst|done| |]; unfold ranges_disjoint; lia. }
  pose proof (Hgood (p + zlen bs - 1) ltac:(lia)) as [Htop _].
  split.
  - split; [|fold bs p; change stack_size with 144 in Hap; unfold ranges_disjoint in *; lia].
    split; [cbn [s_ptr]; fold p; lia|]. split; [cbn [s_ptr s_bytes]; fold p; lia|exact Hb].
  - fold p. intros x Hx. split; [by apply Hgood|]. unfold ranges_disjoint in Hap. lia.
Qed.

Lemma disk_image_lands path w w' c :
  ~ x00 ∈ path -> zlen path < 2 * limit -> ready w ->
  (let! s := string_slice (path ++ [x00]) in disk_path_mmap s) w = (w', Ok c) ->
  ready w' /\ keeps (w_mem w) (w_mem w') /\ image_of disk path c /\ placed page others sp (w_mem w') c.
Proof.
  intros Hnul Hlen Hw Hrun.
  destruct (emits_disk_image history file hist laws disk sp opened page files path Hnul ltac:(lia) w w' c Hw Hrun)
    as (Hw' & _ & _ & _ & Hi).
  split; [exact Hw'|]. unfold io_bind, string_slice in Hrun.
  destruct (alloc_string (w_kernel w) (w_mem w) (path ++ [x00])) as [[k m] p] eqn:Ea.
  assert (zlen (path ++ [x00]) <= 2 * limit) as Hs by len.
  pose proof (wh_string whole _ _ _ _ _ _ Hs Ea) as Hk.
  assert (zlen (path ++ [x00]) < 2 ^ 63) as Hs' by lia.
  destruct (pl_string _ _ laws _ _ _ _ _ _ Hs' Ea) as (Hl & _ & Hf & Hm). set (w1 := set_kernel w k m) in *.
  assert (ready w1) as Hw1.
  { destruct Hw as [Hsp Hst Hd]. split; [done|by apply Hm|]. intros q. rewrite <- Hd. apply Hf. }
  rewrite length_app, Nat.add_1_r in Hl.
  destruct (disk_path_mmap_run page file opened files p path w1 Hl Hnul) as (w2 & r & Hr & [_ Hk2] & Hc).
  { pose proof (rd_stack _ _ _ _ Hw1) as H. by rewrite <- (rd_sp _ _ _ _ Hw1) in H. }
  rewrite Hrun in Hr. injection Hr as <- <-. destruct Hc as (bs & _ & Hne & Hsz & Hraw & _ & _ & Hload & Hfresh).
  rewrite (rd_sp _ _ _ _ Hw1) in Hk2. subst bs.
  split; [|split; [exact Hi|eapply mapped_file_placed; [exact Hw1|exact Hrun|exact Hne| |exact Hload|exact Hfresh]]].
  2: { pose proof (padded_short _ (disk_small _ _ (proj1 Hi))). lia. }
  transitivity m; [exact Hk|]. by apply keeps_lookup.
Qed.

(** *** The loader *)

(** The image's segments and fixups are laid out as the loader relies on. *)
Definition can_link (image : Container) (exe : bool) : Prop := forall p segs,
  macho_parser image = Ok p -> deref (segments p) = @Ok string _ segs ->
  loadable (padded page (raw image)) segs (fixups p) exe (image_base exe).

Definition dylibs_link (image : Container) : Prop := forall image' path dylib,
  part_of disk cache exec_dir image image' -> needs cache exec_dir image' path -> image_of disk path dylib ->
  can_link dylib false.

(** What loading an image brings about *)
Definition loaded_whole (image : Container) (exe : bool) (m m' : memory) (at_address : Z) (t : load_tree) : Prop :=
  loads_as disk cache exec_dir image t /\ at_address = root_vm t /\
  in_memory page others sp disk cache m' (raw image) exe t /\ keeps m m'.

Lemma dylibs_link_below image path image' :
  needs cache exec_dir image path -> image_of disk path image' -> dylibs_link image -> dylibs_link image'.
Proof. intros Hn Hi H i q d Hp. apply H. by eapply part_below. Qed.

Lemma reading_run {E A} (f : memory -> outcome E A) w w' a : reading f w = (w', Ok a) -> w' = w /\ f (w_mem w) = Ok a.
Proof. by intros [= <- H]. Qed.

(** The container made of a dylib that has been loaded *)
Lemma dylib_container m vmaddr p segs ds file' bytes :
  in_memory page others sp disk cache m file' false (Loaded vmaddr p segs ds) -> 0 <= extent segs ->
  from_raw_parts m vmaddr (extent segs) = @Ok string _ bytes ->
  s_ptr bytes = vmaddr /\ zlen (s_bytes bytes) = extent segs /\
  forall i b, s_bytes bytes !! i = Some b -> m !! (vmaddr + Z.of_nat i) = Some b.
Proof.
  intros Hin He H. inversion Hin as [? ? ? ? ? ? libs _ [[Hv Ht] _]]; subst. unfold from_raw_parts in H.
  destruct (load_bytes m vmaddr (Z.to_nat (extent segs))) as [bs|] eqn:El; [|done]. injection H as <-. cbn [s_ptr s_bytes].
  split; [done|]. pose proof (load_bytes_length _ _ _ _ El). split; [unfold zlen; lia|].
  intros i b Hi. eapply load_bytes_lookup; [| |exact El|exact Hi]; lia.
Qed.

Lemma load_loop_lands parent load rp names loaded w w' libs :
  (forall name path, name ∈ names -> on_disk cache exec_dir rp name path -> needs cache exec_dir parent path) ->
  (forall image path dd w w' r, needs cache exec_dir parent path -> ready w -> image_of disk path image -> placed page others sp (w_mem w) image ->
     load image dd w = (w', Ok r) ->
     ready w' /\ exists t, loaded_whole image false (w_mem w) (w_mem w') (fst r) t /\ snd r = root_extent t /\ 0 <= snd r) ->
  Forall (name_within limit) names -> ready w ->
  user_dylibs_load_loop load ((fun n => (n, is_library_cached cache n)) <$> names) exec_dir rp loaded w = (w', Ok libs) ->
  ready w' /\ keeps (w_mem w) (w_mem w') /\
    exists ds libs', libs = loaded ++ libs' /\ depends_as disk cache exec_dir rp names ds /\
      forest_in_memory page others sp disk cache (w_mem w') ds libs'.
Proof.
  intros Hneeds Hload Hn. revert loaded w Hneeds; induction Hn as [|name names Hname _ IH]; intros loaded w Hneeds Hw;
    cbn [fmap list_fmap user_dylibs_load_loop].
  { intros [= <- <-]. split; [done|]. split; [done|]. exists NoMore, []. rewrite app_nil_r. split_and!; constructor. }
  pose proof (fun n path Hin => Hneeds n path (list_elem_of_further _ _ _ Hin)) as Hrest.
  destruct (is_library_cached cache name) eqn:Ec; intros H.
  { destruct (IH _ _ Hrest Hw H) as (Hw' & Hk & ds & libs' & -> & Hds & Hm). split; [done|]. split; [done|].
    exists (FromCache name ds), (System name :: libs'). rewrite <- app_assoc. split; [done|]. split; by constructor. }
  apply io_bind_Ok in H as (w0 & s & [= <- Hs] & H). destruct (resolve_ok _ _ _ _ _ Hname dir_ok Hs) as (path & -> & Hnul & Hlen).
  apply io_bind_Ok in H as (w1 & sl & H1 & H). apply io_bind_Ok in H as (w2 & image & H2 & H).
  destruct (disk_image_lands path w w2 image Hnul Hlen Hw) as (Hw2 & Hk2 & Hi & Hpl).
  { apply io_bind_Ok. eauto. }
  apply io_bind_Ok in H as (w3 & [v size] & H3 & H).
  destruct (Hload _ _ _ _ _ _ (Hneeds name path ltac:(by left) (conj Ec Hs)) Hw2 Hi Hpl H3) as (Hw3 & t & (Ht & Hv & Hin & Hk3) & Hsize & Hpos). cbn [fst snd] in *.
  apply io_bind_Ok in H as (w4 & bytes & [-> Hb]%reading_run & H).
  destruct (IH _ _ Hrest Hw3 H) as (Hw' & Hk & ds & libs' & -> & Hds & Hm). split; [done|]. split.
  { transitivity (w_mem w2); [done|]. by transitivity (w_mem w3). }
  destruct Hi as [Hd He]. exists (FromDisk name path t ds), (User (with_bytes bytes Little) :: libs').
  rewrite <- app_assoc. split; [done|]. split; [by eapply depends_disk|]. subst v size.
  destruct t as [vmaddr p segs ds']. cbn [root_vm root_extent] in *.
  destruct (dylib_container _ _ _ _ _ _ _ Hin Hpos Hb) as (Hp & Hz & Hbytes).
  eapply dylib_in_memory; [exact Hd| |done|exact Hp|exact Hz| |exact Hm].
  - by eapply in_memory_keeps.
  - intros i b Hib Hq. by apply Hk, Hbytes.
Qed.

Lemma macho_loader_lands fuel image dd w w' r :
  ready w -> zlen (raw image) < limit -> placed page others sp (w_mem w) image ->
  can_link image (is_none dd) -> dylibs_link image ->
  macho_loader fuel cache image exec_dir dd w = (w', Ok r) ->
  ready w' /\ exists t, loaded_whole image (is_none dd) (w_mem w) (w_mem w') (fst r) t /\
    (dd <> None -> snd r = root_extent t) /\ 0 <= root_extent t.
Proof.
  revert image dd w w' r; induction fuel as [|fuel IH]; intros image dd w w' r Hw Hs Hpl Hld Hlinks; cbn [macho_loader]; [done|].
  change (match dd with None => true | Some _ => false end) with (is_none dd). intros H.
  apply io_bind_Ok in H as (w0 & p & [= <- Hp] & H). apply io_bind_Ok in H as (w0 & dv & [= <- Hdv] & H).
  apply io_bind_Ok in H as (w0 & deps & [= <- Hdeps] & H).
  destruct (libraries_of_dependencies cache p dv deps Hdv Hdeps) as (names & Hnames & ->).
  apply io_bind_Ok in H as (w1 & libs & Hloop & H).
  apply (load_loop_lands image) in Hloop as (Hw1 & Hk1 & ds & libs' & -> & Hds & Hm); [| | |
    exact (library_names_ok _ image p names limit_ok Hs Hp Hnames)|exact Hw].
  2: { intros name path Hin Hd. by exists p, names, name. }
  2: { intros image' path dd' v v' r' Hneeds Hv Hi Hpl' Hr. pose proof (disk_small path _ (proj1 Hi)) as Hsm.
    destruct (IH image' (Some dd') v v' r' Hv Hsm Hpl' (Hlinks _ _ _ (part_self _ _ _ _) Hneeds Hi) (dylibs_link_below _ _ _ Hneeds Hi Hlinks) Hr) as (Hv' & t & Ht & Hsz & Hpos).
    rewrite <- (Hsz ltac:(done)) in Hpos. split; [done|]. exists t. auto. }
  apply io_bind_Ok in H as (w0 & segs & [= <- Hsegs] & H).
  apply io_bind_Ok in H as (wa & [v size] & Hmap & H). apply io_bind_Ok in H as (wb & [] & Hfix & H).
  apply io_bind_Ok in H as (wc & [] & Hfin & H).
  destruct (link_lands (is_none dd) image segs p ([] ++ libs') w1 wa wb v size Hw1 (Hld p segs Hp Hsegs)) as (Hwb & Hkb & -> & Hst);
    [by eapply placed_keeps|exact Hmap|exact Hfix|].
  destruct (image_finalize_keeps v p (is_none dd) wb wc Hwb Hfin) as [Hwc Hkc].
  assert (w' = wc /\ fst r = v /\ (dd <> None -> snd r = extent segs)) as (-> & Hv & Hsz).
  { destruct dd; injection H as <- <-; split_and!; done. }
  split; [exact Hwc|]. exists (Loaded v p segs ds). split; [|split; [exact Hsz|by apply extent_bound, (Hld p segs Hp Hsegs)]].
  split; [by econstructor|]. split; [exact Hv|]. split.
  - apply (image_in_memory _ _ _ _ _ _ _ _ _ _ _ _ libs').
    + eapply forest_in_memory_keeps; [|exact Hm]. by transitivity (w_mem wb).
    + by eapply still_linked_keeps.
  - transitivity (w_mem w1); [done|]. by transitivity (w_mem wb).
Qed.

(** C2 A program that loads is in memory as a whole: when [macho_loader] succeeds,
    every image of the program's tree is linked where it was loaded, whatever was
    loaded after it. Its segments hold the bytes of its file (and zeros after its
    end, as the kernel maps it), each of its fixups' slots the pointer the fixup
    stands for, resolved in the images below it as they are in memory; and nothing
    that was mapped before has changed. Excepted are the linker's stack and what
    the program's own code and the strings the linker makes write ([others]). *)
Theorem program_in_memory fuel image dd w w' r :
  ready w -> zlen (raw image) < limit -> placed page others sp (w_mem w) image ->
  can_link image (is_none dd) -> dylibs_link image ->
  macho_loader fuel cache image exec_dir dd w = (w', Ok r) ->
  exists t, loads_as disk cache exec_dir image t /\ fst r = root_vm t /\
    in_memory page others sp disk cache (w_mem w') (raw image) (is_none dd) t /\ keeps (w_mem w) (w_mem w').
Proof.
  intros Hw Hs Hpl Hld Hlinks H.
  destruct (macho_loader_lands fuel image dd w w' r Hw Hs Hpl Hld Hlinks H) as (_ & t & Ht & _). by exists t.
Qed.
End Whole.

(** ** An example

    The client of [Program] with a dylib that has two pointers to rebase, on the
    machine that keeps strings at 0x50000000 and maps files above them *)
Definition string_area (x : Z) : Prop := 0x50000000 <= x < 0x50100000.

Lemma machine_vm_maps k m num args k' m' r x :
  num <> TRAP_KERNELRPC_MACH_VM_ALLOCATE -> @svc machine_vm k m num args = (k', m', r) ->
  m !! x = None -> m' !! x = None.
Proof.
  intros Hn H Hx. cbn [svc machine_vm] in H. destruct (num =? TRAP_TASK_SELF); [by injection H as <- <- <-|].
  destruct args as [|a0 [|a1 [|a2 [|a3 [|a4 [|a5 args]]]]]]; try (by injection H as <- <- <-).
  - destruct (num =? _); injection H as <- <- <-; [|done]. apply map_lookup_filter_None. by left.
  - rewrite (proj2 (Z.eqb_neq _ _) Hn) in H. by injection H as <- <- <-.
  - destruct (num =? _); by injection H as <- <- <-.
Qed.

Lemma with_disk_maps files k m num args k' m' r x :
  num <> TRAP_KERNELRPC_MACH_VM_ALLOCATE -> @svc (with_disk machine_vm files) k m num args = (k', m', r) ->
  m !! x = None -> is_Some (m' !! x) -> 0x50100000 <= x < 2 ^ 63.
Proof.
  intros Hn H Hx Hs.
  assert (m' !! x = None -> 0x50100000 <= x < 2 ^ 63) as Hno by (intros E; rewrite E in Hs; by destruct Hs).
  assert (@svc machine_vm k m num args = (k', m', r) -> 0x50100000 <= x < 2 ^ 63) as HM.
  { intros E. apply Hno. by eapply machine_vm_maps. }
  cbn [svc with_disk] in H.
  destruct args as [|a0 [|a1 [|a2 [|a3 [|a4 [|a5 [|a6 args]]]]]]]; try (by apply HM).
  - destruct (num =? SYS_FSTAT); [|by apply HM]. destruct (table_opened files a0); [|injection H as <- <- <-; by apply Hno].
    destruct (store_u64 _ _ _) as [m2|e|w| |] eqn:Es; injection H as <- <- <-; try by apply Hno.
    apply Hno, not_elem_of_dom. rewrite (store_u64_dom _ _ _ _ Es). by apply not_elem_of_dom.
  - destruct (num =? SYS_OPEN); [|by apply HM].
    destruct (list_find _ files) as [[i e]|]; injection H as <- <- <-; by apply Hno.
  - destruct (num =? SYS_MMAP); [|by apply HM]. destruct (table_opened files a4) as [bs|]; [|injection H as <- <- <-; by apply Hno].
    destruct (Z.leb_spec (file_base m + round_page 4096 (zlen bs)) (2 ^ 63)); injection H as <- <- <-; [|by apply Hno].
    apply lookup_union_is_Some in Hs as [Hs|Hs]; [rewrite Hx in Hs; by destruct Hs|].
    rewrite mem_of_lookup in Hs. case_bool_decide as Hr; [|by destruct Hs].
    rewrite padded_length in Hr by (apply round_page_4096; len).
    unfold file_base in *. lia.
Qed.

Lemma machine_program_whole files sp :
  @whole_laws (machine_program files) string_area sp 0x1000.
Proof.
  split.
  - intros [k h] m a regs k' m' [= _ <-]. done.
  - intros [k h] m mh k' m' [= _ <-]. done.
  - intros [k h] m s k' m' p Hs [= _ <- _] x b [Hq _] Hb. unfold string_area in Hq.
    rewrite lookup_union_r; [done|]. rewrite mem_of_lookup, bool_decide_false; [done|]. lia.
  - intros [k h] m num args k' m' [v e] x Hn (k1 & H & ->)%recording_svc Hx Hs.
    pose proof (with_disk_maps files k m num args k1 m' (v, e) x Hn H Hx Hs). unfold string_area. lia.
Qed.

#[local] Existing Instance scroll_ref.
#[local] Existing Instance dev_profile.

Definition whole_files : list (bytes * bytes) := [(bstr "/d", example_dylib_bytes)].
Definition whole_machine : Machine := machine_program whole_files.

Lemma whole_files_ok : disk_ok whole_files.
Proof. split; [done|]. constructor; [|constructor]. split; [apply no_nul_dec; vm_compute; reflexivity|done]. Qed.

Lemma whole_file path bs : table_file whole_files path = Some bs -> bs = example_dylib_bytes.
Proof. unfold table_file, whole_files. cbn [list_find]. destruct (decide _); [|done]. by intros [= <-]. Qed.

Lemma whole_files_small path bs : table_file whole_files path = Some bs -> zlen bs < 0x1000.
Proof. intros ->%whole_file. vm_compute. reflexivity. Qed.

Lemma example_dylib_links path image : image_of (table_file whole_files) path image -> can_link 4096 image false.
Proof.
  intros [Hd%whole_file He] p segs Hp Hs. rewrite (container_eta image He), Hd in Hp.
  assert (macho_parser (with_bytes (Mk_slice (s_ptr (data image)) example_dylib_bytes) Little) =
    Ok example_dylib_parsed) as H by (vm_compute; reflexivity).
  rewrite H in Hp. apply Ok_inj in Hp as <-.
  destruct example_dylib_ok as (_ & Hsegs & Hf). rewrite Hsegs in Hs. apply Ok_inj in Hs as <-.
  destruct example_dylib_loadable as [H1 H2 H3 H4 H5 H6 H7]. rewrite Hf, Hd.
  split; [exact H1|exact H2|exact H3| |exact H5|exact H6|exact H7].
  eapply Forall_impl; [exact H4|]. intros s [? Hs]. split; [done|]. eapply Z.le_trans; [exact Hs|]. vm_compute. discriminate.
Qed.

Lemma client_links : can_link 4096 client false.
Proof.
  intros p segs Hp Hs.
  assert (exists p', macho_parser client = Ok p' /\ fixups p' = [] /\
    deref (segments p') = @Ok string _ [{| prot := 5; vm_addr := 0; file_offset := 0; vm_size := 131 |}]) as
    (p' & Hp' & Hf & Hs') by (eexists; vm_compute; split_and!; reflexivity).
  rewrite Hp' in Hp. apply Ok_inj in Hp as <-. rewrite Hs' in Hs. apply Ok_inj in Hs as <-. rewrite Hf.
  assert (zlen (padded 4096 (raw client)) = 4096) as Hz by (vm_compute; reflexivity).
  split; unfold extent; cbn [foldr vm_addr vm_size file_offset].
  - constructor; [|constructor]. unfold segment_fits. cbn. lia.
  - eexists. split; [by left|done].
  - lia.
  - rewrite Hz. constructor; [|constructor]. cbn. lia.
  - constructor; constructor.
  - constructor.
  - constructor.
Qed.

Definition whole_run : @world whole_machine * result (Z * Z) :=
  @macho_loader scroll_ref dev_profile whole_machine 2 cache_new client (bstr "/bin") (Some (bstr "r"))
    (program_world whole_files).

Lemma whole_runs :
  snd whole_run = Ok (0x50102000, 131) /\ load_u64 (w_mem (fst whole_run)) 0x50101110 = Some 0x50101040.
Proof. vm_compute. split; reflexivity. Qed.

Lemma client_placed : placed 4096 string_area 0x8000 program_memory client.
Proof.
  assert (zlen (padded 4096 client_bytes) = 4096) as Hz by (vm_compute; reflexivity).
  unfold placed. change (raw client) with client_bytes. change (s_ptr (data client)) with 0x10000. split.
  - split; [change (s_ptr (data client)) with 0x10000; apply mem_of_buffer; rewrite ?Hz; lia|]. unfold ranges_disjoint. change (s_ptr (data client)) with 0x10000.
    rewrite Hz. lia.
  - rewrite Hz. intros x Hx. unfold quiet, string_area. change stack_size with 144. lia.
Qed.

(** The client and the dylib are in memory, and the dylib's pointer is rebased. *)
Lemma program_in_memory_witness :
  @whole_laws whole_machine string_area 0x8000 0x1000 /\
  @program_laws whole_machine snd (fun _ => table_file whole_files) /\
  can_link 4096 client false /\
  exists w' t, whole_run = (w', Ok (0x50102000, 131)) /\ root_vm t = 0x50102000 /\
    loads_as (table_file whole_files) cache_new (bstr "/bin") client t /\
    in_memory 4096 string_area 0x8000 (table_file whole_files) cache_new (w_mem w') client_bytes false t /\
    load_u64 (w_mem w') 0x50101110 = Some 0x50101040.
Proof.
  pose proof (machine_program_whole whole_files 0x8000) as Hwh.
  pose proof (machine_program_laws whole_files) as Hl.
  pose proof (recording_vm_laws _ 4096 (with_disk_vm_laws machine_vm whole_files 4096 machine_vm_laws)) as Hvm.
  split; [exact Hwh|]. split; [exact Hl|]. split; [exact client_links|].
  destruct whole_runs as [Hr Hload]. destruct whole_run as [w' r] eqn:E. cbn [fst snd] in Hr, Hload. subst r.
  destruct (@program_in_memory scroll_ref _ dev_profile whole_machine string_area 0x8000 0x1000 4096 Hvm Hwh snd
    (machine_program_history whole_files) _ Hl _ (machine_program_files whole_files whole_files_ok)
    (table_file whole_files) cache_new (bstr "/bin") ltac:(lia) ltac:(split; [apply bin_ok|reflexivity])
    whole_files_small 2 client (Some (bstr "r")) (program_world whole_files) w' (0x50102000, 131)
    (Build_ready _ _ _ (program_world whole_files) eq_refl program_stack (fun _ => eq_refl)) eq_refl
    client_placed client_links (fun _ path i _ _ Hi => example_dylib_links path i Hi) E) as (t & Ht & Hv & Hin & _).
  exists w', t. split; [reflexivity|]. split; [by rewrite <- Hv|]. split; [exact Ht|]. split; [exact Hin|exact Hload].
Defined.
