(* ===== verification/Total.v ===== *)
(** Loading a program comes to an end.

    [sound_program] says of an image, and of the files on disk below it, that they
    parse, that their segments and fixups can be linked, and that the dependencies
    come to an end, at a given depth. Whatever the kernel then answers, loading
    such a program neither faults nor runs for ever: it succeeds, or stops because
    the kernel refuses a request or a bind has no definition ([stops]). *)
From S2P Require Import Prelude Scroll Bindings Container ArrayVec Memory Kernel VM Files Image.
From S2P Require Import SharedCache Fixups Binding Loader WellFormed Finalize Program Linking Whole.

Section Total.
Context `{SL : ScrollLaws} {bp : BuildProfile} {M : Machine}.
Context (others : Z -> Prop) (sp limit page : Z) (vm : vm_laws page) (whole : whole_laws others sp limit).
Context (history : kstate -> list event) (hist : history_laws history).
Context (file : kstate -> bytes -> option bytes) (laws : program_laws history file).
Context (opened : kstate -> Z -> option bytes) (files : files_laws page file opened).
Context (disk : bytes -> option bytes) (cache : DyldSharedCache) (exec_dir : bytes).
Hypothesis limit_ok : limit <= 2 ^ 61.
Hypothesis dir_ok : name_within limit exec_dir.
Hypothesis disk_small : forall path bs, disk path = Some bs -> zlen bs < limit.
Abbreviation ready := (ready file disk sp).

(** ** Programs that can be loaded *)

(** No more than [n] images lie on a path of dependencies from this one. *)
Fixpoint sound_program (n : nat) (image : Container) (exe : bool) : Prop :=
  match n with
  | O => False
  | S n => exists p libs segs,
      macho_parser image = Ok p /\
      deref (pi_libraries p) = @Ok string _ libs /\ zlen libs <= 32 /\
      deref (segments p) = @Ok string _ segs /\
      loadable (padded page (raw image)) segs (fixups p) exe (image_base exe) /\
      (forall name, name ∈ fst <$> libs -> is_library_cached cache name = false ->
         exists path, on_disk cache exec_dir (rpath p) name path /\
           forall image', image_of disk path image' -> sound_program n image' false)
  end.

Lemma sound_links n image exe : sound_program n image exe -> can_link page image exe.
Proof.
  destruct n as [|n]; [done|]. intros (p & libs & segs & Hp & _ & _ & Hs & Hl & _) p' segs' Hp' Hs'.
  rewrite Hp in Hp'. apply Ok_inj in Hp' as <-. rewrite Hs in Hs'. by apply Ok_inj in Hs' as <-.
Qed.

Lemma sound_below n image exe path dylib :
  sound_program (S n) image exe -> needs cache exec_dir image path -> image_of disk path dylib ->
  sound_program n dylib false.
Proof.
  intros (p & libs & segs & Hp & Hl & _ & _ & _ & Hd) (p' & libs' & name & Hp' & Hl' & Hn & Ho) Hi.
  rewrite Hp in Hp'. apply Ok_inj in Hp' as <-. rewrite Hl in Hl'. apply Ok_inj in Hl' as <-.
  destruct (Hd name Hn (proj1 Ho)) as (path' & Ho' & H). rewrite <- (on_disk_unique _ _ _ _ _ _ Ho Ho') in H. by apply H.
Qed.

Lemma sound_dylibs_link n image exe : sound_program n image exe -> dylibs_link page disk cache exec_dir image.
Proof.
  intros Hs i path dylib Hpart. revert n exe Hs; induction Hpart as [i|i path' i' i'' Hn Hi _ IH]; intros n exe Hs.
  - intros Hn Hi. destruct n as [|n]; [done|]. eapply sound_links. by eapply sound_below.
  - destruct n as [|n]; [done|]. eapply IH. by eapply sound_below.
Qed.

(** ** How loading stops *)

Definition refusals : list string :=
  ["could not open path"; "could not stat cache file"; "could not mmap cache file"; "failed to vm_alloc_task_self";
   "could not apply vm protections to a memory region"]%string.

Definition void {A} (o : outcome string A) : outcome string unit := let* _ := o in Ok tt.

(** The first fixup of some image of the program that stands for no pointer, with
    the images below it in memory: resolving it gives an error or a panic. *)
Definition unbound (image : Container) (o : outcome string unit) : Prop :=
  exists image' p at_address exe segs m ds libs, part_of disk cache exec_dir image image' /\
    loads_as disk cache exec_dir image' (Loaded at_address p segs ds) /\
    forest_in_memory page others sp disk cache m ds libs /\
    o = void (fixup_pointers at_address (image_base exe) (symbols p) libs (Some cache) false (fixups p)) /\
    ends o /\ o <> Ok tt.

Definition stops (image : Container) (o : outcome string unit) : Prop :=
  (exists e, o = Err e /\ e ∈ refusals) \/ unbound image o.

Lemma stops_ends image o : stops image o -> ends o.
Proof. by intros [(e & -> & _)|(? & ? & ? & ? & ? & ? & ? & ? & _ & _ & _ & _ & H & _)]. Qed.

(** The names a parsed image mentions are text. *)
Lemma parsed_names image p :
  rust_slice (raw image) -> macho_parser image = Ok p -> Forall named (symbols p) /\ Forall fixup_named (fixups p).
Proof.
  intros Hs Hp. split; [|by apply parsed_fixups_named in Hp]. apply (parsed_image_typed image Hs) in Hp as [_ _ _ Hsym _ _].
  eapply Forall_impl; [exact Hsym|]. intros s (_ & _ & _ & t & Ht & _). by exists t.
Qed.

Lemma stops_below image path image' o :
  needs cache exec_dir image path -> image_of disk path image' -> stops image' o -> stops image o.
Proof.
  intros Hn Hi [H|(i & p & v & exe & segs & m & ds & libs & Hpart & H)]; [by left|]. right.
  exists i, p, v, exe, segs, m, ds, libs. split; [by eapply part_below|exact H].
Qed.

(** A run either goes on to [Q] or stops the loading of the image. *)
Definition ends_well {A} (image : Container) (Q : world -> A -> Prop) (r : world * outcome string A) : Prop :=
  match snd r with Ok a => Q (fst r) a | o => stops image (void o) end.

Lemma ends_well_bind {A B} image (m : io string A) (f : A -> io string B) Q w :
  ends_well image (fun w' a => ends_well image Q (f a w')) (m w) -> ends_well image Q (io_bind m f w).
Proof. unfold ends_well, io_bind. by destruct (m w) as [w' [a|e|y| |]]. Qed.

Lemma ends_Ok {A} image (Q : world -> A -> Prop) w w' a : w = (w', Ok a) -> Q w' a -> ends_well image Q w.
Proof. by intros ->. Qed.

Lemma ends_refused {A} image (Q : world -> A -> Prop) r e : snd r = Err e -> e ∈ refusals -> ends_well image Q r.
Proof. unfold ends_well. intros -> He. left. eauto. Qed.

Lemma ends_weaken {A} image (Q R : world -> A -> Prop) r :
  (forall w a, r = (w, Ok a) -> Q w a -> R w a) -> ends_well image Q r -> ends_well image R r.
Proof. unfold ends_well. destruct r as [w [a|e|y| |]]; cbn; auto. Qed.

(** ** Each part comes to an end *)

Lemma disk_image_ends image path w :
  ~ x00 ∈ path -> zlen path < 2 * limit -> ready w ->
  ends_well image (fun w' c => ready w' /\ image_of disk path c /\ placed page others sp (w_mem w') c)
    ((let! s := string_slice (path ++ [x00]) in disk_path_mmap s) w).
Proof.
  intros Hnul Hlen Hw. set (run := io_bind _ _ w).
  assert (ends_well image (fun _ _ => True) run) as Hrun.
  { unfold run, io_bind, string_slice.
    destruct (alloc_string (w_kernel w) (w_mem w) (path ++ [x00])) as [[k m] p] eqn:Ea.
    assert (zlen (path ++ [x00]) < 2 ^ 63) as Hs by len.
    destruct (pl_string _ _ laws _ _ _ _ _ _ Hs Ea) as (Hl & _ & _ & Hm). rewrite length_app, Nat.add_1_r in Hl.
    destruct (disk_path_mmap_run page file opened files p path (set_kernel w k m) Hl Hnul) as (w2 & r & -> & _ & Hc).
    { apply Hm. pose proof (rd_stack _ _ _ _ Hw) as H. by rewrite <- (rd_sp _ _ _ _ Hw) in H. }
    destruct r as [c|e|y| |]; [exact I| |done..]. eapply ends_refused; [reflexivity|].
    destruct Hc as [->|[->| ->]]; repeat (left || right). }
  eapply ends_weaken; [|exact Hrun]. intros w' c E _.
  destruct (disk_image_lands others sp limit page vm whole history hist file laws opened files disk limit_ok disk_small
    path w w' c Hnul Hlen Hw E) as (? & _ & ? & ?). done.
Qed.

(** What a run of the loader leaves, for an image that is then read *)
Definition loaded_at (w : world) (r : Z * Z) : Prop := ready w /\ mapped (w_mem w) (fst r) (snd r).

Lemma load_loop_ends load image p names loaded w :
  (forall path image' dd w, needs cache exec_dir image path -> image_of disk path image' ->
     ready w -> placed page others sp (w_mem w) image' -> ends_well image loaded_at (load image' dd w)) ->
  (forall name, name ∈ names -> is_library_cached cache name = false ->
     exists path, on_disk cache exec_dir (rpath p) name path /\ needs cache exec_dir image path) ->
  Forall (name_within limit) names -> ready w ->
  ends_well image (fun _ _ => True)
    (user_dylibs_load_loop load ((fun n => (n, is_library_cached cache n)) <$> names) exec_dir (rpath p) loaded w).
Proof.
  intros Hload Hdisk Hn. revert loaded w; induction Hn as [|name names Hname _ IH]; intros loaded w Hw;
    cbn [fmap list_fmap user_dylibs_load_loop]; [exact I|].
  assert (forall name, name ∈ names -> is_library_cached cache name = false ->
    exists path, on_disk cache exec_dir (rpath p) name path /\ needs cache exec_dir image path) as Hdisk'
    by (intros n Hin; apply Hdisk; by right).
  destruct (is_library_cached cache name) eqn:Ec; [by apply IH|].
  destruct (Hdisk name ltac:(by left) Ec) as (path & [_ Hpath] & Hneeds).
  destruct (resolve_ok _ _ _ _ _ Hname dir_ok Hpath) as (path' & Heq & Hnul & Hlen). apply app_inv_tail in Heq as <-.
  rewrite (io_bind_lift _ _ _ _ Hpath), io_bind_assoc. apply ends_well_bind.
  eapply ends_weaken; [|by apply disk_image_ends]. intros w2 c _ (Hw2 & Hi & Hpl). apply ends_well_bind.
  eapply ends_weaken; [|by eapply Hload]. intros w3 [v size] _ [Hw3 Hm].
  assert (exists bs, load_bytes (w_mem w3) v (Z.to_nat size) = Some bs) as [bs Hbs].
  { destruct (Z.le_gt_cases 0 size); [|replace (Z.to_nat size) with 0%nat by lia; by exists []].
    destruct (load_bytes_mapped (w_mem w3) v (Z.to_nat size)) as (bs & Hbs & _); [by rewrite Z2Nat.id|by exists bs]. }
  unfold io_bind, reading, from_raw_parts. rewrite Hbs. by apply IH.
Qed.

(** The program's code unmaps nothing. *)
Context (call_maps : forall k m a regs k' m', call_code k m a regs = (k', m') -> dom m ⊆ dom m').
Context (tlv_maps : forall k m mh k' m', tlv_initialize_descriptors_export k m mh = (k', m') -> dom m ⊆ dom m').

Lemma image_finalize_ends image v p exe segs w n :
  ready w -> deref (segments p) = @Ok string _ segs -> mapped (w_mem w) v n ->
  ends_well image (fun w' _ => ready w' /\ mapped (w_mem w') v n) (image_finalize v p exe w).
Proof.
  intros Hw Hsegs Hm.
  destruct (image_finalize_steps page vm history hist v p exe segs w (ready_stack8 sp file disk w Hw) Hsegs)
    as (w' & _ & [[H _]|[H _]]); [|eapply ends_refused; [by rewrite H|repeat (left || right)]].
  eapply ends_Ok; [exact H|].
  assert (PreOrder (fun m m' : memory => dom m ⊆ dom m')) by (split; [by intros m|intros m1 m2 m3; by transitivity (dom m2)]).
  assert (forall m m' : memory, dom m' = dom m -> (forall x, ~ sp <= x < sp + 8 -> m' !! x = m !! x) -> dom m ⊆ dom m')
    as Hslot by (by intros m m' ->).
  destruct (calm_image_finalize sp page vm history hist file laws disk (fun m m' => dom m ⊆ dom m') call_maps tlv_maps
    Hslot v p exe w w' tt Hw H) as [Hw' Hd].
  split; [exact Hw'|]. destruct Hm as (? & ? & Hm). split; [done|]. split; [done|]. intros a Ha.
  apply elem_of_dom, Hd, elem_of_dom. by apply Hm.
Qed.

(** Linking an image that is in memory, and finishing it *)
Lemma link_ends image exe p segs libs w (result : Z -> Z -> Z * Z) ds m0 :
  (forall v, loads_as disk cache exec_dir image (Loaded v p segs ds)) -> deref (segments p) = @Ok string _ segs ->
  loadable (padded page (raw image)) segs (fixups p) exe (image_base exe) ->
  Forall named (symbols p) /\ Forall fixup_named (fixups p) ->
  ready w -> placed page others sp (w_mem w) image -> forest_in_memory page others sp disk cache m0 ds libs ->
  ends_well image (fun w' r => exists v, r = result v (extent segs) /\ ready w' /\ mapped (w_mem w') v (extent segs))
    (io_bind (macho_segments_map_to_vm exe image segs) (fun '(v, size) =>
       io_bind (image_fixups_apply v p libs cache exe) (fun _ =>
         io_bind (image_finalize v p exe) (fun _ => ret (result v size)))) w).
Proof.
  intros Hp Hsegs Hld [Hsyms Hfix] Hw [Himg _] Hds. pose proof (rd_sp _ _ _ _ Hw) as Hsp.
  destruct (link_image_run page vm exe image (padded page (raw image)) segs p libs cache w
    (fun v size => io_bind (image_finalize v p exe) (fun _ => ret (result v size))) Hld (ready_stack8 sp file disk w Hw)
    ltac:(by rewrite Hsp)) as (w2 & r & Hr & _ & H).
  destruct (emits_vm_alloc history file hist laws disk sp (extent segs) w w2 r Hw Hr) as [Hw2 _].
  destruct r as [v|e]; [|eapply ends_refused; [by rewrite H|repeat (left || right)]].
  destruct H as (_ & _ & H).
  pose proof (fixup_pointers_ends v (image_base exe) (symbols p) libs cache (fixups p) Hsyms Hfix) as Hends.
  destruct (fixup_pointers v (image_base exe) (symbols p) libs (Some cache) false (fixups p)) as [ps|e|y| |] eqn:Eps.
  2-5: unfold ends_well; rewrite H; right; exists image, p, v, exe, segs, m0, ds, libs;
    (split; [constructor|]); (split; [apply Hp|]); rewrite Eps; done.
  destruct H as (m & _ & Hd & Hm & ->). apply ends_well_bind.
  assert (ready (set_mem w2 m)) as Hwm.
  { destruct Hw2 as [? Hst ?]. split; [done| |done]. by eapply mapped_dom. }
  eapply ends_weaken; [|exact (image_finalize_ends image v p exe segs _ _ Hwm Hsegs Hm)]. intros w3 [] _ [Hw3 Hm3]. by exists v.
Qed.

(** ** The loader comes to an end *)

(** The dylibs that are loaded, where loading the images below them comes to an end *)
Lemma dylibs_land fuel image p libs names w w1 dylibs :
  dylibs_link page disk cache exec_dir image ->
  (forall name path, name ∈ names -> on_disk cache exec_dir (rpath p) name path -> needs cache exec_dir image path) ->
  Forall (name_within limit) names -> ready w ->
  user_dylibs_load_loop (fun image path => macho_loader fuel cache image exec_dir (Some path))
    ((fun n => (n, is_library_cached cache n)) <$> names) exec_dir (rpath p) libs w = (w1, Ok dylibs) ->
  ready w1 /\ keeps others sp (w_mem w) (w_mem w1) /\
    exists ds dylibs', dylibs = libs ++ dylibs' /\ depends_as disk cache exec_dir (rpath p) names ds /\
      forest_in_memory page others sp disk cache (w_mem w1) ds dylibs'.
Proof.
  intros Hlinks Hneeds Hnames Hw Hloop.
  apply (load_loop_lands others sp limit page vm whole history hist file laws opened files disk cache exec_dir
    limit_ok dir_ok disk_small image) in Hloop as (Hw1 & Hk1 & ds & libs' & -> & Hds & Hm); [|exact Hneeds| |exact Hnames|exact Hw].
  2: { intros i path dd' v v' r Hn Hv Hi Hplv Hr.
    destruct (macho_loader_lands others sp limit page vm whole history hist file laws opened files disk cache exec_dir
      limit_ok dir_ok disk_small fuel i (Some dd') v v' r Hv (disk_small path _ (proj1 Hi)) Hplv
      (Hlinks _ _ _ (part_self _ _ _ _) Hn Hi) (dylibs_link_below _ _ _ _ _ _ _ Hn Hi Hlinks) Hr) as (Hv' & t & Ht & Hsz & Hpos).
    rewrite <- (Hsz ltac:(done)) in Hpos. split; [done|]. exists t. split_and!; [exact Ht|by apply Hsz|done]. }
  split; [exact Hw1|]. split; [exact Hk1|]. by exists ds, libs'.
Qed.

Lemma macho_loader_ends n image dd fuel w :
  sound_program n image (is_none dd) -> (n <= fuel)%nat -> zlen (raw image) < limit ->
  ready w -> placed page others sp (w_mem w) image ->
  ends_well image (fun w' r => ready w' /\ (dd <> None -> mapped (w_mem w') (fst r) (snd r)))
    (macho_loader fuel cache image exec_dir dd w).
Proof.
  revert image dd fuel w; induction n as [|n IH]; [done|]. intros image dd [|fuel] w Hsound Hle Hs Hw Hpl; [lia|].
  pose proof Hsound as (p & libs & segs & Hp & Hlibs & Hcount & Hsegs & Hld & Hdisk). cbn [macho_loader].
  change (match dd with None => true | Some _ => false end) with (is_none dd).
  assert (Forall named (symbols p) /\ Forall fixup_named (fixups p)) as Hnamed
    by (apply (parsed_names image); [unfold rust_slice; lia|exact Hp]).
  pose proof (dependencies_collect_spec p cache libs Hlibs) as Hdeps. rewrite (proj2 (Z.leb_le _ _) Hcount) in Hdeps.
  destruct Hdeps as (dv & Hdv & Hderef).
  rewrite (io_bind_lift _ _ _ _ Hp), (io_bind_lift _ _ _ _ Hdv), (io_bind_lift _ _ _ _ Hderef).
  assert (((fun lib : bytes * Z => (fst lib, is_library_cached cache (fst lib))) <$> libs) =
    (fun n => (n, is_library_cached cache n)) <$> (fst <$> libs)) as -> by (by rewrite <- list_fmap_compose).
  pose proof (library_names_ok limit image p libs limit_ok Hs Hp Hlibs) as Hnames.
  assert (forall name path, name ∈ fst <$> libs -> on_disk cache exec_dir (rpath p) name path ->
    needs cache exec_dir image path) as Hneeds by (intros name path Hin Ho; by exists p, libs, name).
  apply ends_well_bind. eapply ends_weaken; [|apply load_loop_ends; [| |exact Hnames|exact Hw]].
  2: { intros path i dd' v Hn Hi Hv Hplv. pose proof (sound_below _ _ _ _ _ Hsound Hn Hi) as Hi'.
    pose proof (IH i (Some dd') fuel v Hi' ltac:(lia) (disk_small path _ (proj1 Hi)) Hv Hplv) as H.
    revert H. unfold ends_well. destruct (macho_loader fuel cache i exec_dir (Some dd') v) as [v' [r|e|y| |]]; cbn;
      [intros [Hv' Hm]; split; [done|by apply Hm]|by apply stops_below with path..]. }
  2: { intros name Hin Hc. destruct (Hdisk name Hin Hc) as (path & Ho & _). exists path. split; [done|by eapply Hneeds]. }
  intros w1 libs' Hloop _.
  assert (dylibs_link page disk cache exec_dir image) as Hlinks by (by eapply sound_dylibs_link).
  destruct (dylibs_land _ _ _ _ _ _ _ _ Hlinks Hneeds Hnames Hw Hloop) as (Hw1 & Hk1 & ds & libs2 & -> & Hds & Hm).
  rewrite (io_bind_lift _ _ _ _ Hsegs).
  assert (forall v, loads_as disk cache exec_dir image (Loaded v p segs ds)) as Htree by (intros v; by econstructor).
  pose proof (link_ends image (is_none dd) p segs ([] ++ libs2) w1 (fun v size => match dd with
    | Some _ => (v, size)
    | None => (v, ptr_add (ptr_add v (entry_point p)) PAGE_ZERO_SIZE)
    end) ds _ Htree Hsegs Hld Hnamed Hw1 (placed_keeps _ _ _ _ _ _ Hk1 Hpl) Hm) as Hend.
  destruct dd; (eapply ends_weaken; [|exact Hend]); by intros w' r _ (v & -> & Hw' & Hmap).
Qed.

(** C3 Loading a program comes to an end, and not in a fault: if its images parse
    and can be linked, and its dependencies come to an end at some depth, then with
    at least that much fuel [macho_loader] ends, with a value, an error or a panic
    ([ends]): no access leaves mapped memory and no loop runs for ever. It succeeds,
    unless the kernel refuses to
    open, examine, map, allocate or protect something, or some image of the
    program has a fixup that stands for no pointer when it is resolved in the images
    below it. Then the loader ends with the message of that refusal, or with the
    error or panic that resolving that fixup gives. *)
Theorem program_load_ends n image dd fuel w :
  sound_program n image (is_none dd) -> (n <= fuel)%nat -> zlen (raw image) < limit ->
  ready w -> placed page others sp (w_mem w) image ->
  let outcome := snd (macho_loader fuel cache image exec_dir dd w) in
  ends outcome /\
  match outcome with
  | Ok _ => True
  | o => stops image (void o)
  end.
Proof.
  intros Hs Hn Hl Hw Hp. pose proof (macho_loader_ends n image dd fuel w Hs Hn Hl Hw Hp) as H.
  unfold ends_well in H. destruct (snd _); (split; [|exact H || exact I]); try exact I;
    by apply stops_ends in H.
Qed.
End Total.

(** ** An example

    The client of [Program] with the dylib of [Whole], and without it *)
#[local] Existing Instance scroll_ref.
#[local] Existing Instance dev_profile.

Lemma client_sound files :
  (forall path image, image_of (table_file files) path image -> sound_program 4096 (table_file files) cache_new (bstr "/bin") 1 image false) ->
  sound_program 4096 (table_file files) cache_new (bstr "/bin") 2 client false.
Proof.
  intros Hd.
  assert (exists p' segs, macho_parser client = Ok p' /\ deref (pi_libraries p') = @Ok string _ [(bstr "/d", 24)] /\
    deref (segments p') = @Ok string _ segs /\ user_dylib_disk_path_resolve (bstr "/d") (rpath p') (bstr "/bin") =
      @Ok string _ (bstr "/d" ++ [x00])) as (p' & segs & Hp & Hl & Hs & Hr)
    by (eexists _, _; vm_compute; split_and!; reflexivity).
  cbn [sound_program]. exists p', [(bstr "/d", 24)], segs. split; [exact Hp|]. split; [exact Hl|]. split; [discriminate|].
  split; [exact Hs|]. split; [exact (client_links _ _ Hp Hs)|]. intros name Hn Hc. apply list_elem_of_singleton in Hn as ->.
  exists (bstr "/d"). split; [by split|]. intros image Hi. by eapply Hd.
Qed.

Lemma example_dylib_sound path image :
  image_of (table_file whole_files) path image ->
  sound_program 4096 (table_file whole_files) cache_new (bstr "/bin") 1 image false.
Proof.
  intros Hi. pose proof (example_dylib_links path image Hi) as Hlink. destruct Hi as [Hd%whole_file He].
  assert (macho_parser image = Ok example_dylib_parsed) as Hp.
  { rewrite (container_eta image He), Hd. vm_compute. reflexivity. }
  assert (deref (pi_libraries example_dylib_parsed) = @Ok string _ []) as Hl by (vm_compute; reflexivity).
  destruct example_dylib_ok as (_ & Hsegs & _). cbn [sound_program].
  exists example_dylib_parsed, [], example_dylib_segments. split; [exact Hp|]. split; [exact Hl|].
  split; [discriminate|]. split; [exact Hsegs|]. split; [exact (Hlink _ _ Hp Hsegs)|].
  intros name Hn _. destruct (not_elem_of_nil name Hn).
Qed.

Definition no_dylib_run : @world (machine_program []) * result (Z * Z) :=
  @macho_loader scroll_ref dev_profile (machine_program []) 2 cache_new client (bstr "/bin") (Some (bstr "r"))
    (program_world []).

(** With its dylib the client is loaded; without it the loader says so. *)
Lemma program_load_ends_witness :
  sound_program 4096 (table_file whole_files) cache_new (bstr "/bin") 2 client false /\
  (forall o, snd (@macho_loader scroll_ref dev_profile whole_machine 2 cache_new client (bstr "/bin") (Some (bstr "r"))
       (program_world whole_files)) = o ->
     ends o /\
     match o with
     | Ok _ => True
     | o' => stops string_area 0x8000 4096 (table_file whole_files) cache_new (bstr "/bin") client (void o')
     end) /\ snd whole_run = Ok (0x50102000, 131) /\
  snd no_dylib_run = Err "could not open path"%string.
Proof.
  assert (sound_program 4096 (table_file whole_files) cache_new (bstr "/bin") 2 client false) as Hsound
    by exact (client_sound whole_files example_dylib_sound).
  split; [exact Hsound|]. split; [|split; [apply whole_runs|vm_compute; reflexivity]].
  pose proof (@program_load_ends scroll_ref _ dev_profile whole_machine string_area 0x8000 0x1000 4096
    (recording_vm_laws _ 4096 (with_disk_vm_laws machine_vm whole_files 4096 machine_vm_laws))
    (machine_program_whole whole_files 0x8000) snd (machine_program_history whole_files) _ (machine_program_laws whole_files)
    _ (machine_program_files whole_files whole_files_ok) (table_file whole_files) cache_new (bstr "/bin") ltac:(lia)
    ltac:(split; [apply bin_ok|reflexivity]) whole_files_small
    ltac:(intros [k h] m a regs k' m' [= _ <-]; done) ltac:(intros [k h] m mh k' m' [= _ <-]; done)
    2 client (Some (bstr "r")) 2 (program_world whole_files) Hsound ltac:(lia) eq_refl
    (Build_ready _ _ _ (program_world whole_files) eq_refl program_stack (fun _ => eq_refl)) client_placed) as H.
  intros o Ho. cbv zeta in H. rewrite Ho in H. exact H.
Defined.
