(* ===== verification/Entrypoint.v ===== *)
(** The entry points: [src/main.rs] and [src/entrypoint.rs].

    [start] rebases the linker's own image and keeps its binds for later
    ([rebase_self_and_extract_bind_fixups]); [dynld_entrypoint] finds the arm64
    image, attaches the shared cache, binds the linker's own thread-local
    functions, loads the program and jumps to it. *)
From S2P Require Import Prelude Scroll Bindings Container ArrayVec Memory Kernel VM Printing Files Image.
From S2P Require Import SharedCache Fixups Loader.

(** ** Paths *)

(** [path.rfind('/')] *)
Fixpoint rfind_slash (path : bytes) : option nat :=
  match path with
  | [] => None
  | b :: r =>
      match rfind_slash r with
      | Some i => Some (S i)
      | None => if bool_decide (b = x2f) then Some O else None
      end
  end.

Definition dir_of (path : bytes) : bytes :=
  match rfind_slash path with
  | Some O => [x2f]
  | Some i => take i path
  | None => [x2e]
  end.

(** [while *arg0.add(len) != 0]; a string that does not go round the address
    space has at most one character per mapped byte. *)
Fixpoint strlen_loop {E} (fuel : nat) (m : memory) (arg0 len : Z) : outcome E Z :=
  match fuel with
  | O => Diverge
  | S k =>
      match m !! ptr_add arg0 len with
      | None => Fault
      | Some b => if bool_decide (b = x00) then Ok len else strlen_loop k m arg0 (len + 1)
      end
  end.

Definition argv0 {E} (m : memory) (argv : Z) : outcome E (option bytes) :=
  match load_u64 m argv with
  | None => Fault
  | Some arg0 =>
      if arg0 =? 0 then Ok None
      else
        let* len := strlen_loop (S (base.size m)) m arg0 0 in
        let* s := from_raw_parts m arg0 len in
        Ok (if from_utf8_ok (s_bytes s) then Some (s_bytes s) else None)
  end.

Definition exe_dir {E} (m : memory) (argv : Z) : outcome E (option bytes) :=
  let* path := argv0 m argv in Ok (option_map dir_of path).

(** ** The image of the right architecture *)

Section Entry.
Context {sc : Scroll} {bp : BuildProfile} {M : Machine}.

(** [read_unaligned] of a [mach_magic]; another value is not one of the type,
    and reading it is undefined. *)
Definition read_magic {E} (m : memory) (p : Z) : outcome E mach_magic :=
  match load_bytes m p 4 with
  | Some bs => match mach_magic_of_discr (le_val bs) with Some v => Ok v | None => Fault end
  | None => Fault
  end.

Definition is_arm64_header (h : mach_header_64) : bool :=
  bool_decide (mh_magic h = MH_MAGIC_64) && (mh_cputype h =? CPU_TYPE_ARM64).

(** [r.unwrap()] *)
Definition unwrap {E A} (r : outcome unit A) : outcome E A :=
  let* a := as_option r in or_panic "called `Result::unwrap()` on an `Err` value" a.

(** The closure of [filter_map] *)
Definition fat_slice {E} (m : memory) (c : Container) (index : Z) : outcome E (option Container) :=
  let offset := size_of fat_header + index * size_of fat_arch in
  let* arch := as_option (deserialize_type_at_offset fat_arch c offset) in
  match arch with
  | Some arch =>
      match container_slice c (fa_offset arch) (fa_size arch) with
      | Some bytes =>
          let* magic := read_magic m (s_ptr bytes) in
          Ok (Some (with_bytes bytes (macho_endian_from_magic magic)))
      | None => Ok None
      end
  | None => Ok None
  end.

(** [.find(..)] over the [n] slices from [index] on *)
Fixpoint fat_find {E} (n : nat) (m : memory) (c : Container) (index : Z) : outcome E (option Container) :=
  match n with
  | O => Ok None
  | S k =>
      let* slice := fat_slice m c index in
      match slice with
      | Some container =>
          let* h := as_option (deserialize_type_at_offset mach_header_64 container 0) in
          if match h with Some h => is_arm64_header h | None => false end
          then Ok (Some container)
          else fat_find k m c (index + 1)
      | None => fat_find k m c (index + 1)
      end
  end.

(** The slice it calls itself on is an arm64 image, so two levels are enough. *)
Fixpoint arm64_container_create_fuel (fuel : nat) (m : memory) (c : Container) : result Container :=
  match fuel with
  | O => Diverge
  | S k =>
      let* header := unwrap (deserialize_type_at_offset mach_header_64 c 0) in
      if is_arm64_header header then Ok c
      else if negb (bool_decide (mh_magic header = FAT_MAGIC)) then
        Err "Not a valid ARM64 Mach-O or fat binary"
      else
        let* fat_header := unwrap (deserialize_type_at_offset fat_header c 0) in
        let* found := fat_find (Z.to_nat (fh_nfat_arch fat_header)) m c 0 in
        match found with
        | Some container => arm64_container_create_fuel k m container
        | None => Err "error: could not read `mach_header_64` from inner mach-o"
        end
  end.
Definition arm64_container_create (m : memory) (c : Container) : result Container :=
  arm64_container_create_fuel 2 m c.

(** ** The linker's own fixups *)

Definition is_bind (f : Fixup) : bool := match fx_kind f with Bind _ _ _ _ => true | Rebase _ => false end.

Definition rebase_self_and_extract_bind_fixups {E} (dylinker_container : Container) : io E (list Fixup) :=
  match chained_fixups_parse_all dylinker_container with
  | Ok fixups =>
      let! _ := (if bool_decide (fixups = []) then ret tt else
        unwrap_or_else
          (fixup_all_in_memory (s_ptr (as_bytes dylinker_container)) 0 [] [] None true fixups)
          (fun _ => let! _ := write_literal (bstr "self rebase error, exiting ..." ++ [x0a]) in exit_error)) in
      ret (List.filter is_bind fixups)
  | Err error =>
      let! _ := write_literal (bstr error) in
      let! _ := write_literal ([x0a] ++ bstr "exiting ..." ++ [x0a]) in
      exit_error
  | Panic why => lift (Panic why)
  | Fault => lift Fault
  | Diverge => lift Diverge
  end.

(** [*ordinal = 1] of a bind *)
Definition set_ordinal_1 (f : Fixup) : Fixup :=
  match fx_kind f with
  | Bind symbol_name _ is_auth addend => Mk_Fixup (fx_offset f) (Bind symbol_name 1 is_auth addend)
  | Rebase _ => f
  end.

Definition bind_symbols (fixups : list Fixup) : list Symbol :=
  omap (fun f => match fx_kind f with
                 | Bind symbol_name _ _ _ => Some (make_undefined symbol_name 1 false)
                 | Rebase _ => None
                 end) fixups.

Definition tls_functions_self_bind_hack (self_container : Container) (self_bind_fixups : list Fixup)
    (cache : DyldSharedCache) : io string unit :=
  fixup_all_in_memory (s_ptr (as_bytes self_container)) 0 (bind_symbols self_bind_fixups)
    [System LIBSYSTEM_PATH] (Some cache) false (set_ordinal_1 <$> self_bind_fixups).

(** ** From the kernel to the program *)

Definition DYLD_LIKELY_UNSLID_VM_ADDR : Z := 0x180000000.

(** The call of an operation whose error is printed before exiting *)
Definition or_die {E A} (before after : string) (m : io string A) : io E A :=
  unwrap_or_else m (fun err => die [bstr before; bstr err; bstr after]).

(** [dynld_entrypoint] up to the jump: the address to jump to *)
Definition dynld_prepare {E} (fuel : nat) (self_bind_fixups : list Fixup) (dylinker_container : Container)
    (executable_header executable_size argv : Z) : io E Z :=
  let! image_raw_bytes := reading (fun m => from_raw_parts m executable_header executable_size) in
  let! image_mach_magic := reading (fun m => read_magic m executable_header) in
  let! image := or_die "failed to create an arm64 container: " ""
    (reading (fun m => arm64_container_create m
      (with_bytes image_raw_bytes (macho_endian_from_magic image_mach_magic)))) in
  let! _ := local_u64_set 0 in
  let! found := (fun w =>
    let '(k, m, b) := dyld_shared_cache_base_address_get (w_kernel w) (w_mem w) (w_sp w) in
    (set_kernel w k m, Ok b)) in
  if found =? 0 then die [bstr "failed to find the dyld_shared_cache base address"]
  else
    let! baddr := local_u64_get in
    let! slide := lift (sub64 baddr DYLD_LIKELY_UNSLID_VM_ADDR) in
    let! cache := or_die "failed initializing dyld shared cache: '" "'"
      (reading (fun m => from_existing m cache_new baddr slide)) in
    let! _ := or_die "failed to bind TLS function to self: '" "'"
      (tls_functions_self_bind_hack dylinker_container self_bind_fixups cache) in
    let! exec_dir := reading (fun m => exe_dir m argv) in
    match exec_dir with
    | None => die [bstr "failed to get the exeutable path of the program"]
    | Some exec_dir =>
        let! (_, entrypoint) := or_die "dylinking error: '" "', giving up..."
          (macho_loader fuel cache image exec_dir None) in
        ret entrypoint
    end.

Definition dynld_entrypoint {E A} (fuel : nat) (self_bind_fixups : list Fixup) (dylinker_container : Container)
    (executable_header executable_size argc argv envp apple : Z) : io E A :=
  let! entrypoint := dynld_prepare fuel self_bind_fixups dylinker_container executable_header executable_size argv in
  let! _ := entry_and_ret entrypoint argc argv envp apple in
  exit_error.

(** The structure the kernel passes, a word per field *)
Record Stack := Mk_Stack {
  dylinker_header : Z; executable_header : Z; dylinker_size : Z; executable_size : Z;
  argc : Z; argv : Z; envp : Z; apple : Z
}.

Definition stack_read {E} (m : memory) (info : Z) : outcome E Stack :=
  let word i := match load_u64 m (ptr_add info (8 * i)) with Some v => Ok v | None => Fault end in
  let* a := word 0 in let* b := word 1 in let* c := word 2 in let* d := word 3 in
  let* e := word 4 in let* f := word 5 in let* g := word 6 in let* h := word 7 in
  Ok (Mk_Stack a b c d e f g h).

(** [HAS_REBASED_SELF = true] *)
Definition set_rebased {E} : io E unit := fun w => (Mk_world (w_kernel w) (w_mem w) (w_sp w) true, Ok tt).

Definition start {E A} (fuel : nat) (info : Z) : io E A :=
  let! s := reading (fun m => stack_read m info) in
  let! dylinker_mach_magic := reading (fun m => read_magic m (dylinker_header s)) in
  let! bytes := reading (fun m => from_raw_parts m (dylinker_header s) (dylinker_size s)) in
  let dylinker_container := with_bytes bytes (macho_endian_from_magic dylinker_mach_magic) in
  let! self_bind_fixups := rebase_self_and_extract_bind_fixups dylinker_container in
  let! _ := set_rebased in
  dynld_entrypoint fuel self_bind_fixups dylinker_container (executable_header s) (executable_size s)
    (argc s) (argv s) (envp s) (apple s).
End Entry.

(** ** Theorems: paths *)

Lemma rfind_slash_none file : x2f ∉ file -> rfind_slash file = None.
Proof.
  induction file as [|b file IH]; intros Hn; cbn; [done|].
  apply not_elem_of_cons in Hn as [Hb Hn]. rewrite IH by done. by rewrite bool_decide_false.
Qed.

Lemma rfind_slash_app dir file : x2f ∉ file -> rfind_slash (dir ++ x2f :: file) = Some (length dir).
Proof.
  intros Hn. induction dir as [|b dir IH]; cbn; [by rewrite rfind_slash_none|]. by rewrite IH.
Qed.

(** The directory of a path is what precedes its last slash: the root when
    nothing does, and the current directory for a path without a slash. *)
Theorem dir_of_spec dir file :
  x2f ∉ file ->
  dir_of file = bstr "." /\ dir_of (dir ++ x2f :: file) = (if bool_decide (dir = []) then bstr "/" else dir).
Proof.
  intros Hn. unfold dir_of. rewrite rfind_slash_none, rfind_slash_app by done. split; [done|].
  destruct dir as [|b dir]; [done|]. rewrite bool_decide_false by done. cbn [length].
  by rewrite <- (take_app_length (b :: dir) (x2f :: file)) at 2.
Qed.

Lemma dir_of_spec_witness :
  ~ x2f ∈ bstr "prog" /\ dir_of (bstr "prog") = bstr "." /\ dir_of (bstr "/usr/bin" ++ x2f :: bstr "prog") = bstr "/usr/bin".
Proof.
  assert (x2f ∉ bstr "prog") as Hn by (refine (bool_decide_unpack (x2f ∉ bstr "prog") _); vm_compute; exact I).
  split; [exact Hn|]. destruct (dir_of_spec (bstr "/usr/bin") (bstr "prog") Hn) as [H1 H2].
  split; [exact H1|exact H2].
Defined.

(** A C string in memory *)
Definition cstring_in (m : memory) (p : Z) (s : bytes) : Prop :=
  0 < p /\ p + zlen s + 1 <= 2 ^ 64 /\ ~ x00 ∈ s /\
  forall i b, (s ++ [x00]) !! i = Some b -> m !! (p + Z.of_nat i) = Some b.

Lemma cstring_length m p s : cstring_in m p s -> (length s < base.size m)%nat.
Proof.
  intros (Hp & Hn & _ & Hm). assert (NoDup (seqZ p (zlen s + 1))) as Hnd by apply NoDup_seqZ.
  rewrite <- size_dom. enough (length (seqZ p (zlen s + 1)) <= base.size (dom m : gset Z))%nat as H.
  { rewrite length_seqZ in H. len. }
  rewrite <- (size_list_to_set (C := gset Z)) by exact Hnd. apply subseteq_size.
  intros x Hx%elem_of_list_to_set%elem_of_seqZ. apply elem_of_dom.
  destruct (lookup_lt_is_Some_2 (s ++ [x00]) (Z.to_nat (x - p))) as [b Hb].
  { rewrite length_app. cbn. len. }
  exists b. rewrite <- (Hm _ _ Hb). f_equal. lia.
Qed.

Lemma strlen_spec {E} fuel m p s n :
  cstring_in m p s -> (n <= length s)%nat -> (length s - n < fuel)%nat ->
  strlen_loop fuel m p (Z.of_nat n) = @Ok E _ (zlen s).
Proof.
  intros (Hp & Hn & Hnul & Hm). revert n. induction fuel as [|k IH]; intros n Hle Hf; [lia|].
  cbn [strlen_loop]. rewrite ptr_add_small by len.
  destruct (decide (n = length s)) as [->|Hne].
  - rewrite (Hm (length s) x00); [by rewrite bool_decide_true|]. by rewrite list_lookup_middle.
  - destruct (lookup_lt_is_Some_2 s n) as [b Hb]; [lia|].
    rewrite (Hm n b) by (by apply lookup_app_l_Some). rewrite bool_decide_false.
    + replace (Z.of_nat n + 1) with (Z.of_nat (S n)) by lia. apply IH; lia.
    + intros ->. apply Hnul. by eapply list_elem_of_lookup_2.
Qed.

(** [exe_dir] reads the directory of the program from its argument vector:
    the scan for the end of [argv[0]] stops at its NUL, wherever in memory the
    string is, and the result is the directory part of exactly that string, or
    nothing if it is not UTF-8; a null [argv[0]] gives nothing. *)
Theorem exe_dir_spec {E} m argv arg0 s :
  load_u64 m argv = Some arg0 -> arg0 = 0 \/ cstring_in m arg0 s ->
  exe_dir m argv = @Ok E _ (if arg0 =? 0 then None else if from_utf8_ok s then Some (dir_of s) else None).
Proof.
  intros Hl Hs. unfold exe_dir, argv0. rewrite Hl. destruct (Z.eqb_spec arg0 0) as [->|H0]; [done|].
  destruct Hs as [|Hs]; [done|]. pose proof (cstring_length _ _ _ Hs) as Hlen.
  rewrite (strlen_spec (S (base.size m)) m arg0 s 0 Hs) by lia. cbn [bind].
  destruct Hs as (Hp & Hn & _ & Hm). unfold from_raw_parts, zlen. rewrite Nat2Z.id.
  rewrite (load_bytes_stored m arg0 s); [|lia|lia|].
  - cbn [bind s_bytes]. by destruct (from_utf8_ok s).
  - intros i b Hi. apply Hm. by apply lookup_app_l_Some.
Qed.

(** The argument vector of a program started as [/bin/ls] *)
Definition argv_memory : memory :=
  mem_of 0x1000 (le_bytes 8 0x2000) ∪ mem_of 0x2000 (bstr "/bin/ls" ++ [x00]).

Lemma exe_dir_spec_witness :
  load_u64 argv_memory 0x1000 = Some 0x2000 /\ cstring_in argv_memory 0x2000 (bstr "/bin/ls") /\
  exe_dir argv_memory 0x1000 = @Ok string _ (Some (bstr "/bin")).
Proof.
  assert (load_u64 argv_memory 0x1000 = Some 0x2000) as Hl by (vm_compute; reflexivity).
  assert (cstring_in argv_memory 0x2000 (bstr "/bin/ls")) as Hs.
  { split; [done|]. split; [vm_compute; discriminate|]. split; [refine (bool_decide_unpack (x00 ∉ bstr "/bin/ls") _); vm_compute; exact I|].
    intros i b Hi. do 8 (destruct i as [|i]; [injection Hi as <-; vm_compute; reflexivity|]). destruct i; discriminate Hi. }
  split; [exact Hl|]. split; [exact Hs|].
  exact (@exe_dir_spec string argv_memory 0x1000 0x2000 (bstr "/bin/ls") Hl (or_intror Hs)).
Defined.

(** ** Theorems: the arm64 image *)

Section ArchLemmas.
Context {sc : Scroll} {bp : BuildProfile}.

(** [c] starts with the header of a 64-bit arm64 image. *)
Definition arm64_image (c : Container) : Prop :=
  exists h, deserialize_type_at_offset mach_header_64 c 0 = Ok h /\
    mh_magic h = MH_MAGIC_64 /\ mh_cputype h = CPU_TYPE_ARM64.

(** [c'] is the slice of the universal binary [c] its [i]-th entry describes, in
    the byte order its magic number says. *)
Definition slice_at (m : memory) (c : Container) (i : Z) (c' : Container) : Prop :=
  exists arch bs word magic,
    deserialize_type_at_offset fat_arch c (size_of fat_header + i * size_of fat_arch) = Ok arch /\
    container_slice c (fa_offset arch) (fa_size arch) = Some bs /\
    load_bytes m (s_ptr bs) 4 = Some word /\ mach_magic_of_discr (le_val word) = Some magic /\
    c' = with_bytes bs (macho_endian_from_magic magic).

(** The slices of the first [n] entries are in memory and start with a magic
    number: reading another value as a [mach_magic] is undefined. *)
Definition slices_start_with_magic (m : memory) (c : Container) (n : Z) : Prop :=
  forall i arch bs, 0 <= i < n ->
    deserialize_type_at_offset fat_arch c (size_of fat_header + i * size_of fat_arch) = Ok arch ->
    container_slice c (fa_offset arch) (fa_size arch) = Some bs ->
    exists word magic, load_bytes m (s_ptr bs) 4 = Some word /\ mach_magic_of_discr (le_val word) = Some magic.

(** What is chosen of a container whose front reads as the header [h] *)
Inductive arm64_choice (m : memory) (c : Container) (h : mach_header_64) : result Container -> Prop :=
| choice_itself : arm64_image c -> arm64_choice m c h (Ok c)
| choice_foreign :
    ~ arm64_image c -> mh_magic h <> FAT_MAGIC -> arm64_choice m c h (Err "Not a valid ARM64 Mach-O or fat binary")
| choice_slice fh k c' :
    mh_magic h = FAT_MAGIC -> deserialize_type_at_offset fat_header c 0 = Ok fh ->
    0 <= k < fh_nfat_arch fh -> slice_at m c k c' -> arm64_image c' ->
    (forall j c0, 0 <= j < k -> slice_at m c j c0 -> ~ arm64_image c0) -> arm64_choice m c h (Ok c')
| choice_none fh :
    mh_magic h = FAT_MAGIC -> deserialize_type_at_offset fat_header c 0 = Ok fh ->
    (forall j c0, 0 <= j < fh_nfat_arch fh -> slice_at m c j c0 -> ~ arm64_image c0) ->
    arm64_choice m c h (Err "error: could not read `mach_header_64` from inner mach-o").

Lemma is_arm64_header_spec h :
  is_arm64_header h = true <-> mh_magic h = MH_MAGIC_64 /\ mh_cputype h = CPU_TYPE_ARM64.
Proof. unfold is_arm64_header. by rewrite andb_true_iff, bool_decide_eq_true, Z.eqb_eq. Qed.

Lemma unwrap_Ok {E A} (r : outcome unit A) a : unwrap r = @Ok E _ a <-> r = Ok a.
Proof. unfold unwrap. destruct r; cbn; split; congruence. Qed.

Lemma slice_at_unique m c i c1 c2 : slice_at m c i c1 -> slice_at m c i c2 -> c1 = c2.
Proof. intros (? & ? & ? & ? & ? & ? & ? & ? & ->) (? & ? & ? & ? & ? & ? & ? & ? & ->). simplify_eq. congruence. Qed.

Lemma fat_slice_spec {E} m c n i :
  slices_start_with_magic m c n -> 0 <= i < n ->
  exists o, fat_slice m c i = @Ok E _ o /\
    match o with Some c' => slice_at m c i c' | None => forall c', ~ slice_at m c i c' end.
Proof.
  intros Hs Hi. unfold fat_slice, slice_at, read_magic.
  destruct (deserialize_cases fat_arch c (size_of fat_header + i * size_of fat_arch)) as [[arch Ea]|Ea];
    rewrite Ea; cbn [as_option bind].
  2: { exists None. split; [done|]. intros c' (? & ? & ? & ? & ? & _). congruence. }
  destruct (container_slice c (fa_offset arch) (fa_size arch)) as [bs|] eqn:Eb.
  2: { exists None. split; [done|]. intros c' (? & ? & ? & ? & ? & ? & _). congruence. }
  destruct (Hs i arch bs Hi Ea Eb) as (word & magic & Hw & Hm). rewrite Hw, Hm. cbn [bind].
  eexists. split; [done|]. by exists arch, bs, word, magic.
Qed.

Lemma arm64_image_find {E} c :
  exists b, (let* h := as_option (deserialize_type_at_offset mach_header_64 c 0) in
    @Ok E _ match h with Some h => is_arm64_header h | None => false end) = Ok b /\ (b = true <-> arm64_image c).
Proof.
  unfold arm64_image.
  destruct (deserialize_cases mach_header_64 c 0) as [[h Ed]|Ed]; rewrite Ed; cbn [as_option bind].
  - exists (is_arm64_header h). split; [done|]. rewrite is_arm64_header_spec. split; [by exists h|].
    by intros (h' & [= <-] & ?).
  - exists false. split; [done|]. split; [done|]. by intros (? & ? & _).
Qed.

(** The search finds the first arm64 slice, and finds it if there is one. *)
Lemma fat_find_spec {E} m c k n i :
  slices_start_with_magic m c (i + Z.of_nat n) -> 0 <= k <= i ->
  (forall j c0, k <= j < i -> slice_at m c j c0 -> ~ arm64_image c0) ->
  exists o, fat_find n m c i = @Ok E _ o /\
    match o with
    | Some c' => arm64_image c' /\ exists l, k <= l < i + Z.of_nat n /\ slice_at m c l c' /\
        forall j c0, k <= j < l -> slice_at m c j c0 -> ~ arm64_image c0
    | None => forall j c0, k <= j < i + Z.of_nat n -> slice_at m c j c0 -> ~ arm64_image c0
    end.
Proof.
  revert i; induction n as [|n IH]; intros i Hs Hk Hb; cbn [fat_find].
  { exists None. split; [done|]. by rewrite Z.add_0_r. }
  assert ((forall c0, slice_at m c i c0 -> ~ arm64_image c0) ->
    exists o, fat_find n m c (i + 1) = @Ok E _ o /\
    match o with
    | Some c' => arm64_image c' /\ exists l, k <= l < i + Z.of_nat (S n) /\ slice_at m c l c' /\
        forall j c0, k <= j < l -> slice_at m c j c0 -> ~ arm64_image c0
    | None => forall j c0, k <= j < i + Z.of_nat (S n) -> slice_at m c j c0 -> ~ arm64_image c0
    end) as Hnext.
  { intros Hi. replace (i + Z.of_nat (S n)) with (i + 1 + Z.of_nat n) in * by lia. apply IH; [done|lia|].
    intros j c0 Hj. destruct (decide (j = i)) as [->|]; [apply Hi|apply Hb; lia]. }
  destruct (fat_slice_spec (E := E) m c _ i Hs ltac:(lia)) as (o & -> & Ho). cbn [bind]. destruct o as [c'|].
  2: { apply Hnext. intros c0 Hc0. by destruct (Ho c0). }
  destruct (@arm64_image_find E c') as (b & Hf & Hbi). apply bind_Ok in Hf as (oh & -> & [= Hoh]). cbn [bind].
  rewrite Hoh. destruct b.
  - exists (Some c'). split; [done|]. split; [by apply Hbi|]. exists i. split; [lia|]. by split.
  - apply Hnext. intros c0 Hc0 Ha. rewrite (slice_at_unique _ _ _ _ _ Hc0 Ho) in Ha. by apply Hbi in Ha.
Qed.

Lemma arm64_image_self fuel m c0 : arm64_image c0 -> arm64_container_create_fuel (S fuel) m c0 = Ok c0.
Proof.
  intros (h & Hd & Hh%is_arm64_header_spec). cbn [arm64_container_create_fuel]. rewrite Hd. cbn. by rewrite Hh.
Qed.

Lemma arm64_choice_unique m c h o1 o2 : arm64_choice m c h o1 -> arm64_choice m c h o2 ->
  (mh_magic h = FAT_MAGIC -> ~ arm64_image c) -> o1 = o2.
Proof.
  intros H1 H2 Hfat.
  destruct H1 as [Ha1|Ha1 Hm1|fh1 k1 c1 Hm1 Hf1 Hk1 Hs1 Ha1 Hb1|fh1 Hm1 Hf1 Hb1];
    destruct H2 as [Ha2|Ha2 Hm2|fh2 k2 c2 Hm2 Hf2 Hk2 Hs2 Ha2 Hb2|fh2 Hm2 Hf2 Hb2];
    try done; try (by destruct (Hfat ltac:(done))); rewrite Hf1 in Hf2; apply Ok_inj in Hf2 as <-.
  - f_equal. destruct (Z.lt_trichotomy k1 k2) as [Hlt|[->|Hlt]].
    + by destruct (Hb2 k1 c1 ltac:(lia) Hs1).
    + by eapply slice_at_unique.
    + by destruct (Hb1 k2 c2 ltac:(lia) Hs2).
  - by destruct (Hb2 k1 c1 Hk1 Hs1).
  - by destruct (Hb1 k2 c2 Hk2 Hs2).
Qed.

(** A front that does not read as a header is a panic. *)
Lemma unreadable_front_panics m c :
  deserialize_type_at_offset mach_header_64 c 0 = Err tt ->
  arm64_container_create m c = Panic "called `Result::unwrap()` on an `Err` value".
Proof. intros Hd. unfold arm64_container_create. cbn [arm64_container_create_fuel]. by rewrite Hd. Qed.

Context (laws : ScrollLaws sc).

(** The header of a universal binary is read from the same bytes. *)
Lemma fat_front c h :
  deserialize_type_at_offset mach_header_64 c 0 = Ok h -> mh_magic h = FAT_MAGIC ->
  exists fh, deserialize_type_at_offset fat_header c 0 = Ok fh /\ 0 <= fh_nfat_arch fh.
Proof.
  intros Hd Hm. apply deserialize_Ok in Hd as (Hle & vs & -> & Hd); [|done].
  assert (exists fh, deserialize_type_at_offset fat_header c 0 = Ok fh) as [fh Hfh].
  { unfold deserialize_type_at_offset.
    change (layout_size (fields_of mach_header_64)) with 32 in Hle. rewrite pread_fields;
      [|done|change (layout_size (fields_of fat_header)) with 8; lia].
    cbn [fields_of fat_header_pread mach_header_64_pread decode_fields fsize] in *.
    destruct (decode_field _ (CEnum 4 _ _) _) as [v|]; [|done]. cbn [decode_field]. by eexists. }
  exists fh. split; [exact Hfh|]. apply deserialize_wf in Hfh as (_ & (? & ? & []) & -> & Hv); [|done|repeat constructor].
  destruct Hv as (_ & [? _] & _). done.
Qed.

(** C32 Of a container whose front reads as a header, [arm64_container_create]
    chooses the 64-bit arm64 image: the container itself if it is one, and of a
    universal binary the first slice, in the order of its table, that is one; an
    entry that cannot be read or whose slice is outside the binary is passed over.
    It returns an error exactly when the container is neither, or no slice is an
    arm64 image; it always ends, as the slice it calls itself on is returned at once.
    The slices of a universal binary start with a magic number. *)
Theorem arm64_container_create_spec m c h o :
  deserialize_type_at_offset mach_header_64 c 0 = Ok h ->
  (forall fh, mh_magic h = FAT_MAGIC -> deserialize_type_at_offset fat_header c 0 = Ok fh ->
     slices_start_with_magic m c (fh_nfat_arch fh)) ->
  arm64_container_create m c = o <-> arm64_choice m c h o.
Proof.
  intros Hd Hs.
  assert (mh_magic h = FAT_MAGIC -> ~ arm64_image c) as Hfat.
  { intros Hm (h' & Hd' & Hm' & _). rewrite Hd in Hd'. apply Ok_inj in Hd' as <-. congruence. }
  assert (arm64_choice m c h (arm64_container_create m c)) as Hchoice.
  { destruct (is_arm64_header h) eqn:Eh.
    { assert (arm64_image c) as Ha by (exists h; by rewrite is_arm64_header_spec in Eh).
      unfold arm64_container_create. rewrite arm64_image_self by done. by apply choice_itself. }
    assert (~ arm64_image c) as Hna.
    { intros (h' & Hd' & Hh'). rewrite Hd in Hd'. apply Ok_inj in Hd' as <-. apply is_arm64_header_spec in Hh'. congruence. }
    unfold arm64_container_create. remember 1%nat as one eqn:E1. cbn [arm64_container_create_fuel]. rewrite Hd.
    unfold unwrap at 1. cbn [as_option or_panic bind]. rewrite Eh.
    case_bool_decide as Hm; cbn [negb]; [|by apply choice_foreign].
    destruct (fat_front c h Hd Hm) as (fh & Hfh & Hn). rewrite Hfh. unfold unwrap. cbn [as_option or_panic bind].
    destruct (@fat_find_spec string m c 0 (Z.to_nat (fh_nfat_arch fh)) 0) as (r & -> & Hr); [|lia|lia|].
    { rewrite Z.add_0_l, Z2Nat.id by done. by apply Hs. }
    rewrite Z.add_0_l, Z2Nat.id in Hr by done. cbn [bind]. destruct r as [c'|].
    - destruct Hr as (Ha & l & Hl & Hsl & Hb). subst one. rewrite arm64_image_self by done. by eapply choice_slice.
    - by eapply choice_none. }
  split; [by intros <-|]. intros Ho. by eapply arm64_choice_unique.
Qed.
End ArchLemmas.

(** A universal binary with an x86-64 and an arm64 slice, both just a header,
    and one with the arm64 slice alone *)
Section FatExamples.
#[local] Existing Instance scroll_ref.

Definition header_bytes (cputype cpusubtype : Z) : bytes :=
  le_bytes 4 0xfeedfacf ++ le_bytes 4 cputype ++ le_bytes 4 cpusubtype ++ le_bytes 4 2 ++
  le_bytes 4 0 ++ le_bytes 4 0 ++ le_bytes 4 0 ++ le_bytes 4 0.
Definition arch_bytes (cputype cpusubtype offset size : Z) : bytes :=
  be_bytes 4 cputype ++ be_bytes 4 cpusubtype ++ be_bytes 4 offset ++ be_bytes 4 size ++ be_bytes 4 14.

Definition fat_x86_arm64 : bytes :=
  be_bytes 4 0xcafebabe ++ be_bytes 4 2 ++ arch_bytes 0x01000007 3 48 32 ++ arch_bytes 0x0100000c 0 80 32 ++
  header_bytes 0x01000007 3 ++ header_bytes 0x0100000c 0.
Definition fat_arm64 : bytes :=
  be_bytes 4 0xcafebabe ++ be_bytes 4 1 ++ arch_bytes 0x0100000c 0 28 32 ++ header_bytes 0x0100000c 0.

Definition fat_container (bs : bytes) : Container := with_bytes (Mk_slice 0x10000 bs) Big.
Definition arm64_slice : Container := with_bytes (Mk_slice 0x10050 (header_bytes 0x0100000c 0)) Little.

Lemma fat_x86_arm64_slices fh :
  deserialize_type_at_offset fat_header (fat_container fat_x86_arm64) 0 = Ok fh ->
  slices_start_with_magic (mem_of 0x10000 fat_x86_arm64) (fat_container fat_x86_arm64) (fh_nfat_arch fh).
Proof.
  intros Hfh. vm_compute in Hfh. injection Hfh as <-. cbn [fh_nfat_arch]. intros i arch bs Hi Ha Hb.
  assert (i = 0 \/ i = 1) as [-> | ->] by lia; vm_compute in Ha; injection Ha as <-; vm_compute in Hb; injection Hb as <-;
    eexists _, MH_MAGIC_64; by split; vm_compute.
Qed.

Lemma arm64_container_create_spec_witness :
  exists h, deserialize_type_at_offset mach_header_64 (fat_container fat_x86_arm64) 0 = Ok h /\
    arm64_choice (mem_of 0x10000 fat_x86_arm64) (fat_container fat_x86_arm64) h (Ok arm64_slice).
Proof.
  destruct (deserialize_type_at_offset mach_header_64 (fat_container fat_x86_arm64) 0) as [h|e|w| |] eqn:Hd;
    vm_compute in Hd; try discriminate Hd. exists h. split; [exact eq_refl|]. injection Hd as Hd.
  refine (proj1 (@arm64_container_create_spec scroll_ref _ (mem_of 0x10000 fat_x86_arm64) (fat_container fat_x86_arm64) h
    (Ok arm64_slice) _ _) _).
  - vm_compute. congruence.
  - intros fh _ Hfh. exact (fat_x86_arm64_slices fh Hfh).
  - vm_compute. reflexivity.
Defined.

(** The header read at the front of a universal binary takes the [cpusubtype] of
    its first slice for a file type, and that of arm64, zero, is none. *)
Example fat_arm64_panics :
  arm64_container_create (mem_of 0x10000 fat_arm64) (fat_container fat_arm64) =
    Panic "called `Result::unwrap()` on an `Err` value".
Proof. vm_compute. reflexivity. Qed.
End FatExamples.

(** ** Theorems: the linker's own fixups *)

Section SelfLemmas.
Context {sc : Scroll} {bp : BuildProfile} {M : Machine}.

Lemma fixup_pointers_lookup dst pz syms libs cache ig fixups ps i f :
  fixup_pointers dst pz syms libs cache ig fixups = Ok ps -> fixups !! i = Some f ->
  exists p, ps !! i = Some p /\ fixup_pointer dst pz syms libs cache ig f = Ok p.
Proof.
  revert ps i; induction fixups as [|g fixups IH]; intros ps i;
    [by intros _ Hi; rewrite lookup_nil in Hi|]. cbn [fixup_pointers].
  intros (p & Hp & (ps' & Hps & [= <-])%bind_Ok)%bind_Ok Hi.
  destruct i as [|i]; [injection Hi as <-; by exists p|]. exact (IH ps' i Hps Hi).
Qed.

(** Ignoring binds, nothing can fail. *)
Lemma fixup_pointers_ignored dst pz syms libs cache fixups :
  exists ps, fixup_pointers dst pz syms libs cache true fixups = Ok ps.
Proof.
  induction fixups as [|f fixups [ps IH]]; cbn [fixup_pointers]; [eauto|].
  unfold fixup_pointer. destruct (fx_kind f); cbn [bind]; rewrite IH; cbn; eauto.
Qed.

(** [m'] is [m] after the linker at [base] has rebased itself. *)
Definition self_rebased (base : Z) (fixups : list Fixup) (m m' : memory) : Prop :=
  dom m' = dom m /\
  (forall f target, f ∈ fixups -> fx_kind f = Rebase target ->
     load_u64 m' (fixup_address base 0 f) = Some (ptr_add base target)) /\
  (forall a, Forall (fun f => is_bind f = false ->
       ~ fixup_address base 0 f <= a < fixup_address base 0 f + 8) fixups -> m' !! a = m !! a).

Lemma rebase_self_run {E} c w fixups :
  chained_fixups_parse_all c = Ok fixups -> fixups_ok (s_ptr (data c)) 0 (w_mem w) fixups ->
  exists m, @rebase_self_and_extract_bind_fixups sc bp M E c w =
      (set_mem w m, Ok (List.filter is_bind fixups)) /\ self_rebased (s_ptr (data c)) fixups (w_mem w) m.
Proof.
  intros Hp Hok. unfold rebase_self_and_extract_bind_fixups. rewrite Hp. unfold as_bytes.
  set (base := s_ptr (data c)) in *.
  destruct (fixup_pointers_ignored base 0 [] [] None fixups) as [ps Hps].
  pose proof (fixup_all_stores base 0 [] [] None true fixups (w_mem w) Hok) as H. rewrite Hps in H.
  destruct H as (m & Hall & Hd & Hin & Hout).
  pose proof (set_mem_same w) as Hw.
  destruct (fixup_all_in_memory_run base 0 [] [] None true fixups w) as (m1 & Hrun & Hm1).
  rewrite Hall in Hrun. rewrite (Hm1 m Hall) in Hrun. cbn [bind] in Hrun.
  exists m. split; [|split; [done|split]].
  - case_bool_decide as Hemp; unfold io_bind, ret, lift, unwrap_or_else; [|by rewrite Hrun].
    subst fixups. injection Hall as <-. by rewrite Hw.
  - intros f target [i Hi]%list_elem_of_lookup_1 Hk.
    destruct (fixup_pointers_lookup _ _ _ _ _ _ _ _ _ _ Hps Hi) as (p & Hpi & Hfp).
    unfold fixup_pointer in Hfp. rewrite Hk in Hfp. injection Hfp as <-.
    rewrite (Hin i f _ Hi Hpi), ptr_add_assoc, Z.add_0_r. f_equal. apply Z.mod_mod. lia.
  - intros a Ha. apply Hout. intros i f v Hi Hv. rewrite Forall_forall in Ha.
    apply Ha; [by eapply list_elem_of_lookup_2|].
    destruct (fixup_pointers_lookup _ _ _ _ _ _ _ _ _ _ Hps Hi) as (p & Hpi & Hfp).
    unfold fixup_pointer, is_bind in *. destruct (fx_kind f); [done|]. congruence.
Qed.

(** C22 The linker rebases itself completely before it uses any of its data: if
    the fixups of its image parse, every rebase is stored as the image's base
    plus its target, no other byte changes (the slots of binds keep what they
    hold), nothing can fail, and the binds are handed on, all of them and in
    order. *)
Theorem rebase_self_spec {E} c w fixups :
  chained_fixups_parse_all c = Ok fixups -> fixups_ok (s_ptr (data c)) 0 (w_mem w) fixups ->
  exists m, @rebase_self_and_extract_bind_fixups sc bp M E c w =
      (set_mem w m, Ok (List.filter is_bind fixups)) /\ dom m = dom (w_mem w) /\
    (forall f target, f ∈ fixups -> fx_kind f = Rebase target ->
       load_u64 m (fixup_address (s_ptr (data c)) 0 f) = Some (ptr_add (s_ptr (data c)) target)) /\
    (forall a, Forall (fun f => is_bind f = false ->
         ~ fixup_address (s_ptr (data c)) 0 f <= a < fixup_address (s_ptr (data c)) 0 f + 8) fixups ->
       m !! a = w_mem w !! a).
Proof. intros Hp Hok. exact (rebase_self_run c w fixups Hp Hok). Qed.

(** The address a bind of the linker itself is bound to *)
Definition libsystem_address (cache : DyldSharedCache) (symbol_name : FixedString) : result Z :=
  let* symbol := as_str symbol_name in
  let* resolved := symbol_resolve cache LIBSYSTEM_PATH symbol in
  ok_or "could not find a symbol in the dyld shared cache" resolved.

Lemma self_bind_pointer base syms cache f nm ord auth addend :
  fx_kind f = Bind nm ord auth addend ->
  fixup_pointer base 0 syms [System LIBSYSTEM_PATH] (Some cache) false (set_ordinal_1 f) =
    let* p := libsystem_address cache nm in Ok (Some p).
Proof. intros Hk. unfold set_ordinal_1, fixup_pointer. by rewrite Hk. Qed.

Lemma set_ordinal_1_address base f : fixup_address base 0 (set_ordinal_1 f) = fixup_address base 0 f.
Proof. unfold set_ordinal_1, fixup_address. by destruct (fx_kind f). Qed.

(** C31 The binds kept from the self-rebase are all bound to libSystem, whatever
    ordinal they had: when the whole step succeeds, each slot holds the address
    the shared cache gives for its symbol in libSystem, and nothing but the
    slots changes; when it fails, some symbol has no address there. *)
Theorem tls_functions_self_bind_hack_spec c binds cache w :
  Forall (fun f => is_bind f = true) binds -> fixups_ok (s_ptr (data c)) 0 (w_mem w) binds ->
  match tls_functions_self_bind_hack c binds cache w with
  | (w', Ok _) => w_kernel w' = w_kernel w /\ dom (w_mem w') = dom (w_mem w) /\
      (forall f nm ord auth addend, f ∈ binds -> fx_kind f = Bind nm ord auth addend ->
         exists a, libsystem_address cache nm = Ok a /\
           load_u64 (w_mem w') (fixup_address (s_ptr (data c)) 0 f) = Some (a mod 2 ^ 64)) /\
      (forall a, Forall (fun f =>
           ~ fixup_address (s_ptr (data c)) 0 f <= a < fixup_address (s_ptr (data c)) 0 f + 8) binds ->
         w_mem w' !! a = w_mem w !! a)
  | _ => exists f nm ord auth addend, f ∈ binds /\ fx_kind f = Bind nm ord auth addend /\
      forall a, libsystem_address cache nm <> Ok a
  end.
Proof.
  intros Hb Hok. unfold tls_functions_self_bind_hack, as_bytes. set (base := s_ptr (data c)) in *.
  set (syms := bind_symbols binds).
  assert (fixups_ok base 0 (w_mem w) (set_ordinal_1 <$> binds)) as Hok1.
  { destruct Hok as [Hm Hd]. split.
    - apply Forall_fmap. eapply Forall_impl; [exact Hm|]. intros f. cbn. by rewrite set_ordinal_1_address.
    - clear Hm Hb syms. induction Hd as [|f l Hf _ IH]; [constructor|]. cbn. constructor; [|done].
      apply Forall_fmap. eapply Forall_impl; [exact Hf|]. intros g. cbn. by rewrite !set_ordinal_1_address. }
  pose proof (fixup_all_stores base 0 syms [System LIBSYSTEM_PATH] (Some cache) false _ _ Hok1) as H.
  assert (match fixup_pointers base 0 syms [System LIBSYSTEM_PATH] (Some cache) false (set_ordinal_1 <$> binds) with
    | Ok _ => True
    | _ => exists f nm ord auth addend, f ∈ binds /\ fx_kind f = Bind nm ord auth addend /\
        forall a, libsystem_address cache nm <> Ok a
    end) as Hfail.
  { clearbody syms. clear H Hok Hok1. induction Hb as [|f binds' Hf _ IH]; [done|].
    rewrite fmap_cons. cbn [fixup_pointers].
    unfold is_bind in Hf. destruct (fx_kind f) as [|nm ord au ad] eqn:Ek; [done|].
    rewrite (self_bind_pointer _ _ _ _ _ _ _ _ Ek).
    destruct (libsystem_address cache nm) as [a|e|y| |] eqn:Ea; cbn [bind];
      [|exists f, nm, ord, au, ad; split; [by left|]; split; [exact Ek|]; intros a; congruence..].
    destruct (fixup_pointers _ _ _ _ _ _ (set_ordinal_1 <$> binds')) as [ps|e|y| |]; cbn [bind]; [done|..];
      destruct IH as (g & nm' & ord' & au' & ad' & Hg & Hrest); exists g, nm', ord', au', ad'; (split; [by right|exact Hrest]). }
  destruct (fixup_all_in_memory_run base 0 syms [System LIBSYSTEM_PATH] (Some cache) false (set_ordinal_1 <$> binds) w)
    as (m1 & -> & Hm1).
  destruct (fixup_pointers _ _ _ _ _ _ (set_ordinal_1 <$> binds)) as [ps|e|y| |] eqn:Eps;
    [|rewrite H; cbn [bind]; exact Hfail..].
  destruct H as (m & Hall & Hd & Hin & Hout). rewrite Hall, (Hm1 m Hall). cbn [bind]. io_cbn. split; [done|]. split; [done|]. split.
  - intros f nm ord au ad [i Hi]%list_elem_of_lookup_1 Hk.
    assert ((set_ordinal_1 <$> binds) !! i = Some (set_ordinal_1 f)) as Hi' by (by rewrite list_lookup_fmap, Hi).
    destruct (fixup_pointers_lookup _ _ _ _ _ _ _ _ _ _ Eps Hi') as (p & Hpi & Hfp).
    rewrite (self_bind_pointer _ _ _ _ _ _ _ _ Hk) in Hfp. apply bind_Ok in Hfp as (a & Ha & [= <-]).
    exists a. split; [done|]. rewrite <- (set_ordinal_1_address base f). by apply (Hin i).
  - intros a Ha. apply Hout. intros i f v Hi _. rewrite list_lookup_fmap in Hi.
    destruct (binds !! i) as [g|] eqn:Eg; [|done]. injection Hi as <-. rewrite set_ordinal_1_address.
    rewrite Forall_forall in Ha. apply Ha. by eapply list_elem_of_lookup_2.
Qed.
End SelfLemmas.

(** ** Examples *)

#[local] Existing Instance scroll_ref.
#[local] Existing Instance dev_profile.
#[local] Existing Instance machine_log.

(** The linker as the image with two rebases, at 0x10000 *)
Definition example_linker : Container := with_bytes (Mk_slice 0x10000 (raw example_fixups_image)) Little.
Definition example_linker_world : world := Mk_world (M := machine_log) ([], None) example_memory 0 false.

Lemma example_linker_parse : chained_fixups_parse_all example_linker = Ok example_fixups.
Proof. vm_compute. reflexivity. Qed.

Lemma rebase_self_spec_witness :
  chained_fixups_parse_all example_linker = Ok example_fixups /\
  fixups_ok 0x10000 0 example_memory example_fixups /\
  exists m, @rebase_self_and_extract_bind_fixups _ _ _ string example_linker example_linker_world =
      (set_mem example_linker_world m, Ok []) /\ dom m = dom example_memory /\
    load_u64 m 0x10080 = Some 0x14010.
Proof.
  split; [exact example_linker_parse|]. split; [exact example_fixups_ok|].
  destruct (@rebase_self_spec scroll_ref dev_profile machine_log string example_linker example_linker_world
    example_fixups example_linker_parse example_fixups_ok) as (m & Hm & Hd & Hin & _).
  exists m. split; [exact Hm|]. split; [exact Hd|].
  exact (Hin (fixup_rebase 128 0x4010) 0x4010 (list_elem_of_here _ _) eq_refl).
Defined.

(** One bind of the linker, of [_f], and a cache whose libSystem has it *)
Definition f_name : FixedString :=
  match @try_from_str string dev_profile 128 (bstr "_f") with Ok (Some n) => n | _ => string_new 0 end.
Definition example_binds : list Fixup := [fixup_bind 128 f_name 3 0 false].
Definition libsystem_cache : DyldSharedCache :=
  Mk_DyldSharedCache [example_subcache] [Mk_SharedCacheLibrary 0 32 LIBSYSTEM_PATH 0x1020] 0x7000.

Lemma example_binds_ok : fixups_ok 0x10000 0 example_memory example_binds.
Proof.
  destruct example_fixups_ok as [Hm _]. apply Forall_cons in Hm as [Hm _]. split.
  - apply Forall_cons. split; [exact Hm|apply Forall_nil_2].
  - pairs_apart.
Qed.

Lemma example_binds_bound :
  match tls_functions_self_bind_hack example_linker example_binds libsystem_cache example_linker_world with
  | (w, Ok _) => bool_decide (load_u64 (w_mem w) 0x10080 = Some 0x8030)
  | _ => false
  end = true.
Proof. vm_compute. reflexivity. Qed.

Lemma tls_functions_self_bind_hack_spec_witness :
  Forall (fun f => is_bind f = true) example_binds /\ fixups_ok 0x10000 0 example_memory example_binds /\
  exists w, tls_functions_self_bind_hack example_linker example_binds libsystem_cache example_linker_world = (w, Ok tt) /\
    exists a, libsystem_address libsystem_cache f_name = Ok a /\ load_u64 (w_mem w) 0x10080 = Some (a mod 2 ^ 64).
Proof.
  assert (Forall (fun f => is_bind f = true) example_binds) as Hb by (apply Forall_cons; split; [exact eq_refl|apply Forall_nil_2]).
  split; [exact Hb|]. split; [exact example_binds_ok|]. pose proof example_binds_bound as Hok.
  pose proof (@tls_functions_self_bind_hack_spec scroll_ref dev_profile machine_log example_linker example_binds
    libsystem_cache example_linker_world Hb example_binds_ok) as H.
  destruct (tls_functions_self_bind_hack example_linker example_binds libsystem_cache example_linker_world)
    as [w [[]|e|y| |]]; [|discriminate Hok..].
  exists w. split; [exact eq_refl|]. destruct H as (_ & _ & Hin & _).
  exact (Hin (fixup_bind 128 f_name 3 0 false) f_name 3 false 0 (list_elem_of_here _ _) eq_refl).
Defined.
