(* ===== verification/Startup.v ===== *)
(** Starting a program: what [start] does from the structure the kernel passes to
    the jump, and when something fails.

    [prepare] says which address the linker jumps to as a computation that stops
    at the first failure with the message for it. [dynld_entrypoint] is shown to
    implement it: it jumps to that address and never returns, or reports exactly
    that message on the standard error and exits. [start] puts the self-rebase
    before it, whose failure is reported without the linker's own data. *)
From S2P Require Import Prelude Scroll Bindings Container ArrayVec Memory Kernel VM Printing Files Image.
From S2P Require Import SharedCache Fixups Loader Entrypoint.

(** ** The specification *)

Section Spec.
Context {sc : Scroll} {bp : BuildProfile} {M : Machine}.

(** An operation with the message for its error *)
Definition expecting {A} (before after : string) (m : io string A) : io bytes A := fun w =>
  match m w with
  | (w, Ok a) => (w, Ok a)
  | (w, Err err) => (w, Err (bstr before ++ bstr err ++ bstr after))
  | (w, Panic why) => (w, Panic why)
  | (w, Fault) => (w, Fault)
  | (w, Diverge) => (w, Diverge)
  end.

(** The address of the shared cache: [libdsc] fills in a local. *)
Definition cache_address : io bytes Z :=
  let! _ := local_u64_set 0 in
  let! found := (fun w =>
    let '(k, m, b) := dyld_shared_cache_base_address_get (w_kernel w) (w_mem w) (w_sp w) in
    (set_kernel w k m, Ok b)) in
  if found =? 0 then fail (bstr "failed to find the dyld_shared_cache base address") else local_u64_get.

Definition program_dir (argv : Z) : io bytes bytes :=
  let! dir := reading (fun m => exe_dir m argv) in
  match dir with
  | Some dir => ret dir
  | None => fail (bstr "failed to get the exeutable path of the program")
  end.

(** The image for this processor, the shared cache, the linker's own thread-local
    functions, the directory of the program, and the program itself, in this
    order: the result is its entry point. *)
Definition prepare (fuel : nat) (self_bind_fixups : list Fixup) (dylinker_container : Container)
    (executable_header executable_size argv : Z) : io bytes Z :=
  let! bytes := reading (fun m => from_raw_parts m executable_header executable_size) in
  let! magic := reading (fun m => read_magic m executable_header) in
  let! image := expecting "failed to create an arm64 container: " ""
    (reading (fun m => arm64_container_create m (with_bytes bytes (macho_endian_from_magic magic)))) in
  let! baddr := cache_address in
  let! slide := lift (sub64 baddr DYLD_LIKELY_UNSLID_VM_ADDR) in
  let! cache := expecting "failed initializing dyld shared cache: '" "'"
    (reading (fun m => from_existing m cache_new baddr slide)) in
  let! _ := expecting "failed to bind TLS function to self: '" "'"
    (tls_functions_self_bind_hack dylinker_container self_bind_fixups cache) in
  let! dir := program_dir argv in
  let! (_, entrypoint) := expecting "dylinking error: '" "', giving up..."
    (macho_loader fuel cache image dir None) in
  ret entrypoint.
End Spec.

(** ** Reporting *)

Section Reports.
Context {sc : Scroll} {bp : BuildProfile} {M : Machine}.
Context (stream : kstate -> Z -> bytes) (exited : kstate -> option Z) (laws : console_laws stream exited).

(** [m] does what [s] does, but reports a failure of [s] and exits. *)
Definition reporting {E A} (m : io E A) (s : io bytes A) : Prop := forall w,
  match s w with
  | (w1, Ok a) => m w = (w1, Ok a)
  | (w1, Err msg) => zlen msg < 2 ^ 63 ->
      exists w' why, m w = (w', Panic why) /\ reports_and_exits stream exited w1 w' (msg ++ [x0a]) why
  | (w1, Panic why) => m w = (w1, Panic why)
  | (w1, Fault) => m w = (w1, Fault)
  | (w1, Diverge) => m w = (w1, Diverge)
  end.

(** Two computations that cannot fail and agree, whatever their error type *)
Definition same {E F A} (r : outcome E A) (s : outcome F A) : Prop :=
  match r, s with
  | Ok a, Ok b => a = b
  | Panic why, Panic why' => why = why'
  | Fault, Fault | Diverge, Diverge => True
  | _, _ => False
  end.

Lemma same_bind {E F A B} (r : outcome E A) (s : outcome F A) (f : A -> outcome E B) g :
  same r s -> (forall a, same (f a) (g a)) -> same (bind r f) (bind s g).
Proof. destruct r, s; cbn; try done. intros ->. auto. Qed.

Lemma same_in_range {E F} w z why : same (in_range (E := E) w z why) (in_range (E := F) w z why).
Proof. unfold in_range. by repeat case_match. Qed.

Lemma same_exe_dir {E F} m argv : same (@exe_dir E m argv) (@exe_dir F m argv).
Proof.
  unfold exe_dir. apply same_bind; [|done]. unfold argv0. destruct (load_u64 m argv) as [a|]; [|done].
  destruct (a =? 0); [done|]. apply same_bind.
  - generalize (S (base.size m)) 0. induction n as [|k IH]; intros len; cbn [strlen_loop]; [done|].
    destruct (m !! ptr_add a len); [|done]. case_bool_decide; [done|]. apply IH.
  - intros len. apply same_bind; [|done]. unfold from_raw_parts. by destruct (load_bytes _ _ _).
Qed.

Lemma reporting_same {E A} (m : io E A) s :
  (forall w, fst (m w) = fst (s w) /\ same (snd (m w)) (snd (s w))) -> reporting m s.
Proof.
  intros H w. specialize (H w). destruct (m w) as [w1 r], (s w) as [w2 q]. cbn in H. destruct H as [-> Hs].
  destruct q, r; cbn in Hs; subst; done.
Qed.

Lemma reporting_reading {E A} (f : memory -> outcome E A) g :
  (forall m, same (f m) (g m)) -> reporting (reading f) (reading g).
Proof. intros H. apply reporting_same. intros w. split; [done|apply H]. Qed.

Lemma reporting_bind {E A B} (m : io E A) s (f : A -> io E B) g :
  reporting m s -> (forall a, reporting (f a) (g a)) -> reporting (io_bind m f) (io_bind s g).
Proof.
  intros Hm Hf w. specialize (Hm w). unfold io_bind at 1.
  destruct (s w) as [w1 [a|msg|why| |]]; [|intros Hl; destruct (Hm Hl) as (w' & why & H & Hr)|..];
    [rewrite (io_bind_run _ _ _ _ _ Hm); apply Hf|exists w', why; split; [|done]|..]; unfold io_bind; by rewrite ?H, ?Hm.
Qed.

Lemma reporting_die {E A} msg : reporting (@die M E A [msg]) (fail msg).
Proof.
  intros w Hl. destruct (@die_reports M stream exited laws E A [msg] w) as (w' & why & H & Hr);
    [apply Forall_cons; split; [done|apply Forall_nil_2]|].
  exists w', why. split; [exact H|]. by rewrite <- (app_nil_r msg).
Qed.

Lemma reporting_expecting {E A} before after (m : io string A) :
  reporting (@or_die M E A before after m) (expecting before after m).
Proof.
  intros w. unfold or_die, unwrap_or_else, expecting. destruct (m w) as [w1 [a|err|why| |]]; try done.
  intros Hl. destruct (@die_reports M stream exited laws E A [bstr before; bstr err; bstr after] w1) as (w' & why & H & Hr).
  { unfold texts. rewrite !Forall_cons, Forall_nil. len. }
  exists w', why. split; [exact H|]. by rewrite <- (app_nil_r (bstr after)).
Qed.

Lemma reporting_local_set {E} v : reporting (E := E) (local_u64_set v) (local_u64_set v).
Proof.
  apply reporting_same. intros w. unfold local_u64_set, with_sp, updating, store_u64.
  by destruct (store_bytes _ _ _).
Qed.

Lemma reporting_local_get {E} : reporting (E := E) local_u64_get local_u64_get.
Proof. apply reporting_same. intros w. unfold local_u64_get, with_sp, reading. by destruct (load_u64 _ _). Qed.

(** Sequences nest either way. *)
Lemma reporting_assoc {E A B C} (m : io E C) s (f : A -> io bytes B) (g : B -> io bytes C) :
  reporting m (io_bind s (fun a => io_bind (f a) g)) -> reporting m (io_bind (io_bind s f) g).
Proof. intros H w. specialize (H w). unfold io_bind in *. by destruct (s w) as [w1 [a|msg|why| |]]. Qed.

Lemma reporting_fail {E A B} (m : io E B) msg (g : A -> io bytes B) :
  reporting m (fail msg) -> reporting m (io_bind (fail msg) g).
Proof. exact id. Qed.

Lemma reporting_value {E A B} (m : io E B) a (g : A -> io bytes B) : reporting m (g a) -> reporting m (io_bind (ret a) g).
Proof. exact id. Qed.

Lemma reporting_ret {E A} (a : A) : reporting (E := E) (ret a) (ret a).
Proof. by intros w. Qed.

Lemma dynld_prepare_reporting {E} fuel fixes c header size argv :
  reporting (E := E) (dynld_prepare fuel fixes c header size argv) (prepare fuel fixes c header size argv).
Proof.
  unfold dynld_prepare, prepare, cache_address, program_dir.
  apply reporting_bind.
  { apply reporting_reading. intros m. unfold from_raw_parts. by destruct (load_bytes _ _ _). }
  intros bytes. apply reporting_bind.
  { apply reporting_reading. intros m. unfold read_magic. by repeat case_match. }
  intros magic. apply reporting_bind; [apply reporting_expecting|]. intros image.
  apply reporting_assoc, reporting_bind; [apply reporting_local_set|]. intros _.
  apply reporting_assoc, reporting_bind.
  { apply reporting_same. intros w. by destruct (dyld_shared_cache_base_address_get _ _ _) as [[k m] b]. }
  intros found. destruct (found =? 0); [apply reporting_fail, reporting_die|].
  apply reporting_bind; [apply reporting_local_get|]. intros baddr.
  apply reporting_bind; [apply reporting_same; intros w; split; [done|apply same_in_range]|]. intros slide.
  apply reporting_bind; [apply reporting_expecting|]. intros cache.
  apply reporting_bind; [apply reporting_expecting|]. intros _.
  apply reporting_assoc, reporting_bind; [apply reporting_reading; intros m; apply same_exe_dir|].
  intros [dir|]; [|apply reporting_fail, reporting_die].
  apply reporting_value, reporting_bind; [apply reporting_expecting|]. intros [vm entrypoint]. apply reporting_ret.
Qed.

(** What follows the jump: the program is called at its entry point with the
    arguments the linker was started with, and if it returns the process exits. *)
Definition jumps (w1 w' : world) (entrypoint : Z) (registers : list Z) : Prop :=
  let '(k, m) := call_code (w_kernel w1) (w_mem w1) entrypoint registers in
  exists r, svc k m SYS_EXIT [EXIT_FAILURE] = (w_kernel w', w_mem w', r) /\
    exited (w_kernel w') = Some EXIT_FAILURE.

(** The linker prepares the program in the order of [prepare]; if all of that
    succeeds it calls the program's entry point, once, with the arguments it was
    started with, and exits should the program return. At the first failure it
    prints the message for exactly that failure on the standard error and exits (or
    panics over a message the kernel does not take), without starting the program. *)
Definition enters {E A} (fuel : nat) (fixes : list Fixup) (c : Container) (header size argc argv envp apple : Z)
    (w : world) (run : world * outcome E A) : Prop :=
  match prepare fuel fixes c header size argv w with
  | (w1, Ok entrypoint) => exists w', run = (w', Panic exit_unreachable) /\
      jumps w1 w' entrypoint [argc; argv; envp; apple]
  | (w1, Err msg) => zlen msg < 2 ^ 63 ->
      exists w' why, run = (w', Panic why) /\ reports_and_exits stream exited w1 w' (msg ++ [x0a]) why
  | (w1, Panic why) => run = (w1, Panic why)
  | (w1, Fault) => run = (w1, Fault)
  | (w1, Diverge) => run = (w1, Diverge)
  end.

Lemma dynld_entrypoint_enters {E A} fuel fixes c header size argc argv envp apple w :
  enters fuel fixes c header size argc argv envp apple w
    (@dynld_entrypoint _ _ _ E A fuel fixes c header size argc argv envp apple w).
Proof.
  unfold enters, dynld_entrypoint. pose proof (@dynld_prepare_reporting E fuel fixes c header size argv w) as H.
  destruct (prepare fuel fixes c header size argv w) as [w1 [e|msg|why| |]];
    [|intros Hl; destruct (H Hl) as (w' & why & Hp & Hr); exists w', why; split; [|done]|..];
    [|unfold io_bind; by rewrite ?Hp, ?H..].
  rewrite (io_bind_run _ _ _ _ _ H). unfold jumps, entry_and_ret, exit_error, syscall1.
  destruct (call_code (w_kernel w1) (w_mem w1) e [argc; argv; envp; apple]) as [k m] eqn:Ec.
  destruct (svc k m SYS_EXIT [EXIT_FAILURE]) as [[k' m'] [v err]] eqn:Es.
  destruct (console_exit _ _ laws _ _ _ _ _ _ Es) as [Hx _].
  unfold io_bind. rewrite Ec. erewrite syscall_run by exact Es.
  eexists. split; [reflexivity|]. exists (v, err). by split.
Qed.

(** Without usable data of its own, the linker makes two bare writes, of which the
    kernel may take a part, and exits. *)
Definition gives_up (w w' : world) (error : string) : Prop :=
  w_rebased w' = w_rebased w /\ exited (w_kernel w') = Some EXIT_FAILURE /\
  exists a b, stream (w_kernel w') STDERR_FILENO =
    stream (w_kernel w) STDERR_FILENO ++ take a (bstr error) ++ take b ([x0a] ++ bstr "exiting ..." ++ [x0a]).

Lemma rebase_self_gives_up {E} c w error :
  chained_fixups_parse_all c = Err error -> zlen (bstr error) < 2 ^ 63 ->
  exists w', @rebase_self_and_extract_bind_fixups _ _ M E c w = (w', Panic exit_unreachable) /\
    gives_up w w' error.
Proof.
  intros Hp Hl. unfold rebase_self_and_extract_bind_fixups. rewrite Hp.
  destruct (@write_literal_run M stream exited laws E (bstr error) w Hl) as (w1 & a & Hw1 & Hr1 & Hb1).
  destruct (@write_literal_run M stream exited laws E ([x0a] ++ bstr "exiting ..." ++ [x0a]) w1 eq_refl)
    as (w2 & b & Hw2 & Hr2 & Hb2).
  rewrite (io_bind_run _ _ _ _ _ Hw1), (io_bind_run _ _ _ _ _ Hw2). unfold exit_error, syscall1.
  destruct (svc (w_kernel w2) (w_mem w2) SYS_EXIT [EXIT_FAILURE]) as [[k m] [v err]] eqn:Es.
  destruct (console_exit _ _ laws _ _ _ _ _ _ Es) as [Hx Hs].
  rewrite (io_bind_run _ _ _ _ _ (syscall_run _ _ _ _ _ _ _ Es)). eexists. split; [reflexivity|].
  split; [cbn; congruence|]. split; [exact Hx|]. exists a, b. unfold received in *. cbn.
  by rewrite Hs, Hr2, Hr1, <- app_assoc.
Qed.

(** What the kernel passed: the structure at [info] and the linker's own image *)
Definition starts_with_image {E} (w : world) (info : Z) (s : Stack) (c : Container) : Prop :=
  stack_read (E := E) (w_mem w) info = Ok s /\
  exists magic bytes, read_magic (E := E) (w_mem w) (dylinker_header s) = Ok magic /\
    from_raw_parts (E := E) (w_mem w) (dylinker_header s) (dylinker_size s) = Ok bytes /\
    c = with_bytes bytes (macho_endian_from_magic magic).

(** C12 Starting the linker. If its own fixups parse, it first rebases its image,
    all of it and nothing else, and only then counts as rebased; the program is
    prepared in that memory, with the binds of the image still to be done. If all
    of the preparation succeeds, the program's entry point is called with the
    arguments the kernel gave, and the process exits should it return; at the first
    failure exactly its message is printed and the process exits. If the fixups do
    not parse, the linker says so with bare writes and exits, unrebased and with
    nothing prepared. *)
Theorem start_spec {E A} fuel info w s c :
  starts_with_image (E := E) w info s c ->
  let run := @start _ _ _ E A fuel info w in
  match chained_fixups_parse_all c with
  | Ok fixups => fixups_ok (dylinker_header s) 0 (w_mem w) fixups ->
      exists m, self_rebased (dylinker_header s) fixups (w_mem w) m /\
        enters fuel (List.filter is_bind fixups) c (executable_header s) (executable_size s)
          (argc s) (argv s) (envp s) (apple s) (Mk_world (w_kernel w) m (w_sp w) true) run
  | Err error => zlen (bstr error) < 2 ^ 63 ->
      exists w', run = (w', Panic exit_unreachable) /\ gives_up w w' error
  | Panic why => run = (w, Panic why)
  | Fault => run = (w, Fault)
  | Diverge => run = (w, Diverge)
  end.
Proof.
  intros (Hs & magic & bytes & Hm & Hb & Hc). cbv zeta.
  assert (s_ptr (data c) = dylinker_header s) as Hbase.
  { unfold from_raw_parts in Hb. subst c. case_match; [|done]. by injection Hb as <-. }
  assert (@start _ _ _ E A fuel info w = io_bind (rebase_self_and_extract_bind_fixups c) (fun fixes =>
    io_bind set_rebased (fun _ => dynld_entrypoint fuel fixes c (executable_header s) (executable_size s)
      (argc s) (argv s) (envp s) (apple s))) w) as ->.
  { unfold start, io_bind at 1 2 3, reading. by rewrite Hs, Hm, Hb, Hc. }
  destruct (chained_fixups_parse_all c) as [fixups|error|why| |] eqn:Hp.
  - intros Hok. rewrite <- Hbase in *.
    destruct (@rebase_self_run _ _ _ E c w fixups Hp Hok) as (m & Hrun & Hreb).
    exists m. split; [exact Hreb|]. rewrite (io_bind_run _ _ _ _ _ Hrun). apply dynld_entrypoint_enters.
  - intros Hl. destruct (@rebase_self_gives_up E c w error Hp Hl) as (w' & Hrun & Hg).
    exists w'. split; [|exact Hg]. unfold io_bind. by rewrite Hrun.
  - unfold io_bind, rebase_self_and_extract_bind_fixups. by rewrite Hp.
  - unfold io_bind, rebase_self_and_extract_bind_fixups. by rewrite Hp.
  - unfold io_bind, rebase_self_and_extract_bind_fixups. by rewrite Hp.
Qed.
End Reports.

(** ** An example

    A linker with two rebases and a program whose image is found, in a system
    without a shared cache *)
#[local] Existing Instance scroll_ref.
#[local] Existing Instance dev_profile.
#[local] Existing Instance machine_log.

Definition starting_stack : Stack :=
  Mk_Stack 0x10000 0x20000 (zlen (raw example_fixups_image)) 32 1 0 0 0.
Definition starting : world :=
  Mk_world (M := machine_log) ([], None)
    (mem_of 0x10000 (raw example_fixups_image) ∪ mem_of 0x20000 (take 32 (raw example_fixups_image)) ∪ mem_of 0x8000 (replicate 8 x00) ∪
     mem_of 0x7000 (u64le 0x10000 ++ u64le 0x20000 ++ u64le (zlen (raw example_fixups_image)) ++ u64le 32 ++
       u64le 1 ++ u64le 0 ++ u64le 0 ++ u64le 0))
    0x8000 false.

Lemma starting_image : starts_with_image (E := string) starting 0x7000 starting_stack example_linker.
Proof. split; [vm_compute; reflexivity|]. eexists _, _. split_and!; vm_compute; reflexivity. Qed.

Lemma starting_fixups_ok : fixups_ok 0x10000 0 (w_mem starting) example_fixups.
Proof.
  assert (mapped (w_mem starting) 0x10000 144) as Hm.
  { do 3 apply mapped_union_l. apply (mem_of_mapped 0x10000 (raw example_fixups_image)); vm_compute; discriminate. }
  split; [|apply example_fixups_ok].
  unfold example_fixups. rewrite !Forall_cons, Forall_nil.
  split_and!; [| |exact I]; (apply (mapped_sub _ 0x10000 144); [exact Hm|vm_compute; discriminate..]).
Qed.

Example starting_reports :
  match start (E := string) (A := unit) 1 0x7000 starting with
  | (w, Panic _) => bool_decide (fst (w_kernel w) = bstr "failed to find the dyld_shared_cache base address" ++ [x0a]) &&
      bool_decide (snd (w_kernel w) = Some EXIT_FAILURE) && w_rebased w &&
      bool_decide (load_u64 (w_mem w) 0x10080 = Some 0x14010)
  | _ => false
  end = true.
Proof. vm_compute. reflexivity. Qed.

Lemma start_spec_witness :
  @console_laws machine_log log_stream snd /\
  starts_with_image (E := string) starting 0x7000 starting_stack example_linker /\
  fixups_ok 0x10000 0 (w_mem starting) example_fixups /\
  exists m, load_u64 m 0x10080 = Some 0x14010 /\
    enters (E := string) (A := unit) (M := machine_log) log_stream snd 1 [] example_linker 0x20000 32 1 0 0 0
      (Mk_world (M := machine_log) ([], None) m 0x8000 true) (start 1 0x7000 starting).
Proof.
  split; [exact machine_log_console|]. split; [exact starting_image|]. split; [exact starting_fixups_ok|].
  pose proof (@start_spec _ _ machine_log log_stream snd machine_log_console string unit 1 0x7000 starting
    starting_stack example_linker starting_image) as H. cbv zeta in H.
  rewrite example_linker_parse in H. destruct (H starting_fixups_ok) as (m & (_ & Hin & _) & He).
  exists m. split; [|exact He]. exact (Hin (fixup_rebase 128 0x4010) 0x4010 (list_elem_of_here _ _) eq_refl).
Defined.
