(* ===== verification/Allocator.v ===== *)
(** The global allocator: [src/allocator.rs].

    A bump chunk, and a free list threaded through the freed blocks
    themselves: a node is sixteen bytes of [memory], the next pointer and the
    size. The file shows that every block handed out is large enough, aligned
    (to a page at most, if it is large) and disjoint from all the live ones, that
    live blocks are never written to, and that a freed block is on the list for
    reuse. *)
From S2P Require Import Prelude Memory Kernel VM.

Definition PAGE_SIZE : Z := 4096.
Definition CHUNK_SIZE : Z := 64 * PAGE_SIZE.
Definition LARGE_THRESHOLD : Z := CHUNK_SIZE / 2.
(** [size_of::<FreeNode>()] and [align_of::<FreeNode>()] *)
Definition MIN_REUSE : Z := 16.
Definition MIN_ALIGN : Z := 8.

Record FreeNode := Mk_FreeNode { fn_next : Z; fn_size : Z }.

Record Chunk := Mk_Chunk { ck_base : Z; ck_size : Z; ck_offset : Z }.

(** [free] is the address of the first node, 0 for [None]. *)
Record State := Mk_State { chunk : option Chunk; free : Z }.
Definition state_new : State := Mk_State None 0.

Record Allocator := Mk_Allocator { locked : bool; state : State }.
Definition allocator_new : Allocator := Mk_Allocator false state_new.

Record Layout := Mk_Layout { l_size : Z; l_align : Z }.

Definition is_power_of_two (a : Z) : bool := (0 <? a) && (Z.land a (a - 1) =? 0).

Section Alloc.
Context {M : Machine} {bp : BuildProfile}.

(** [VM]'s operations *)
Definition vm_backend_alloc {E} (size : Z) : io E (Z + Z) := vm_alloc_task_self size.
Definition vm_backend_dealloc {E} (ptr size : Z) : io E (unit + Z) := vm_dealloc_task_self ptr size.

(** Debug assertions are on where overflow checks are. *)
Definition align_up {E} (addr align : Z) : outcome E Z :=
  if overflow_checks && negb (is_power_of_two align)
  then Panic "assertion failed: align.is_power_of_two()"
  else
    let* a := add64 addr align in
    let* a := sub64 a 1 in
    let* mask := sub64 align 1 in
    Ok (Z.land a (Z.lxor mask (2 ^ 64 - 1))).

Definition normalize {E} (layout : Layout) : outcome E (Z * Z) :=
  let raw := Z.max (l_size layout) MIN_REUSE in
  let* size := align_up raw MIN_ALIGN in
  let align := Z.max (l_align layout) MIN_ALIGN in
  Ok (size, align).

Definition bump_alloc {E} (st : State) (size align : Z) : outcome E (State * option Z) :=
  match chunk st with
  | None => Ok (st, None)
  | Some c =>
      let base := ck_base c in
      let* cur := add64 base (ck_offset c) in
      let* aligned := align_up cur align in
      match checked_add64 aligned size with
      | None => Ok (st, None)
      | Some e =>
          match checked_sub64 e base with
          | None => Ok (st, None)
          | Some new_offset =>
              if ck_size c <? new_offset then Ok (st, None)
              else Ok (Mk_State (Some (Mk_Chunk base (ck_size c) new_offset)) (free st),
                       if aligned =? 0 then None else Some aligned)
          end
      end
  end.

Definition node_read {E} (m : memory) (a : Z) : outcome E FreeNode :=
  match load_u64 m a, load_u64 m (ptr_add a 8) with
  | Some next, Some size => Ok (Mk_FreeNode next size)
  | _, _ => Fault
  end.

Definition node_write {E} (m : memory) (a : Z) (n : FreeNode) : outcome E memory :=
  let* m := store_u64 m a (fn_next n) in store_u64 m (ptr_add a 8) (fn_size n).

(** [cursor] is a pointer to a link: the head of the list ([None]) or the
    [next] field of the node at an address. *)
Definition link_read {E} (m : memory) (st : State) (cursor : option Z) : outcome E Z :=
  match cursor with
  | None => Ok (free st)
  | Some a => match load_u64 m a with Some v => Ok v | None => Fault end
  end.
Definition link_write {E} (m : memory) (st : State) (cursor : option Z) (v : Z) : outcome E (memory * State) :=
  match cursor with
  | None => Ok (m, Mk_State (chunk st) v)
  | Some a => let* m := store_u64 m a v in Ok (m, st)
  end.

(** [while let Some(node) = *cursor]; the list has no more nodes than [fuel]. *)
Fixpoint take_loop {E} (fuel : nat) (m : memory) (st : State) (cursor : option Z) (size align : Z)
    : outcome E (memory * State * option Z) :=
  match fuel with
  | O => Diverge
  | S k =>
      let* node := link_read m st cursor in
      if node =? 0 then Ok (m, st, None)
      else
        let* n := node_read m node in
        let node_size := fn_size n in
        let node_next := fn_next n in
        if (size <=? node_size) && (node mod align =? 0) then
          let* (m, st) := link_write m st cursor node_next in
          let* leftover := sub64 node_size size in
          if MIN_REUSE <=? leftover then
            let* tail_addr := add64 node size in
            let* m := node_write m tail_addr (Mk_FreeNode (free st) leftover) in
            Ok (m, Mk_State (chunk st) tail_addr, Some node)
          else Ok (m, st, Some node)
        else take_loop k m st (Some node) size align
  end.

(** A node takes sixteen bytes of memory, so a list that does not loop has at
    most one node per mapped byte. *)
Definition take_from_free_list {E} (m : memory) (st : State) (size align : Z)
    : outcome E (memory * State * option Z) :=
  take_loop (S (base.size m)) m st None size align.

(** The spinlock; the only thread that could release a held lock is this one. *)
Definition with_state {E R} (a : Allocator) (f : State -> io E (State * R)) : io E (Allocator * R) :=
  if locked a then lift Diverge
  else
    let! (st, r) := f (state a) in
    ret (Mk_Allocator false st, r).

(** [0] is the null pointer. *)
Definition alloc_small {E} (size align : Z) (st : State) : io E (State * Z) :=
  let! (st, p) := updating (fun m =>
    let* (m, st, p) := take_from_free_list m st size align in Ok (m, (st, p))) in
  match p with
  | Some p => ret (st, p)
  | None =>
      let! (st, p) := lift (bump_alloc st size align) in
      match p with
      | Some p => ret (st, p)
      | None =>
          let! need := lift (add64 size align) in
          let chunk_size := Z.max CHUNK_SIZE need in
          let! base := vm_backend_alloc chunk_size in
          match base with
          | inr _ => ret (st, 0)
          | inl base =>
              let st := Mk_State (Some (Mk_Chunk base chunk_size 0)) (free st) in
              let! (st, p) := lift (bump_alloc st size align) in
              ret (st, match p with Some p => p | None => 0 end)
          end
      end
  end.

Definition alloc_impl {E} (a : Allocator) (layout : Layout) : io E (Allocator * Z) :=
  let! (size, align) := lift (normalize layout) in
  if LARGE_THRESHOLD <=? size then
    let! r := vm_backend_alloc size in
    ret (a, match r with inl p => p | inr _ => 0 end)
  else with_state a (alloc_small size align).

Definition dealloc_impl {E} (a : Allocator) (ptr : Z) (layout : Layout) : io E Allocator :=
  if ptr =? 0 then ret a
  else
    let! (size, _) := lift (normalize layout) in
    if LARGE_THRESHOLD <=? size then
      let! _ := vm_backend_dealloc ptr size in
      ret a
    else
      let! (a, _) := with_state a (fun st => updating (fun m =>
        let* m := node_write m ptr (Mk_FreeNode (free st) size) in
        Ok (m, (Mk_State (chunk st) ptr, tt)))) in
      ret a.

(** The trait [GlobalAlloc], through which the program allocates *)
Class GlobalAlloc (E A : Type) := {
  alloc : A -> Layout -> io E (A * Z);
  dealloc : A -> Z -> Layout -> io E A
}.
#[export] Instance Allocator_GlobalAlloc E : GlobalAlloc E Allocator := {|
  alloc := alloc_impl;
  dealloc := dealloc_impl
|}.
End Alloc.

(** ** Regions *)

Abbreviation region := (Z * Z)%type.

Definition contains (a : Z) (r : region) : bool := (fst r <=? a) && (a <? fst r + snd r).

(** How many regions of the list hold the address *)
Fixpoint cover (a : Z) (l : list region) : nat :=
  match l with [] => O | r :: t => (if contains a r then 1 else 0) + cover a t end.

Definition no_overlap (l : list region) : Prop := forall a, (cover a l <= 1)%nat.

Lemma cover_app a l l' : cover a (l ++ l') = (cover a l + cover a l')%nat.
Proof. induction l as [|r l IH]; cbn; [done|]. rewrite IH. lia. Qed.

Lemma contains_spec a r : contains a r = true <-> fst r <= a < fst r + snd r.
Proof. unfold contains. rewrite andb_true_iff. lia. Qed.

Lemma cover_in a r l : r ∈ l -> contains a r = true -> (1 <= cover a l)%nat.
Proof.
  induction l as [|r' l IH]; intros Hin Hc; [by apply not_elem_of_nil in Hin|]. cbn.
  apply elem_of_cons in Hin as [<-|Hin]; [rewrite Hc; lia|]. specialize (IH Hin Hc). lia.
Qed.

Lemma cover_0 a l : (forall r, r ∈ l -> contains a r = false) -> cover a l = O.
Proof.
  induction l as [|r l IH]; intros H; cbn; [done|]. rewrite (H r) by (by left).
  rewrite IH; [done|]. intros r' Hr. apply H. by right.
Qed.

(** Cutting a region in two. *)
Lemma cover_split a x s k :
  0 <= k <= s ->
  (if contains a (x, s) then 1 else 0)%nat =
    ((if contains a (x, k) then 1 else 0) + (if contains a (x + k, s - k)%Z then 1 else 0))%nat.
Proof.
  intros Hk. unfold contains. cbn.
  destruct (Z.leb_spec x a), (Z.ltb_spec a (x + s)), (Z.ltb_spec a (x + k)), (Z.leb_spec (x + k) a),
    (Z.ltb_spec a (x + k + (s - k))); cbn; lia.
Qed.

(** ** The free list in memory *)

Lemma load_u64_ext (m m' : memory) a :
  0 <= a -> a + 8 <= 2 ^ 64 -> (forall b, a <= b < a + 8 -> m !! b = m' !! b) -> load_u64 m a = load_u64 m' a.
Proof. intros Ha Hn H. unfold load_u64. f_equal. by apply load_bytes_ext. Qed.

(** The nodes from [head] on are the blocks [l]. *)
Inductive chain (m : memory) : Z -> list region -> Prop :=
| chain_nil : chain m 0 []
| chain_cons a s next l :
    0 < a -> load_u64 m a = Some next -> load_u64 m (a + 8) = Some s -> chain m next l ->
    chain m a ((a, s) :: l).

(** A block: eight-byte aligned and sized, room for a node, mapped. *)
Definition block_ok (m : memory) (r : region) : Prop :=
  0 < fst r /\ fst r mod 8 = 0 /\ snd r mod 8 = 0 /\ 16 <= snd r /\ fst r + snd r < 2 ^ 64 /\
  mapped m (fst r) (snd r).

(** Only the contents of blocks matter to the list. *)
Lemma chain_ext m m' h l :
  chain m h l -> Forall (block_ok m) l ->
  (forall r a, r ∈ l -> fst r <= a < fst r + 16 -> m !! a = m' !! a) -> chain m' h l.
Proof.
  induction 1 as [|a s next l Ha Hn Hs _ IH]; intros Hb Hext; [constructor|].
  apply Forall_cons in Hb as [(_ & _ & _ & Hs16 & Hlt & _) Hb]. cbn in *.
  econstructor; [done| | |apply IH; [done|]].
  - rewrite <- Hn. symmetry. apply load_u64_ext; [lia|lia|]. intros b Hbb. apply (Hext (a, s)); [by left|cbn; lia].
  - rewrite <- Hs. symmetry. apply load_u64_ext; [lia|lia|]. intros b Hbb. apply (Hext (a, s)); [by left|cbn; lia].
  - intros r b Hr. apply Hext. by right.
Qed.

Lemma block_ok_dom m m' r : dom m' = dom m -> block_ok m r -> block_ok m' r.
Proof. intros Hd (? & ? & ? & ? & ? & Hm). split_and!; try done. by eapply mapped_dom. Qed.

Lemma blocks_ok_dom m m' l : dom m' = dom m -> Forall (block_ok m) l -> Forall (block_ok m') l.
Proof. intros Hd H. eapply Forall_impl; [exact H|]. intros r. by apply block_ok_dom. Qed.

(** Writing a node into the front of a block. *)
Lemma node_write_block {E} m r n :
  block_ok m r -> fits 64 (fn_next n) -> fits 64 (fn_size n) ->
  exists m', node_write m (fst r) n = @Ok E _ m' /\ dom m' = dom m /\
    (forall a, ~ fst r <= a < fst r + 16 -> m' !! a = m !! a) /\
    load_u64 m' (fst r) = Some (fn_next n) /\ load_u64 m' (fst r + 8) = Some (fn_size n).
Proof.
  intros (H0 & _ & _ & H16 & Hlt & Hm) Hn Hs. unfold node_write, fits in *.
  assert (mapped m (fst r) 8) as Hm1 by (eapply mapped_sub; [exact Hm|lia|lia]).
  assert (mapped m (fst r + 8) 8) as Hm2 by (eapply mapped_sub; [exact Hm|lia|lia]).
  destruct (@store_u64_mapped E m (fst r) (fn_next n) Hm1) as (m1 & -> & Hd1 & Ho1 & Hl1). cbn [bind].
  rewrite ptr_add_small by lia.
  destruct (@store_u64_mapped E m1 (fst r + 8) (fn_size n) (mapped_dom _ _ _ _ Hd1 Hm2)) as (m2 & -> & Hd2 & Ho2 & Hl2).
  exists m2. split; [done|]. split; [congruence|].
  rewrite Z.mod_small in Hl1, Hl2 by lia. split_and!.
  - intros a Ha. rewrite Ho2 by lia. apply Ho1. lia.
  - rewrite <- Hl1. apply load_u64_ext; [lia|lia|]. intros b Hb. apply Ho2. lia.
  - done.
Qed.

(** Two blocks of a list without overlaps. *)
Lemma blocks_apart l1 r1 l2 r2 l3 a :
  no_overlap (l1 ++ r1 :: l2 ++ r2 :: l3) -> contains a r1 = true -> contains a r2 = false.
Proof.
  intros Hno Ha. specialize (Hno a). rewrite !cover_app in Hno. cbn in Hno.
  rewrite cover_app in Hno. cbn in Hno. rewrite Ha in Hno. destruct (contains a r2); [lia|done].
Qed.

Lemma in_no_overlap l1 r l2 r' a :
  no_overlap (l1 ++ r :: l2) -> r' ∈ l1 ++ l2 -> contains a r = true -> contains a r' = false.
Proof.
  intros Hno Hin Ha. specialize (Hno a). rewrite cover_app in Hno. cbn in Hno. rewrite Ha in Hno.
  destruct (contains a r') eqn:Er; [|done].
  pose proof (cover_in a r' (l1 ++ l2) Hin Er) as Hc. rewrite cover_app in Hc. lia.
Qed.

Lemma chain_cons_inv m h a s l :
  chain m h ((a, s) :: l) ->
  h = a /\ 0 < a /\ exists next, load_u64 m a = Some next /\ load_u64 m (a + 8) = Some s /\ chain m next l.
Proof. inversion 1; subst; eauto 6. Qed.

Lemma chain_suffix m h l b s rest :
  chain m h (l ++ (b, s) :: rest) ->
  exists next, 0 < b /\ load_u64 m b = Some next /\ load_u64 m (b + 8) = Some s /\ chain m next rest.
Proof.
  revert h; induction l as [|[a t] l IH]; intros h H; cbn in H; inversion H; subst; eauto.
Qed.

Lemma chain_head_fits m h l : chain m h l -> Forall (block_ok m) l -> fits 64 h.
Proof.
  intros H Hb. unfold fits. destruct H as [|a s next l Ha _ _ _]; [lia|].
  apply Forall_cons in Hb as [(_ & _ & _ & Hs & Hlt & _) _]. cbn in *. lia.
Qed.

(** The link after the nodes [pre]. *)
Definition link_of (pre : list region) : option Z := fst <$> last pre.

Lemma chain_link {E} m st pre rest :
  chain m (free st) (pre ++ rest) -> exists h, link_read m st (link_of pre) = @Ok E _ h /\ chain m h rest.
Proof.
  intros H. unfold link_of. destruct pre as [|[b t] pre _] using rev_ind.
  - eauto.
  - rewrite last_snoc. rewrite <- app_assoc in H. apply chain_suffix in H as (next & _ & Hn & _ & H).
    cbn. rewrite Hn. eauto.
Qed.

(** Redirecting the link of the node [b] to the list [post]. *)
Lemma chain_relink m m1 h pre b t old next post :
  chain m h (pre ++ (b, t) :: old) -> chain m next post ->
  Forall (block_ok m) (pre ++ (b, t) :: post) -> no_overlap (pre ++ (b, t) :: post) ->
  load_u64 m1 b = Some next -> (forall x, ~ b <= x < b + 8 -> m1 !! x = m !! x) ->
  chain m1 h (pre ++ (b, t) :: post).
Proof.
  intros H Hpost Hb Hno Hl Hout.
  assert (block_ok m (b, t)) as (Hb0 & _ & _ & Ht & Hlt & _).
  { rewrite Forall_forall in Hb. apply Hb, elem_of_app. right. by left. }
  cbn in Hb0, Ht, Hlt.
  assert (forall r x, r ∈ pre ++ post -> Forall (block_ok m) (pre ++ post) -> fst r <= x < fst r + 16 ->
    m !! x = m1 !! x) as Hsame.
  { intros r x Hr Hf Hx. symmetry. apply Hout. intros Hbx.
    assert (contains x r = false) as Hc.
    { eapply in_no_overlap; [exact Hno|done|]. apply contains_spec. cbn. lia. }
    rewrite Forall_forall in Hf. destruct (Hf r Hr) as (_ & _ & _ & ? & _).
    apply not_true_iff_false in Hc. apply Hc, contains_spec. lia. }
  assert (Forall (block_ok m) (pre ++ post)) as Hbo.
  { apply Forall_app in Hb as [? [_ ?]%Forall_cons]. by apply Forall_app. }
  assert (chain m1 next post) as Hpost1.
  { eapply chain_ext; [exact Hpost|by apply Forall_app in Hbo as [_ ?]|].
    intros r x Hr. apply Hsame; [|done]. apply elem_of_app. by right. }
  assert (Forall (fun r => forall x, fst r <= x < fst r + 16 -> m !! x = m1 !! x) pre) as Hpre.
  { apply Forall_forall. intros r Hr x. apply Hsame; [|done]. apply elem_of_app. by left. }
  assert (Forall (block_ok m) pre) as Hbpre by (by apply Forall_app in Hbo as [? _]).
  clear Hb Hno Hbo Hsame. revert h H. induction pre as [|[a s] pre IH]; intros h H; cbn in H |- *;
    apply chain_cons_inv in H as (-> & Hpos & nx & Hn & Hs & Hnx).
  - econstructor; [done|exact Hl| |done]. rewrite <- Hs. apply load_u64_ext; [lia|lia|]. intros x Hx. apply Hout. lia.
  - apply Forall_cons in Hpre as [Ha Hpre], Hbpre as [(Ha0 & _ & _ & Hs16 & Hslt & _) Hbpre]. cbn in *.
    econstructor; [done| | |by apply IH].
    + rewrite <- Hn. symmetry. apply load_u64_ext; [lia|lia|]. intros x Hx. apply Ha. lia.
    + rewrite <- Hs. symmetry. apply load_u64_ext; [lia|lia|]. intros x Hx. apply Ha. lia.
Qed.

Lemma link_write_unlink {E} m st pre a s post next :
  chain m (free st) (pre ++ (a, s) :: post) -> chain m next post ->
  Forall (block_ok m) (pre ++ post) -> no_overlap (pre ++ post) -> fits 64 next ->
  exists m1 st1, link_write m st (link_of pre) next = @Ok E _ (m1, st1) /\ chunk st1 = chunk st /\
    dom m1 = dom m /\ chain m1 (free st1) (pre ++ post) /\
    forall x, cover x pre = O -> m1 !! x = m !! x.
Proof.
  intros H Hpost Hb Hno Hf. unfold link_of. destruct pre as [|[b t] pre _] using rev_ind.
  - exists m, (Mk_State (chunk st) next). by split_and!.
  - rewrite last_snoc. rewrite <- !app_assoc in *. cbn [app] in *.
    assert (block_ok m (b, t)) as Hbt.
    { rewrite Forall_forall in Hb. apply Hb, elem_of_app. right. by left. }
    pose proof Hbt as (Hb0 & _ & _ & Ht & Hlt & Hm). cbn in Hb0, Ht, Hlt, Hm.
    destruct (@store_u64_mapped E m b next) as (m1 & Hst & Hd & Ho & Hl); [eapply mapped_sub; [exact Hm|lia|lia]|].
    rewrite Z.mod_small in Hl by done. cbn. rewrite Hst. cbn. exists m1, st.
    split; [done|]. split; [done|]. split; [done|]. split.
    + eapply chain_relink; eauto.
    + intros x Hx. apply Ho. intros Hbx. rewrite cover_app in Hx. cbn in Hx.
      assert (contains x (b, t) = true) as Hc by (apply contains_spec; cbn; lia). rewrite Hc in Hx. lia.
Qed.

(** The first block of the free list that fits a request *)
Definition fits_request (size align : Z) (r : region) : bool := (size <=? snd r) && (fst r mod align =? 0).

(** What is left of a block of [s] bytes once [size] are taken. *)
Definition remainder (a s size : Z) : list region :=
  if 16 <=? s - size then [(a + size, s - size)] else [].

(** Putting the remainder of the block [(a, s)] at the head of the list. *)
Lemma write_remainder {E} m m1 head a s size pre rest :
  block_ok m (a, s) -> dom m1 = dom m -> chain m1 head (pre ++ rest) ->
  Forall (block_ok m) (pre ++ rest) -> no_overlap (pre ++ (a, s) :: rest) ->
  16 <= size -> size mod 8 = 0 -> 16 <= s - size ->
  exists m2, node_write m1 (a + size) (Mk_FreeNode head (s - size)) = @Ok E _ m2 /\ dom m2 = dom m /\
    chain m2 (a + size) ((a + size, s - size) :: pre ++ rest) /\
    forall x, ~ a <= x < a + s -> m2 !! x = m1 !! x.
Proof.
  intros (Ha0 & Ha8 & Hs8 & _ & Hlt & Hm) Hd1 Hc1 Hb Hno Hsz H8 Hlo. cbn in *.
  assert (block_ok m1 (a + size, s - size)) as Hbt.
  { unfold block_ok. cbn. split_and!; try lia; try (Z.div_mod_to_equations; lia).
    eapply mapped_dom; [exact Hd1|]. eapply mapped_sub; [exact Hm|lia|lia]. }
  destruct (@node_write_block E m1 (a + size, s - size) (Mk_FreeNode head (s - size)) Hbt)
    as (m2 & Hw & Hd2 & Ho2 & Hl1 & Hl2).
  { eapply chain_head_fits; [exact Hc1|by eapply blocks_ok_dom]. }
  { unfold fits. cbn. lia. }
  cbn [fst snd fn_next fn_size] in *. exists m2. split; [done|]. split; [congruence|]. split.
  - econstructor; [lia|done|done|]. eapply chain_ext; [exact Hc1|by eapply blocks_ok_dom|].
    intros r x Hr Hx. symmetry. apply Ho2. intros Hbx.
    assert (contains x r = false) as Hcr.
    { eapply in_no_overlap; [exact Hno|done|]. apply contains_spec. cbn. lia. }
    rewrite Forall_forall in Hb. destruct (Hb r Hr) as (_ & _ & _ & ? & _).
    apply not_true_iff_false in Hcr. apply Hcr, contains_spec. lia.
  - intros x Hx. apply Ho2. lia.
Qed.

Lemma take_loop_spec {E} `{BuildProfile} fuel m st pre rest size align :
  chain m (free st) (pre ++ rest) -> Forall (block_ok m) (pre ++ rest) -> no_overlap (pre ++ rest) ->
  16 <= size -> size mod 8 = 0 -> (length rest < fuel)%nat ->
  Forall (fun r => fits_request size align r = false) pre ->
  exists m' st' p, take_loop fuel m st (link_of pre) size align = @Ok E _ (m', st', p) /\
    chunk st' = chunk st /\ dom m' = dom m /\
    match p with
    | None => m' = m /\ st' = st /\ Forall (fun r => fits_request size align r = false) (pre ++ rest)
    | Some a => exists l1 s l2, pre ++ rest = l1 ++ (a, s) :: l2 /\
        fits_request size align (a, s) = true /\ Forall (fun r => fits_request size align r = false) l1 /\
        chain m' (free st') (remainder a s size ++ l1 ++ l2) /\
        forall x, cover x (pre ++ rest) = O -> m' !! x = m !! x
    end.
Proof.
  intros Hc Hb Hno Hs16 Hs8 Hfuel Hpre. revert fuel pre Hc Hb Hno Hfuel Hpre.
  induction rest as [|[a s] rest IH]; intros [|fuel] pre Hc Hb Hno Hfuel Hpre; cbn in Hfuel; try lia;
    cbn [take_loop]; destruct (@chain_link E m st pre _ Hc) as (h & -> & Hh); cbn [bind];
    [|apply chain_cons_inv in Hh as (-> & Ha & next & Hn & Hs & Hrest)].
  - inversion Hh; subst. cbn. exists m, st, None. by rewrite app_nil_r in *.
  - rewrite (proj2 (Z.eqb_neq a 0)) by lia.
    assert (block_ok m (a, s)) as Hbl.
    { rewrite Forall_forall in Hb. apply Hb, elem_of_app. right. by left. }
    pose proof Hbl as (_ & Ha8 & Hss8 & Hss & Hlt & Hm). cbn in Ha8, Hss8, Hss, Hlt, Hm.
    unfold node_read. rewrite Hn, ptr_add_small, Hs by lia. cbn [bind fn_size fn_next].
    change ((size <=? s) && (a mod align =? 0)) with (fits_request size align (a, s)).
    destruct (fits_request size align (a, s)) eqn:Efit.
    + assert (no_overlap (pre ++ rest)) as Hno'.
      { intros x. specialize (Hno x). rewrite cover_app in *. cbn in Hno. lia. }
      assert (Forall (block_ok m) (pre ++ rest)) as Hb'.
      { apply Forall_app in Hb as [? [_ ?]%Forall_cons]. by apply Forall_app. }
      assert (fits 64 next) as Hnf by (eapply chain_head_fits; [exact Hrest|by apply Forall_app in Hb' as [_ ?]]).
      destruct (@link_write_unlink E m st pre a s rest next Hc Hrest Hb' Hno' Hnf)
        as (m1 & st1 & -> & Hck & Hd1 & Hc1 & Ho1). cbn [bind].
      pose proof Efit as Efit'. unfold fits_request in Efit'. cbn in Efit'.
      apply andb_true_iff in Efit' as [Hle%Z.leb_le _].
      unfold sub_w. rewrite in_range_fits by (unfold fits; lia). cbn [bind].
      change MIN_REUSE with 16. destruct (Z.leb_spec 16 (s - size)) as [Hlo|Hlo].
      * unfold add_w. rewrite in_range_fits by (unfold fits; lia). cbn [bind].
        destruct (@write_remainder E m m1 (free st1) a s size pre rest Hbl Hd1 Hc1 Hb' Hno Hs16 Hs8 Hlo)
          as (m2 & -> & Hd2 & Hc2 & Ho2). cbn [bind].
        exists m2, (Mk_State (chunk st1) (a + size)), (Some a). split; [done|]. split; [done|]. split; [done|].
        exists pre, s, rest. split; [done|]. split; [done|]. split; [done|]. split.
        { unfold remainder. by rewrite (proj2 (Z.leb_le 16 _)) by lia. }
        intros x Hx. rewrite cover_app in Hx. cbn [cover] in Hx. rewrite Ho2; [apply Ho1; lia|].
        intros Hbx. rewrite (proj2 (contains_spec x (a, s))) in Hx by (cbn; lia). lia.
      * exists m1, st1, (Some a). split; [done|]. split; [done|]. split; [done|].
        exists pre, s, rest. split; [done|]. split; [done|]. split; [done|]. split.
        { unfold remainder. by rewrite (proj2 (Z.leb_gt 16 _)) by lia. }
        intros x Hx. rewrite cover_app in Hx. apply Ho1. lia.
    + specialize (IH fuel (pre ++ [(a, s)])). rewrite <- app_assoc in IH. cbn [app] in IH.
      destruct (IH Hc Hb Hno ltac:(lia)) as (m' & st' & p & Hr & Hrest').
      { apply Forall_app. split; [done|]. by constructor. }
      unfold link_of in Hr. rewrite last_snoc in Hr. cbn in Hr. rewrite Hr. eauto 8.
Qed.

(** ** Rounding up *)

Lemma land_complement a k :
  0 <= k <= 64 -> 0 <= a < 2 ^ 64 -> Z.land a (Z.lxor (2 ^ k - 1) (2 ^ 64 - 1)) = a - a mod 2 ^ k.
Proof.
  intros Hk Ha. rewrite !Z.sub_1_r, <- !Z.ones_equiv.
  assert (Z.land a (Z.lxor (Z.ones k) (Z.ones 64)) = Z.ldiff a (Z.ones k)) as ->.
  { apply Z.bits_inj'. intros i Hi. rewrite Z.ldiff_spec, Z.land_spec, Z.lxor_spec.
    rewrite (Z.testbit_ones_nonneg 64) by lia. destruct (Z.ltb_spec i 64).
    - by rewrite xorb_true_r.
    - rewrite <- (Z.mod_small a (2 ^ 64)) by lia. by rewrite Z.mod_pow2_bits_high by lia. }
  rewrite Z.ldiff_ones_r, Z.shiftl_mul_pow2, Z.shiftr_div_pow2 by lia.
  pose proof (Z.div_mod a (2 ^ k)). lia.
Qed.

Lemma is_power_of_two_pow k : 0 <= k -> is_power_of_two (2 ^ k) = true.
Proof.
  intros Hk. unfold is_power_of_two. pose proof (Z.pow_pos_nonneg 2 k ltac:(lia) Hk).
  rewrite (proj2 (Z.ltb_lt 0 _)) by lia. rewrite Z.sub_1_r, <- Z.ones_equiv, Z.land_ones, Z.mod_same by lia.
  done.
Qed.

(** [align_up] gives the first multiple of the alignment from the address on. *)
Lemma align_up_spec {E} `{BuildProfile} addr k :
  0 <= k <= 62 -> 0 <= addr <= 2 ^ 63 ->
  exists r, align_up addr (2 ^ k) = @Ok E _ r /\ r mod 2 ^ k = 0 /\ addr <= r < addr + 2 ^ k.
Proof.
  intros Hk Ha. unfold align_up. rewrite is_power_of_two_pow by lia. rewrite andb_false_r.
  pose proof (Z.pow_pos_nonneg 2 k ltac:(lia) ltac:(lia)).
  pose proof (Z.pow_le_mono_r 2 k 62 ltac:(lia) ltac:(lia)).
  unfold add_w, sub_w. rewrite !in_range_fits by (unfold fits; lia). cbn [bind].
  rewrite in_range_fits by (unfold fits; lia). cbn [bind]. rewrite land_complement by lia.
  eexists. split; [done|]. pose proof (Z.mod_pos_bound (addr + 2 ^ k - 1) (2 ^ k) ltac:(lia)).
  split; [|lia]. rewrite Zminus_mod_idemp_r, Z.sub_diag. by apply Z.mod_0_l; lia.
Qed.

Lemma mod_8_of_mod_pow r k : 3 <= k -> r mod 2 ^ k = 0 -> r mod 8 = 0.
Proof.
  intros Hk Hr. apply Z.mod_divide; [lia|]. apply Z.mod_divide in Hr; [|apply Z.pow_nonzero; lia].
  etransitivity; [|exact Hr]. change 8 with (2 ^ 3). exists (2 ^ (k - 3)).
  rewrite <- Z.pow_add_r by lia. f_equal. lia.
Qed.

(** ** The invariant *)

Definition chunk_tail (st : State) : list region :=
  match chunk st with
  | Some c => if ck_offset c <? ck_size c then [(ck_base c + ck_offset c, ck_size c - ck_offset c)] else []
  | None => []
  end.

Definition chunk_ok (m : memory) (st : State) : Prop :=
  match chunk st with
  | Some c => 0 < ck_base c /\ 0 <= ck_offset c <= ck_size c /\ ck_base c + ck_size c <= 2 ^ 62 /\
      mapped m (ck_base c + ck_offset c) (ck_size c - ck_offset c)
  | None => True
  end.

(** The stack slot [sp], the live blocks, the free blocks and the rest of the
    chunk are mapped and do not overlap; the free blocks are the list. *)
Record heap_inv (m : memory) (sp : Z) (st : State) (live freel : list region) : Prop := {
  inv_chain : chain m (free st) freel;
  inv_blocks : Forall (block_ok m) (live ++ freel);
  inv_chunk : chunk_ok m st;
  inv_stack : mapped m sp 8;
  inv_apart : no_overlap ((sp, 8) :: live ++ freel ++ chunk_tail st)
}.

(** The memory of the live blocks did not change. *)
Definition keeps (live : list region) (m m' : memory) : Prop :=
  forall r x, r ∈ live -> contains x r = true -> m' !! x = m !! x.

Lemma keeps_trans live m1 m2 m3 : keeps live m1 m2 -> keeps live m2 m3 -> keeps live m1 m3.
Proof. intros H1 H2 r x Hr Hx. by rewrite (H2 r x Hr Hx), (H1 r x Hr Hx). Qed.

Lemma no_overlap_sub l l' : (forall x, (cover x l' <= cover x l)%nat) -> no_overlap l -> no_overlap l'.
Proof. intros H Hno x. etransitivity; [apply H|apply Hno]. Qed.

Lemma free_length m sp st live freel : heap_inv m sp st live freel -> (length freel <= base.size m)%nat.
Proof.
  intros [_ Hb _ _ Hno]. apply Forall_app in Hb as [_ Hb].
  assert (NoDup (fst <$> freel)) as Hnd.
  { assert (no_overlap freel) as Hno' by
      (eapply no_overlap_sub; [|exact Hno]; intros x; cbn; rewrite !cover_app; lia).
    clear Hno. induction freel as [|r l IH]; [constructor|]. apply Forall_cons in Hb as [Hr Hb].
    cbn. constructor.
    - intros (r' & Er & Hin)%list_elem_of_fmap. specialize (Hno' (fst r)). cbn in Hno'.
      destruct Hr as (_ & _ & _ & ? & _). rewrite Forall_forall in Hb. destruct (Hb r' Hin) as (_ & _ & _ & ? & _).
      rewrite (proj2 (contains_spec _ _)) in Hno' by lia.
      pose proof (cover_in (fst r) r' l Hin). rewrite (proj2 (contains_spec _ _)) in H1 by lia. lia.
    - apply IH; [done|]. eapply no_overlap_sub; [|exact Hno']. intros x. cbn. lia. }
  rewrite <- size_dom, <- (length_fmap fst freel), <- (size_list_to_set (C := gset Z)) by exact Hnd.
  apply subseteq_size. intros x Hx%elem_of_list_to_set. apply list_elem_of_fmap in Hx as (r & -> & Hin).
  rewrite Forall_forall in Hb. destruct (Hb r Hin) as (_ & _ & _ & ? & _ & (_ & _ & Hm)).
  apply elem_of_dom, Hm. lia.
Qed.

(** A block cut from the front of a free one *)
Lemma block_ok_front m a s size :
  block_ok m (a, s) -> 16 <= size <= s -> size mod 8 = 0 -> block_ok m (a, size).
Proof.
  intros (? & ? & ? & ? & ? & Hm) Hs H8. cbn in *. split_and!; cbn; try done; try lia.
  eapply mapped_sub; [exact Hm|lia|lia].
Qed.

Lemma block_ok_remainder m a s size :
  block_ok m (a, s) -> 16 <= size <= s -> size mod 8 = 0 -> Forall (block_ok m) (remainder a s size).
Proof.
  intros (? & ? & ? & ? & ? & Hm) Hs H8. cbn in *. unfold remainder.
  destruct (Z.leb_spec 16 (s - size)); [|constructor]. constructor; [|constructor].
  split_and!; cbn; try lia; try (Z.div_mod_to_equations; lia). eapply mapped_sub; [exact Hm|lia|lia].
Qed.

Lemma cover_remainder x a s size :
  0 <= size <= s ->
  ((if contains x (a, size) then 1 else 0) + cover x (remainder a s size) <=
     (if contains x (a, s) then 1 else 0))%nat.
Proof.
  intros Hs. rewrite (cover_split x a s size Hs). unfold remainder.
  destruct (Z.leb_spec 16 (s - size)); cbn; lia.
Qed.

Section Operations.
Context {E : Type} {bp : BuildProfile} (sp : Z).

(** Taking from the free list: the first block that fits, cut to size. *)
Lemma take_spec m st live freel size align :
  heap_inv m sp st live freel -> 16 <= size -> size mod 8 = 0 ->
  exists m' st' p, take_from_free_list m st size align = @Ok E _ (m', st', p) /\ dom m' = dom m /\
    keeps live m m' /\
    match p with
    | None => m' = m /\ st' = st
    | Some a => a <> 0 /\ a mod align = 0 /\ exists freel', heap_inv m' sp st' ((a, size) :: live) freel'
    end.
Proof.
  intros Hinv Hs H8. pose proof (free_length _ _ _ _ _ Hinv) as Hlen.
  destruct Hinv as [Hc Hb Hck Hst Hno].
  pose proof Hb as Hb0. apply Forall_app in Hb as [Hbl Hbf].
  assert (no_overlap freel) as Hnof by
    (eapply no_overlap_sub; [|exact Hno]; intros x; cbn; rewrite !cover_app; lia).
  destruct (@take_loop_spec E bp (S (base.size m)) m st [] freel size align Hc Hbf Hnof Hs H8)
    as (m' & st' & p & Ht & Hchk & Hd & Hp); [lia|constructor|].
  exists m', st', p. split; [exact Ht|]. split; [exact Hd|]. destruct p as [a|].
  2: { destruct Hp as (-> & -> & _). split; [by intros r x _ _|done]. }
  destruct Hp as (l1 & s & l2 & Hl & Hfit & _ & Hc' & Hout). cbn [app] in Hl. subst freel. cbn [app] in Hout.
  unfold fits_request in Hfit. apply andb_true_iff in Hfit as [Hle%Z.leb_le Hal%Z.eqb_eq]. cbn in Hle, Hal.
  assert (block_ok m (a, s)) as Hbas by (rewrite Forall_forall in Hbf; apply Hbf, elem_of_app; right; by left).
  split; [|split; [destruct Hbas as (? & _); cbn in *; lia|split; [done|]]].
  - intros r x Hr Hx. apply Hout. specialize (Hno x). cbn in Hno. rewrite !cover_app in Hno.
    pose proof (cover_in x r live Hr Hx). rewrite cover_app. lia.
  - exists (remainder a s size ++ l1 ++ l2). split.
    + exact Hc'.
    + eapply blocks_ok_dom; [exact Hd|]. cbn [app]. constructor; [by eapply block_ok_front|].
      apply Forall_app in Hbf as [? [_ ?]%Forall_cons].
      rewrite !Forall_app. split_and!; try done. by apply block_ok_remainder.
    + unfold chunk_ok in *. rewrite Hchk. destruct (chunk st); [|done].
      destruct Hck as (? & ? & ? & ?). split_and!; try lia. by eapply mapped_dom.
    + by eapply mapped_dom.
    + eapply no_overlap_sub; [|exact Hno]. intros x. cbn [cover app].
      rewrite !cover_app. cbn [cover]. unfold chunk_tail. rewrite Hchk.
      pose proof (cover_remainder x a s size ltac:(lia)). lia.
Qed.

(** Taking from the chunk. *)
Lemma bump_spec m st live freel size k :
  heap_inv m sp st live freel -> 16 <= size < 2 ^ 62 -> size mod 8 = 0 -> 3 <= k <= 62 ->
  exists st' p, bump_alloc st size (2 ^ k) = @Ok E _ (st', p) /\
    match p with
    | None => st' = st /\ forall c, chunk st = Some c -> ck_size c - ck_offset c < size + 2 ^ k
    | Some a => a <> 0 /\ a mod 2 ^ k = 0 /\ heap_inv m sp st' ((a, size) :: live) freel
    end.
Proof.
  intros [Hc Hb Hck Hst Hno] Hs H8 Hk. unfold bump_alloc. unfold chunk_ok in Hck.
  destruct (chunk st) as [[base csize off]|] eqn:Ec; [|by exists st, None]. cbn [ck_base ck_size ck_offset] in *.
  destruct Hck as (Hb0 & Hoff & Htop & Hm).
  unfold add_w. rewrite in_range_fits by (unfold fits; lia). cbn [bind].
  destruct (@align_up_spec E bp (base + off) k) as (a & -> & Hal & Ha); [lia|lia|]. cbn [bind].
  pose proof (Z.pow_le_mono_r 2 k 62 ltac:(lia) ltac:(lia)).
  rewrite (proj2 (checked_add64_Some a size (a + size))) by (unfold fits; lia).
  rewrite (proj2 (checked_sub64_Some (a + size) base (a + size - base))) by (unfold fits; lia).
  destruct (Z.ltb_spec csize (a + size - base)) as [Hfull|Hroom].
  { exists st, None. split; [done|]. split; [done|]. intros c [= <-]. cbn. lia. }
  rewrite (proj2 (Z.eqb_neq a 0)) by lia. eexists _, (Some a). split; [done|].
  split; [lia|split; [done|]]. split.
  - exact Hc.
  - cbn [app]. constructor; [|done]. pose proof (mod_8_of_mod_pow a k ltac:(lia) Hal).
    split_and!; cbn; try lia. eapply mapped_sub; [exact Hm|lia|lia].
  - cbn. split_and!; try done; try lia. eapply mapped_sub; [exact Hm|lia|lia].
  - exact Hst.
  - eapply no_overlap_sub; [|exact Hno]. intros x. unfold chunk_tail. rewrite Ec. cbn [chunk ck_base ck_size ck_offset].
    cbn [cover app]. rewrite !cover_app.
    rewrite (proj2 (Z.ltb_lt off csize)) by lia.
    assert ((if contains x (a, size) then 1 else 0) +
      cover x (if (a + size - base <? csize)%Z then [(base + (a + size - base), csize - (a + size - base))%Z] else []) <=
      cover x [(base + off, csize - off)%Z])%nat as Ht.
    { unfold contains. destruct (Z.ltb_spec (a + size - base) csize); cbn [cover]; unfold contains; cbn [fst snd];
        repeat (match goal with |- context [Z.leb ?u ?v] => destruct (Z.leb_spec u v) | |- context [Z.ltb ?u ?v] => destruct (Z.ltb_spec u v) end);
        cbn; lia. }
    lia.
Qed.

(** Putting a block on the list. *)
Lemma free_spec m st live freel r :
  heap_inv m sp st (r :: live) freel ->
  exists m', node_write m (fst r) (Mk_FreeNode (free st) (snd r)) = @Ok E _ m' /\ dom m' = dom m /\
    keeps live m m' /\ heap_inv m' sp (Mk_State (chunk st) (fst r)) live (r :: freel).
Proof.
  intros [Hc Hb Hck Hst Hno]. cbn [app] in Hb. apply Forall_cons in Hb as [Hr Hb].
  pose proof Hb as Hb0. apply Forall_app in Hb0 as [Hbl Hbf].
  pose proof Hr as (Hr0 & _ & _ & Hr16 & Hrlt & Hrm).
  destruct (@node_write_block E m r (Mk_FreeNode (free st) (snd r)) Hr) as (m' & Hw & Hd & Hout & Hl1 & Hl2).
  { by eapply chain_head_fits. }
  { unfold fits. cbn. lia. }
  cbn [fn_next fn_size] in *.
  assert (forall r' x, r' ∈ live ++ freel -> contains x r' = true -> m' !! x = m !! x) as Hsame.
  { intros r' x Hr' Hx. apply Hout. intros Hrx. specialize (Hno x). cbn in Hno. rewrite !cover_app in Hno.
    rewrite (proj2 (contains_spec x r)) in Hno by lia.
    pose proof (cover_in x r' (live ++ freel) Hr' Hx) as Hcv. rewrite cover_app in Hcv. lia. }
  exists m'. split; [exact Hw|]. split; [exact Hd|]. split.
  - intros r' x Hr'. apply Hsame, elem_of_app. by left.
  - split.
    + destruct r as [a s]. cbn [fst snd] in *. econstructor; [done|done|done|].
      eapply chain_ext; [exact Hc|exact Hbf|]. intros r' x Hr' Hx. symmetry. apply (Hsame r').
      * apply elem_of_app. by right.
      * apply contains_spec. rewrite Forall_forall in Hbf. destruct (Hbf r' Hr') as (_ & _ & _ & ? & _). lia.
    + eapply blocks_ok_dom; [exact Hd|]. rewrite Forall_app, Forall_cons. by rewrite Forall_app in Hb.
    + unfold chunk_ok in *. cbn. destruct (chunk st); [|done].
      destruct Hck as (? & ? & ? & ?). split_and!; try lia. by eapply mapped_dom.
    + by eapply mapped_dom.
    + eapply no_overlap_sub; [|exact Hno]. intros x. unfold chunk_tail. cbn [cover app chunk].
      rewrite !cover_app. cbn [cover]. rewrite !cover_app. lia.
Qed.
End Operations.

(** ** The invariant when memory changes outside it *)

(** All the regions the invariant accounts for *)
Definition owned (st : State) (live freel : list region) : list region := live ++ freel ++ chunk_tail st.

Lemma contains_mapped m r x : mapped m (fst r) (snd r) -> contains x r = true -> is_Some (m !! x).
Proof. intros (_ & _ & Hm) Hx%contains_spec. by apply Hm. Qed.

Lemma cover_pos x l : (0 < cover x l)%nat -> exists r, r ∈ l /\ contains x r = true.
Proof.
  induction l as [|r l IH]; cbn; [lia|]. destruct (contains x r) eqn:Ex.
  - intros _. exists r. split; [by left|done].
  - intros (r' & Hr & Hx)%IH. exists r'. split; [by right|done].
Qed.

Lemma owned_mapped m sp st live freel x :
  heap_inv m sp st live freel -> (0 < cover x (owned st live freel))%nat -> is_Some (m !! x).
Proof.
  intros [_ Hb Hck _ _] (r & Hr & Hx)%cover_pos. unfold owned in Hr.
  rewrite app_assoc in Hr. apply elem_of_app in Hr as [Hr|Hr].
  - rewrite Forall_forall in Hb. destruct (Hb r Hr) as (_ & _ & _ & _ & _ & Hm). by eapply contains_mapped.
  - unfold chunk_tail, chunk_ok in *. destruct (chunk st) as [c|]; [|by apply not_elem_of_nil in Hr].
    destruct (ck_offset c <? ck_size c); [|by apply not_elem_of_nil in Hr].
    apply list_elem_of_singleton in Hr as ->. destruct Hck as (_ & _ & _ & Hm).
    exact (contains_mapped m (_, _) x Hm Hx).
Qed.

Lemma owned_not_stack m sp st live freel x :
  heap_inv m sp st live freel -> (0 < cover x (owned st live freel))%nat -> ~ sp <= x < sp + 8.
Proof.
  intros [_ _ _ _ Hno] Hx Hs. specialize (Hno x). cbn [cover] in Hno. unfold owned in Hx.
  rewrite (proj2 (contains_spec x (sp, 8))) in Hno by (cbn; lia). lia.
Qed.

Lemma heap_inv_same m m' sp st live freel :
  heap_inv m sp st live freel -> mapped m' sp 8 ->
  (forall x, (0 < cover x (owned st live freel))%nat -> m' !! x = m !! x) ->
  heap_inv m' sp st live freel.
Proof.
  intros [Hc Hb Hck Hst Hno] Hst' Hsame.
  assert (forall r x, r ∈ live ++ freel -> contains x r = true -> m' !! x = m !! x) as Hin.
  { intros r x Hr Hx. apply Hsame. unfold owned. rewrite app_assoc, cover_app.
    pose proof (cover_in x r _ Hr Hx). lia. }
  split; [| | |done|done].
  - apply Forall_app in Hb as [_ Hbf]. eapply chain_ext; [exact Hc|exact Hbf|].
    intros r x Hr Hx. symmetry. apply (Hin r); [apply elem_of_app; by right|].
    rewrite Forall_forall in Hbf. destruct (Hbf r Hr) as (_ & _ & _ & ? & _). apply contains_spec. lia.
  - rewrite Forall_forall in Hb |- *. intros r Hr. destruct (Hb r Hr) as (? & ? & ? & ? & ? & Hm).
    split_and!; try done. eapply mapped_same; [exact Hm|]. intros x Hx. apply (Hin r x Hr), contains_spec. lia.
  - unfold chunk_ok in *. destruct (chunk st) as [c|] eqn:Ec; [|done].
    destruct Hck as (? & ? & ? & Hm). split_and!; try done; try lia. eapply mapped_same; [exact Hm|].
    intros x Hx. apply Hsame. unfold owned, chunk_tail. rewrite Ec, !cover_app.
    rewrite (proj2 (Z.ltb_lt (ck_offset c) (ck_size c))) by lia. cbn [cover].
    rewrite (proj2 (contains_spec x (_, _))) by (cbn; lia). lia.
Qed.

Lemma heap_inv_perm m sp st live live' freel :
  live ≡ₚ live' -> heap_inv m sp st live freel -> heap_inv m sp st live' freel.
Proof.
  intros Hp [Hc Hb Hck Hst Hno]. split; try done.
  - by rewrite <- Hp.
  - eapply no_overlap_sub; [|exact Hno]. intros x. cbn. rewrite !cover_app.
    assert (cover x live = cover x live') as ->; [|lia].
    clear -Hp. induction Hp; cbn; lia.
Qed.

Lemma heap_inv_drop m sp st r live freel : heap_inv m sp st (r :: live) freel -> heap_inv m sp st live freel.
Proof.
  intros [Hc Hb Hck Hst Hno]. cbn [app] in Hb. apply Forall_cons in Hb as [_ Hb]. split; try done.
  eapply no_overlap_sub; [|exact Hno]. intros x. cbn [cover app]. lia.
Qed.

(** A region that was not mapped is no part of the heap. *)
Lemma fresh_cover m sp st live freel x :
  heap_inv m sp st live freel -> m !! x = None -> cover x ((sp, 8) :: owned st live freel) = O.
Proof.
  intros Hinv Hx. destruct (cover x (owned st live freel)) eqn:Ec.
  - cbn. rewrite Ec. destruct (contains x (sp, 8)) eqn:Es; [|done]. destruct Hinv as [_ _ _ Hst _].
    destruct (contains_mapped m (sp, 8) x Hst Es). congruence.
  - destruct (owned_mapped m sp st live freel x Hinv) as [? ?]; [lia|congruence].
Qed.

(** ** The kernel's virtual memory *)

Section Heap.
Context {M : Machine} {bp : BuildProfile} {E : Type}.

Context (page : Z) (laws : vm_laws page).

Lemma mod_8_of_page a : a mod page = 0 -> a mod 8 = 0.
Proof.
  destruct (page_size page laws) as (j & Hj & ->). intros Ha. apply (mod_8_of_mod_pow a j); [lia|done].
Qed.

Lemma round_page_mod n : round_page page n mod 8 = 0.
Proof.
  apply mod_8_of_page. destruct (page_size page laws) as (j & Hj & ->).
  pose proof (Z.pow_pos_nonneg 2 j ltac:(lia) ltac:(lia)). unfold round_page. by apply Z.mod_mul; lia.
Qed.

(** *** Fresh memory joins the heap *)

Context (sp : Z).

Lemma cover_fresh r fresh l :
  (forall x, contains x fresh = true -> cover x l = O) -> no_overlap l ->
  (forall x, contains x r = true -> contains x fresh = true) -> no_overlap (r :: l).
Proof.
  intros Hf Hno Hsub x. cbn [cover]. specialize (Hno x). destruct (contains x r) eqn:Er; [|lia].
  rewrite (Hf x (Hsub x Er)). lia.
Qed.

Lemma new_region_inv m m' st live freel base n :
  heap_inv m sp st live freel -> heap_inv m' sp st live freel ->
  0 < base -> base mod page = 0 -> 16 <= n -> base + round_page page n <= 2 ^ 62 ->
  mapped m' base (round_page page n) -> (forall x, base <= x < base + round_page page n -> m !! x = None) ->
  heap_inv m' sp st ((base, round_page page n) :: live) freel.
Proof.
  intros Hold [Hc Hb Hck Hst Hno] Hb0 Hbp Hn Htop Hm Hfresh.
  pose proof (round_page_ge page laws n ltac:(lia)). split; try done.
  - cbn [app]. constructor; [|done]. pose proof (mod_8_of_page base Hbp). pose proof (round_page_mod n).
    split; [cbn; lia|]. split; [done|]. split; [done|]. split; [cbn; lia|]. split; [cbn; lia|done].
  - assert (no_overlap ((base, round_page page n) :: (sp, 8) :: owned st live freel)) as Hn'.
    { eapply cover_fresh; [|exact Hno|by intros x Hx]. intros x Hx%contains_spec.
      eapply fresh_cover; [exact Hold|]. by apply Hfresh. }
    eapply no_overlap_sub; [|exact Hn']. intros x. unfold owned. cbn. lia.
Qed.

Lemma new_chunk_inv m m' st live freel base n :
  heap_inv m sp st live freel -> heap_inv m' sp st live freel ->
  0 < base -> 0 <= n -> base + round_page page n <= 2 ^ 62 ->
  mapped m' base (round_page page n) -> (forall x, base <= x < base + round_page page n -> m !! x = None) ->
  heap_inv m' sp (Mk_State (Some (Mk_Chunk base n 0)) (free st)) live freel.
Proof.
  intros Hold [Hc Hb Hck Hst Hno] Hb0 Hn Htop Hm Hfresh. pose proof (round_page_ge page laws n ltac:(lia)). split; try done.
  - unfold chunk_ok. cbn. rewrite Z.add_0_r, Z.sub_0_r. split_and!; try done; try lia.
    eapply mapped_sub; [exact Hm|lia|lia].
  - assert (no_overlap ((sp, 8) :: live ++ freel)) as Hno1.
    { eapply no_overlap_sub; [|exact Hno]. intros x. cbn. rewrite !cover_app. lia. }
    assert (no_overlap ((base, n) :: (sp, 8) :: live ++ freel)) as Hn'.
    { eapply (cover_fresh (base, n) (base, round_page page n)); [|exact Hno1|].
      - intros x Hx%contains_spec. pose proof (fresh_cover _ _ _ _ _ x Hold ltac:(by apply Hfresh)) as Hc0.
        cbn [cover] in *. unfold owned in Hc0. rewrite !cover_app in *. lia.
      - intros x Hx%contains_spec. apply contains_spec. cbn in *. lia. }
    eapply no_overlap_sub; [|exact Hn']. intros x. unfold chunk_tail. cbn [chunk ck_base ck_size ck_offset].
    rewrite Z.add_0_r, Z.sub_0_r. cbn [cover]. rewrite !cover_app. destruct (0 <? n); cbn [cover]; lia.
Qed.

(** Asking the kernel for memory leaves the heap as it is. *)
Lemma vm_alloc_heap n w st live freel :
  w_sp w = sp -> heap_inv (w_mem w) sp st live freel ->
  exists w' r, @vm_alloc_task_self M E n w = (w', Ok r) /\ w_sp w' = sp /\
    heap_inv (w_mem w') sp st live freel /\ keeps live (w_mem w) (w_mem w') /\
    match r with
    | inl base => 0 < base /\ base mod page = 0 /\ base + round_page page n <= 2 ^ 62 /\
        mapped (w_mem w') base (round_page page n) /\
        forall x, base <= x < base + round_page page n -> w_mem w !! x = None
    | inr _ => True
    end.
Proof.
  intros Hsp Hinv. pose proof Hinv as [_ _ _ Hst _].
  destruct (vm_alloc_spec (E := E) page laws n w) as (w' & r & Hr & Hsp' & Hst' & Hsame & Hbase); [by rewrite Hsp|].
  exists w', r. split; [done|]. split; [congruence|]. rewrite Hsp in *.
  assert (forall x, (0 < cover x (owned st live freel))%nat -> w_mem w' !! x = w_mem w !! x) as Hown.
  { intros x Hx. apply Hsame; [by eapply owned_mapped|by eapply owned_not_stack]. }
  split; [by eapply heap_inv_same|]. split; [|done].
  intros r' x Hr' Hx. apply Hown. unfold owned. rewrite cover_app. pose proof (cover_in x r' live Hr' Hx). lia.
Qed.

(** *** The two entry points *)

(** The contract of [GlobalAlloc] on layouts *)
Definition layout_ok (l : Layout) : Prop :=
  0 <= l_size l /\ exists k, 0 <= k <= 62 /\ l_align l = 2 ^ k /\ l_size l <= 2 ^ 63 - 2 ^ k.

(** The bytes [normalize] asks for *)
Definition norm_size (l : Layout) : Z := round_page 8 (Z.max (l_size l) 16).

Lemma norm_size_bounds l :
  layout_ok l -> norm_size l mod 8 = 0 /\ Z.max (l_size l) 16 <= norm_size l < Z.max (l_size l) 16 + 8.
Proof.
  intros _. unfold norm_size, round_page. split; [by apply Z.mod_mul|]. Z.div_mod_to_equations; lia.
Qed.

Lemma normalize_spec l :
  layout_ok l ->
  exists k, normalize l = @Ok E _ (norm_size l, 2 ^ k) /\ 3 <= k <= 62 /\ (l_align l | 2 ^ k).
Proof.
  intros Hl. pose proof (norm_size_bounds l Hl) as [H8 Hn]. destruct Hl as (H0 & k & Hk & Hal & Hsz).
  assert (0 < 2 ^ k) by (apply Z.pow_pos_nonneg; lia).
  unfold normalize. change MIN_REUSE with 16. change MIN_ALIGN with (2 ^ 3).
  destruct (@align_up_spec E bp (Z.max (l_size l) 16) 3) as (r & -> & Hr & Hb); [lia|lia|]. cbn [bind].
  assert (r = norm_size l) as ->.
  { change (2 ^ 3) with 8 in *. clear -Hr Hb H8 Hn. Z.div_mod_to_equations; lia. }
  exists (Z.max k 3). split; [|split; [lia|]].
  - do 2 f_equal. rewrite Hal. destruct (Z.le_gt_cases k 3) as [Hle|Hgt].
    + rewrite !Z.max_r by (try lia; apply Z.pow_le_mono_r; lia). done.
    + rewrite !Z.max_l by (try lia; apply Z.pow_le_mono_r; lia). done.
  - rewrite Hal. exists (2 ^ (Z.max k 3 - k)). rewrite <- Z.pow_add_r by lia. f_equal. lia.
Qed.

(** The result of an allocation: null when the kernel refused [need] bytes, else
    a new live block *)
Definition allocated (w w' : world) (st' : State) (live : list region) (r : region) (need : Z) : Prop :=
  w_sp w' = sp /\ keeps live (w_mem w) (w_mem w') /\
  exists freel', heap_inv (w_mem w') sp st' (if fst r =? 0 then live else r :: live) freel' /\
    (fst r = 0 -> exists n e, need <= n /\ @vm_alloc_task_self M E n w = (w', Ok (inr e))).

Lemma alloc_small_spec size k st w live freel :
  w_sp w = sp -> heap_inv (w_mem w) sp st live freel -> 16 <= size < LARGE_THRESHOLD -> size mod 8 = 0 ->
  3 <= k <= 62 ->
  exists w' st' p, @alloc_small M bp E size (2 ^ k) st w = (w', Ok (st', p)) /\
    allocated w w' st' live (p, size) size /\ p mod 2 ^ k = 0.
Proof.
  intros Hsp Hinv Hs H8 Hk. change LARGE_THRESHOLD with 131072 in Hs.
  unfold alloc_small, vm_backend_alloc, allocated, io_bind, updating, ret, lift.
  destruct (@take_spec E bp sp (w_mem w) st live freel size (2 ^ k) Hinv ltac:(lia) H8)
    as (m1 & st1 & [a|] & -> & Hd & Hkeep & Ha); cbn [bind fst snd].
  { destruct Ha as (Ha0 & Hal & freel' & Hinv'). exists (set_mem w m1), st1, a. split; [done|].
    rewrite (proj2 (Z.eqb_neq a 0)) by done. split; [|done]. split; [done|]. split; [done|].
    exists freel'. split; [done|]. intros ?. done. }
  destruct Ha as [-> ->].
  rewrite set_mem_same.
  destruct (@bump_spec E bp sp (w_mem w) st live freel size k Hinv ltac:(lia) H8 Hk) as (st1 & [a|] & -> & Ha);
    cbn [bind fst snd].
  { destruct Ha as (Ha0 & Hal & Hinv'). exists w, st1, a. split; [done|].
    rewrite (proj2 (Z.eqb_neq a 0)) by done. split; [|done]. split; [done|]. split; [done|].
    exists freel. split; [done|]. intros ?. done. }
  destruct Ha as [-> _]. pose proof (Z.pow_le_mono_r 2 k 62 ltac:(lia) ltac:(lia)).
  pose proof (Z.pow_pos_nonneg 2 k ltac:(lia) ltac:(lia)).
  unfold add_w. rewrite in_range_fits by (unfold fits; lia).
  set (n := Z.max CHUNK_SIZE (size + 2 ^ k)).
  destruct (vm_alloc_heap n w st live freel Hsp Hinv) as (w2 & [base|e] & Hr & Hsp2 & Hinv2 & Hk2 & Hbase);
    rewrite Hr; cbn [bind].
  2: { exists w2, st, 0. split; [done|]. split; [|by apply Z.mod_0_l; lia]. split; [done|]. split; [done|].
       exists freel. split; [done|]. intros _. exists n, e. split; [lia|done]. }
  destruct Hbase as (Hb0 & _ & Htop & Hm & Hfresh).
  pose proof (new_chunk_inv _ _ _ _ _ base n Hinv Hinv2 Hb0 ltac:(lia) Htop Hm Hfresh) as Hinv3.
  cbn [free].
  destruct (@bump_spec E bp sp (w_mem w2) _ live freel size k Hinv3 ltac:(lia) H8 Hk) as (st3 & [a|] & -> & Ha);
    cbn [bind fst snd ret].
  - destruct Ha as (Ha0 & Hal & Hinv'). exists w2, st3, a. split; [done|].
    rewrite (proj2 (Z.eqb_neq a 0)) by done. split; [|done]. split; [done|]. split; [done|].
    exists freel. split; [done|]. intros ?. done.
  - destruct Ha as [_ Hfull]. specialize (Hfull _ eq_refl). cbn in Hfull. lia.
Qed.

(** The memory an allocation owns *)
Definition is_large (l : Layout) : bool := LARGE_THRESHOLD <=? norm_size l.
Definition region_of (x : Z * Layout) : region :=
  (fst x, if is_large (snd x) then round_page page (norm_size (snd x)) else norm_size (snd x)).
Definition regions (L : list (Z * Layout)) : list region := region_of <$> L.

(** What the code keeps of every live block: a small one has the alignment of
    its layout, a large one that of a page. *)
Definition allocation_ok (x : Z * Layout) : Prop :=
  layout_ok (snd x) /\ fst x <> 0 /\ l_size (snd x) <= snd (region_of x) /\
  if is_large (snd x) then fst x mod page = 0 else fst x mod l_align (snd x) = 0.

(** What [GlobalAlloc] asks of a live block: as large as its layout says and
    aligned as it says. *)
Definition block_fits_layout (x : Z * Layout) : Prop :=
  fst x <> 0 /\ l_size (snd x) <= snd (region_of x) /\ fst x mod l_align (snd x) = 0.

(** A large layout asks for a page's alignment at most: pages are all the
    kernel aligns memory to. *)
Definition pages_suffice (l : Layout) : Prop := is_large l = true -> (l_align l | page).

Lemma small_pages_suffice l : is_large l = false -> pages_suffice l.
Proof. unfold pages_suffice. by intros ->. Qed.

Lemma allocation_fits x : allocation_ok x -> pages_suffice (snd x) -> block_fits_layout x.
Proof.
  intros (Hl & H0 & Hs & Hal) Hp. split_and!; [done..|]. unfold pages_suffice in Hp.
  destruct (is_large (snd x)); [|done]. specialize (Hp eq_refl). destruct Hl as (_ & j & ? & Ha & _).
  rewrite Ha in *. pose proof (page_le page laws). apply Z.mod_divide; [apply Z.pow_nonzero; lia|].
  etransitivity; [exact Hp|]. apply Z.mod_divide; [lia|done].
Qed.

(** The allocator does not look at the alignment of a large layout: without
    [pages_suffice], the blocks need not fit. *)
Lemma alloc_impl_large_alignment a n al al' w :
  layout_ok (Mk_Layout n al) -> is_large (Mk_Layout n al) = true ->
  @alloc_impl M bp E a (Mk_Layout n al) w = @alloc_impl M bp E a (Mk_Layout n al') w.
Proof.
  intros Hl Hlg. destruct (normalize_spec _ Hl) as (k & Hn & _). unfold is_large in Hlg.
  pose proof Hn as Hn'. unfold normalize in Hn'. apply bind_Ok in Hn' as (r & Hr & [= -> _]).
  unfold alloc_impl. rewrite Hn. unfold normalize. cbn [l_size] in *. rewrite Hr. unfold io_bind, lift.
  cbn [bind]. unfold norm_size in *. cbn [l_size] in *. by rewrite Hlg.
Qed.

Lemma region_ge x : layout_ok (snd x) -> l_size (snd x) <= snd (region_of x).
Proof.
  intros Hl. pose proof (norm_size_bounds _ Hl) as [_ Hn]. unfold region_of. cbn [snd].
  destruct (is_large (snd x)); [|lia]. pose proof (round_page_ge page laws (norm_size (snd x)) ltac:(lia)). lia.
Qed.

Lemma alloc_impl_ok a l w L freel :
  locked a = false -> layout_ok l -> w_sp w = sp -> heap_inv (w_mem w) sp (state a) (regions L) freel ->
  exists w' a' p, @alloc_impl M bp E a l w = (w', Ok (a', p)) /\ locked a' = false /\
    allocated w w' (state a') (regions L) (region_of (p, l)) (l_size l) /\ (p <> 0 -> allocation_ok (p, l)).
Proof.
  intros Hlk Hl Hsp Hinv. unfold alloc_impl, vm_backend_alloc, io_bind, ret, lift.
  destruct (normalize_spec l Hl) as (k & -> & Hk & Hdiv). cbn [bind].
  pose proof (norm_size_bounds l Hl) as [H8 Hn].
  assert (forall p, l_size l <= snd (region_of (p, l))) as Hge by (intros; by apply (region_ge (_, l))).
  unfold allocation_ok, allocated, region_of in *. cbn [fst snd] in *. specialize (Hge 0).
  change (LARGE_THRESHOLD <=? norm_size l) with (is_large l). destruct (is_large l) eqn:Elg.
  - destruct (vm_alloc_heap (norm_size l) w _ _ _ Hsp Hinv) as (w2 & [base|e] & Hr & Hsp2 & Hinv2 & Hk2 & Hbase);
      rewrite Hr; cbn [bind].
    + destruct Hbase as (Hb0 & Hbp & Htop & Hm & Hfresh). exists w2, a, base. split; [done|]. split; [done|].
      rewrite (proj2 (Z.eqb_neq base 0)) by lia. split; [|intros _; split_and!; try done; lia].
      split; [done|]. split; [done|]. exists freel. split; [|lia].
      exact (new_region_inv _ _ _ _ _ base (norm_size l) Hinv Hinv2 Hb0 Hbp ltac:(lia) Htop Hm Hfresh).
    + exists w2, a, 0. split; [done|]. split; [done|]. split; [|done]. split; [done|]. split; [done|].
      exists freel. split; [done|]. intros _. exists (norm_size l), e. split; [lia|done].
  - apply Z.leb_gt in Elg. unfold with_state. rewrite Hlk. unfold io_bind.
    destruct (alloc_small_spec (norm_size l) k (state a) w _ _ Hsp Hinv) as (w' & st' & p & -> & Hall & Hal);
      [lia|done|done|]. cbn [bind]. exists w', (Mk_Allocator false st'), p. split; [done|]. split; [done|].
    destruct Hall as (Hsp' & Hkeep & freel' & Hinv' & Hnull). split.
    + split; [done|]. split; [done|]. exists freel'. split; [done|].
      intros Hp. destruct (Hnull Hp) as (n & e & ? & ?). exists n, e. split; [cbn in *; lia|done].
    + intros Hp. split_and!; try done. apply Z.mod_divide; [destruct Hl as (_ & j & ? & -> & _); apply Z.pow_nonzero; lia|].
      etransitivity; [exact Hdiv|]. apply Z.mod_divide; [apply Z.pow_nonzero; lia|done].
Qed.

Lemma dealloc_impl_ok a p l w L freel :
  locked a = false -> allocation_ok (p, l) -> w_sp w = sp ->
  heap_inv (w_mem w) sp (state a) (regions ((p, l) :: L)) freel ->
  exists w' a' freel', @dealloc_impl M bp E a p l w = (w', Ok a') /\ locked a' = false /\ w_sp w' = sp /\
    keeps (regions L) (w_mem w) (w_mem w') /\ heap_inv (w_mem w') sp (state a') (regions L) freel'.
Proof.
  intros Hlk (Hl & Hp & _ & Hal) Hsp Hinv. cbn [fst snd] in *. unfold dealloc_impl, vm_backend_dealloc.
  rewrite (proj2 (Z.eqb_neq p 0)) by done. unfold io_bind, ret, lift.
  destruct (normalize_spec l Hl) as (k & -> & _ & _). cbn [bind]. unfold regions in Hinv. cbn [fmap list_fmap] in Hinv.
  change (region_of <$> L) with (regions L) in Hinv. pose proof Hinv as Hinv0. unfold region_of in Hinv. cbn [fst snd] in Hinv.
  change (LARGE_THRESHOLD <=? norm_size l) with (is_large l). destruct (is_large l) eqn:Elg.
  - destruct (vm_dealloc_spec (E := E) page laws p (norm_size l) w Hal) as (w' & r & -> & Hsp' & Hout). cbn [bind].
    assert (forall x, cover x ((sp, 8) :: owned (state a) (regions L) freel) <> O -> w_mem w' !! x = w_mem w !! x) as Hsame.
    { intros x Hx. apply Hout. intros Hpx. destruct Hinv as [_ _ _ _ Hno]. specialize (Hno x).
      unfold owned in Hx. cbn in Hx, Hno. rewrite (proj2 (contains_spec x (p, _))) in Hno by (cbn; lia). lia. }
    exists w', a, freel. split; [done|]. split; [done|]. split; [congruence|]. split.
    + intros r' x Hr' Hx. apply Hsame. unfold owned. cbn. rewrite cover_app. pose proof (cover_in x r' _ Hr' Hx). lia.
    + apply heap_inv_drop in Hinv. eapply heap_inv_same; [exact Hinv| |].
      * destruct Hinv as [_ _ _ Hst _]. eapply mapped_same; [exact Hst|]. intros x Hx. apply Hsame. cbn.
        rewrite (proj2 (contains_spec x (sp, 8))) by (cbn; lia). lia.
      * intros x Hx. apply Hsame. cbn. lia.
  - unfold with_state. rewrite Hlk. unfold io_bind, updating.
    destruct (@free_spec E sp (w_mem w) (state a) (regions L) freel _ Hinv) as (m' & Hw & Hd & Hkeep & Hinv').
    cbn [fst snd] in *. rewrite Hw. cbn [bind]. eexists _, _, _. split; [reflexivity|]. by split_and!.
Qed.
End Heap.

(** ** The allocator in a program *)

Section Program.
Context {M : Machine} {bp : BuildProfile} {E : Type} (page : Z).

(** The world, the allocator and the live allocations *)
Record heap_state := Mk_heap { hs_world : world; hs_alloc : Allocator; hs_live : list (Z * Layout) }.

Definition payloads (L : list (Z * Layout)) : list region := (fun x => (fst x, l_size (snd x))) <$> L.

(** A program allocates, frees what it has, and writes to what it has; the
    layouts it asks for are those [request] allows. *)
Inductive heap_step (request : Layout -> Prop) : heap_state -> heap_state -> Prop :=
| step_alloc w a L l w' a' p :
    layout_ok l -> request l -> @alloc_impl M bp E a l w = (w', Ok (a', p)) ->
    heap_step request (Mk_heap w a L) (Mk_heap w' a' (if p =? 0 then L else (p, l) :: L))
| step_dealloc w a L p l L' w' a' :
    L ≡ₚ (p, l) :: L' -> @dealloc_impl M bp E a p l w = (w', Ok a') ->
    heap_step request (Mk_heap w a L) (Mk_heap w' a' L')
| step_write w a L k m :
    dom m = dom (w_mem w) -> (forall x, m !! x <> w_mem w !! x -> (0 < cover x (payloads L))%nat) ->
    heap_step request (Mk_heap w a L) (Mk_heap (set_kernel w k m) a L).

Context (laws : vm_laws page) (sp : Z).

Definition state_inv (s : heap_state) : Prop :=
  locked (hs_alloc s) = false /\ w_sp (hs_world s) = sp /\ Forall (allocation_ok page) (hs_live s) /\
  exists freel, heap_inv (w_mem (hs_world s)) sp (state (hs_alloc s)) (regions page (hs_live s)) freel.

Lemma cover_payload x L : Forall (allocation_ok page) L -> (cover x (payloads L) <= cover x (regions page L))%nat.
Proof.
  induction 1 as [|[p l] L (_ & _ & Hle & _) _ IH]; [done|].
  unfold payloads, regions in *. cbn [fmap list_fmap cover fst snd] in *.
  assert ((if contains x (p, l_size l) then 1 else 0) <= if contains x (region_of page (p, l)) then 1 else 0)%nat; [|lia].
  destruct (contains x (p, l_size l)) eqn:Ec; [|lia]. apply contains_spec in Ec.
  rewrite (proj2 (contains_spec x (region_of page (p, l)))); [lia|]. cbn in *. lia.
Qed.

(** Live blocks are the program's: what it writes there is no concern of the
    allocator. *)
Lemma heap_inv_write m m' st live freel :
  heap_inv m sp st live freel -> dom m' = dom m ->
  (forall x, m' !! x <> m !! x -> (0 < cover x live)%nat) -> heap_inv m' sp st live freel.
Proof.
  intros [Hc Hb Hck Hst Hno] Hd Hw. split.
  - apply Forall_app in Hb as [_ Hbf]. eapply chain_ext; [exact Hc|exact Hbf|]. intros r x Hr Hx.
    destruct (decide (m' !! x = m !! x)) as [Heq|Hne]; [done|]. apply Hw in Hne. specialize (Hno x).
    cbn in Hno. rewrite !cover_app in Hno. rewrite Forall_forall in Hbf. destruct (Hbf r Hr) as (_ & _ & _ & ? & _).
    assert (contains x r = true) as Hxr by (apply contains_spec; lia).
    pose proof (cover_in x r freel Hr Hxr). lia.
  - by eapply blocks_ok_dom.
  - unfold chunk_ok in *. destruct (chunk st); [|done].
    destruct Hck as (? & ? & ? & ?). split_and!; try lia. by eapply mapped_dom.
  - by eapply mapped_dom.
  - done.
Qed.

Lemma regions_perm L L' : L ≡ₚ L' -> regions page L ≡ₚ regions page L'.
Proof. apply fmap_Permutation. Qed.

Lemma state_inv_step request s s' : heap_step request s s' -> state_inv s -> state_inv s'.
Proof.
  intros Hs (Hlk & Hsp & Hok & freel & Hinv). destruct Hs as [w a L l w' a' p Hl _ Ha|w a L p l L' w' a' HL Ha|w a L k m Hd Hw];
    unfold state_inv in *; cbn [hs_world hs_alloc hs_live] in *.
  - destruct (alloc_impl_ok (E := E) page laws sp a l w L freel Hlk Hl Hsp Hinv)
      as (w2 & a2 & p2 & Ha2 & Hlk2 & (Hsp2 & _ & freel' & Hinv' & _) & Hp).
    rewrite Ha in Ha2. injection Ha2 as <- <- <-. cbn [fst region_of] in Hinv'.
    split; [done|]. split; [done|]. destruct (Z.eqb_spec p 0) as [->|Hp0]; [eauto|].
    split; [by constructor; [apply Hp|]|]. by exists freel'.
  - assert (Forall (allocation_ok page) ((p, l) :: L')) as [Hpl Hok']%Forall_cons by (by rewrite <- HL).
    destruct (dealloc_impl_ok (E := E) page laws sp a p l w L' freel Hlk Hpl Hsp) as (w2 & a2 & freel' & Ha2 & ? & ? & _ & ?).
    { eapply heap_inv_perm; [|exact Hinv]. by apply regions_perm. }
    rewrite Ha in Ha2. injection Ha2 as <- <-. eauto.
  - split; [done|]. split; [done|]. split; [done|]. exists freel. eapply heap_inv_write; [exact Hinv|done|].
    intros x Hx. apply Hw in Hx. pose proof (cover_payload x L Hok). lia.
Qed.

Lemma state_inv_start w : w_sp w = sp -> mapped (w_mem w) sp 8 -> state_inv (Mk_heap w allocator_new []).
Proof.
  intros Hsp Hm. split; [done|]. split; [done|]. split; [constructor|]. exists []. split; cbn; try done; [constructor|].
  intros x. cbn. destruct (contains x (sp, 8)); lia.
Qed.

Lemma state_inv_reachable request w s :
  w_sp w = sp -> mapped (w_mem w) sp 8 -> rtc (heap_step request) (Mk_heap w allocator_new []) s -> state_inv s.
Proof.
  intros Hsp Hm Hr. pose proof (state_inv_start w Hsp Hm) as H0. revert H0.
  induction Hr as [|s1 s2 s3 Hs _ IH]; [done|]. intros H1. apply IH. by eapply state_inv_step.
Qed.
(** Whatever is live was asked for. *)
Lemma live_requests request w s :
  rtc (heap_step request) (Mk_heap w allocator_new []) s -> Forall (fun x => request (snd x)) (hs_live s).
Proof.
  assert (forall s1 s2, rtc (heap_step request) s1 s2 -> Forall (fun x => request (snd x)) (hs_live s1) ->
    Forall (fun x => request (snd x)) (hs_live s2)) as Hall; [|intros Hr; by apply (Hall _ _ Hr), Forall_nil].
  induction 1 as [|s1 s2 s3 Hs _ IH]; [done|]. intros H1. apply IH. clear IH.
  destruct Hs as [w1 a L l w' a' p _ Hl _|w1 a L p l L' w' a' HL _|]; cbn [hs_live] in *; [|rewrite HL in H1|done].
  - destruct (p =? 0); [done|]. by constructor.
  - by apply Forall_inv_tail in H1.
Qed.
End Program.

(** What a heap promises in a state: the live blocks do not overlap, are mapped,
    large enough and aligned; both entry points return, leave the contents of
    the other live blocks alone, and allocation yields null only when the
    kernel refused. *)
Definition heap_safe `{Machine} `{BuildProfile} (E : Type) (page : Z) (s : heap_state) : Prop :=
  let '(Mk_heap w a L) := s in
  no_overlap (regions page L) /\ Forall (block_fits_layout page) L /\
  Forall (fun r => mapped (w_mem w) (fst r) (snd r)) (regions page L) /\
  (forall l, layout_ok l -> exists w' a' p, @alloc_impl _ _ E a l w = (w', Ok (a', p)) /\
    keeps (regions page L) (w_mem w) (w_mem w') /\
    (p = 0 -> exists n e, l_size l <= n /\ @vm_alloc_task_self _ E n w = (w', Ok (inr e)))) /\
  (forall p l L', L ≡ₚ (p, l) :: L' -> exists w' a', @dealloc_impl _ _ E a p l w = (w', Ok a') /\
    keeps (regions page L') (w_mem w) (w_mem w')).

(** C8 The allocator is safe in every program that uses it as [GlobalAlloc]
    asks: whatever sequence of allocations, deallocations of live blocks and
    writes to live blocks led to a state, the live blocks are disjoint, mapped,
    at least as large as asked and aligned as their layouts ask, the next
    [alloc] or [dealloc] returns without a fault, a panic or an endless walk of
    the free list, changes no byte of another live block, and yields null only
    if the kernel refused memory. The program's requests are those
    [pages_suffice] admits: none of [LARGE_THRESHOLD] bytes or more asks for
    more than a page's alignment. *)
Theorem allocator_safe `{Machine} `{BuildProfile} (E : Type) page w s :
  vm_laws page -> mapped (w_mem w) (w_sp w) 8 ->
  rtc (@heap_step _ _ E (pages_suffice page)) (Mk_heap w allocator_new []) s -> heap_safe E page s.
Proof.
  intros laws Hm Hr. pose proof (live_requests _ _ _ Hr) as Hreq.
  apply (state_inv_reachable page laws (w_sp w) _ w s eq_refl Hm) in Hr.
  destruct s as [w' a L], Hr as (Hlk & Hsp & Hok & freel & Hinv). cbn [hs_world hs_alloc hs_live] in *.
  pose proof Hinv as [_ Hb _ _ Hno]. apply Forall_app in Hb as [Hb _]. split_and!.
  - eapply no_overlap_sub; [|exact Hno]. intros x. cbn. rewrite cover_app. lia.
  - pose proof (proj2 (Forall_and _ _) (conj Hok Hreq)) as Hall. eapply Forall_impl; [exact Hall|]. intros x [? ?].
    by apply (allocation_fits page laws).
  - eapply Forall_impl; [exact Hb|]. by intros r (_ & _ & _ & _ & _ & ?).
  - intros l Hl. destruct (alloc_impl_ok (E := E) page laws _ a l w' L freel Hlk Hl Hsp Hinv)
      as (w2 & a2 & p & Ha & _ & (_ & Hk & freel' & _ & Hnull) & _). eauto 8.
  - intros p l L' HL. assert (Forall (allocation_ok page) ((p, l) :: L')) as [Hpl _]%Forall_cons by (by rewrite <- HL).
    destruct (dealloc_impl_ok (E := E) page laws _ a p l w' L' freel Hlk Hpl Hsp) as (w2 & a2 & freel' & Ha & _ & _ & Hk & _).
    { eapply heap_inv_perm; [|exact Hinv]. by apply regions_perm. }
    eauto.
Qed.

Definition vm_world : @world machine_vm := @Mk_world machine_vm tt (mem_of 0x1000 (zeros 8)) 0x1000 true.

Lemma vm_world_stack : mapped (w_mem vm_world) (w_sp vm_world) 8.
Proof. apply (mem_of_mapped 0x1000 (zeros 8)); [done|]. vm_compute. discriminate. Qed.

Lemma layout_24_ok : layout_ok (Mk_Layout 24 8).
Proof. split; [done|]. exists 3. split; [done|]. split; [done|]. vm_compute. discriminate. Qed.

(** A program that has allocated twenty-four bytes *)
Lemma vm_world_allocates :
  exists w a p, @alloc_impl machine_vm dev_profile string allocator_new (Mk_Layout 24 8) vm_world = (w, Ok (a, p)).
Proof.
  destruct (state_inv_start (M := machine_vm) 4096 _ vm_world eq_refl vm_world_stack) as (Hlk & Hsp & _ & freel & Hinv).
  destruct (@alloc_impl_ok machine_vm dev_profile string 4096 machine_vm_laws _ _ _ _ _ _ Hlk layout_24_ok Hsp Hinv)
    as (w & a & p & Ha & _). eauto.
Qed.

Lemma allocator_safe_witness :
  vm_laws (M := machine_vm) 4096 /\ mapped (w_mem vm_world) (w_sp vm_world) 8 /\
  exists w a p, heap_safe (H := machine_vm) (H0 := dev_profile) string 4096
    (Mk_heap w a (if p =? 0 then [] else [(p, Mk_Layout 24 8)])).
Proof.
  split; [exact machine_vm_laws|]. split; [exact vm_world_stack|].
  destruct vm_world_allocates as (w & a & p & Ha). exists w, a, p.
  refine (@allocator_safe machine_vm dev_profile string 4096 vm_world _ machine_vm_laws vm_world_stack _).
  apply rtc_once. exact (step_alloc _ _ _ [] _ _ _ _ layout_24_ok (small_pages_suffice 4096 (Mk_Layout 24 8) eq_refl) Ha).
Defined.

(** ** First fit *)

(** C34 [take_from_free_list] on a well-formed list is a first-fit search with
    splitting: it always ends; it hands out the first block in list order that
    is large and aligned enough and gives up, changing nothing, only when there
    is none; the list afterwards is the old one without that block, with what
    is left of it, if sixteen bytes or more, at the head; no byte outside the
    listed blocks changes. *)
Theorem take_from_free_list_first_fit {E} `{BuildProfile} m st freel size align :
  chain m (free st) freel -> Forall (block_ok m) freel -> no_overlap freel ->
  (length freel <= base.size m)%nat -> 16 <= size -> size mod 8 = 0 ->
  exists m' st' p, take_from_free_list m st size align = @Ok E _ (m', st', p) /\
    chunk st' = chunk st /\ (forall x, cover x freel = O -> m' !! x = m !! x) /\
    match p with
    | None => m' = m /\ st' = st /\ Forall (fun r => fits_request size align r = false) freel
    | Some a => exists l1 s l2, freel = l1 ++ (a, s) :: l2 /\
        fits_request size align (a, s) = true /\ Forall (fun r => fits_request size align r = false) l1 /\
        chain m' (free st') (remainder a s size ++ l1 ++ l2)
    end.
Proof.
  intros Hc Hb Hno Hlen Hs H8.
  destruct (@take_loop_spec E _ (S (base.size m)) m st [] freel size align Hc Hb Hno Hs H8)
    as (m' & st' & p & Ht & Hchk & _ & Hp); [lia|constructor|].
  exists m', st', p. split; [exact Ht|]. split; [exact Hchk|]. cbn [app] in Hp. destruct p as [a|].
  - destruct Hp as (l1 & s & l2 & Hl & Hfit & Hl1 & Hc' & Hout). split; [done|]. by exists l1, s, l2.
  - destruct Hp as (-> & -> & Hall). done.
Qed.

(** Two free blocks, of 16 and of 64 bytes *)
Definition two_blocks : memory :=
  mem_of 0x1000 (le_bytes 8 0x2000 ++ le_bytes 8 16) ∪
  mem_of 0x2000 (le_bytes 8 0 ++ le_bytes 8 64 ++ zeros 48).

Lemma two_blocks_chain : chain two_blocks 0x1000 [(0x1000, 16); (0x2000, 64)].
Proof.
  econstructor; [done|vm_compute; reflexivity|vm_compute; reflexivity|].
  econstructor; [done|vm_compute; reflexivity|vm_compute; reflexivity|]. constructor.
Qed.

Lemma two_blocks_ok : Forall (block_ok two_blocks) [(0x1000, 16); (0x2000, 64)].
Proof.
  assert (forall m m' : memory, forall p n, mapped m p n \/ mapped m' p n -> mapped (m ∪ m') p n) as Hu.
  { intros m m' p n [(? & ? & Hm)|(? & ? & Hm)]; (split; [done|split; [done|]]); intros x Hx;
      apply lookup_union_is_Some; eauto. }
  repeat constructor; try done; cbn [fst snd].
  - apply Hu. left. by apply (mem_of_mapped 0x1000 (le_bytes 8 0x2000 ++ le_bytes 8 16)).
  - apply Hu. right. by apply (mem_of_mapped 0x2000 (le_bytes 8 0 ++ le_bytes 8 64 ++ zeros 48)).
Qed.

Lemma two_blocks_apart : no_overlap [(0x1000, 16); (0x2000, 64)].
Proof.
  intros x. cbn [cover].
  destruct (contains x (0x1000, 16)) eqn:E1, (contains x (0x2000, 64)) eqn:E2; try (apply Nat.leb_le; reflexivity).
  apply contains_spec in E1, E2. cbn [fst snd] in *. lia.
Qed.

Lemma take_from_free_list_first_fit_witness :
  exists m' st' p,
    @take_from_free_list dev_profile string two_blocks (Mk_State None 0x1000) 24 8 = Ok (m', st', p) /\
    p = Some 0x2000 /\ chain m' (free st') [(0x2018, 40); (0x1000, 16)].
Proof.
  destruct (@take_from_free_list_first_fit string dev_profile two_blocks (Mk_State None 0x1000)
    [(0x1000, 16); (0x2000, 64)] 24 8 two_blocks_chain two_blocks_ok two_blocks_apart ltac:(apply Nat.leb_le; vm_compute; reflexivity)
    ltac:(done) ltac:(done)) as (m' & st' & [a|] & Ht & _ & _ & Hp).
  - exists m', st', (Some a). split; [exact Ht|]. destruct Hp as (l1 & s & l2 & Hl & Hf & Hl1 & Hc).
    destruct l1 as [|r1 [|r2 l1]]; cbn [app] in Hl.
    + injection Hl as <- <- _. discriminate Hf.
    + injection Hl as <- <- <- <-. split; [done|exact Hc].
    + injection Hl as _ _ Hl. destruct l1; discriminate Hl.
  - destruct Hp as (_ & _ & Hall). apply Forall_inv_tail, Forall_inv in Hall. discriminate Hall.
Defined.
