(* ===== verification/Reuse.v ===== *)
(** Reuse of freed memory: the allocator makes progress without the kernel.

    Freeing a small block and asking for its layout again gives the same block,
    leaves the allocator and the kernel as they were, and so can be repeated for
    ever: a program that frees what it allocates needs no more memory. *)
From S2P Require Import Prelude Memory Kernel VM Allocator.

Section Reuse.
Context {M : Machine} {bp : BuildProfile} {E : Type} (page : Z).

(** A block freed and allocated again, [n] times *)
Fixpoint rounds (n : nat) (a : Allocator) (p : Z) (l : Layout) : io E (Allocator * Z) :=
  match n with
  | O => ret (a, p)
  | S k =>
      let! a := dealloc_impl a p l in
      let! (a, p) := alloc_impl a l in
      rounds k a p l
  end.

Lemma normalize_align l s al : normalize l = @Ok E _ (s, al) -> al = Z.max (l_align l) 8.
Proof. unfold normalize. by intros (r & _ & [= _ <-])%bind_Ok. Qed.

(** A live block is aligned as its layout asks for, and as a node is. *)
Lemma block_aligned p l :
  layout_ok l -> p mod l_align l = 0 -> p mod 8 = 0 -> p mod Z.max (l_align l) 8 = 0.
Proof. intros _ Hl H8. by destruct (Z.max_spec (l_align l) 8) as [[_ ->]|[_ ->]]. Qed.

(** A node at the head of the list that fits exactly *)
Lemma take_head m st p size align next :
  0 < p /\ p + 8 < 2 ^ 64 -> fits 64 size -> load_u64 m p = Some next -> load_u64 m (p + 8) = Some size -> p mod align = 0 ->
  take_from_free_list m (Mk_State (chunk st) p) size align = @Ok E _ (m, Mk_State (chunk st) next, Some p).
Proof.
  intros Hp Hs Hn Hsz Hal. unfold take_from_free_list. cbn [take_loop link_read free bind].
  rewrite (proj2 (Z.eqb_neq p 0)) by lia. unfold node_read. rewrite Hn, ptr_add_small, Hsz by lia.
  cbn [bind fn_size fn_next]. rewrite Z.leb_refl, Hal. cbn [andb Z.eqb link_write chunk bind].
  unfold sub_w. rewrite Z.sub_diag, in_range_fits by done. done.
Qed.

Lemma one_round a p l w :
  locked a = false -> allocation_ok page (p, l) -> is_large l = false ->
  block_ok (w_mem w) (p, norm_size l) -> fits 64 (free (state a)) ->
  exists m', dom m' = dom (w_mem w) /\ (forall x, ~ p <= x < p + 16 -> m' !! x = w_mem w !! x) /\
    forall (k : Allocator * Z -> io E (Allocator * Z)),
      io_bind (dealloc_impl a p l) (fun a => io_bind (alloc_impl a l) k) w = k (a, p) (set_mem w m').
Proof.
  intros Hlk (Hl & Hp & _ & Hal) Hsm Hb Hf. cbn [fst snd] in *. rewrite Hsm in Hal.
  pose proof (norm_size_bounds l Hl) as [_ Hn]. unfold is_large in Hsm. pose proof Hsm as Hsm'. apply Z.leb_gt in Hsm'.
  change LARGE_THRESHOLD with 131072 in Hsm'.
  assert (fits 64 (norm_size l)) as Hfits by (unfold fits; lia).
  destruct (normalize_spec (E := E) l Hl) as (k & Hnorm & _). pose proof (normalize_align _ _ _ Hnorm) as Hk.
  rewrite Hk in Hnorm. clear k Hk.
  destruct (@node_write_block E (w_mem w) (p, norm_size l) (Mk_FreeNode (free (state a)) (norm_size l)) Hb Hf Hfits)
    as (m' & Hw & Hd & Hout & Hl1 & Hl2).
  cbn [fst fn_next fn_size] in *. exists m'. split; [done|]. split; [done|]. intros f.
  assert (dealloc_impl a p l w = (set_mem w m', @Ok E _ (Mk_Allocator false (Mk_State (chunk (state a)) p)))) as Hde.
  { unfold dealloc_impl. rewrite (proj2 (Z.eqb_neq p 0)) by done. rewrite (io_bind_lift _ _ _ _ Hnorm). rewrite Hsm.
    unfold with_state. rewrite Hlk. unfold io_bind, updating. rewrite Hw. done. }
  assert (alloc_impl (Mk_Allocator false (Mk_State (chunk (state a)) p)) l (set_mem w m') =
    (set_mem w m', @Ok E _ (a, p))) as Hall.
  { unfold alloc_impl. rewrite (io_bind_lift _ _ _ _ Hnorm), Hsm. unfold with_state. cbn [locked state].
    assert (p mod Z.max (l_align l) 8 = 0) as Hmod by (apply block_aligned; [done|done|apply Hb]).
    pose proof Hb as (Hp0 & _ & _ & Hp16 & Hptop & _). cbn [fst snd] in Hp0, Hp16, Hptop.
    assert (0 < p /\ p + 8 < 2 ^ 64) as Hpos by lia.
    pose proof (take_head m' (state a) p (norm_size l) _ _ Hpos Hfits Hl1 Hl2 Hmod) as Ht.
    unfold alloc_small, io_bind, updating. cbn [set_mem w_mem set_kernel]. rewrite Ht. cbn.
    destruct a as [lk [ck fr]]. cbn in *. by subst lk. }
  rewrite (io_bind_run _ _ _ _ _ Hde), (io_bind_run _ _ _ _ _ Hall). done.
Qed.

Lemma rounds_run n a p l w :
  locked a = false -> allocation_ok page (p, l) -> is_large l = false ->
  block_ok (w_mem w) (p, norm_size l) -> fits 64 (free (state a)) ->
  exists m', rounds n a p l w = (set_mem w m', Ok (a, p)) /\ forall x, ~ p <= x < p + 16 -> m' !! x = w_mem w !! x.
Proof.
  intros Hlk Hpl Hsm Hb Hf. revert w Hb. induction n as [|n IH]; intros w Hb; cbn [rounds].
  { exists (w_mem w). by rewrite set_mem_same. }
  destruct (one_round a p l w Hlk Hpl Hsm Hb Hf) as (m1 & Hd & Hout & Hrun).
  destruct (IH (set_mem w m1)) as (m' & Hr & Hout').
  { by eapply block_ok_dom. }
  exists m'. split; [|intros x Hx; rewrite Hout' by done; by apply Hout].
  etransitivity; [apply (Hrun (fun '(a, p) => rounds n a p l))|exact Hr].
Qed.

(** C14 Freed memory is reused for ever. In whatever state a program has brought the
    allocator to, a small block that is freed and asked for again is handed out
    again, as often as the program repeats this: every round returns the same
    block, the allocator is as before, the kernel is never asked for memory, and
    of all memory only the first sixteen bytes of the block are written. *)
Theorem freed_block_is_reused n w s p l L :
  vm_laws page -> mapped (w_mem w) (w_sp w) 8 -> rtc (@heap_step _ _ E (fun _ => True)) (Mk_heap w allocator_new []) s ->
  hs_live s ≡ₚ (p, l) :: L -> is_large l = false ->
  exists m', rounds n (hs_alloc s) p l (hs_world s) = (set_mem (hs_world s) m', Ok (hs_alloc s, p)) /\
    forall x, ~ p <= x < p + 16 -> m' !! x = w_mem (hs_world s) !! x.
Proof.
  intros laws Hm Hr HL Hsm. apply (state_inv_reachable page laws (w_sp w) _ w s eq_refl Hm) in Hr.
  destruct s as [w0 a L0], Hr as (Hlk & _ & Hok & freel & Hinv). cbn [hs_world hs_alloc hs_live] in *.
  assert (Forall (allocation_ok page) ((p, l) :: L)) as [Hpl _]%Forall_cons by (by rewrite <- HL).
  apply (heap_inv_perm _ _ _ _ _ _ (regions_perm page _ _ HL)) in Hinv. destruct Hinv as [Hc Hb _ _ _].
  unfold regions in Hb. cbn [fmap list_fmap app] in Hb. apply Forall_cons in Hb as [Hb Hfree].
  unfold region_of in Hb. cbn [fst snd] in Hb. rewrite Hsm in Hb.
  apply Forall_app in Hfree as [_ Hfree]. pose proof (chain_head_fits _ _ _ Hc Hfree) as Hf.
  exact (rounds_run n a p l w0 Hlk Hpl Hsm Hb Hf).
Qed.
End Reuse.

(** ** An example: a program that has allocated twenty-four bytes *)
#[local] Existing Instance machine_vm.
#[local] Existing Instance dev_profile.

Lemma freed_block_is_reused_witness :
  is_large (Mk_Layout 24 8) = false /\
  exists w a p m', alloc_impl (E := string) allocator_new (Mk_Layout 24 8) vm_world = (w, Ok (a, p)) /\
    p <> 0 /\ rounds (E := string) 1000 a p (Mk_Layout 24 8) w = (set_mem w m', Ok (a, p)).
Proof.
  split; [vm_compute; reflexivity|]. destruct vm_world_allocates as (w & a & p & Ha).
  assert (match alloc_impl (E := string) allocator_new (Mk_Layout 24 8) vm_world with
          | (_, Ok (_, p)) => negb (p =? 0) | _ => false end = true) as Hp by (vm_compute; reflexivity).
  rewrite Ha in Hp. apply negb_true_iff, Z.eqb_neq in Hp.
  assert (rtc (heap_step (E := string) (fun _ => True)) (Mk_heap vm_world allocator_new [])
    (Mk_heap w a (if p =? 0 then [] else [(p, Mk_Layout 24 8)]))) as Hr
    by (apply rtc_once; exact (step_alloc _ _ _ [] _ _ _ _ layout_24_ok I Ha)).
  rewrite (proj2 (Z.eqb_neq p 0) Hp) in Hr.
  destruct (@freed_block_is_reused machine_vm dev_profile string 4096 1000 vm_world _ p (Mk_Layout 24 8) []
    machine_vm_laws vm_world_stack Hr (Permutation_refl _) ltac:(vm_compute; reflexivity)) as (m' & Hrun & _).
  exists w, a, p, m'. split; [exact Ha|]. split; [exact Hp|exact Hrun].
Defined.
