(* ===== verification/PtrAuth.v ===== *)
(** Pointer authentication: [src/ptrauth.rs], a module the program does not build
    yet.

    Each function is one instruction and a return: its arguments arrive in [x0] and
    [x1] and its result leaves in [x0]. What the instructions compute is the
    processor's (class [Signing]); what is documented of it is that authenticating
    what was signed with the same key and modifier gives the pointer back. *)
From S2P Require Import Prelude.

(** Instruction and data keys A and B *)
Inductive key := IA | IB | DA | DB.
Definition all_keys : list key := [IA; IB; DA; DB].

Class Signing := {
  (** [pac*] and [aut*]: the pointer, the modifier, and the new value *)
  sign : key -> Z -> Z -> Z;
  authenticate : key -> Z -> Z -> Z;
  (** [pacga] *)
  generic_code : Z -> Z -> Z
}.

(** The registers the functions use *)
Inductive reg := X0 | X1.
Definition registers : Type := Z * Z.
Definition get (r : reg) (s : registers) : Z := match r with X0 => fst s | X1 => snd s end.
Definition set (r : reg) (v : Z) (s : registers) : registers :=
  match r with X0 => (v, snd s) | X1 => (fst s, v) end.

(** The instructions of the module: destination first; the [z] forms have zero as
    the modifier. *)
Inductive instruction :=
| Pac (k : key) (rd rn : reg)
| Aut (k : key) (rd rn : reg)
| Pacz (k : key) (rd : reg)
| Autz (k : key) (rd : reg)
| Pacga (rd rn rm : reg)
| Ret.

Section PtrAuth.
Context {S : Signing}.

(** A naked function: its instructions up to [ret] *)
Fixpoint run (code : list instruction) (s : registers) : registers :=
  match code with
  | [] | Ret :: _ => s
  | Pac k rd rn :: r => run r (set rd (sign k (get rd s) (get rn s)) s)
  | Aut k rd rn :: r => run r (set rd (authenticate k (get rd s) (get rn s)) s)
  | Pacz k rd :: r => run r (set rd (sign k (get rd s) 0) s)
  | Autz k rd :: r => run r (set rd (authenticate k (get rd s) 0) s)
  | Pacga rd rn rm :: r => run r (set rd (generic_code (get rn s) (get rm s)) s)
  end.

(** [extern "C"]: arguments in [x0] and [x1], the result in [x0]; a function of one
    argument finds anything in [x1]. *)
Definition naked2 (code : list instruction) (p context : Z) : Z := get X0 (run code (p, context)).
Definition naked1 (code : list instruction) (x1 p : Z) : Z := get X0 (run code (p, x1)).

Definition pacia := naked2 [Pac IA X0 X1; Ret].
Definition autia := naked2 [Aut IA X0 X1; Ret].
Definition pacib := naked2 [Pac IB X0 X1; Ret].
Definition autib := naked2 [Aut IB X0 X1; Ret].
Definition pacda := naked2 [Pac DA X0 X1; Ret].
Definition autda := naked2 [Aut DA X0 X1; Ret].
Definition pacdb := naked2 [Pac DB X0 X1; Ret].
Definition autdb := naked2 [Aut DB X0 X1; Ret].
Definition paciza := naked1 [Pacz IA X0; Ret].
Definition autiza := naked1 [Autz IA X0; Ret].
Definition pacizb := naked1 [Pacz IB X0; Ret].
Definition autizb := naked1 [Autz IB X0; Ret].
Definition pacdza := naked1 [Pacz DA X0; Ret].
Definition autdza := naked1 [Autz DA X0; Ret].
Definition pacdzb := naked1 [Pacz DB X0; Ret].
Definition autdzb := naked1 [Autz DB X0; Ret].
Definition pacga := naked2 [Pacga X0 X0 X1; Ret].

(** The signing and authenticating functions of a key *)
Definition sign_with (k : key) := match k with IA => pacia | IB => pacib | DA => pacda | DB => pacdb end.
Definition authenticate_with (k : key) := match k with IA => autia | IB => autib | DA => autda | DB => autdb end.
Definition sign_zero (k : key) := match k with IA => paciza | IB => pacizb | DA => pacdza | DB => pacdzb end.
Definition authenticate_zero (k : key) := match k with IA => autiza | IB => autizb | DA => autdza | DB => autdzb end.

(** What the processor documents, for pointers without bits above the address *)
Definition signing_law : Prop := forall k p m, 0 <= p < 2 ^ 47 -> authenticate k (sign k p m) m = p.

(** Every pair of functions is one of signing and authenticating with the same
    key, and the [z] forms are those with the context zero, whatever [x1] holds. *)
Theorem sign_authenticate k p context x1 x1' :
  signing_law -> 0 <= p < 2 ^ 47 ->
  authenticate_with k (sign_with k p context) context = p /\
  authenticate_zero k x1' (sign_zero k x1 p) = p /\
  sign_zero k x1 p = sign_with k p 0 /\ authenticate_zero k x1 p = authenticate_with k p 0.
Proof.
  intros Hl Hp. destruct k; (split; [exact (Hl _ p context Hp)|]; split; [exact (Hl _ p 0 Hp)|]; split; reflexivity).
Qed.
End PtrAuth.

(** A processor whose code is the sum of key, pointer and modifier modulo 2^16,
    above the address; a wrong code gives a pointer that is not valid. *)
Definition key_number (k : key) : Z := match k with IA => 1 | IB => 2 | DA => 3 | DB => 4 end.
Definition toy_code (k : key) (p m : Z) : Z := (key_number k + p + m) mod 2 ^ 16 * 2 ^ 48.
#[local] Instance toy_signing : Signing := {|
  sign k p m := p + toy_code k p m;
  authenticate k q m := if q =? q mod 2 ^ 48 + toy_code k (q mod 2 ^ 48) m then q mod 2 ^ 48 else q mod 2 ^ 48 + 2 ^ 62;
  generic_code p m := toy_code IA p m
|}.

Lemma toy_signing_law : signing_law.
Proof.
  intros k p m Hp. unfold authenticate, sign, toy_signing. set (c := toy_code k p m).
  assert ((p + c) mod 2 ^ 48 = p) as ->.
  { unfold c, toy_code. rewrite Z_mod_plus_full. apply Z.mod_small. lia. }
  fold c. by rewrite Z.eqb_refl.
Qed.

Lemma sign_authenticate_witness :
  signing_law /\ pacia 0x4000 7 = 0x4000 + 0x4008 * 2 ^ 48 /\ autia (pacia 0x4000 7) 7 = 0x4000.
Proof.
  split; [exact toy_signing_law|]. split; [reflexivity|].
  exact (proj1 (sign_authenticate IA 0x4000 7 0 0 toy_signing_law ltac:(lia))).
Defined.
